(* ===== verification/_CoqProject ===== *)
-Q . S2P
Prelude.v
Net.v
Stream.v
Text.v
Utf8.v
Sys.v
SysFrame.v
SysIpc.v
TapSetup.v
Protocol.v
Externals.v
Stack.v
StackPoll.v
StackData.v
StackInv.v
StackSafe.v
StackTokens.v
StackRun.v
StackSpec.v
StackStreams.v
Socket.v
SocketSpec.v
Halves.v
Tunnel.v
AsyncIo.v
Device.v
SerdeRef.v
Ipc.v
IpcSpec.v
ProcNet.v
Relay.v
AsyncFd.v
RelaySpec.v
Path.v
TapPath.v
Handshake.v
HandshakeSpec.v
IpText.v
DeviceLog.v
Display.v
Cli.v
CliSpec.v
Connect.v
ConnectSpec.v
Examples.v
ExamplesSpec.v
ProxyMain.v
ProxySpec.v
System.v
SystemSpec.v
SystemLive.v
SystemSettle.v
SystemEnd.v
TunnelSpec.v
ProxyCalls.v
ProxyEnd.v
