(* ===== verification/Prelude.v ===== *)
(** * A verification of tap-tunnel

    tap-tunnel gives a Rust program sockets inside another network namespace.  A proxy
    process ([proxy/src]) joins the namespace and owns a TAP interface there; the library
    ([src]) runs a smoltcp TCP/IP stack in a task of its own and exchanges Ethernet frames
    with the proxy over a Unix stream socket.  This development models the parts that carry
    the program's own logic and proves what makes them correct.

    ** The program and its model

    Library, from the application down to the wire:
    - the API: the methods of [Tunnel] and [TcpListener::accept] ([src/lib.rs],
      [src/socket/mod.rs]) send a command with a oneshot sender and interpret the answer
      ([Tunnel], type [call]); [TunnelInner::close] as the interleaved steps of any number
      of callers ([Tunnel], module [Closing]);
    - the socket types ([src/socket/mod.rs]): reads, writes, polls, close and the split
      halves as operations on the application's channel ends ([Socket], [SocketSpec],
      [Halves]);
    - the stack task ([src/stack/mod.rs]): the locals of [run_stack] are the record [stack];
      each [handle_*] function is a state transformer with all its branches ([Stack]); the
      data loops, [process_pending] and one turn of the loop ([StackPoll]);
    - the device ([src/stack/device.rs]): the queue to and from smoltcp ([Device]) and what
      it logs of the frames ([DeviceLog]);
    - the IPC tasks spawned by [setup_stack_from_fd] ([Ipc]), [send_proxy_command] and the
      methods built on it ([ProxyCalls]), the statistics and their text ([Display]);
    - the protocol ([src/protocol.rs]): messages, framing and subnet arithmetic ([Protocol],
      [Net]) over byte streams that the system cuts as it likes ([Stream], [AsyncIo]);
    - configuration and handshake ([Handshake]; [connect_*_blocking] in [src/lib.rs],
      [perform_handshake] in [proxy/src/main.rs]);
    - connecting: the search for the proxy's binary, spawning it, and [connect_*_blocking]
      with every system call ([Connect]; sockets of [src/ipc.rs] in [SysIpc]).
    Proxy ([proxy/src]):
    - the process: [main], [run], [run_socket_path_mode] and [run_proxy] ([ProxyMain]),
      namespaces and the TAP interface ([TapSetup]), the listening socket ([SysIpc]);
    - [AsyncFdIo], the wrapper of the TAP descriptor ([AsyncFd]);
    - the three relay tasks, command handling, routes, the ARP announcement ([Relay],
      [TapPath]); the parser of [/proc/net/dev] ([ProcNet]);
    - the command line: what [spawn_proxy] passes and [build_tap_config] rebuilds ([Cli]).
    The example programs ([examples]), two clients of the tunnel, are [Examples].
    Both processes together: the device, the IPC tasks, the callers of proxy commands and the
    relay tasks take turns on their shared channels, with octets in flight in both
    directions ([System]).
    The standard library's strings and the text form of IP addresses are modelled in [Text],
    [Utf8] and [IpText].

    ** Correspondence

    Definitions carry the source's names where Rocq allows it.  An unsigned integer is a [Z]
    with its width written out ([wrap], [uadd], [ushl], with the two build profiles where
    they differ); a byte is [Byte.byte]; [io::Result] is [result]; a panic is the value
    [Panic] of [outcome].  A [HashMap] is a [gmap]; the order in which the source iterates
    one is a parameter, over which the theorems quantify.  The stack's channels are shared
    between the task and the application, so they live in a store addressed by identifiers,
    and both sides hold identifiers.  A oneshot sender is a token; the task's uses of tokens
    are the log of its state.  An operation that would wait returns [Pending] (or [Blocked]).
    Code that makes system calls is a program ([prog] of [Sys]): a tree of calls and what
    follows each answer, in which [let? x := p owning l in k] is Rust's [?] where the early
    return drops the descriptors [l].  A program is run against any kernel that keeps the
    laws of [Posix] (which descriptors are open and inherited and the paths they were opened
    by, the children, the namespaces joined and whose they are, the TAP interfaces), and
    reasoned about with weakest preconditions ([wp]) and a frame that says which descriptors it holds ([SysFrame]).

    Code outside the repository is a type class with the documented behaviour as laws, and
    a reference instance shows that the laws can be met: tokio's channels ([Mpsc]), smoltcp
    ([Smoltcp], [Phy]; [Externals]), buffered asynchronous streams ([AsyncIo]), serde_json
    ([Serde]; [SerdeRef]), rtnetlink and the TAP device ([Relay]), tokio's readiness
    ([Reactor]; [AsyncFd]), a connection ([Pipe]; [System]), the kernel ([Posix]; [Sys]), ipnet
    ([TapSetup]), clap ([Cli]) and smoltcp's wire parsers ([Wire]; [DeviceLog]).
    The relay is verified against the class [TapDevice], and [AsyncFd.async_tap] discharges its law.  The witnesses apply the theorems on these
    instances.

    ** Theorems

    - the stack task: it keeps its invariant on every reachable state, and a turn panics exactly
      on the commands the API passes on unchecked (a local address that is not one, a backlog
      beyond what a vector can hold) and returns on all others ([StackInv], [StackSafe],
      [StackRun]); no request is lost or answered twice, and losing
      the proxy answers all that are pending ([StackTokens], [StackRun]); each handler does
      what its request asks, on every branch ([StackSpec]); polling loses nothing on any
      connection and commands do not disturb other connections ([StackStreams]); UDP
      accounting ([StackData]); every API call is answered or pending ([Tunnel]);
    - end to end: octets the application writes or reads are those of the socket, in order,
      in every interleaving ([SocketSpec]); splitting a stream changes nothing ([Halves]);
      frames cross from the device to the TAP interface and back, and a proxy command returns
      to its caller, one turn of each task at a time ([Path], [TapPath]);
    - the whole tunnel: in every interleaving of the tasks of both processes frames keep
      their order and contents, losses are counted where they happen, and every caller of a
      proxy command gets its own answer once ([SystemSpec]); all of it together implements an
      abstract service, two lossy FIFO links and commands carried out atomically between
      call and answer, by a forward simulation ([TunnelSpec]); once nothing new comes in
      every schedule of the tasks ends with all that was on its way delivered ([SystemLive]
      says which turns succeed, [SystemSettle] weighs what is on its way); when the proxy goes
      away in the middle of a run the library's reader handles all that arrived whole and ends
      ([SystemEnd]), and when the library does, the proxy's tasks go on in any interleaving, with
      any outcome of their reads and writes, until the first ends ([ProxyEnd]); the routing
      tables are those of the requests served one after another, and each caller learns what its request did ([ProxyCalls]);
    - the wire: framing round trip and truncation, exact decoding ([Protocol]), the IPC and
      relay tasks on streams of messages ([IpcSpec], [RelaySpec]);
    - start and end: the handshake agrees and yields a valid configuration
      ([HandshakeSpec]); the proxy rebuilds the configuration it was spawned with ([CliSpec]);
      connecting leaks no descriptor and hands the proxy its end and no other, and the binary
      found is the first candidate ([ConnectSpec]); the proxy closes what it opened on every
      path and creates its interface in the target's namespaces ([ProxySpec], [TapSetup]);
      the asynchronous wrapper's loops end and implement the relay's device ([AsyncFd]);
      closing happens exactly once ([Tunnel]);
    - the examples: what becomes of every octet of their input ([ExamplesSpec]);
    - arithmetic and text: subnets, default addresses and ephemeral ports ([Net]), interface
      statistics ([ProcNet]), printing and parsing IP addresses ([IpText]) and counters
      ([Display]).
    Several of them state precisely where the code departs from its comments.

    ** Bounds and fuel

    [read_exact_loop] has as much fuel as bytes remain; the drain loops have one more than
    the items in their queue ([write_fuel]) and the read loops one more than the room in it
    ([read_fuel]): each iteration that goes on uses one up, and the lemmas decide every
    outcome without an out-of-fuel case.  [ipc_reader_run] and [relay_reader_run] are proved
    to end when the fuel exceeds the number of messages.  Printing numbers has fuel for the
    binary digits.  Two turns suffice for [half_write_all].  The polls of [AsyncFd] have one
    more than the readiness events the reactor has to give ([poll_read_ends]), and awaiting
    has as many wake-ups as the device asks for.  Runs of [System] have no bound but that
    fewer than 2^64 - 1 requests are made, a command called is no longer than the buffer of the
    relay's reader ([fits_relay]) and no response is longer than its length prefix can say;
    that their work ends is proved on a well-founded order ([lighter] of
    [SystemSettle]).  Reading what is left of a cut stream has fuel for its octets.

    ** Not modelled

    Wakers and timers (a turn of a task takes what it finds as input, and awaiting a future
    is polling it until it is ready); the tokio runtime and smoltcp's [FaultInjector]; log
    output but for that of [log_frame]; running out of memory; the integration tests.  In
    [System] the connection holds any number of octets and a writer's turn is one step, so the
    back-pressure of a full socket buffer is not a behaviour of the model; a turn that ends a
    task is not a step: the theorems on whole runs describe the tunnel while it is up, and
    [SystemEnd] and [ProxyEnd] how it ends.

    ** Plan

    Next: [SystemEnd] composed with the stack task's reaction to [ipc_dead] and [ProxyEnd]
    with [run_proxy]'s clean-up; a connection of bounded capacity; the stack task as the client of the device in [System].

    ** This file

    Shared vocabulary: machine integers, bytes, big-endian arrays, the [io::Result] type,
    panics, and the automation used by the components. *)

From Stdlib Require Export ZArith Lia Strings.Byte.
From stdpp Require Export base gmap strings list vector numbers.

#[global] Open Scope Z_scope.
#[export] Set Warnings "-clear-no-such-hyp".

(** ** Machine integers

    An unsigned [w]-bit integer is a [Z]; [wrap w] is the reduction that the
    Rust [as] casts and the [Release] arithmetic perform. *)

Definition wrap (w x : Z) : Z := x mod 2 ^ w.

Definition fits (w x : Z) : Prop := 0 <= x < 2 ^ w.

(** Rust's arithmetic operators panic on overflow when the crate is compiled
    with overflow checks (the debug profile) and wrap around otherwise. *)
Inductive profile := Debug | Release.

(** A computation either returns or panics (which unwinds the task). *)
Inductive outcome (A : Type) :=
| Ret (a : A)
| Panic.
Arguments Ret {A} a.
Arguments Panic {A}.

#[global] Instance outcome_ret : MRet outcome := fun A a => Ret a.
#[global] Instance outcome_bind : MBind outcome := fun A B f m =>
  match m with Ret a => f a | Panic => Panic end.
#[global] Instance outcome_fmap : FMap outcome := fun A B f m =>
  match m with Ret a => Ret (f a) | Panic => Panic end.

Definition returns {A} (m : outcome A) : Prop :=
  match m with Ret _ => True | Panic => False end.

(** [a + b] on an unsigned [w]-bit type. *)
Definition uadd (p : profile) (w a b : Z) : outcome Z :=
  if decide (a + b < 2 ^ w) then Ret (a + b)
  else match p with Debug => Panic | Release => Ret (wrap w (a + b)) end.

(** [a << s] on an unsigned [w]-bit type: the bits shifted out are lost; a
    shift amount of [w] or more is an overflow, and the release build masks the
    amount to [log2 w] bits. *)
Definition ushl (p : profile) (w a s : Z) : outcome Z :=
  if decide (s < w) then Ret (wrap w (Z.shiftl a s))
  else match p with
       | Debug => Panic
       | Release => Ret (wrap w (Z.shiftl a (s mod w)))
       end.

(** [AtomicU16::fetch_add(1)] and friends wrap around in every profile: the
    previous value and the new one. *)
Definition fetch_add (w x n : Z) : Z * Z := (x, wrap w (x + n)).

(** ** [io::Error] and [io::Result] *)

Inductive ErrorKind :=
| NotFound | PermissionDenied | ConnectionRefused | ConnectionAborted
| AddrInUse | BrokenPipe | WouldBlock | InvalidInput | InvalidData
| TimedOut | WriteZero | UnexpectedEof | OutOfMemory | OtherError.

#[global] Instance ErrorKind_eq_dec : EqDecision ErrorKind.
Proof. solve_decision. Defined.

Record io_error := IoError { ekind : ErrorKind; emsg : string }.

#[global] Instance io_error_eq_dec : EqDecision io_error.
Proof. solve_decision. Defined.

Inductive result (A : Type) :=
| Ok (a : A)
| Err (e : io_error).
Arguments Ok {A} a.
Arguments Err {A} e.

#[global] Instance result_ret : MRet result := fun A a => Ok a.
#[global] Instance result_bind : MBind result := fun A B f m =>
  match m with Ok a => f a | Err e => Err e end.
#[global] Instance result_fmap : FMap result := fun A B f m =>
  match m with Ok a => Ok (f a) | Err e => Err e end.

(** [opt.ok_or_else(..)] *)
Definition ok_or {A} (e : io_error) (o : option A) : result A :=
  match o with Some a => Ok a | None => Err e end.

(** The four helpers at the end of [lib.rs]. *)
Definition broken_pipe (msg : string) : io_error := IoError BrokenPipe msg.
Definition invalid_input (msg : string) : io_error := IoError InvalidInput msg.
Definition invalid_data (msg : string) : io_error := IoError InvalidData msg.
Definition unexpected_eof (msg : string) : io_error := IoError UnexpectedEof msg.

(** ** Bytes *)

Abbreviation bytes := (list byte).

#[global] Instance byte_eq_dec' : EqDecision byte := Byte.byte_eq_dec.

Definition byte_val (b : byte) : Z := Z.of_N (Byte.to_N b).

Definition byte_of (z : Z) : byte :=
  match Byte.of_N (Z.to_N (wrap 8 z)) with Some b => b | None => x00 end.

(** Big-endian value of a byte string, and the [n]-byte big-endian string of
    an integer ([from_be_bytes], [to_be_bytes]). *)
Fixpoint be_val (bs : bytes) : Z :=
  match bs with
  | [] => 0
  | b :: r => byte_val b * 256 ^ Z.of_nat (length r) + be_val r
  end.

Fixpoint be_bytes (n : nat) (z : Z) : bytes :=
  match n with
  | O => []
  | S m => byte_of (z / 256 ^ Z.of_nat m) :: be_bytes m z
  end.

(** Fixed-size arrays [[u8; n]]. *)
Abbreviation array n := (vec byte n).

Definition array_of (n : nat) (l : bytes) : array n :=
  fun_to_vec (fun i : fin n => default x00 (l !! (fin_to_nat i))).

(** ** Automation *)

Create HintDb tunnel.

(** ** Lemmas on integers and bytes *)

Lemma wrap_small w x : fits w x -> wrap w x = x.
Proof. unfold wrap, fits. intros. by apply Z.mod_small. Qed.

Lemma wrap_fits w x : 0 <= w -> fits w (wrap w x).
Proof. unfold wrap, fits. intros. apply Z.mod_pos_bound. lia. Qed.

Lemma byte_val_range b : 0 <= byte_val b < 256.
Proof.
  unfold byte_val. pose proof (Byte.to_N_bounded b). lia.
Qed.

Lemma byte_of_val b : byte_of (byte_val b) = b.
Proof.
  unfold byte_of. rewrite wrap_small by (unfold fits; pose proof (byte_val_range b); lia).
  unfold byte_val. rewrite N2Z.id, Byte.of_to_N. done.
Qed.

Lemma byte_val_of z : byte_val (byte_of z) = wrap 8 z.
Proof.
  unfold byte_of. pose proof (wrap_fits 8 z ltac:(lia)) as Hf. unfold fits in Hf.
  destruct (Byte.of_N _) as [b|] eqn:E.
  - apply Byte.to_of_N in E. unfold byte_val. rewrite E. lia.
  - apply Byte.of_N_None_iff in E. lia.
Qed.

Lemma byte_val_inj b c : byte_val b = byte_val c -> b = c.
Proof. intros H. rewrite <- (byte_of_val b), <- (byte_of_val c). by f_equal. Qed.

Lemma pow256_pos n : 0 < 256 ^ Z.of_nat n.
Proof. apply Z.pow_pos_nonneg; lia. Qed.

Lemma pow256_succ n : 256 ^ Z.of_nat (S n) = 256 * 256 ^ Z.of_nat n.
Proof. rewrite Nat2Z.inj_succ, Z.pow_succ_r; lia. Qed.

Lemma be_val_range bs : 0 <= be_val bs < 256 ^ Z.of_nat (length bs).
Proof.
  induction bs as [|b bs IH]; cbn [be_val length]; [done|].
  rewrite pow256_succ. pose proof (byte_val_range b). nia.
Qed.

Lemma length_be_bytes n z : length (be_bytes n z) = n.
Proof. induction n; cbn; lia. Qed.

Lemma be_val_be_bytes n z : be_val (be_bytes n z) = z mod 256 ^ Z.of_nat n.
Proof.
  induction n as [|n IH]; cbn [be_bytes be_val]; [by rewrite Z.mod_1_r|].
  rewrite length_be_bytes, IH, byte_val_of, pow256_succ. unfold wrap.
  change (2 ^ 8) with 256. pose proof (pow256_pos n).
  rewrite (Z.mul_comm 256), Z.rem_mul_r by lia. lia.
Qed.

Lemma be_bytes_mod n k z : be_bytes n (z + k * 256 ^ Z.of_nat n) = be_bytes n z.
Proof.
  revert k. induction n as [|n IH]; intros k; cbn [be_bytes]; [done|].
  pose proof (pow256_pos n).
  rewrite pow256_succ, Z.mul_assoc, Z.div_add, IH by lia. f_equal.
  apply byte_val_inj. rewrite !byte_val_of. unfold wrap. change (2 ^ 8) with 256.
  by rewrite Z.mod_add by lia.
Qed.

Lemma be_bytes_be_val bs : be_bytes (length bs) (be_val bs) = bs.
Proof.
  induction bs as [|b bs IH]; cbn [be_bytes be_val length]; [done|].
  pose proof (be_val_range bs). pose proof (pow256_pos (length bs)). f_equal.
  - rewrite Z.add_comm, Z.div_add, Z.div_small, Z.add_0_l by lia. apply byte_of_val.
  - by rewrite Z.add_comm, be_bytes_mod.
Qed.

Lemma be_val_inj bs cs : length bs = length cs -> be_val bs = be_val cs -> bs = cs.
Proof.
  intros Hl Hv. rewrite <- (be_bytes_be_val bs), <- (be_bytes_be_val cs). congruence.
Qed.

Lemma be_val_app xs ys :
  be_val (xs ++ ys) = be_val xs * 256 ^ Z.of_nat (length ys) + be_val ys.
Proof.
  induction xs as [|x xs IH]; cbn [app be_val]; [lia|].
  rewrite IH, length_app, Nat2Z.inj_add, Z.pow_add_r by lia. ring.
Qed.

Lemma array_of_list n l : length l = n -> vec_to_list (array_of n l) = l.
Proof.
  intros Hl. apply list_eq. intros i. unfold array_of.
  destruct (decide (i < n)%nat) as [Hi|Hi].
  - pose proof (vlookup_lookup (fun_to_vec (fun i : fin n => default x00 (l !! (fin_to_nat i))))
      (nat_to_fin Hi) (default x00 (l !! i))) as HL.
    rewrite fin_to_nat_to_fin in HL.
    destruct (lookup_lt_is_Some_2 l i) as [x Hx]; [lia|].
    rewrite Hx in HL |- *. cbn in HL. apply HL.
    rewrite lookup_fun_to_vec, fin_to_nat_to_fin, Hx. done.
  - rewrite !lookup_ge_None_2; [done| |]; rewrite ?length_vec_to_list; lia.
Qed.

Lemma array_of_array {n} (a : array n) : array_of n (vec_to_list a) = a.
Proof.
  apply vec_to_list_inj2. apply array_of_list. by rewrite length_vec_to_list.
Qed.

(** ** Lemmas on lists *)

Lemma Forall_elem_of {A} (P : A -> Prop) (l : list A) :
  Forall P l <-> forall x, x ∈ l -> P x.
Proof. rewrite List.Forall_forall. by setoid_rewrite list_elem_of_In. Qed.

#[export] Hint Resolve byte_val_range be_val_range length_be_bytes : tunnel.

(** An invariant of the steps holds along every run. *)
Lemma rtc_invariant {A} (R : relation A) (P : A -> Prop) (x y : A) :
  (forall a b, P a -> R a b -> P b) -> P x -> rtc R x y -> P y.
Proof. intros Hstep Hx Hr. induction Hr; eauto. Qed.
