(* ===== verification/Net.v ===== *)
(** * Addresses

    The [std::net] address types, the smoltcp wire types they are converted to,
    the conversion helpers at the end of [src/stack/mod.rs], and the subnet
    arithmetic of [src/protocol.rs]. *)

From S2P Require Import Prelude.
#[local] Open Scope Z_scope.

(** ** Standard-library address types *)

Inductive IpAddr :=
| V4 (octets : array 4)
| V6 (octets : array 16).

#[global] Instance IpAddr_eq_dec : EqDecision IpAddr.
Proof. solve_decision. Defined.

Inductive SocketAddr :=
| SockV4 (ip : array 4) (port : Z)
| SockV6 (ip : array 16) (port flowinfo scope_id : Z).

#[global] Instance SocketAddr_eq_dec : EqDecision SocketAddr.
Proof. solve_decision. Defined.

Definition sock_ip (a : SocketAddr) : IpAddr :=
  match a with SockV4 ip _ => V4 ip | SockV6 ip _ _ _ => V6 ip end.

Definition sock_port (a : SocketAddr) : Z :=
  match a with SockV4 _ p => p | SockV6 _ p _ _ => p end.

Definition octets (ip : IpAddr) : bytes :=
  match ip with V4 o => vec_to_list o | V6 o => vec_to_list o end.

(** [IpAddr::is_unspecified]: every octet is zero. *)
Definition is_unspecified (ip : IpAddr) : bool :=
  forallb (fun b => bool_decide (b = x00)) (octets ip).

(** ** smoltcp wire types *)

Inductive IpAddress :=
| Ipv4 (octets : array 4)
| Ipv6 (octets : array 16).

#[global] Instance IpAddress_eq_dec : EqDecision IpAddress.
Proof. solve_decision. Defined.

Record IpEndpoint := { ep_addr : IpAddress; ep_port : Z }.
Record IpListenEndpoint := { lep_addr : option IpAddress; lep_port : Z }.

#[global] Instance IpEndpoint_eq_dec : EqDecision IpEndpoint.
Proof. solve_decision. Defined.
#[global] Instance IpListenEndpoint_eq_dec : EqDecision IpListenEndpoint.
Proof. solve_decision. Defined.

(** ** Conversions of [src/stack/mod.rs] *)

Definition ip_addr_to_smoltcp (addr : IpAddr) : IpAddress :=
  match addr with V4 o => Ipv4 o | V6 o => Ipv6 o end.

Definition smoltcp_to_ip_addr (addr : IpAddress) : IpAddr :=
  match addr with Ipv4 o => V4 o | Ipv6 o => V6 o end.

Definition make_socket_addr (ip : IpAddr) (port : Z) : SocketAddr :=
  match ip with V4 o => SockV4 o port | V6 o => SockV6 o port 0 0 end.

Definition socket_addr_to_endpoint (addr : SocketAddr) : IpEndpoint :=
  {| ep_addr := ip_addr_to_smoltcp (sock_ip addr); ep_port := sock_port addr |}.

Definition endpoint_to_socket_addr (e : IpEndpoint) : SocketAddr :=
  make_socket_addr (smoltcp_to_ip_addr (ep_addr e)) (ep_port e).

Definition socket_addr_to_listen_endpoint_with_port (addr : SocketAddr) (port : Z)
  : IpListenEndpoint :=
  let smoltcp_addr := ip_addr_to_smoltcp (sock_ip addr) in
  {| lep_addr := if is_unspecified (sock_ip addr) then None else Some smoltcp_addr;
     lep_port := port |}.

Definition socket_addr_to_listen_endpoint (addr : SocketAddr) : IpListenEndpoint :=
  let smoltcp_addr := ip_addr_to_smoltcp (sock_ip addr) in
  {| lep_addr := if is_unspecified (sock_ip addr) then None else Some smoltcp_addr;
     lep_port := sock_port addr |}.

(** The process-wide [AtomicU16] starts at 49152; each allocation returns the
    counter and increments it, wrapping at 16 bits. *)
Definition EPHEMERAL_PORT_START : Z := 49152.

Definition allocate_ephemeral_port (counter : Z) : Z * Z := fetch_add 16 counter 1.

(** The port of the [n]-th allocation (from 0), and the counter before it. *)
Fixpoint ephemeral_counter (n : nat) : Z :=
  match n with
  | O => EPHEMERAL_PORT_START
  | S m => snd (allocate_ephemeral_port (ephemeral_counter m))
  end.

Definition ephemeral_port (n : nat) : Z :=
  fst (allocate_ephemeral_port (ephemeral_counter n)).

(** ** Subnet arithmetic of [src/protocol.rs] *)

Definition U32_MAX : Z := Z.ones 32.
Definition U128_MAX : Z := Z.ones 128.

(** The loop [for i in (0..16).rev()] of the IPv6 branch: [n] is the number of
    indices still to visit, the current index is [n - 1]. *)
Fixpoint incr_octets (n : nat) (octets : bytes) : bytes :=
  match n with
  | O => octets
  | S i =>
      let cur := byte_val (default x00 (octets !! i)) in
      let val := byte_of (cur + 1) in
      let overflow := bool_decide (2 ^ 8 <= cur + 1) in
      let octets' := <[i := val]> octets in
      if negb overflow then octets' else incr_octets i octets'
  end.

Definition default_client_ip (p : profile) (tap_ip : IpAddr) : outcome IpAddr :=
  match tap_ip with
  | V4 v4 =>
      let ip_u32 := be_val (vec_to_list v4) in
      s ← uadd p 32 ip_u32 1;
      Ret (V4 (array_of 4 (be_bytes 4 s)))
  | V6 v6 => Ret (V6 (array_of 16 (incr_octets 16 (vec_to_list v6))))
  end.

Definition validate_ip_in_subnet (p : profile) (ip tap_ip : IpAddr) (prefix_len : Z)
  : outcome bool :=
  match ip, tap_ip with
  | V4 ip, V4 tap =>
      mask ← (if decide (32 <= prefix_len) then Ret U32_MAX
              else ushl p 32 U32_MAX (32 - prefix_len));
      let ip_u32 := be_val (vec_to_list ip) in
      let tap_u32 := be_val (vec_to_list tap) in
      Ret (bool_decide (Z.land ip_u32 mask = Z.land tap_u32 mask))
  | V6 ip, V6 tap =>
      let ip_bits := be_val (vec_to_list ip) in
      let tap_bits := be_val (vec_to_list tap) in
      mask ← (if decide (128 <= prefix_len) then Ret U128_MAX
              else ushl p 128 U128_MAX (128 - prefix_len));
      Ret (bool_decide (Z.land ip_bits mask = Z.land tap_bits mask))
  | _, _ => Ret false
  end.

(** ** Specification vocabulary *)

Definition ip_width (ip : IpAddr) : Z := match ip with V4 _ => 32 | V6 _ => 128 end.
Definition ip_val (ip : IpAddr) : Z := be_val (octets ip).

Definition same_family (a b : IpAddr) : Prop := ip_width a = ip_width b.

(** The network part: the value without its [width - prefix] host bits. *)
Definition host_bits (ip : IpAddr) (prefix : Z) : Z := Z.max 0 (ip_width ip - prefix).
Definition net_part (ip : IpAddr) (prefix : Z) : Z := ip_val ip / 2 ^ host_bits ip prefix.
Definition host_part (ip : IpAddr) (prefix : Z) : Z := ip_val ip mod 2 ^ host_bits ip prefix.

(** ** Lemmas *)

Lemma ip_val_range ip : 0 <= ip_val ip < 2 ^ ip_width ip.
Proof.
  unfold ip_val. destruct ip as [o|o]; cbn [octets ip_width];
    pose proof (be_val_range (vec_to_list o)) as H;
    rewrite length_vec_to_list in H; exact H.
Qed.

Lemma ip_val_inj a b : same_family a b -> ip_val a = ip_val b -> a = b.
Proof.
  unfold same_family, ip_val.
  destruct a as [o|o], b as [o'|o']; cbn; intros Hf Hv; try lia; f_equal;
    apply vec_to_list_inj2, be_val_inj; rewrite ?length_vec_to_list; auto.
Qed.

(** The masks of the code have exactly the bits [s .. w-1]. *)
Lemma testbit_high_mask w s i :
  0 <= s -> 0 <= w -> 0 <= i ->
  Z.testbit (wrap w (Z.shiftl (Z.ones w) s)) i = bool_decide (s <= i < w).
Proof.
  intros. unfold wrap. rewrite <- Z.land_ones, Z.land_spec, Z.shiftl_spec by lia.
  destruct (decide (s <= i < w)).
  - rewrite bool_decide_true by lia.
    rewrite !Z.testbit_ones by lia. lia.
  - rewrite bool_decide_false by lia.
    rewrite !Z.testbit_ones by lia. lia.
Qed.

Lemma testbit_above w x i : 0 <= w <= i -> 0 <= x < 2 ^ w -> Z.testbit x i = false.
Proof.
  intros. rewrite <- (Z.mod_small x (2 ^ w)) by lia. by rewrite Z.mod_pow2_bits_high by lia.
Qed.

(** Masked values agree exactly when the values agree above bit [s]. *)
Lemma mask_eq_iff w s x y :
  0 <= s <= w -> 0 <= x < 2 ^ w -> 0 <= y < 2 ^ w ->
  (Z.land x (wrap w (Z.shiftl (Z.ones w) s)) = Z.land y (wrap w (Z.shiftl (Z.ones w) s))
   <-> x / 2 ^ s = y / 2 ^ s).
Proof.
  intros Hs Hx Hy. rewrite <- !Z.shiftr_div_pow2 by lia. split; intros H.
  - apply Z.bits_inj'. intros i Hi. rewrite !Z.shiftr_spec by lia.
    destruct (decide (i + s < w)).
    + apply (f_equal (fun z => Z.testbit z (i + s))) in H.
      rewrite !Z.land_spec, !testbit_high_mask, bool_decide_true, !andb_true_r in H by lia.
      done.
    + by rewrite !(testbit_above w) by lia.
  - apply Z.bits_inj'. intros i Hi. rewrite !Z.land_spec, !testbit_high_mask by lia.
    destruct (decide (s <= i < w)).
    + rewrite bool_decide_true, !andb_true_r by lia.
      apply (f_equal (fun z => Z.testbit z (i - s))) in H.
      rewrite !Z.shiftr_spec in H by lia. by rewrite !Z.sub_add in H.
    + by rewrite bool_decide_false, !andb_false_r by lia.
Qed.

Lemma wf_prefix_mask p w prefix :
  0 < w -> 1 <= prefix ->
  (if decide (w <= prefix) then Ret (Z.ones w) else ushl p w (Z.ones w) (w - prefix))
  = Ret (wrap w (Z.shiftl (Z.ones w) (Z.max 0 (w - prefix)))).
Proof.
  intros. destruct (decide (w <= prefix)).
  - rewrite Z.max_l, Z.shiftl_0_r, wrap_small by
      (unfold fits; rewrite ?Z.ones_equiv; pose proof (Z.pow_pos_nonneg 2 w); lia).
    done.
  - unfold ushl. rewrite decide_True, Z.max_r by lia. done.
Qed.

Lemma incr_octets_length n l : length (incr_octets n l) = length l.
Proof.
  revert l. induction n as [|n IH]; intros l; cbn [incr_octets]; [done|].
  destruct (negb _); rewrite ?IH; apply length_insert.
Qed.

(** Updating inside the first [n] bytes leaves the suffix alone. *)
Lemma incr_octets_app n l r :
  (n <= length l)%nat -> incr_octets n (l ++ r) = incr_octets n l ++ r.
Proof.
  revert l. induction n as [|n IH]; intros l Hn; cbn [incr_octets]; [done|].
  rewrite lookup_app_l, insert_app_l by lia. destruct (negb _); [done|].
  apply IH. rewrite length_insert. lia.
Qed.

(** The carry loop is addition of one modulo [256^n]. *)
Lemma incr_octets_val l :
  be_val (incr_octets (length l) l) = (be_val l + 1) mod 256 ^ Z.of_nat (length l).
Proof.
  induction l as [|b l IH] using rev_ind; [by rewrite Z.mod_1_r|].
  rewrite length_app, Nat.add_comm. cbn [length Nat.add incr_octets].
  rewrite list_lookup_middle by done. unfold default, from_option, id.
  rewrite insert_app_r_alt, Nat.sub_diag by lia. cbn [insert list_insert].
  pose proof (byte_val_range b). pose proof (be_val_range l). pose proof (pow256_pos (length l)).
  rewrite pow256_succ, be_val_app. cbn [length be_val].
  change (256 ^ Z.of_nat 1) with 256. change (256 ^ Z.of_nat 0) with 1.
  destruct (decide (256 <= byte_val b + 1)) as [Ho|Ho].
  - rewrite bool_decide_true by (change (2 ^ 8) with 256; lia). cbn [negb].
    rewrite incr_octets_app by lia. rewrite be_val_app, IH. cbn [length be_val].
    rewrite byte_val_of. change (256 ^ Z.of_nat 1) with 256. change (256 ^ Z.of_nat 0) with 1.
    replace (byte_val b) with 255 by lia. change (wrap 8 (255 + 1)) with 0.
    replace (be_val l * 256 + (255 * 1 + 0) + 1) with (256 * (be_val l + 1)) by ring.
    rewrite Z.mul_mod_distr_l by lia. ring.
  - rewrite bool_decide_false by (change (2 ^ 8) with 256; lia). cbn [negb].
    rewrite be_val_app. cbn [length be_val].
    change (256 ^ Z.of_nat 1) with 256. change (256 ^ Z.of_nat 0) with 1.
    rewrite byte_val_of, wrap_small by (unfold fits; change (2 ^ 8) with 256; lia).
    rewrite Z.mod_small by nia. ring.
Qed.

(** The default client address, as arithmetic on the address value. *)
Lemma default_client_ip_ret p ip :
  ip_val ip + 1 < 2 ^ ip_width ip ->
  exists c, default_client_ip p ip = Ret c /\ same_family c ip /\ ip_val c = ip_val ip + 1.
Proof.
  unfold ip_val. destruct ip as [o|o]; cbn [octets ip_width default_client_ip]; intros H.
  - unfold uadd. rewrite decide_True by exact H. eexists. split; [reflexivity|].
    split; [done|]. cbn [octets]. rewrite array_of_list by apply length_be_bytes.
    rewrite be_val_be_bytes, Z.mod_small; [done|].
    pose proof (be_val_range (vec_to_list o)). change (256 ^ Z.of_nat 4) with (2 ^ 32). lia.
  - eexists. split; [reflexivity|]. split; [done|]. cbn [octets].
    pose proof (be_val_range (vec_to_list o)).
    pose proof (incr_octets_val (vec_to_list o)) as Hi. rewrite length_vec_to_list in Hi.
    rewrite array_of_list by (rewrite incr_octets_length; apply length_vec_to_list).
    rewrite Hi. apply Z.mod_small. change (256 ^ Z.of_nat 16) with (2 ^ 128). lia.
Qed.

Lemma net_part_succ ip c prefix :
  same_family c ip -> ip_val c = ip_val ip + 1 ->
  (net_part c prefix = net_part ip prefix
   <-> host_part ip prefix <> 2 ^ host_bits ip prefix - 1).
Proof.
  unfold net_part, host_part, host_bits, same_family. intros -> ->.
  set (m := 2 ^ Z.max 0 (ip_width ip - prefix)).
  assert (0 < m) by (apply Z.pow_pos_nonneg; lia).
  pose proof (Z.div_mod (ip_val ip) m ltac:(lia)) as Hd.
  pose proof (Z.mod_pos_bound (ip_val ip) m ltac:(lia)) as Hb.
  set (q := ip_val ip / m) in *. set (r := ip_val ip mod m) in *. split; intros H1.
  - intros Hr. assert (ip_val ip + 1 = m * (q + 1)) as E by lia.
    rewrite E, (Z.mul_comm m), Z.div_mul in H1; lia.
  - symmetry. apply Z.div_unique with (r := r + 1); lia.
Qed.

Lemma validate_net_part p ip tap prefix :
  same_family ip tap -> 1 <= prefix ->
  validate_ip_in_subnet p ip tap prefix
  = Ret (bool_decide (net_part ip prefix = net_part tap prefix)).
Proof.
  intros Hfam Hprefix.
  pose proof (ip_val_range ip) as H1. pose proof (ip_val_range tap) as H2.
  unfold same_family, ip_val, net_part, host_bits in *.
  destruct ip as [o|o], tap as [o'|o']; cbn [ip_width octets validate_ip_in_subnet] in *; try lia;
    unfold U32_MAX, U128_MAX; rewrite wf_prefix_mask by lia;
    cbn [mbind outcome_bind]; f_equal; apply bool_decide_ext, mask_eq_iff; unfold ip_val; cbn [octets]; lia.
Qed.

Lemma ephemeral_counter_val n : ephemeral_counter n = wrap 16 (EPHEMERAL_PORT_START + Z.of_nat n).
Proof.
  induction n as [|n IH]; [done|]. cbn [ephemeral_counter allocate_ephemeral_port fetch_add snd].
  rewrite IH. unfold wrap. rewrite Zplus_mod_idemp_l. f_equal. lia.
Qed.

(** ** Properties *)

(** C38: [validate_ip_in_subnet] decides membership of the TAP subnet: for every
    prefix length of at least 1, in both build profiles, two addresses of the
    same family are accepted exactly when their network parts (the address value
    without its host bits) are equal; the mask computation never overflows. *)
Theorem validate_ip_in_subnet_correct (p : profile) (ip tap : IpAddr) (prefix : Z)
  (Hfam : same_family ip tap) (Hprefix : 1 <= prefix) :
  validate_ip_in_subnet p ip tap prefix
  = Ret (bool_decide (net_part ip prefix = net_part tap prefix)).
Proof. by apply validate_net_part. Qed.

Lemma validate_ip_in_subnet_correct_witness :
  validate_ip_in_subnet Debug (V4 [#x0a; x00; x00; x05]) (V4 [#x0a; x00; x00; x01]) 24 = Ret true.
Proof.
  rewrite (validate_ip_in_subnet_correct Debug _ _ 24); [reflexivity|reflexivity|lia].
Defined.

(** With prefix length 0 the shift amount equals the type's width: the debug
    build panics, and the release build masks the amount to 0, so that the test
    compares whole addresses instead of accepting every address. *)
Theorem validate_ip_in_subnet_prefix_zero (ip tap : IpAddr) (Hfam : same_family ip tap) :
  validate_ip_in_subnet Debug ip tap 0 = Panic /\
  validate_ip_in_subnet Release ip tap 0 = Ret (bool_decide (ip = tap)).
Proof.
  pose proof (ip_val_range ip) as H1. pose proof (ip_val_range tap) as H2.
  split; [by destruct ip, tap|].
  pose proof (ip_val_inj ip tap Hfam) as Hinj. unfold same_family, ip_val in *.
  destruct ip as [o|o], tap as [o'|o']; cbn [ip_width octets validate_ip_in_subnet] in *; try lia;
    rewrite decide_False by lia; unfold ushl; rewrite decide_False by lia;
    cbn [mbind outcome_bind]; f_equal; apply bool_decide_ext;
    rewrite Z.sub_0_r, Z_mod_same_full; unfold U32_MAX, U128_MAX;
    rewrite mask_eq_iff by lia; rewrite !Z.div_1_r; (split; [by auto|by intros [= ->]]).
Qed.

Lemma validate_ip_in_subnet_prefix_zero_witness :
  validate_ip_in_subnet Release (V4 [#x0a; x00; x00; x05]) (V4 [#x0a; x00; x00; x01]) 0 = Ret false.
Proof.
  rewrite (proj2 (validate_ip_in_subnet_prefix_zero
    (V4 [#x0a; x00; x00; x05]) (V4 [#x0a; x00; x00; x01]) eq_refl)). reflexivity.
Defined.

(** The address the client picks by default (TAP address plus one) lies in
    the TAP subnet exactly when the TAP address is not the last address of that
    subnet; short of the all-ones address the choice never overflows. *)
Theorem default_client_ip_in_subnet (p : profile) (tap : IpAddr) (prefix : Z)
  (Hprefix : 1 <= prefix) (Hmax : ip_val tap + 1 < 2 ^ ip_width tap) :
  exists c, default_client_ip p tap = Ret c /\ same_family c tap /\
    ip_val c = ip_val tap + 1 /\ c <> tap /\
    validate_ip_in_subnet p c tap prefix
    = Ret (bool_decide (host_part tap prefix <> 2 ^ host_bits tap prefix - 1)).
Proof.
  destruct (default_client_ip_ret p tap Hmax) as (c & Hc & Hf & Hv).
  exists c. split_and!; [done..| |].
  - intros ->. lia.
  - rewrite validate_net_part by done.
    f_equal. apply bool_decide_ext. by apply net_part_succ.
Qed.

Lemma default_client_ip_in_subnet_witness :
  exists c, default_client_ip Debug (V4 [#x0a; x00; x00; xff]) = Ret c /\
    validate_ip_in_subnet Debug c (V4 [#x0a; x00; x00; xff]) 24 = Ret false.
Proof.
  destruct (default_client_ip_in_subnet Debug (V4 [#x0a; x00; x00; xff]) 24)
    as (c & H1 & _ & _ & _ & H2); [lia|vm_compute; reflexivity|].
  exists c. split; [exact H1|rewrite H2; reflexivity].
Defined.

(** The [n]-th allocation of an ephemeral port returns
    [(49152 + n) mod 65536]: the first 16384 allocations stay in the IANA
    dynamic range and are pairwise distinct, and the next one returns port 0,
    after which the ports leave the range. *)
Theorem ephemeral_ports (n m : nat) :
  ephemeral_port n = (49152 + Z.of_nat n) mod 65536 /\
  (Z.of_nat n < 16384 -> 49152 <= ephemeral_port n <= 65535) /\
  (Z.of_nat n < 65536 -> Z.of_nat m < 65536 -> ephemeral_port n = ephemeral_port m -> n = m) /\
  ephemeral_port (Z.to_nat 16384) = 0.
Proof.
  unfold ephemeral_port, allocate_ephemeral_port, fetch_add, fst.
  rewrite !ephemeral_counter_val. unfold wrap, EPHEMERAL_PORT_START.
  change (2 ^ 16) with 65536. rewrite Z2Nat.id by lia. split_and!; [done| | |done]; intros;
    Z.div_mod_to_equations; lia.
Qed.

(** Converting a socket address to a smoltcp endpoint and back returns the
    same IP and port; it is the identity exactly on IPv4 addresses and on IPv6
    addresses whose flow information and scope id are zero, both of which the
    conversion drops. *)
Theorem endpoint_roundtrip (a : SocketAddr) :
  let b := endpoint_to_socket_addr (socket_addr_to_endpoint a) in
  sock_ip b = sock_ip a /\ sock_port b = sock_port a /\
  (b = a <-> match a with SockV4 _ _ => True | SockV6 _ _ f s => f = 0 /\ s = 0 end).
Proof. destruct a; cbn; naive_solver. Qed.
