(* ===== verification/Stream.v ===== *)
(** * Byte streams

    The Unix stream socket between the library and the proxy, seen from one of
    its ends, and the blocking loops that read and write it exactly
    ([read_exact_fd] and [write_all_fd] of [proxy/src/main.rs], and the
    standard library's [Read::read_exact] and [Write::write_all]).

    What the operating system decides is data of the model: how the incoming
    bytes are cut into the results of successive [read] calls, how the stream
    ends, and how much each [write] call accepts. *)

From S2P Require Import Prelude.
#[local] Open Scope Z_scope.

(** ** Reading *)

Inductive ending := Eof | ReadFails (e : io_error).

(** [chunks] are the bytes still to come, cut where the system cuts them. *)
Record rstream := RStream { chunks : list bytes; ends : ending }.

Definition rbytes (s : rstream) : bytes := concat (chunks s).

Definition rs_wf (s : rstream) : Prop := Forall (fun c => c <> []) (chunks s).

(** One [read(fd, buf, n)]: the bytes it stores (none at end of file). *)
Definition sys_read (n : nat) (s : rstream) : result bytes * rstream :=
  match chunks s with
  | [] => (match ends s with Eof => Ok [] | ReadFails e => Err e end, s)
  | c :: r =>
      (Ok (take n c),
       RStream (if decide (length c <= n)%nat then r else drop n c :: r) (ends s))
  end.

(** The loop [while offset < buf.len()]: [acc] holds the [offset] bytes already
    stored and [remaining] is [buf.len() - offset].  Every iteration that goes on
    stores at least one byte, so that [fuel := remaining] never runs out
    ([read_exact_loop_spec] decides every case). *)
Fixpoint read_exact_loop (eof : io_error) (fuel remaining : nat) (acc : bytes) (s : rstream)
  : result bytes * rstream :=
  match remaining with
  | O => (Ok acc, s)
  | _ =>
      match fuel with
      | O => (Err (IoError OtherError "out of fuel"), s)
      | S fuel' =>
          match sys_read remaining s with
          | (Err e, s') => (Err e, s')
          | (Ok [], s') => (Err eof, s')
          | (Ok got, s') =>
              read_exact_loop eof fuel' (remaining - length got) (acc ++ got) s'
          end
      end
  end.

Definition read_exact_fd (n : nat) (s : rstream) : result bytes * rstream :=
  read_exact_loop (IoError UnexpectedEof "connection closed") n n [] s.

(** [Read::read_exact] of the standard library. *)
Definition read_exact (n : nat) (s : rstream) : result bytes * rstream :=
  read_exact_loop (IoError UnexpectedEof "failed to fill whole buffer") n n [] s.

(** ** Writing *)

(** What one [write] call does: it accepts at most [k] bytes, or it fails. *)
Inductive wr := WrMax (k : nat) | WrFails (e : io_error).

(** [script] answers the next calls; past its end every call accepts all. *)
Record wstream := WStream { written : bytes; script : list wr }.

(** [write_all_fd]: keep calling [write] on what is left.  A call that accepts
    nothing is retried. *)
Fixpoint write_all_fd_loop (buf : bytes) (acc : bytes) (sc : list wr) : result unit * wstream :=
  match buf with
  | [] => (Ok (), WStream acc sc)
  | _ =>
      match sc with
      | [] => (Ok (), WStream (acc ++ buf) [])
      | WrFails e :: sc' => (Err e, WStream acc sc')
      | WrMax k :: sc' => write_all_fd_loop (drop k buf) (acc ++ take k buf) sc'
      end
  end.

Definition write_all_fd (buf : bytes) (w : wstream) : result unit * wstream :=
  write_all_fd_loop buf (written w) (script w).

(** [Write::write_all] of the standard library: the same, but a call that accepts
    nothing is the error [WriteZero]. *)
Fixpoint write_all_loop (buf : bytes) (acc : bytes) (sc : list wr) : result unit * wstream :=
  match buf with
  | [] => (Ok (), WStream acc sc)
  | _ =>
      match sc with
      | [] => (Ok (), WStream (acc ++ buf) [])
      | WrFails e :: sc' => (Err e, WStream acc sc')
      | WrMax O :: sc' => (Err (IoError WriteZero "failed to write whole buffer"), WStream acc sc')
      | WrMax k :: sc' => write_all_loop (drop k buf) (acc ++ take k buf) sc'
      end
  end.

Definition write_all (buf : bytes) (w : wstream) : result unit * wstream :=
  write_all_loop buf (written w) (script w).

(** ** Specification and lemmas *)

(** What [read_exact] promises, independently of how the bytes are cut. *)
Definition read_exact_spec (eof : io_error) (n : nat) (s : rstream)
    (res : result bytes * rstream) : Prop :=
  ends (snd res) = ends s /\ rs_wf (snd res) /\
  if decide (n <= length (rbytes s))%nat
  then fst res = Ok (take n (rbytes s)) /\ rbytes (snd res) = drop n (rbytes s)
  else fst res = Err (match ends s with Eof => eof | ReadFails e => e end).

Lemma sys_read_wf n s : rs_wf s -> (0 < n)%nat -> rs_wf (snd (sys_read n s)).
Proof.
  unfold rs_wf, sys_read. destruct s as [[|c r] e]; cbn; [done|].
  intros [Hc Hr]%Forall_cons_1 Hn. case_decide; [done|]. constructor; [|done].
  intros Hd. apply (f_equal length) in Hd. rewrite length_drop in Hd. cbn in Hd. lia.
Qed.

Lemma sys_read_data n s got s' :
  rs_wf s -> (0 < n)%nat -> chunks s <> [] -> sys_read n s = (Ok got, s') ->
  got <> [] /\ (length got <= n)%nat /\ rbytes s = got ++ rbytes s' /\ ends s' = ends s.
Proof.
  unfold rs_wf, sys_read, rbytes. destruct s as [[|c r] e]; cbn; [done|].
  intros [Hc Hr]%Forall_cons_1 Hn _ [= <- <-]. cbn. split_and!; [| |  |done].
  - destruct c, n; cbn; try done; lia.
  - rewrite length_take. lia.
  - case_decide; cbn.
    + by rewrite take_ge by lia.
    + by rewrite app_assoc, take_drop.
Qed.

Lemma read_exact_loop_spec eof fuel n acc s :
  rs_wf s -> (n <= fuel)%nat ->
  exists res, read_exact_loop eof fuel n acc s = res /\
  ends (snd res) = ends s /\ rs_wf (snd res) /\
  if decide (n <= length (rbytes s))%nat
  then fst res = Ok (acc ++ take n (rbytes s)) /\ rbytes (snd res) = drop n (rbytes s)
  else fst res = Err (match ends s with Eof => eof | ReadFails e => e end).
Proof.
  revert n acc s. induction fuel as [|fuel IH]; intros n acc s Hwf Hn;
    eexists; (split; [reflexivity|]).
  - assert (n = 0)%nat as -> by lia. cbn.
    rewrite decide_True, take_0, drop_0, app_nil_r by lia. done.
  - destruct n as [|m]; cbn [read_exact_loop].
    { cbn. rewrite decide_True, app_nil_r by lia. done. }
    pose proof (sys_read_wf (S m) s Hwf ltac:(lia)) as Hwf'.
    destruct (decide (chunks s = [])) as [Hnil|Hne].
    + destruct s as [cs e]. cbn in Hnil. subst cs. cbn. rewrite decide_False by lia.
      by destruct e.
    + destruct (sys_read (S m) s) as [[got|e] s'] eqn:E.
      2:{ destruct s as [[|? ?] ?]; [done|discriminate E]. }
      destruct (sys_read_data (S m) s got s' Hwf ltac:(lia) Hne E) as (Hg & Hl & Hb & He).
      destruct got as [|g gs]; [done|]. cbn [snd] in Hwf'.
      destruct (IH (S m - length (g :: gs))%nat (acc ++ g :: gs) s' Hwf') as (res & <- & H1 & H2 & H3);
        [cbn; lia|].
      rewrite H1, He. split_and!; [done|done|]. rewrite Hb, length_app. case_decide; case_decide; try lia.
      * destruct H3 as [-> ->]. rewrite take_app_ge, drop_app_ge by (cbn in *; lia).
        by rewrite <- app_assoc.
      * by rewrite H3, He.
Qed.

Lemma read_exact_with_spec eof n s :
  rs_wf s -> read_exact_spec eof n s (read_exact_loop eof n n [] s).
Proof.
  intros Hwf. destruct (read_exact_loop_spec eof n n [] s Hwf) as (res & -> & H); [lia|].
  exact H.
Qed.

Lemma write_all_fd_loop_spec buf acc sc :
  let '(r, w) := write_all_fd_loop buf acc sc in
  match r with
  | Ok _ => written w = acc ++ buf
  | Err e => WrFails e ∈ sc /\ exists k, (k < length buf)%nat /\ written w = acc ++ take k buf
  end.
Proof.
  revert buf acc. induction sc as [|[k|e] sc IH]; intros [|b buf] acc; cbn [write_all_fd_loop];
    rewrite ?app_nil_r; try done.
  - specialize (IH (drop k (b :: buf)) (acc ++ take k (b :: buf))).
    destruct (write_all_fd_loop _ _ _) as [[|e] w].
    + by rewrite IH, <- app_assoc, take_drop.
    + destruct IH as [Hin (j & Hj & ->)]. split; [by constructor|].
      rewrite length_drop in Hj. exists (k + j)%nat. split; [lia|].
      rewrite <- app_assoc. f_equal. by rewrite <- take_take_drop.
  - split; [constructor|]. exists 0%nat. cbn. rewrite app_nil_r. split; [lia|done].
Qed.
