(* ===== verification/Text.v ===== *)
(** * Text

    The parts of Rust's [str] that the sources use, on ASCII text: [lines],
    [split_whitespace], [trim_end_matches] and [str::parse] for unsigned integers,
    with decimal printing and the round trip between the two. *)

From Stdlib Require Import Ascii.
From S2P Require Import Prelude.
#[local] Open Scope Z_scope.

Abbreviation text := (list ascii).

#[global] Instance ascii_eq_dec' : EqDecision ascii := Ascii.ascii_dec.

(** A literal as text. *)
Definition chars (s : string) : text := String.list_ascii_of_string s.

Definition newline : ascii := "010"%char.
Definition carriage_return : ascii := "013"%char.

(** [char::is_whitespace] on ASCII: tab, line feed, vertical tab, form feed,
    carriage return and space. *)
Definition is_whitespace (c : ascii) : bool :=
  let n := Z.of_nat (nat_of_ascii c) in
  ((9 <=? n) && (n <=? 13)) || (n =? 32).

(** [s.split_whitespace()]: the maximal runs of other characters; [cur] is the
    word read so far, reversed. *)
Fixpoint words (cur : text) (s : text) : list text :=
  match s with
  | [] => if decide (cur = []) then [] else [reverse cur]
  | c :: r =>
      if is_whitespace c
      then (if decide (cur = []) then words [] r else reverse cur :: words [] r)
      else words (c :: cur) r
  end.

Definition split_whitespace (s : text) : list text := words [] s.

(** [s.lines()]: split at line feeds, each line without one trailing carriage
    return; a final line feed does not start another line. *)
Definition strip_cr (l : text) : text :=
  match reverse l with
  | c :: r => if decide (c = carriage_return) then reverse r else l
  | [] => l
  end.

Fixpoint lines_from (cur : text) (s : text) : list text :=
  match s with
  | [] => if decide (cur = []) then [] else [reverse cur]
  | c :: r =>
      if decide (c = newline) then strip_cr (reverse cur) :: lines_from [] r
      else lines_from (c :: cur) r
  end.

Definition lines (s : text) : list text := lines_from [] s.

(** [s.trim_end_matches(c)] *)
Fixpoint drop_char (c : ascii) (s : text) : text :=
  match s with
  | x :: r => if decide (x = c) then drop_char c r else s
  | [] => []
  end.

Definition trim_end_matches (c : ascii) (s : text) : text := reverse (drop_char c (reverse s)).

(** [s.parse::<u{w}>().ok()]: an optional plus sign and at least one decimal digit;
    an overflow is an error. *)
Definition digit_val (c : ascii) : option Z :=
  let n := Z.of_nat (nat_of_ascii c) in
  if (48 <=? n) && (n <=? 57) then Some (n - 48) else None.

Fixpoint parse_digits (w : Z) (acc : Z) (s : text) : option Z :=
  match s with
  | [] => Some acc
  | c :: r =>
      match digit_val c with
      | Some d => let acc' := acc * 10 + d in
                  if decide (acc' < 2 ^ w) then parse_digits w acc' r else None
      | None => None
      end
  end.

Definition parse_uint (w : Z) (s : text) : option Z :=
  match s with
  | [] => None
  | ["+"%char] => None
  | "+"%char :: r => parse_digits w 0 r
  | _ => parse_digits w 0 s
  end.

(** ** Printing *)

(** [char::from_digit], with the lower case letters that [{:x}] uses. *)
Definition digit_char (d : Z) : ascii :=
  ascii_of_nat (Z.to_nat (if decide (d < 10) then 48 + d else 87 + d)).

(** The digits of [n] in base [radix], given at least as much fuel as it has digits. *)
Fixpoint digits (radix : Z) (fuel : nat) (n : Z) : text :=
  match fuel with
  | O => []
  | S f => if decide (n < radix) then [digit_char n]
           else digits radix f (n / radix) ++ [digit_char (n mod radix)]
  end.

Definition print_radix (radix n : Z) : text := digits radix (Z.to_nat (Z.log2 n) + 1) n.
Definition print_uint (n : Z) : text := print_radix 10 n.

(** ** Lemmas *)

Definition in_radix (radix d : Z) : Prop := 0 <= d < radix.

(** The number that a list of digits denotes. *)
Definition horner (radix acc : Z) (ds : list Z) : Z := foldl (fun a d => a * radix + d) acc ds.

(** Case analysis on a digit. *)
Lemma digit_cases d : in_radix 16 d -> d ∈ (Z.of_nat <$> seq 0 16).
Proof.
  intros [H1 H2]. apply list_elem_of_fmap. exists (Z.to_nat d). split; [lia|].
  apply elem_of_seq. lia.
Qed.

Ltac by_digit d :=
  match goal with H : in_radix _ d |- _ =>
    let E := fresh in
    assert (E : in_radix 16 d) by (unfold in_radix in *; lia);
    apply digit_cases in E; unfold in_radix in *; cbn in E;
    repeat (apply list.elem_of_cons in E as [E|E]); [subst d; try lia; try reflexivity..|by apply elem_of_nil in E]
  end.

Lemma digit_val_char d : in_radix 10 d -> digit_val (digit_char d) = Some d.
Proof. intros Hd. by_digit d. Qed.

Lemma digit_char_plain d : in_radix 16 d -> is_whitespace (digit_char d) = false.
Proof. intros Hd. by_digit d. Qed.

Lemma horner_app radix acc l1 l2 :
  horner radix acc (l1 ++ l2) = horner radix (horner radix acc l1) l2.
Proof. apply foldl_app. Qed.

(** What printing produces: the digits, most significant first, of the number, as few
    as possible. *)
Lemma digits_spec radix fuel n :
  2 <= radix -> 0 <= n < 2 ^ Z.of_nat fuel -> (0 < fuel)%nat ->
  exists ds, digits radix fuel n = digit_char <$> ds /\ Forall (in_radix radix) ds /\
    horner radix 0 ds = n /\ ds <> [] /\
    (forall k, (0 < k)%nat -> n < radix ^ Z.of_nat k -> (length ds <= k)%nat) /\
    (head ds = Some 0 -> ds = [0]).
Proof.
  intros Hr. revert n. induction fuel as [|f IH]; intros n [Hn Hlt] Hf; [lia|]. cbn [digits].
  case_decide as Hs.
  { exists [n]. split_and!; try done.
    - by apply list.Forall_singleton.
    - by intros [= ->]. }
  pose proof (Z.div_mod n radix ltac:(lia)) as Hdm. pose proof (Z.mod_pos_bound n radix ltac:(lia)).
  assert (Hq : 0 < n / radix) by (apply Z.div_str_pos; lia).
  assert (Hlt' : n / radix < 2 ^ Z.of_nat f).
  { rewrite Nat2Z.inj_succ, Z.pow_succ_r in Hlt by lia. apply Z.div_lt_upper_bound; [lia|]. nia. }
  assert (Hf' : (0 < f)%nat) by (destruct f; [cbn in Hlt'; lia|lia]).
  destruct (IH (n / radix)) as (ds & -> & H1 & H2 & H3 & H4 & H5); [lia|done|].
  exists (ds ++ [n mod radix]). rewrite fmap_app, horner_app, H2. split_and!; try done.
  - apply Forall_app. split; [done|]. by apply list.Forall_singleton.
  - unfold horner. cbn [foldl]. lia.
  - by destruct ds.
  - intros k Hk Hnk. rewrite length_app. cbn. destruct k as [|k]; [lia|].
    destruct (decide (k = 0)%nat) as [->|].
    { cbn in Hnk. lia. }
    enough (length ds <= k)%nat by lia. apply H4; [lia|].
    rewrite Nat2Z.inj_succ, Z.pow_succ_r in Hnk by lia. apply Z.div_lt_upper_bound; lia.
  - destruct ds as [|d ds]; [done|]. cbn. intros E. specialize (H5 E). injection H5 as -> ->.
    cbn in H2. lia.
Qed.

Lemma print_radix_spec radix n : 2 <= radix -> 0 <= n ->
  exists ds, print_radix radix n = digit_char <$> ds /\ Forall (in_radix radix) ds /\
    horner radix 0 ds = n /\ ds <> [] /\
    (forall k, (0 < k)%nat -> n < radix ^ Z.of_nat k -> (length ds <= k)%nat) /\
    (head ds = Some 0 -> ds = [0]).
Proof.
  intros Hr Hn. apply digits_spec; [done| |lia]. split; [done|].
  rewrite Nat2Z.inj_add, Z2Nat.id by apply Z.log2_nonneg.
  destruct (decide (n = 0)) as [->|]; [done|]. apply Z.log2_spec. lia.
Qed.

Lemma horner_mono radix acc ds :
  1 <= radix -> Forall (in_radix radix) ds -> 0 <= acc -> acc <= horner radix acc ds.
Proof.
  intros Hr Hds. revert acc. induction Hds as [|d ds [Hd _] _ IH]; intros acc Ha; cbn; [lia|].
  etransitivity; [|apply IH; nia]. nia.
Qed.

Lemma parse_digits_horner w acc ds :
  Forall (in_radix 10) ds -> 0 <= acc -> horner 10 acc ds < 2 ^ w ->
  parse_digits w acc (digit_char <$> ds) = Some (horner 10 acc ds).
Proof.
  intros Hds. revert acc. induction Hds as [|d ds Hd Hds IH]; intros acc Ha Hlt; [done|].
  cbn. rewrite digit_val_char by done. pose proof Hd as [Hd0 _].
  pose proof (horner_mono 10 (acc * 10 + d) ds ltac:(lia) Hds ltac:(lia)). cbn in Hlt.
  rewrite decide_True by (unfold horner in *; lia). apply IH; [lia|done].
Qed.

(** Printing and parsing an integer that fits the width. *)
Lemma parse_print_uint w n : fits w n -> 0 <= w -> parse_uint w (print_uint n) = Some n.
Proof.
  intros [Hn Hw] Hw0. unfold print_uint.
  destruct (print_radix_spec 10 n ltac:(lia) Hn) as (ds & -> & H1 & H2 & H3 & _).
  pose proof (parse_digits_horner w 0 ds H1 ltac:(lia) ltac:(lia)) as Hp. rewrite H2 in Hp.
  destruct ds as [|d ds]; [done|]. apply Forall_cons_1 in H1 as [Hd _]. cbn in *.
  assert (Hc : digit_char d <> "+"%char) by (clear -Hd; by_digit d; done).
  destruct (digit_char d) as [b0 b1 b2 b3 b4 b5 b6 b7].
  unfold parse_uint. destruct b0, b1, b2, b3, b4, b5, b6, b7; try done.
Qed.

Lemma print_chars radix (P : ascii -> Prop) n :
  2 <= radix -> 0 <= n -> (forall d, in_radix radix d -> P (digit_char d)) ->
  Forall P (print_radix radix n).
Proof.
  intros Hr Hn HP. destruct (print_radix_spec radix n Hr Hn) as (ds & -> & H1 & _).
  apply Forall_fmap. by eapply Forall_impl.
Qed.

Lemma print_radix_nonempty radix n : 2 <= radix -> 0 <= n -> print_radix radix n <> [].
Proof.
  intros Hr Hn. destruct (print_radix_spec radix n Hr Hn) as (ds & -> & _ & _ & H3 & _).
  by destruct ds.
Qed.
