(* ===== verification/Utf8.v ===== *)
(** * UTF-8 text

    The parts of Rust's [str] the examples use on text that is not only ASCII, on its octets:
    [str::from_utf8] (whether octets are valid), [String::from_utf8_lossy] and
    [str::trim_end]. *)

From S2P Require Import Prelude.
#[local] Open Scope Z_scope.

Definition between (lo hi : Z) (b : byte) : bool := (lo <=? byte_val b) && (byte_val b <=? hi).
Definition cont : byte -> bool := between 0x80 0xBF.

(** How long the character is that starts with the octet; 0 if none does. *)
Definition utf8_char_width (b : byte) : nat :=
  if between 0 0x7F b then 1 else if between 0xC2 0xDF b then 2
  else if between 0xE0 0xEF b then 3 else if between 0xF0 0xF4 b then 4 else 0.

(** The second octets of the longer characters: no overlong forms, surrogates or code
    points above U+10FFFF. *)
Definition second_ok (lead b : byte) : bool :=
  if decide (byte_val lead = 0xE0) then between 0xA0 0xBF b
  else if decide (byte_val lead = 0xED) then between 0x80 0x9F b
  else if decide (byte_val lead = 0xF0) then between 0x90 0xBF b
  else if decide (byte_val lead = 0xF4) then between 0x80 0x8F b
  else cont b.

(** [safe_get] *)
Definition octet (s : bytes) (i : nat) : byte := default x00 (s !! i).

(** The next piece of the text: its length, and whether it is a character ([true]) or the
    longest beginning of one that is broken off ([false]). *)
Definition utf8_next (s : bytes) : nat * bool :=
  let lead := octet s 0 in
  match utf8_char_width lead with
  | 1%nat => (1%nat, true)
  | 2%nat => if cont (octet s 1) then (2%nat, true) else (1%nat, false)
  | 3%nat =>
      if second_ok lead (octet s 1) then if cont (octet s 2) then (3%nat, true) else (2%nat, false)
      else (1%nat, false)
  | 4%nat =>
      if second_ok lead (octet s 1) then
        if cont (octet s 2) then if cont (octet s 3) then (4%nat, true) else (3%nat, false) else (2%nat, false)
      else (1%nat, false)
  | _ => (1%nat, false)
  end.

(** The pieces of a text; every piece has an octet. *)
Fixpoint utf8_pieces (fuel : nat) (s : bytes) : list (bytes * bool) :=
  match fuel, s with
  | S fuel', _ :: _ => let '(n, ok) := utf8_next s in (take n s, ok) :: utf8_pieces fuel' (drop n s)
  | _, _ => []
  end.
Definition pieces (s : bytes) : list (bytes * bool) := utf8_pieces (length s) s.

Definition valid_utf8 (s : bytes) : bool := forallb snd (pieces s).

(** U+FFFD *)
Definition REPLACEMENT : bytes := [xef; xbf; xbd].

Definition from_utf8_lossy (s : bytes) : bytes :=
  concat ((fun p => if (snd p : bool) then fst p else REPLACEMENT) <$> pieces s).

(** The white space at the end of a text, of which these are the octets in reverse. *)
Definition white_end (r : bytes) : nat :=
  match r with
  | b :: _ =>
      if between 0x09 0x0D b || bool_decide (b = x20) then 1
      else match r with
      | x85 :: xc2 :: _ | xa0 :: xc2 :: _ => 2
      | x80 :: x9a :: xe1 :: _ | xa8 :: x80 :: xe2 :: _ | xa9 :: x80 :: xe2 :: _
      | xaf :: x80 :: xe2 :: _ | x9f :: x81 :: xe2 :: _ | x80 :: x80 :: xe3 :: _ => 3
      | b :: x80 :: xe2 :: _ => if between 0x80 0x8A b then 3 else 0
      | _ => 0
      end
  | [] => 0
  end.

Fixpoint drop_white (fuel : nat) (r : bytes) : bytes :=
  match fuel with
  | O => r
  | S fuel' => match white_end r with O => r | n => drop_white fuel' (drop n r) end
  end.

(** [str::trim_end] *)
Definition trim_end (s : bytes) : bytes := reverse (drop_white (length s) (reverse s)).

(** ** Lemmas *)

Lemma utf8_next_range s : s <> [] -> (1 <= (utf8_next s).1)%nat.
Proof. intros _. unfold utf8_next. repeat (case_match; cbn; try lia). Qed.

Lemma utf8_pieces_concat fuel s : (length s <= fuel)%nat -> concat (utf8_pieces fuel s).*1 = s.
Proof.
  revert s. induction fuel as [|fuel IH]; intros [|b s] Hf; cbn in *; try done; [lia|].
  pose proof (utf8_next_range (b :: s)) as Hn. destruct (utf8_next (b :: s)) as [n ok]. cbn in *.
  rewrite IH; [by rewrite take_drop|]. rewrite length_drop. cbn. specialize (Hn ltac:(done)). lia.
Qed.

(** A text that is valid is shown as it is, and octets that are not keep their valid parts. *)
Lemma lossy_valid s : valid_utf8 s = true -> from_utf8_lossy s = s.
Proof.
  intros Hv. unfold from_utf8_lossy, valid_utf8 in *. rewrite <- (utf8_pieces_concat (length s) s) at 2 by done.
  unfold pieces in *. f_equal. induction (utf8_pieces (length s) s) as [|[p ok] l IH]; [done|].
  cbn in *. apply andb_prop in Hv as [-> Hv]. by rewrite IH.
Qed.

Example utf8_examples :
  valid_utf8 [x68; xc3; xa9; xe2; x82; xac; xf0; x9f; x8e; x89] = true /\
  valid_utf8 [xc3] = false /\ valid_utf8 [xed; xa0; x80] = false /\ valid_utf8 [xc0; xaf] = false /\
  from_utf8_lossy [x61; xe2; x82; x62] = [x61; xef; xbf; xbd; x62] /\
  trim_end [x61; x20; xc2; xa0; x0d; x0a] = [x61] /\ trim_end [x0a] = [].
Proof. by vm_compute. Qed.

Lemma drop_white_suffix fuel r : exists w, r = w ++ drop_white fuel r.
Proof.
  revert r. induction fuel as [|fuel IH]; intros r; cbn; [by exists []|].
  destruct (white_end r) as [|n]; [by exists []|]. destruct (IH (drop (S n) r)) as [w Hw].
  exists (take (S n) r ++ w). by rewrite <- app_assoc, <- Hw, take_drop.
Qed.

Lemma trim_end_prefix s : trim_end s `prefix_of` s.
Proof.
  unfold trim_end. destruct (drop_white_suffix (length s) (reverse s)) as [w Hw].
  exists (reverse w). by rewrite <- reverse_app, <- Hw, reverse_involutive.
Qed.
