(* ===== verification/Sys.v ===== *)
(** * Operating system calls

    The parts of the program that set up processes, namespaces, sockets and the TAP
    device are sequences of system calls with an early return after each.  Here such a
    sequence is a value of type [prog]: a tree whose nodes are the calls ([sysE]) and
    whose branches are their answers.  The kernel, the standard library's wrappers of
    its calls and the crates that only issue them are a type class [Posix] that answers
    calls; what their documentation promises about descriptors, children and namespaces
    is the law [PosixLaws], stated on the calling process's view of the kernel.

    [wp] is the weakest precondition of a program against every kernel that obeys the
    law.  It also asks that each call is made on descriptors that are open, so that a
    proof of it excludes use after close and double close.  All programs here terminate
    by construction. *)

From Stdlib Require Import Ascii.
From S2P Require Import Prelude Net Stream Text.
#[local] Open Scope Z_scope.

(** ** Constants of libc (Linux) *)

Definition AF_UNIX : Z := 1.
Definition AF_INET : Z := 2.
Definition SOCK_STREAM : Z := 1.
Definition SOCK_DGRAM : Z := 2.
Definition SOCK_CLOEXEC : Z := 524288.
Definition SOL_SOCKET : Z := 1.
Definition SO_SNDBUF : Z := 7.
Definition SO_RCVBUF : Z := 8.
Definition F_GETFD : Z := 1.
Definition F_SETFD : Z := 2.
Definition F_GETFL : Z := 3.
Definition F_SETFL : Z := 4.
Definition FD_CLOEXEC : Z := 1.
Definition O_NONBLOCK : Z := 2048.
Definition CLONE_NEWUSER : Z := 268435456.
Definition CLONE_NEWNET : Z := 1073741824.
Definition IFNAMSIZ : nat := 16.

Definition has_cloexec (flags : Z) : bool := Z.testbit flags 19.

(** ** Answers *)

(** What a libc function returns, with the value of [errno] after it. *)
Record cret := CRet { cr_val : Z; cr_errno : io_error }.

(** [if ret < 0 { return Err(io::Error::last_os_error()) }] *)
Definition check (r : cret) : result Z :=
  if decide (cr_val r < 0) then Err (cr_errno r) else Ok (cr_val r).

(** [struct sockaddr_un] *)
Record sockaddr_un := SockaddrUn { sun_family : Z; sun_path : bytes }.

(** ** Calls *)

Inductive sysE : Type -> Type :=
| SysSocket (domain ty protocol : Z) : sysE cret
| SysSocketpair (domain ty protocol : Z) : sysE (cret * (Z * Z))
| SysSetsockopt (fd level opt value : Z) : sysE cret
| SysBind (fd : Z) (addr : sockaddr_un) : sysE cret
| SysListen (fd backlog : Z) : sysE cret
| SysAccept4 (fd flags : Z) : sysE cret
| SysConnect (fd : Z) (addr : sockaddr_un) : sysE cret
| SysFcntl (fd cmd arg : Z) : sysE cret
| SysDup (fd : Z) : sysE cret
| SysClose (fd : Z) : sysE cret
  (* ioctl with a struct ifreq, with an int *)
| SysIoctlIfreq (fd request : Z) (ifr : bytes) : sysE cret
| SysIoctlInt (fd request value : Z) : sysE cret
  (* std: File::open and OpenOptions (opened with O_CLOEXEC), fs::remove_file *)
| SysOpen (path : text) : sysE (result Z)
| SysRemoveFile (path : text) : sysE (result unit)
  (* nix: setns *)
| SysSetns (fd nstype : Z) : sysE (string + unit)
  (* std: UnixStream: blocking reads and writes, the read timeout, set_nonblocking *)
| SysStream {B : Type} (fd : Z) (f : rstream * wstream -> B * (rstream * wstream)) : sysE B
| SysReadTimeout (fd : Z) (millis : option Z) : sysE (result unit)
| SysNonblocking (fd : Z) : sysE (result unit)
  (* tokio: registration of a descriptor with the reactor; a new runtime, with the
     descriptors of its reactor *)
| SysRegister (fd : Z) : sysE (result unit)
| SysRuntime : sysE (result (list Z))
  (* std: environment and processes *)
| SysCurrentExe : sysE (result text)
| SysVar (name : text) : sysE (option text)
| SysTryExists (path : text) : sysE (result bool)
| SysOutput (cmd : text) (args : list text) : sysE (result (bool * text))
| SysSpawn (path : text) (args : list text) : sysE (result Z)
  (* netconfig_rs: the index of a named interface; operations on it *)
| SysIfIndex (name : text) : sysE (string + Z)
| SysIfAddAddress (index : Z) (addr : IpAddr) (prefix_len : Z) : sysE (string + unit)
| SysIfSetMtu (index mtu : Z) : sysE (string + unit)
| SysIfSetUp (index : Z) : sysE (string + unit)
| SysIfHwaddress (index : Z) : sysE (string + array 6)
  (* rtnetlink: new_connection, with its netlink socket *)
| SysRtnetlink : sysE (string + Z).

(** ** Programs *)

Inductive prog (A : Type) :=
| Return (a : A)
| Perform {X : Type} (e : sysE X) (k : X -> prog A).
Arguments Return {A} a.
Arguments Perform {A X} e k.

Fixpoint prog_bind_def {A B} (f : A -> prog B) (p : prog A) : prog B :=
  match p with
  | Return a => f a
  | Perform e k => Perform e (fun x => prog_bind_def f (k x))
  end.

#[global] Instance prog_ret : MRet prog := fun A a => Return a.
#[global] Instance prog_bind : MBind prog := fun A B f p => prog_bind_def f p.

Definition perform {X} (e : sysE X) : prog X := Perform e Return.

(** A libc call and the test of its result. *)
Definition checked (e : sysE cret) : prog (result Z) := r ← perform e; Return (check r).

(** Dropping owned descriptors: the last declared first. *)
Fixpoint drop_fds (owned : list Z) : prog unit :=
  match owned with
  | [] => Return ()
  | fd :: r => _ ← perform (SysClose fd); drop_fds r
  end.

(** [p?] in a scope that owns the descriptors [owned]: an early return drops them. *)
Definition try_owning {A B} (owned : list Z) (p : prog (result A)) (k : A -> prog (result B))
  : prog (result B) :=
  r ← p;
  match r with
  | Ok a => k a
  | Err e => _ ← drop_fds owned; Return (Err e)
  end.

Notation "'let?' x ':=' p 'owning' l 'in' k" := (try_owning l p (fun x => k))
  (at level 10, x pattern, p at level 99, l at level 99, k at level 200, only parsing).
Notation "'let?' x ':=' p 'in' k" := (try_owning [] p (fun x => k))
  (at level 10, x pattern, p at level 99, k at level 200, only parsing).

(** [map_err(|e| io::Error::other(e.to_string()))] and the like *)
Definition map_err {A} (f : string -> io_error) (r : string + A) : result A :=
  match r with inl e => Err (f e) | inr a => Ok a end.
Definition other (e : string) : io_error := IoError OtherError e.

(** ** The process's view of the kernel *)

(** ioctl request code for TUNSETIFF *)
Definition TUNSETIFF : Z := 1074025674.

(** A namespace that was joined: the type asked for, and the file (the path it was opened
    by, when it was) that the call was given to say whose it is. *)
Definition namespace : Type := Z * option text.

(** A TAP interface: the [struct ifreq] it was created with and the namespaces the
    process had joined then. *)
Record tun := Tun { tun_ifr : bytes; tun_joined : list namespace }.

(** A child process: what it runs and the descriptors it inherited. *)
Record kid := Kid { kid_path : text; kid_args : list text; kid_fds : gset Z }.

(** [fds] maps an open descriptor to its close-on-exec flag and the open file behind it
    (which [dup] shares); files are numbered in the order they were opened, and [paths]
    are those that were opened by a path.  [kids] are the children not yet waited for. *)
Record pview := PView {
  fds : gmap Z (bool * nat); next_file : nat; paths : gmap nat text; nonblock : gset nat;
  tuns : gmap nat tun; kids : gmap Z kid; joined : list namespace; removed : list text
}.

Definition set_fds (m : gmap Z (bool * nat)) (v : pview) : pview :=
  PView m (next_file v) (paths v) (nonblock v) (tuns v) (kids v) (joined v) (removed v).
Definition new_fd (cloexec : bool) (fd : Z) (v : pview) : pview :=
  PView (<[fd := (cloexec, next_file v)]> (fds v)) (S (next_file v)) (paths v) (nonblock v) (tuns v)
    (kids v) (joined v) (removed v).
Definition open_file (path : text) (fd : Z) (v : pview) : pview :=
  PView (<[fd := (true, next_file v)]> (fds v)) (S (next_file v)) (<[next_file v := path]> (paths v))
    (nonblock v) (tuns v) (kids v) (joined v) (removed v).
Definition set_nonblock (b : bool) (fd : Z) (v : pview) : pview :=
  match fds v !! fd with
  | Some (_, f) =>
      PView (fds v) (next_file v) (paths v) (if b then {[f]} ∪ nonblock v else nonblock v ∖ {[f]})
        (tuns v) (kids v) (joined v) (removed v)
  | None => v
  end.
Definition add_tun (fd : Z) (ifr : bytes) (v : pview) : pview :=
  match fds v !! fd with
  | Some (_, f) =>
      PView (fds v) (next_file v) (paths v) (nonblock v) (<[f := Tun ifr (joined v)]> (tuns v)) (kids v)
        (joined v) (removed v)
  | None => v
  end.
Definition add_kid (pid : Z) (path : text) (args : list text) (v : pview) : pview :=
  PView (fds v) (next_file v) (paths v) (nonblock v) (tuns v)
    (<[pid := Kid path args (dom (filter (fun p => p.2.1 = false) (fds v)))]> (kids v))
    (joined v) (removed v).
(** The path of the file behind a descriptor. *)
Definition path_of (fd : Z) (v : pview) : option text := p ← fds v !! fd; paths v !! p.2.
Definition join_ns (fd ns : Z) (v : pview) : pview :=
  PView (fds v) (next_file v) (paths v) (nonblock v) (tuns v) (kids v)
    (joined v ++ [(ns, path_of fd v)]) (removed v).
Definition add_removed (path : text) (v : pview) : pview :=
  PView (fds v) (next_file v) (paths v) (nonblock v) (tuns v) (kids v) (joined v) (removed v ++ [path]).

(** ** What the documentation promises *)

(** The descriptor a call is made on is open. *)
Definition usable {X} (e : sysE X) (v : pview) : Prop :=
  match e with
  | SysSetsockopt fd _ _ _ | SysBind fd _ | SysListen fd _ | SysAccept4 fd _ | SysConnect fd _
  | SysFcntl fd _ _ | SysDup fd | SysClose fd | SysIoctlIfreq fd _ _ | SysIoctlInt fd _ _
  | SysSetns fd _ | SysStream fd _ | SysReadTimeout fd _ | SysNonblocking fd | SysRegister fd =>
      is_Some (fds v !! fd)
  | _ => True
  end.

(** A call that returns a new descriptor. *)
Definition opens (cloexec : bool) (r : result Z) (v v' : pview) : Prop :=
  match r with
  | Err _ => v' = v
  | Ok fd => fds v !! fd = None /\ v' = new_fd cloexec fd v
  end.

(** New descriptors, nothing being promised about their close-on-exec flags. *)
Fixpoint opened (l : list Z) (v v' : pview) : Prop :=
  match l with
  | [] => v' = v
  | fd :: r => fds v !! fd = None /\ exists c, opened r (new_fd c fd v) v'
  end.

(** A call that has the effect [f] when it succeeds. *)
Definition effect {A B} (f : pview -> pview) (r : B + A) (v v' : pview) : Prop :=
  v' = match r with inl _ => v | inr _ => f v end.
Definition res_sum {A} (r : result A) : io_error + A := match r with Ok a => inr a | Err e => inl e end.

Definition fcntl_allowed (fd cmd arg : Z) (r : result Z) (v v' : pview) : Prop :=
  match r with
  | Err _ => v' = v
  | Ok x =>
      if decide (cmd = F_GETFD) then v' = v /\ Some (Z.testbit x 0) = fst <$> fds v !! fd
      else if decide (cmd = F_SETFD) then
        v' = set_fds (alter (fun p => (Z.testbit arg 0, p.2)) fd (fds v)) v
      else if decide (cmd = F_SETFL) then v' = set_nonblock (Z.testbit arg 11) fd v
      else v' = v
  end.

Definition allowed {X} (e : sysE X) (v : pview) : X -> pview -> Prop :=
  match e in sysE X return X -> pview -> Prop with
  | SysSocket _ ty _ => fun r v' => opens (has_cloexec ty) (check r) v v'
  | SysSocketpair _ ty _ => fun '(r, (a, b)) v' =>
      match check r with
      | Err _ => v' = v
      | Ok _ => a <> b /\ fds v !! a = None /\ fds v !! b = None /\
                v' = new_fd (has_cloexec ty) b (new_fd (has_cloexec ty) a v)
      end
  | SysAccept4 _ flags => fun r v' => opens (has_cloexec flags) (check r) v v'
  | SysFcntl fd cmd arg => fun r v' => fcntl_allowed fd cmd arg (check r) v v'
  | SysDup fd => fun r v' =>
      match check r with
      | Err _ => v' = v
      | Ok fd' => fds v !! fd' = None /\
                  forall c f, fds v !! fd = Some (c, f) -> v' = set_fds (<[fd' := (false, f)]> (fds v)) v
      end
  | SysClose fd => fun _ v' => v' = set_fds (delete fd (fds v)) v
  | SysIoctlIfreq fd request ifr => fun r v' =>
      effect (if decide (request = TUNSETIFF) then add_tun fd ifr else id) (res_sum (check r)) v v'
  | SysOpen path => fun r v' =>
      match r with Err _ => v' = v | Ok fd => fds v !! fd = None /\ v' = open_file path fd v end
  | SysRemoveFile path => fun r v' => effect (add_removed path) (res_sum r) v v'
  | SysSetns fd ns => fun r v' => effect (join_ns fd ns) r v v'
  | SysStream _ f => fun b v' => v' = v /\ exists st, b = fst (f st)
  | SysNonblocking fd => fun r v' => effect (set_nonblock true fd) (res_sum r) v v'
  | SysSpawn path args => fun r v' =>
      match r with
      | Err _ => v' = v
      | Ok pid => kids v !! pid = None /\ v' = add_kid pid path args v
      end
  | SysRuntime => fun r v' => match r with Err _ => v' = v | Ok l => opened l v v' end
  | SysRtnetlink => fun r v' => match r with inl _ => v' = v | inr fd => opened [fd] v v' end
  | _ => fun _ v' => v' = v
  end.

Class Posix := {
  World : Type;
  pv : World -> pview;
  answer : forall {X}, sysE X -> World -> X * World;
}.

Class PosixLaws `{Posix} : Prop :=
  answer_allowed : forall X (e : sysE X) w, usable e (pv w) ->
    allowed e (pv w) (fst (answer e w)) (pv (snd (answer e w))).

(** ** Running a program *)

Section Run.
Context {OS : Posix}.

Fixpoint run {A} (p : prog A) (w : World) : A * World :=
  match p with
  | Return a => (a, w)
  | Perform e k => let '(x, w') := answer e w in run (k x) w'
  end.

(** No call of the run is made on a descriptor that is not open. *)
Fixpoint safe {A} (p : prog A) (w : World) : Prop :=
  match p with
  | Return _ => True
  | Perform e k => usable e (pv w) /\ let '(x, w') := answer e w in safe (k x) w'
  end.

End Run.

(** ** Weakest preconditions *)

Fixpoint wp {A} (p : prog A) (v : pview) (Q : A -> pview -> Prop) : Prop :=
  match p with
  | Return a => Q a v
  | Perform e k => usable e v /\ forall x v', allowed e v x v' -> wp (k x) v' Q
  end.

Lemma wp_mono {A} (p : prog A) v (Q R : A -> pview -> Prop) :
  (forall a v', Q a v' -> R a v') -> wp p v Q -> wp p v R.
Proof.
  intros HQR. revert v. induction p as [a|X e k IH]; cbn; [auto|].
  intros v [Hu Hk]. split; [done|]. eauto.
Qed.

Lemma wp_bind {A B} (p : prog A) (f : A -> prog B) v Q :
  wp p v (fun a v' => wp (f a) v' Q) -> wp (p ≫= f) v Q.
Proof.
  revert v. induction p as [a|X e k IH]; cbn; [auto|]. intros v [Hu Hk]. split; [done|].
  intros x v' Hx. apply IH. eauto.
Qed.

(** A component's specification used inside a larger program. *)
Lemma wp_use {A B} (p : prog A) (f : A -> prog B) v (R : A -> pview -> Prop) Q :
  wp p v R -> (forall a v', R a v' -> wp (f a) v' Q) -> wp (p ≫= f) v Q.
Proof. intros Hp Hf. apply wp_bind. eapply wp_mono; [|exact Hp]. auto. Qed.

Lemma wp_perform {X} (e : sysE X) v (Q : X -> pview -> Prop) :
  usable e v -> (forall x v', allowed e v x v' -> Q x v') -> wp (perform e) v Q.
Proof. done. Qed.

Lemma wp_checked (e : sysE cret) v (Q : result Z -> pview -> Prop) :
  usable e v -> (forall x v', allowed e v x v' -> Q (check x) v') -> wp (checked e) v Q.
Proof. done. Qed.

Lemma run_wp `{PosixLaws} {A} (p : prog A) w (Q : A -> pview -> Prop) :
  wp p (pv w) Q -> safe p w /\ Q (fst (run p w)) (pv (snd (run p w))).
Proof.
  revert w. induction p as [a|X e k IH]; cbn; [done|]. intros w [Hu Hk].
  pose proof (answer_allowed X e w Hu) as Ha. destruct (answer e w) as [x w']. cbn in Ha.
  destruct (IH x w') as [H1 H2]; [auto|]. done.
Qed.

(** Dropping descriptors that are open and distinct. *)
Lemma wp_drop_fds owned v (Q : unit -> pview -> Prop) :
  NoDup owned -> Forall (fun fd => is_Some (fds v !! fd)) owned ->
  Q () (foldl (fun v fd => set_fds (delete fd (fds v)) v) v owned) -> wp (drop_fds owned) v Q.
Proof.
  revert v. induction owned as [|fd owned IH]; intros v Hn Ho HQ; [done|].
  apply list.NoDup_cons in Hn as [Hfd Hn]. apply Forall_cons_1 in Ho as [Hopen Ho].
  cbn [drop_fds foldl] in *. apply wp_bind, wp_perform; [done|]. intros x v' ->.
  apply IH; [done| |done]. cbn. rewrite Forall_forall in Ho |- *. intros fd' Hin.
  rewrite lookup_delete_ne; [|intros ->; apply Hfd; by apply list_elem_of_In]. by apply Ho.
Qed.

Lemma wp_try {A B} owned (p : prog (result A)) (k : A -> prog (result B)) v Q :
  wp p v (fun r v' => match r with
                      | Ok a => wp (k a) v' Q
                      | Err e => wp (drop_fds owned) v' (fun _ v'' => Q (Err e) v'')
                      end) -> wp (try_owning owned p k) v Q.
Proof.
  intros Hp. apply wp_bind. eapply wp_mono; [|exact Hp]. intros [a|e] v' H'; [done|].
  apply wp_bind. by eapply wp_mono; [|exact H'].
Qed.

(** ** A kernel that obeys the law

    It fails the calls that its script says, in order, and serves all others: one stream
    of data for every descriptor, the files it knows, an interface with a fixed index. *)

Module ReferenceOs.

Record world := MkWorld {
  rv : pview; fails : list bool; io : rstream * wstream; files : list text
}.

Definition eperm : io_error := IoError PermissionDenied "Operation not permitted".

Definition used (v : pview) : gset nat := set_map (C:=gset Z) Z.to_nat (dom (fds v)).
Definition free_fd (v : pview) : Z := Z.of_nat (fresh (used v)).
Definition free_fd2 (v : pview) : Z := Z.of_nat (fresh ({[fresh (used v)]} ∪ used v)).
Definition free_pid (v : pview) : Z := fresh (C:=gset Z) (dom (kids v)).

Definition set_view (v : pview) (w : world) : world := MkWorld v (tl (fails w)) (io w) (files w).

(** The answer of a call that can fail: [bad], or [good] with the new view. *)
Definition serve {X} (w : world) (bad good : X) (v' : pview) : X * world :=
  if default false (head (fails w)) then (bad, set_view (rv w) w) else (good, set_view v' w).

Definition fcntl_value (fd cmd : Z) (v : pview) : Z :=
  if decide (cmd = F_GETFD) then match fds v !! fd with Some (true, _) => 1 | _ => 0 end else 0.
Definition fcntl_view (fd cmd arg : Z) (v : pview) : pview :=
  if decide (cmd = F_GETFD) then v
  else if decide (cmd = F_SETFD) then set_fds (alter (fun p => (Z.testbit arg 0, p.2)) fd (fds v)) v
  else if decide (cmd = F_SETFL) then set_nonblock (Z.testbit arg 11) fd v
  else v.
Definition dup_view (fd fd' : Z) (v : pview) : pview :=
  match fds v !! fd with Some (_, f) => set_fds (<[fd' := (false, f)]> (fds v)) v | None => v end.

Definition bad : cret := CRet (-1) eperm.
Definition good (x : Z) : cret := CRet x eperm.

Definition ref_answer {X} (e : sysE X) (w : world) : X * world :=
  let v := rv w in
  let fd' := free_fd v in
  match e in sysE X return X * world with
  | SysSocket _ ty _ => serve w bad (good fd') (new_fd (has_cloexec ty) fd' v)
  | SysSocketpair _ ty _ =>
      let fd2 := free_fd2 v in
      serve w (bad, (0, 0)) (good 0, (fd', fd2)) (new_fd (has_cloexec ty) fd2 (new_fd (has_cloexec ty) fd' v))
  | SysSetsockopt _ _ _ _ | SysBind _ _ | SysListen _ _ | SysConnect _ _ | SysIoctlInt _ _ _ =>
      serve w bad (good 0) v
  | SysAccept4 _ flags => serve w bad (good fd') (new_fd (has_cloexec flags) fd' v)
  | SysFcntl fd cmd arg => serve w bad (good (fcntl_value fd cmd v)) (fcntl_view fd cmd arg v)
  | SysDup fd => serve w bad (good fd') (dup_view fd fd' v)
  | SysClose fd => let v' := set_fds (delete fd (fds v)) v in (good 0, MkWorld v' (fails w) (io w) (files w))
  | SysIoctlIfreq fd request ifr =>
      serve w bad (good 0) ((if decide (request = TUNSETIFF) then add_tun fd ifr else id) v)
  | SysOpen path => serve w (Err eperm) (Ok fd') (open_file path fd' v)
  | SysRemoveFile path => serve w (Err eperm) (Ok ()) (add_removed path v)
  | SysSetns fd ns => serve w (inl "Operation not permitted"%string) (inr ()) (join_ns fd ns v)
  | SysStream _ f => let '(b, st) := f (io w) in (b, MkWorld v (fails w) st (files w))
  | SysReadTimeout _ _ | SysRegister _ => serve w (Err eperm) (Ok ()) v
  | SysRuntime =>
      let fd2 := free_fd2 v in serve w (Err eperm) (Ok [fd'; fd2]) (new_fd true fd2 (new_fd true fd' v))
  | SysNonblocking fd => serve w (Err eperm) (Ok ()) (set_nonblock true fd v)
  | SysCurrentExe => serve w (Err eperm) (Ok (String.list_ascii_of_string "/opt/app/bin/app")) v
  | SysVar _ => serve w None None v
  | SysTryExists path => serve w (Err eperm) (Ok (bool_decide (path ∈ files w))) v
  | SysOutput _ _ => serve w (Err eperm) (Ok (false, [])) v
  | SysSpawn path args => serve w (Err eperm) (Ok (free_pid v)) (add_kid (free_pid v) path args v)
  | SysIfIndex _ => serve w (inl "No such device"%string) (inr 5) v
  | SysIfAddAddress _ _ _ | SysIfSetMtu _ _ | SysIfSetUp _ =>
      serve w (inl "Operation not permitted"%string) (inr ()) v
  | SysIfHwaddress _ => serve w (inl "No such device"%string) (inr [# x02; x00; x00; x00; x00; x07]) v
  | SysRtnetlink => serve w (inl "Operation not permitted"%string) (inr fd') (new_fd true fd' v)
  end.

#[export] Instance os : Posix := {| World := world; pv := rv; answer := @ref_answer |}.

Lemma free_fd_fresh v : fds v !! free_fd v = None.
Proof.
  apply not_elem_of_dom. intros Hin. unfold free_fd in *.
  apply (is_fresh (used v)). unfold used at 2. apply elem_of_map. eexists. split; [|exact Hin]. lia.
Qed.

Lemma free_fd2_fresh v : fds v !! free_fd2 v = None /\ free_fd v <> free_fd2 v.
Proof.
  pose proof (is_fresh ({[fresh (used v)]} ∪ used v)) as Hf. unfold free_fd, free_fd2 in *. split.
  - apply not_elem_of_dom. intros Hin. apply Hf, elem_of_union_r. unfold used at 3. apply elem_of_map.
    eexists. split; [|exact Hin]. lia.
  - intros E. apply Hf, elem_of_union_l, elem_of_singleton. lia.
Qed.

Lemma free_pid_fresh v : kids v !! free_pid v = None.
Proof. apply not_elem_of_dom. apply (is_fresh (dom (kids v))). Qed.

Lemma check_good x : 0 <= x -> check (good x) = Ok x.
Proof. intros. unfold check. cbn. by rewrite decide_False by lia. Qed.

Lemma serve_cases {X} w (b g : X) v' (P : X -> pview -> Prop) :
  P b (rv w) -> P g v' -> P (fst (serve w b g v')) (rv (snd (serve w b g v'))).
Proof. unfold serve. by destruct (default _ _). Qed.

#[export] Instance os_laws : PosixLaws.
Proof.
  intros X e w Hu. cbn in *.
  assert (Hfd : 0 <= free_fd (rv w)) by (unfold free_fd; lia).
  pose proof (free_fd_fresh (rv w)). destruct (free_fd2_fresh (rv w)).
  destruct e; cbn [ref_answer]; try (apply serve_cases; cbn [allowed]; rewrite ?check_good by done; try done).
  - rewrite check_good by (unfold fcntl_value; repeat case_decide; repeat case_match; lia).
    unfold fcntl_value, fcntl_view, fcntl_allowed. repeat case_decide; try done. split; [done|].
    cbn in Hu. by destruct Hu as [[[] g] ->].
  - split; [done|]. intros c g E. unfold dup_view. by rewrite E.
  - done.
  - destruct (f (io w)) as [b st] eqn:E. cbn. split; [done|]. exists (io w). by rewrite E.
  - split; [done|]. exists true. split; [|by exists true]. cbn. by rewrite lookup_insert_ne.
  - split; [apply free_pid_fresh|done].
  - split; [done|by exists true].
Qed.

End ReferenceOs.
