(* ===== verification/SysFrame.v ===== *)
(** * Ownership of descriptors

    [frame o v v']: between the views [v] and [v'] the process gained exactly the
    descriptors [o], all of them new, and changed nothing about the others.  It is what
    a function that opens and closes descriptors guarantees to its caller; the rules say
    how each call changes what is owned. *)

From S2P Require Import Prelude Net Stream Text Sys.
#[local] Open Scope Z_scope.

Record frame (o : gset Z) (v v' : pview) : Prop := MkFrame {
  frame_other : forall fd, fd ∉ o -> fds v' !! fd = fds v !! fd;
  frame_owned : forall fd, fd ∈ o -> fds v !! fd = None /\
    exists c f, fds v' !! fd = Some (c, f) /\ (next_file v <= f)%nat;
  frame_next : (next_file v <= next_file v')%nat;
  frame_tuns : forall f, (f < next_file v)%nat -> tuns v' !! f = tuns v !! f
}.

(** The rest of the view that most calls leave alone. *)
Definition calm (v v' : pview) : Prop :=
  kids v' = kids v /\ joined v' = joined v /\ tuns v' = tuns v.

(** Every open descriptor has a file that was opened. *)
Definition files_ok (v : pview) : Prop :=
  forall fd c f, fds v !! fd = Some (c, f) -> (f < next_file v)%nat.

Lemma calm_refl v : calm v v.
Proof. done. Qed.
Lemma calm_trans v1 v2 v3 : calm v1 v2 -> calm v2 v3 -> calm v1 v3.
Proof. unfold calm. intros (-> & -> & ->) (-> & -> & ->). done. Qed.
#[export] Instance calm_preorder : PreOrder calm.
Proof. split; [exact calm_refl|exact calm_trans]. Qed.

Lemma frame_refl v : frame ∅ v v.
Proof. constructor; [done|set_solver|done|done]. Qed.

Lemma frame_open o v v' fd : frame o v v' -> fd ∈ o -> is_Some (fds v' !! fd).
Proof. intros F Hin. destruct (frame_owned _ _ _ F fd Hin) as (_ & c & f & -> & _). eauto. Qed.

Lemma frame_fds v v' : frame ∅ v v' -> fds v' = fds v.
Proof. intros F. apply map_eq. intros fd. apply (frame_other _ _ _ F). set_solver. Qed.

Lemma frame_fresh o v v' fd : frame o v v' -> fds v' !! fd = None -> (fd ∉ o) /\ fds v !! fd = None.
Proof.
  intros F Hn. assert (Ho : fd ∉ o).
  { intros Hin. destruct (frame_open _ _ _ fd F Hin) as [x Hx]. congruence. }
  split; [done|]. by rewrite <- (frame_other _ _ _ F fd Ho).
Qed.

Lemma frame_kept o v v' fd : frame o v v' -> is_Some (fds v !! fd) -> is_Some (fds v' !! fd).
Proof.
  intros F [x Hx]. destruct (decide (fd ∈ o)) as [Hin|Hin]; [by eapply frame_open|].
  rewrite (frame_other _ _ _ F fd Hin). eauto.
Qed.

Lemma frame_new o v v' c fd :
  frame o v v' -> fds v' !! fd = None -> frame ({[fd]} ∪ o) v (new_fd c fd v').
Proof.
  intros F Hn. destruct (frame_fresh _ _ _ _ F Hn) as [Ho Hv].
  pose proof (frame_next _ _ _ F). constructor; cbn.
  - intros fd' Hfd'. rewrite lookup_insert_ne by set_solver. apply (frame_other _ _ _ F). set_solver.
  - intros fd' [->%elem_of_singleton|Hin]%elem_of_union.
    + split; [done|]. eexists _, _. rewrite lookup_insert_eq. done.
    + rewrite lookup_insert_ne by set_solver. by apply (frame_owned _ _ _ F).
  - lia.
  - by apply (frame_tuns _ _ _ F).
Qed.

Lemma frame_open_file o v v' path fd :
  frame o v v' -> fds v' !! fd = None -> frame ({[fd]} ∪ o) v (open_file path fd v').
Proof. intros F Hn. by destruct (frame_new o v v' true fd F Hn). Qed.

Lemma frame_close o v v' fd :
  frame o v v' -> fd ∈ o -> frame (o ∖ {[fd]}) v (set_fds (delete fd (fds v')) v').
Proof.
  intros F Hin. constructor; cbn.
  - intros fd' Hfd'. destruct (decide (fd' = fd)) as [->|Hne].
    + rewrite lookup_delete_eq. symmetry. by apply (frame_owned _ _ _ F).
    + rewrite lookup_delete_ne by done. apply (frame_other _ _ _ F). set_solver.
  - intros fd' Hfd'. rewrite lookup_delete_ne by set_solver. apply (frame_owned _ _ _ F). set_solver.
  - apply (frame_next _ _ _ F).
  - apply (frame_tuns _ _ _ F).
Qed.

Lemma frame_dup o v v' fd fd' c f :
  frame o v v' -> fd ∈ o -> fds v' !! fd = Some (c, f) -> fds v' !! fd' = None ->
  frame ({[fd']} ∪ o) v (set_fds (<[fd' := (false, f)]> (fds v')) v').
Proof.
  intros F Hin Hfd Hn. destruct (frame_fresh _ _ _ _ F Hn) as [Ho Hv].
  destruct (frame_owned _ _ _ F fd Hin) as (_ & c0 & f0 & E & Hf). rewrite Hfd in E. injection E as <- <-.
  constructor; cbn; [| |apply (frame_next _ _ _ F)|apply (frame_tuns _ _ _ F)].
  - intros x Hx. rewrite lookup_insert_ne by set_solver. apply (frame_other _ _ _ F). set_solver.
  - intros x [->%elem_of_singleton|Hx]%elem_of_union.
    + split; [done|]. eexists _, _. by rewrite lookup_insert_eq.
    + rewrite lookup_insert_ne by set_solver. by apply (frame_owned _ _ _ F).
Qed.

Lemma frame_cloexec o v v' fd b :
  frame o v v' -> fd ∈ o -> frame o v (set_fds (alter (fun p => (b, p.2)) fd (fds v')) v').
Proof.
  intros F Hin. constructor; cbn; [| |apply (frame_next _ _ _ F)|apply (frame_tuns _ _ _ F)].
  - intros x Hx. rewrite lookup_alter_ne by set_solver. by apply (frame_other _ _ _ F).
  - intros x Hx. destruct (frame_owned _ _ _ F x Hx) as (Hn & c & f & E & Hf). split; [done|].
    destruct (decide (x = fd)) as [->|Hne].
    + exists b, f. rewrite lookup_alter_eq, E. done.
    + exists c, f. by rewrite lookup_alter_ne.
Qed.

Lemma frame_nonblock o v v' b fd : frame o v v' -> frame o v (set_nonblock b fd v').
Proof. intros F. unfold set_nonblock. destruct (fds v' !! fd) as [[c f]|]; [|done]. by destruct F. Qed.

Lemma frame_tun o v v' fd ifr : frame o v v' -> fd ∈ o -> frame o v (add_tun fd ifr v').
Proof.
  intros F Hin. unfold add_tun.
  destruct (frame_owned _ _ _ F fd Hin) as (_ & c & f & -> & Hf).
  destruct F as [F1 F2 F3 F4]. constructor; cbn; [done..|].
  intros g Hg. rewrite lookup_insert_ne by lia. by apply F4.
Qed.

Lemma frame_join o v v' fd ns : frame o v v' -> frame o v (join_ns fd ns v').
Proof. by intros []. Qed.
Lemma frame_kid o v v' pid path args : frame o v v' -> frame o v (add_kid pid path args v').
Proof. by intros []. Qed.
Lemma frame_removed o v v' path : frame o v v' -> frame o v (add_removed path v').
Proof. by intros []. Qed.

Lemma frame_trans o1 o2 v1 v2 v3 : frame o1 v1 v2 -> frame o2 v2 v3 -> frame (o2 ∪ o1) v1 v3.
Proof.
  intros F G. pose proof (frame_next _ _ _ F). pose proof (frame_next _ _ _ G). constructor.
  - intros fd Hfd. rewrite (frame_other _ _ _ G), (frame_other _ _ _ F); set_solver.
  - intros fd Hfd. destruct (decide (fd ∈ o2)) as [H2|H2].
    + destruct (frame_owned _ _ _ G fd H2) as (Hn & c & f & E & Hf).
      split; [by eapply frame_fresh|]. exists c, f. split; [done|lia].
    + rewrite (frame_other _ _ _ G fd H2). apply (frame_owned _ _ _ F). set_solver.
  - lia.
  - intros f Hf. rewrite (frame_tuns _ _ _ G), (frame_tuns _ _ _ F) by lia. done.
Qed.

Lemma frame_eq o o' v v' : frame o v v' -> o = o' -> frame o' v v'.
Proof. by intros F <-. Qed.

(** Closing a descriptor that was open from the start. *)
Lemma frame_close_base o v v' fd :
  frame o v v' -> is_Some (fds v !! fd) ->
  frame o (set_fds (delete fd (fds v)) v) (set_fds (delete fd (fds v')) v').
Proof.
  intros F [x Hx].
  assert (Ho : fd ∉ o) by (intros Hin; destruct (frame_owned _ _ _ F fd Hin) as [Hn _]; congruence).
  constructor; cbn; [| |apply (frame_next _ _ _ F)|apply (frame_tuns _ _ _ F)].
  - intros fd' Hfd'. destruct (decide (fd' = fd)) as [->|Hne]; [by rewrite !lookup_delete_eq|].
    rewrite !lookup_delete_ne by done. by apply (frame_other _ _ _ F).
  - intros fd' Hfd'. rewrite !lookup_delete_ne by set_solver. by apply (frame_owned _ _ _ F).
Qed.

(** Several new descriptors. *)
Lemma frame_opened l o v v1 v' :
  frame o v v1 -> opened l v1 v' ->
  frame (list_to_set l ∪ o) v v' /\ calm v1 v' /\ NoDup l /\ Forall (fun fd => fd ∉ o) l.
Proof.
  revert o v1. induction l as [|fd l IH]; intros o v1 F Ho; cbn [opened] in Ho.
  { subst v'. split_and!; try done; [|constructor]. eapply frame_eq; [done|set_solver]. }
  destruct Ho as (Hn & c & Ho). pose proof (frame_new _ _ _ c _ F Hn) as F1.
  destruct (IH _ _ F1 Ho) as (F2 & C & ND & Hd). destruct (frame_fresh _ _ _ _ F Hn) as [Hfd _].
  rewrite Forall_forall in Hd. split_and!.
  - eapply frame_eq; [exact F2|set_solver].
  - etrans; [|exact C]. done.
  - constructor; [|done]. intros Hin. apply (Hd fd); [by apply list_elem_of_In|set_solver].
  - constructor; [done|]. apply Forall_forall. intros x Hx. specialize (Hd x Hx). set_solver.
Qed.

(** Dropping owned descriptors. *)
Lemma wp_drop_owned l o v0 v (Q : unit -> pview -> Prop) :
  frame o v0 v -> NoDup l -> list_to_set l ⊆ o ->
  (forall v', frame (o ∖ list_to_set l) v0 v' -> calm v v' -> removed v' = removed v -> Q () v') ->
  wp (drop_fds l) v Q.
Proof.
  revert o v. induction l as [|fd l IH]; intros o v F Hn Hl HQ; cbn [drop_fds].
  { apply HQ; [|done..]. eapply frame_eq; [done|]. set_solver. }
  apply list.NoDup_cons in Hn as [Hfd Hn]. cbn [list_to_set foldr] in Hl.
  apply wp_bind, wp_perform; [eapply frame_open; [done|set_solver]|]. intros x v' ->.
  eapply (IH (o ∖ {[fd]})); [apply frame_close; [done|set_solver]|done|set_solver|].
  intros v' F' C' R'. apply HQ; [|done..]. eapply frame_eq; [done|]. set_solver.
Qed.

(** ** Automation *)

Create HintDb sysframe.
#[export] Hint Resolve frame_refl frame_new frame_open_file frame_nonblock frame_tun frame_join frame_kid
  frame_removed calm_refl : sysframe.

(** Membership in and equations between the sets of owned descriptors. *)
Ltac owned_set := cbn [list_to_set foldr]; set_solver.

(** A call is made on an open descriptor: it is owned, or was open before. *)
Ltac usable_fd :=
  cbn [usable];
  first [ exact I
        | assumption
        | eapply frame_open; [eassumption|owned_set]
        | eapply frame_kept; [eassumption|assumption] ].

Ltac sys_split H :=
  cbn [allowed] in H; unfold opens, effect, res_sum, id in H;
  repeat match type of H with
  | context [check ?r] => let E := fresh "E" in destruct (check r) eqn:E; cbn in H
  | context [match ?r with Ok _ => _ | Err _ => _ end] => is_var r; destruct r; cbn in H
  | context [match ?r with inl _ => _ | inr _ => _ end] => is_var r; destruct r; cbn in H
  end.

(** One call: what it is made on is open; then every answer the law allows. *)
Ltac sys_call x v H :=
  repeat first [apply wp_try | apply wp_bind];
  first [apply wp_checked | apply wp_perform]; [usable_fd|intros x v H; sys_split H;
    try match goal with
        | |- context [check x] => destruct (check x)
        | |- context [match x with Ok _ => _ | Err _ => _ end] => destruct x
        end].
