(* ===== verification/SysIpc.v ===== *)
(** * Sockets between the two processes ([src/ipc.rs], [proxy/src/ipc.rs])

    The socket pair and the connecting socket of the library, the listening socket of
    the proxy, and the address both build from a path. *)

From Stdlib Require Import Ascii.
From S2P Require Import Prelude Net Stream Text Sys SysFrame.
#[local] Open Scope Z_scope.

Definition IPC_SOCKET_BUFFER_SIZE : Z := 2 * 1024 * 1024.

(** [for opt in [SO_SNDBUF, SO_RCVBUF]] *)
Fixpoint set_options (fd : Z) (opts : list Z) : prog (result unit) :=
  match opts with
  | [] => Return (Ok ())
  | opt :: r =>
      let? _ := checked (SysSetsockopt fd SOL_SOCKET opt IPC_SOCKET_BUFFER_SIZE) in
      set_options fd r
  end.

Definition set_socket_buffers (fd : Z) : prog (result unit) := set_options fd [SO_SNDBUF; SO_RCVBUF].

Definition create_socketpair : prog (result (Z * Z)) :=
  r ← perform (SysSocketpair AF_UNIX (Z.lor SOCK_STREAM SOCK_CLOEXEC) 0);
  let '(ret, (parent_fd, child_fd)) := r in
  match check ret with
  | Err e => Return (Err e)
  | Ok _ =>
      let? _ := set_socket_buffers parent_fd owning [child_fd; parent_fd] in
      let? _ := set_socket_buffers child_fd owning [child_fd; parent_fd] in
      Return (Ok (parent_fd, child_fd))
  end.

(** [path.as_os_str().as_encoded_bytes()] *)
Definition path_bytes (path : text) : bytes := byte_of_ascii <$> path.

(** The [sockaddr_un] built from a path: the test of its length, and the copy into the
    zeroed structure. *)
Definition unix_address (path : text) : result sockaddr_un :=
  let p := path_bytes path in
  if decide (108 <= length p)%nat then
    Err (IoError InvalidInput "socket path too long (max 107 bytes)")
  else Ok (SockaddrUn AF_UNIX (p ++ replicate (108 - length p) x00)).

Definition connect_stream (path : text) : prog (result Z) :=
  let? fd := checked (SysSocket AF_UNIX (Z.lor SOCK_STREAM SOCK_CLOEXEC) 0) in
  let? addr := Return (unix_address path) owning [fd] in
  let? _ := checked (SysConnect fd addr) owning [fd] in
  Return (Ok fd).

Definition create_stream_listener (path : text) : prog (result Z) :=
  let? fd := checked (SysSocket AF_UNIX (Z.lor SOCK_STREAM SOCK_CLOEXEC) 0) in
  _ ← perform (SysRemoveFile path);
  let? addr := Return (unix_address path) owning [fd] in
  let? _ := checked (SysBind fd addr) owning [fd] in
  let? _ := checked (SysListen fd 1) owning [fd] in
  Return (Ok fd).

Definition accept_stream (listener : Z) : prog (result Z) := checked (SysAccept4 listener SOCK_CLOEXEC).

(** ** Specifications *)

(** A new descriptor, closed on exec, or nothing. *)
Definition new_cloexec (v : pview) (r : result Z) (v' : pview) : Prop :=
  calm v v' /\
  match r with
  | Ok fd => frame {[fd]} v v' /\ fst <$> fds v' !! fd = Some true
  | Err _ => frame ∅ v v'
  end.

Lemma set_options_wp fd opts v (Q : result unit -> pview -> Prop) :
  is_Some (fds v !! fd) -> (forall r, Q r v) -> wp (set_options fd opts) v Q.
Proof.
  intros Hfd HQ. induction opts as [|opt opts IH]; cbn [set_options]; [apply HQ|].
  sys_call x v' H; subst v'; [apply IH|apply HQ].
Qed.

Lemma create_socketpair_wp v :
  wp create_socketpair v (fun r v' => calm v v' /\
    match r with
    | Ok (a, b) => a <> b /\ frame {[a; b]} v v' /\
        fst <$> fds v' !! a = Some true /\ fst <$> fds v' !! b = Some true
    | Err _ => frame ∅ v v'
    end).
Proof.
  apply wp_bind, wp_perform; [done|]. intros (ret & a & b) v1 H. cbn [allowed] in H.
  destruct (check ret) as [n|e]; [|subst v1; by split; [|apply frame_refl]].
  destruct H as (Hab & Ha & Hb & ->). set (v1 := new_fd _ b _).
  assert (F : frame {[a; b]} v v1).
  { eapply frame_eq; [apply frame_new; [apply frame_new; [apply frame_refl|done]|]|set_solver].
    cbn. by rewrite lookup_insert_ne. }
  assert (C : calm v v1) by done.
  assert (Hfa : fst <$> fds v1 !! a = Some true).
  { unfold v1. cbn. rewrite lookup_insert_ne, lookup_insert_eq by done. done. }
  assert (Hfb : fst <$> fds v1 !! b = Some true) by (unfold v1; cbn; by rewrite lookup_insert_eq).
  assert (D : wp (drop_fds [b; a]) v1 (fun _ v'' => calm v v'' /\ frame ∅ v v'')).
  { eapply wp_drop_owned; [exact F| |owned_set|].
    - repeat constructor; set_solver.
    - intros v2 F2 C2 _. split; [by etrans|]. eapply frame_eq; [done|owned_set]. }
  clearbody v1.
  apply wp_try, set_options_wp; [eapply frame_open; [done|set_solver]|]. intros [_|e]; [|exact D].
  apply wp_try, set_options_wp; [eapply frame_open; [done|set_solver]|]. intros [_|e]; [|exact D].
  done.
Qed.

(** A scope that owns one descriptor returns early. *)
Lemma drop_one fd v v1 e : calm v v1 -> frame {[fd]} v v1 ->
  wp (drop_fds [fd]) v1 (fun _ v' => new_cloexec v (Err e) v').
Proof.
  intros C F. eapply wp_drop_owned; [exact F|by apply NoDup_singleton|owned_set|].
  intros v2 F2 C2 _. split; [by etrans|]. eapply frame_eq; [done|owned_set].
Qed.

Lemma connect_stream_wp path v : wp (connect_stream path) v (new_cloexec v).
Proof.
  sys_call x v1 H; [destruct H as [Hfr ->]|subst v1; by split; [|apply frame_refl]].
  set (v1 := new_fd _ _ v).
  assert (F : frame {[a]} v v1) by (eapply frame_eq; [by apply frame_new, Hfr; apply frame_refl|set_solver]).
  assert (Hc : fst <$> fds v1 !! a = Some true) by (unfold v1; cbn; by rewrite lookup_insert_eq).
  assert (C : calm v v1) by done. clearbody v1.
  apply wp_try. cbn [wp]. destruct (unix_address path) as [addr|e]; [|by apply drop_one].
  sys_call x' v2 H; subst v2; [done|by apply drop_one].
Qed.

Lemma create_stream_listener_wp path v : wp (create_stream_listener path) v (new_cloexec v).
Proof.
  sys_call x v1 H; [destruct H as [Hfr ->]|subst v1; by split; [|apply frame_refl]].
  set (v1 := new_fd _ _ v).
  assert (F : frame {[a]} v v1) by (eapply frame_eq; [by apply frame_new, Hfr; apply frame_refl|set_solver]).
  assert (Hc : fst <$> fds v1 !! a = Some true) by (unfold v1; cbn; by rewrite lookup_insert_eq).
  assert (C : calm v v1) by done. clearbody v1.
  assert (W : forall v2, calm v v2 -> frame {[a]} v v2 -> fst <$> fds v2 !! a = Some true ->
    wp (let? addr := Return (unix_address path) owning [a] in
        let? _ := checked (SysBind a addr) owning [a] in
        let? _ := checked (SysListen a 1) owning [a] in Return (Ok a)) v2 (new_cloexec v)).
  { intros v2 C2 F2 Hc2. apply wp_try. cbn [wp]. destruct (unix_address path) as [addr|e]; [|by apply drop_one].
    sys_call y v3 H; subst v3; [|by apply drop_one]. sys_call z v3 H; subst v3; [done|by apply drop_one]. }
  sys_call x' v2 H; subst v2; apply W; auto with sysframe.
Qed.

Lemma accept_stream_wp listener v :
  is_Some (fds v !! listener) -> wp (accept_stream listener) v (new_cloexec v).
Proof.
  intros Hl. sys_call x v1 H; [destruct H as [Hfr ->]|subst v1; by split; [|apply frame_refl]].
  split; [done|]. split; [|cbn; by rewrite lookup_insert_eq].
  eapply frame_eq; [by apply frame_new, Hfr; apply frame_refl|set_solver].
Qed.

(** ** The address *)

(** A C string in an array: up to the first zero octet. *)
Fixpoint c_string (b : bytes) : bytes :=
  match b with
  | [] => []
  | x :: r => if decide (x = x00) then [] else x :: c_string r
  end.

Lemma c_string_pad l n : Forall (fun x => x <> x00) l -> c_string (l ++ replicate (S n) x00) = l.
Proof. intros Hl. induction Hl as [|x l Hx _ IH]; cbn; [done|]. rewrite decide_False by done. by f_equal. Qed.

Lemma path_bytes_inj p q : path_bytes p = path_bytes q -> p = q.
Proof.
  unfold path_bytes. revert q. induction p as [|c p IH]; intros [|d q] E; try done. cbn in E.
  injection E as E1 E2. f_equal; [|by apply IH].
  by rewrite <- (ascii_of_byte_of_ascii c), <- (ascii_of_byte_of_ascii d), E1.
Qed.

(** The address of a path.  Paths of at most 107 octets have one, longer ones are
    refused; the address fills the 108 octets of the structure, and for a path without
    zero octets the kernel reads exactly the path back from it; so the library's socket
    and the proxy's listener meet exactly when they were given the same path. *)
Theorem unix_address_exact (p q : text) (Hp : Forall (fun x => x <> x00) (path_bytes p))
  (Hq : Forall (fun x => x <> x00) (path_bytes q)) :
  (if decide (length p <= 107)%nat
   then exists a, unix_address p = Ok a /\ length (sun_path a) = 108%nat /\
          c_string (sun_path a) = path_bytes p
   else unix_address p = Err (IoError InvalidInput "socket path too long (max 107 bytes)")) /\
  (forall a, unix_address p = Ok a -> unix_address q = Ok a -> p = q).
Proof.
  assert (H : forall p, Forall (fun x => x <> x00) (path_bytes p) ->
    if decide (length p <= 107)%nat
    then exists a, unix_address p = Ok a /\ length (sun_path a) = 108%nat /\ c_string (sun_path a) = path_bytes p
    else unix_address p = Err (IoError InvalidInput "socket path too long (max 107 bytes)")).
  { clear. intros p Hp. unfold unix_address.
    assert (Hl : length (path_bytes p) = length p) by apply length_fmap. rewrite Hl.
    destruct (decide (length p <= 107)%nat) as [Hd|Hd]; [rewrite decide_False by lia|by rewrite decide_True by lia].
    eexists. split; [reflexivity|]. cbn [sun_path]. split; [rewrite length_app, Hl, length_replicate; lia|].
    replace (108 - length p)%nat with (S (107 - length p)) by lia. by apply c_string_pad. }
  split; [by apply H|]. intros a Ep Eq. apply path_bytes_inj.
  pose proof (H p Hp) as Cp. pose proof (H q Hq) as Cq.
  destruct (decide (length p <= 107)%nat); [|congruence]. destruct Cp as (a1 & E1 & _ & <-).
  destruct (decide (length q <= 107)%nat); [|congruence]. destruct Cq as (a2 & E2 & _ & <-). congruence.
Qed.

Lemma unix_address_exact_witness :
  exists a, unix_address (chars "/run/tap.sock") = Ok a /\ length (sun_path a) = 108%nat /\
    c_string (sun_path a) = path_bytes (chars "/run/tap.sock").
Proof.
  destruct (unix_address_exact (chars "/run/tap.sock") (chars "/tmp/x")) as [H _].
  - repeat constructor; discriminate.
  - repeat constructor; discriminate.
  - exact H.
Defined.
