(* ===== verification/TapSetup.v ===== *)
(** * Namespaces and the TAP interface ([proxy/src/namespace.rs], [proxy/src/tap.rs])

    The calls by which the proxy enters the target's namespaces, creates the TAP
    interface there and configures it. *)

From Stdlib Require Import Ascii.
From S2P Require Import Prelude Net Stream Text Sys SysFrame SysIpc.
#[local] Open Scope Z_scope.

(** ** Namespaces *)

(** [format!("/proc/{}/ns/user", pid)] and the like *)
Definition ns_path (pid : Z) (which : string) : text :=
  chars "/proc/" ++ print_uint pid ++ chars "/ns/" ++ chars which.

(** [File::open(&path).map_err(..)] *)
Definition open_ns (what : string) (path : text) : prog (result Z) :=
  r ← perform (SysOpen path);
  Return (match r with
          | Ok fd => Ok fd
          | Err e => Err (IoError (ekind e) ("failed to open " +:+ what +:+ " namespace " +:+
                                             String.string_of_list_ascii path +:+ ": " +:+ emsg e)%string)
          end).

(** [setns(file.as_fd(), flag).map_err(..)] *)
Definition enter_ns (what : string) (fd ns : Z) : prog (result unit) :=
  r ← perform (SysSetns fd ns);
  Return (map_err (fun e => IoError PermissionDenied
                              ("failed to join " +:+ what +:+ " namespace: " +:+ e)%string) r).

Definition join_namespace (pid : Z) : prog (result unit) :=
  let? user_ns_file := open_ns "user" (ns_path pid "user") in
  let? _ := enter_ns "user" user_ns_file CLONE_NEWUSER owning [user_ns_file] in
  let? net_ns_file := open_ns "network" (ns_path pid "net") owning [user_ns_file] in
  let? _ := enter_ns "network" net_ns_file CLONE_NEWNET owning [net_ns_file; user_ns_file] in
  _ ← drop_fds [net_ns_file; user_ns_file];
  Return (Ok ()).

(** ** The TAP interface *)

Definition TUNSETSNDBUF : Z := 1074025684.
Definition SIOCSIFTXQLEN : Z := 35139.
Definition IFF_TAP : Z := 2.
Definition IFF_NO_PI : Z := 4096.

Definition le_bytes (n : nat) (z : Z) : bytes := reverse (be_bytes n z).

(** [struct IfReq] and [struct IfReqTxqlen] as the kernel reads them (the two octets that
    align the latter to its size are left out). *)
Record IfReq := { ifr_name : bytes; ifr_flags : Z }.
Definition IfReq_bytes (r : IfReq) : bytes := ifr_name r ++ le_bytes 2 (ifr_flags r) ++ replicate 22 x00.
Record IfReqTxqlen := { ifr_name_q : bytes; ifr_qlen : Z }.
Definition IfReqTxqlen_bytes (r : IfReqTxqlen) : bytes :=
  ifr_name_q r ++ le_bytes 4 (ifr_qlen r) ++ replicate 18 x00.

(** The copy of the name, cut to [IFNAMSIZ - 1] octets, into the zeroed array. *)
Definition if_name (name : string) : bytes :=
  let name_bytes := path_bytes (chars name) in
  let copy_len := Nat.min (length name_bytes) (IFNAMSIZ - 1) in
  take copy_len name_bytes ++ replicate (IFNAMSIZ - copy_len) x00.

Definition tap_ifreq (name : string) : bytes :=
  IfReq_bytes {| ifr_name := if_name name; ifr_flags := Z.lor IFF_TAP IFF_NO_PI |}.

Definition create_tap (name : string) : prog (result Z) :=
  let? fd := perform (SysOpen (chars "/dev/net/tun")) in
  let? _ := checked (SysIoctlIfreq fd TUNSETIFF (tap_ifreq name)) owning [fd] in
  _ ← perform (SysIoctlInt fd TUNSETSNDBUF (2 * 1024 * 1024));
  Return (Ok fd).

(** The error is read after [close], from the [errno] it leaves. *)
Definition set_txqueuelen (name : string) (qlen : Z) : prog (result unit) :=
  let? sock := checked (SysSocket AF_INET SOCK_DGRAM 0) in
  ret ← perform (SysIoctlIfreq sock SIOCSIFTXQLEN
                   (IfReqTxqlen_bytes {| ifr_name_q := if_name name; ifr_qlen := qlen |}));
  closed ← perform (SysClose sock);
  Return (if decide (cr_val ret < 0) then Err (cr_errno closed) else Ok ()).

(** The ipnet crate: a network from an address and a prefix length, or an error. *)
Class Ipnet := { ipnet_new : IpAddr -> Z -> option string }.
Class IpnetLaws `{Ipnet} : Prop :=
  ipnet_new_spec : forall ip prefix_len, ipnet_new ip prefix_len = None <-> prefix_len <= ip_width ip.

Section Configure.
Context {IN : Ipnet}.

(** A call of netconfig_rs with [.map_err(|e| io::Error::other(e.to_string()))]. *)
Definition netconfig {A} (e : sysE (string + A)) : prog (result A) :=
  r ← perform e; Return (map_err other r).

Definition add_peer_address (iface : Z) (addr : option (IpAddr * Z)) : prog (result unit) :=
  match addr with
  | None => Return (Ok ())
  | Some (ip, prefix_len) =>
      match ipnet_new ip prefix_len with
      | Some e => Return (Err (other e))
      | None => netconfig (SysIfAddAddress iface ip prefix_len)
      end
  end.

Definition configure_interface (name : string) (addr : option (IpAddr * Z)) (mtu : option Z)
  : prog (result (array 6)) :=
  let? iface := netconfig (SysIfIndex (chars name)) in
  let? _ := add_peer_address iface addr in
  let? _ := (match mtu with
             | Some m => netconfig (SysIfSetMtu iface m)
             | None => Return (Ok ())
             end) in
  _ ← set_txqueuelen name 5000;
  let? _ := netconfig (SysIfSetUp iface) in
  netconfig (SysIfHwaddress iface).

End Configure.

(** ** Specifications *)

Lemma open_ns_wp what path v o v0 (Q : result Z -> pview -> Prop) :
  frame o v0 v ->
  (forall fd, fds v !! fd = None -> frame ({[fd]} ∪ o) v0 (open_file path fd v) -> Q (Ok fd) (open_file path fd v)) ->
  (forall e, Q (Err e) v) -> wp (open_ns what path) v Q.
Proof.
  intros F H1 H2. sys_call x v' H; [destruct H as [Hf ->]; apply H1; auto with sysframe|subst; apply H2].
Qed.

Lemma enter_ns_wp what fd ns v (Q : result unit -> pview -> Prop) :
  is_Some (fds v !! fd) -> Q (Ok ()) (join_ns fd ns v) -> (forall e, Q (Err e) v) ->
  wp (enter_ns what fd ns) v Q.
Proof. intros Hfd H1 H2. sys_call x v' H; subst v'; [apply H2|by destruct u]. Qed.

Lemma path_of_open path fd v : path_of fd (open_file path fd v) = Some path.
Proof. unfold path_of. cbn. by rewrite lookup_insert_eq; cbn; rewrite lookup_insert_eq. Qed.

(** The namespaces of a process, and only of it. *)
Definition user_ns (pid : Z) : namespace := (CLONE_NEWUSER, Some (ns_path pid "user")).
Definition net_ns (pid : Z) : namespace := (CLONE_NEWNET, Some (ns_path pid "net")).

(** Entering the namespaces: on success both are joined, the user namespace first; on
    failure neither, or only the user namespace.  No descriptor stays open. *)
Lemma join_namespace_wp pid v :
  wp (join_namespace pid) v (fun r v' => frame ∅ v v' /\ kids v' = kids v /\ tuns v' = tuns v /\
    match r with
    | Ok _ => joined v' = joined v ++ [user_ns pid; net_ns pid]
    | Err _ => joined v' = joined v \/ joined v' = joined v ++ [user_ns pid]
    end).
Proof.
  apply wp_try, (open_ns_wp _ _ _ ∅ v); [apply frame_refl| |intros e; cbn; auto using frame_refl].
  intros u Hu F1. pose proof (path_of_open (ns_path pid "user") u v) as P1.
  set (v1 := open_file _ u v) in *. assert (C1 : calm v v1) by done. clearbody v1.
  apply wp_try, enter_ns_wp; [eapply frame_open; [done|set_solver]| |].
  2:{ intros e. eapply wp_drop_owned; [exact F1|apply NoDup_singleton|owned_set|].
      intros v2 F2 (K2 & J2 & T2) _. destruct C1 as (K1 & J1 & T1).
      split_and!; [|congruence|congruence|left; congruence].
      eapply frame_eq; [done|owned_set]. }
  assert (F2 : frame ({[u]} ∪ ∅) v (join_ns u CLONE_NEWUSER v1)) by auto with sysframe.
  assert (J2 : joined (join_ns u CLONE_NEWUSER v1) = joined v ++ [user_ns pid])
    by (cbn; by rewrite (proj1 (proj2 C1)), P1).
  assert (T2 : tuns (join_ns u CLONE_NEWUSER v1) = tuns v) by apply C1.
  assert (K2 : kids (join_ns u CLONE_NEWUSER v1) = kids v) by apply C1.
  set (v2 := join_ns _ _ v1) in *. clearbody v2.
  assert (D : forall v3 l, frame (list_to_set l ∪ ∅) v v3 -> NoDup l -> kids v3 = kids v -> tuns v3 = tuns v ->
    joined v3 = joined v ++ [user_ns pid] ->
    wp (drop_fds l) v3 (fun _ v' => frame ∅ v v' /\ kids v' = kids v /\ tuns v' = tuns v /\
      (joined v' = joined v \/ joined v' = joined v ++ [user_ns pid]))).
  { intros v3 l F3 Hn K3 T3 J3. eapply wp_drop_owned; [exact F3|done|set_solver|].
    intros v4 F4 (K4 & J4 & T4) _. split_and!; [|congruence|congruence|right; congruence]. eapply frame_eq; [done|set_solver]. }
  apply wp_try, (open_ns_wp _ _ _ ({[u]} ∪ ∅) v); [done| |].
  2:{ intros e. apply D; [|apply NoDup_singleton|done..]. eapply frame_eq; [done|owned_set]. }
  intros n Hn F3. pose proof (path_of_open (ns_path pid "net") n v2) as P3. assert (Hne : n <> u).
  { intros ->. destruct (frame_open _ _ _ u F2) as [x Hx]; [set_solver|congruence]. }
  assert (ND : NoDup [n; u]) by (repeat constructor; set_solver).
  apply wp_try, enter_ns_wp; [eapply frame_open; [done|set_solver]| |].
  2:{ intros e. apply D; [|done..]. eapply frame_eq; [done|owned_set]. }
  apply wp_bind. eapply (wp_drop_owned _ ({[n]} ∪ ({[u]} ∪ ∅)) v); [by apply frame_join|done|owned_set|].
  intros v4 F4 (K4 & J4 & T4) _. cbn [kids joined tuns join_ns] in K4, J4, T4 |- *. rewrite P3 in J4.
  split_and!; [|by rewrite K4|by rewrite T4|]; [eapply frame_eq; [done|owned_set]|].
  rewrite J4. cbn [joined open_file]. by rewrite J2, <- app_assoc.
Qed.

(** A TAP descriptor: new, closed on exec, and the interface behind it was created with
    the request [ifr] in the namespaces [ns]. *)
Definition tap_of (fd : Z) (ifr : bytes) (ns : list namespace) (v : pview) : Prop :=
  exists f, fds v !! fd = Some (true, f) /\ tuns v !! f = Some (Tun ifr ns).

(** Interfaces were created with the request [ifr] and in the namespaces [ns] only. *)
Definition taps_from (ifr : bytes) (ns : list namespace) (v v' : pview) : Prop :=
  forall f, tuns v' !! f = tuns v !! f \/ tuns v' !! f = Some (Tun ifr ns).

Lemma taps_from_same ifr ns v v' : tuns v' = tuns v -> taps_from ifr ns v v'.
Proof. intros E f. left. by rewrite E. Qed.

Lemma taps_from_trans ifr ns v1 v2 v3 :
  taps_from ifr ns v1 v2 -> taps_from ifr ns v2 v3 -> taps_from ifr ns v1 v3.
Proof. intros H1 H2 f. destruct (H1 f) as [E1|E1], (H2 f) as [E2|E2]; rewrite ?E2, ?E1; auto. Qed.

Lemma create_tap_wp name v :
  wp (create_tap name) v (fun r v' => kids v' = kids v /\ joined v' = joined v /\
    match r with
    | Ok fd => frame {[fd]} v v' /\ tap_of fd (tap_ifreq name) (joined v) v' /\
               taps_from (tap_ifreq name) (joined v) v v'
    | Err _ => frame ∅ v v' /\ tuns v' = tuns v
    end).
Proof.
  sys_call x v1 H; [destruct H as [Hfr ->]|subst v1; cbn; auto using frame_refl].
  assert (F : frame {[a]} v (open_file (chars "/dev/net/tun") a v))
    by (eapply frame_eq; [by apply frame_open_file, Hfr; apply frame_refl|set_solver]).
  sys_call r v1 H.
  2:{ subst v1. eapply wp_drop_owned; [exact F|apply NoDup_singleton|owned_set|].
      intros v2 F2 (K2 & J2 & T2) _. split_and!; [done..| |done]. eapply frame_eq; [done|owned_set]. }
  rewrite decide_True in H by done.
  assert (F1 : frame {[a]} v v1) by (subst v1; apply frame_tun; [done|set_solver]).
  unfold add_tun in H. cbn in H. rewrite lookup_insert_eq in H.
  assert (T1 : tap_of a (tap_ifreq name) (joined v) v1).
  { subst v1. eexists. cbn. by rewrite !lookup_insert_eq. }
  assert (T2 : taps_from (tap_ifreq name) (joined v) v v1).
  { subst v1. intros f. cbn. destruct (decide (f = next_file v)) as [->|Hne]; [rewrite lookup_insert_eq; auto|].
    rewrite lookup_insert_ne by done. auto. }
  assert (KJ : kids v1 = kids v /\ joined v1 = joined v) by (by subst v1).
  clear H. sys_call y v2 H; subst v2; cbn; split_and!; try done; apply KJ.
Qed.

Lemma set_txqueuelen_wp name qlen v :
  wp (set_txqueuelen name qlen) v (fun _ v' => calm v v' /\ frame ∅ v v').
Proof.
  sys_call x v1 H; [destruct H as [Hfr ->]|subst v1; by split; [|apply frame_refl]].
  set (v1 := new_fd _ _ v).
  assert (F : frame {[a]} v v1) by (eapply frame_eq; [by apply frame_new, Hfr; apply frame_refl|set_solver]).
  assert (C : calm v v1) by done. clearbody v1.
  apply wp_bind, wp_perform; [usable_fd|]. intros r v2 H. cbn [allowed] in H.
  rewrite decide_False in H by done.
  assert (v2 = v1) as -> by (unfold effect, id in H; by destruct (res_sum (check r))).
  sys_call c v3 H3. subst v3. cbn. split; [done|]. eapply frame_eq; [apply frame_close; [exact F|set_solver]|set_solver].
Qed.

Lemma netconfig_wp {A} (e : sysE (string + A)) v (Q : result A -> pview -> Prop) :
  usable e v -> (forall x v', allowed e v x v' -> v' = v) -> (forall r, Q r v) -> wp (netconfig e) v Q.
Proof.
  intros Hu Ha HQ. apply wp_bind, wp_perform; [done|]. intros x v' H. rewrite (Ha _ _ H). apply HQ.
Qed.

(** Configuring the interface opens one socket and closes it on every path; the
    descriptors, the children and the namespaces are those before. *)
Lemma configure_interface_wp `{Ipnet} name addr mtu v :
  wp (configure_interface name addr mtu) v (fun _ v' => calm v v' /\ frame ∅ v v').
Proof.
  assert (R : calm v v /\ frame ∅ v v) by (split; [done|apply frame_refl]).
  apply wp_try, netconfig_wp; [done|done|]. intros [iface|e]; [|exact R].
  assert (WA : forall Q, (forall r, Q r v) -> wp (add_peer_address iface addr) v Q).
  { intros Q HQ. unfold add_peer_address. destruct addr as [[ip p]|]; [|apply HQ].
    destruct (ipnet_new ip p); [apply HQ|]. by apply netconfig_wp. }
  apply wp_try, WA. intros [_|e]; [|exact R]. apply wp_try.
  assert (WM : forall Q, (forall r, Q r v) -> wp (match mtu with
             | Some m => netconfig (SysIfSetMtu iface m) | None => Return (Ok ()) end) v Q).
  { intros Q HQ. destruct mtu; [by apply netconfig_wp|apply HQ]. }
  apply WM. intros [_|e]; [|exact R].
  eapply wp_use; [apply set_txqueuelen_wp|]. intros ? v' R'. cbn beta in R'.
  apply wp_try, netconfig_wp; [done|done|]. intros [_|e]; [|exact R'].
  by apply netconfig_wp.
Qed.

(** ** The requests *)

Lemma length_if_name name : length (if_name name) = IFNAMSIZ.
Proof. unfold if_name. rewrite length_app, length_take, length_replicate. unfold IFNAMSIZ. lia. Qed.

Lemma length_le_bytes n z : length (le_bytes n z) = n.
Proof. unfold le_bytes. by rewrite length_reverse, length_be_bytes. Qed.

(** C29: The request that creates the interface has the size of the kernel's structure; the
    kernel reads from it the first 15 octets of the name, followed by a zero octet, and
    the flags of a TAP device without packet information.  A name of at most 15 octets is
    taken as it is; a longer one is cut, so that [configure_interface], which asks for the
    full name, speaks of another interface. *)
Theorem tap_request_layout (name : string) (Hn : Forall (fun x => x <> x00) (path_bytes (chars name))) :
  length (tap_ifreq name) = 40%nat /\
  c_string (take IFNAMSIZ (tap_ifreq name)) = take 15 (path_bytes (chars name)) /\
  be_val (reverse (take 2 (drop IFNAMSIZ (tap_ifreq name)))) = 4098 /\
  (c_string (take IFNAMSIZ (tap_ifreq name)) = path_bytes (chars name) <-> (length (chars name) <= 15)%nat).
Proof.
  assert (H15 : c_string (take IFNAMSIZ (tap_ifreq name)) = take 15 (path_bytes (chars name))).
  { unfold tap_ifreq, IfReq_bytes. cbn [ifr_name]. rewrite <- (length_if_name name), take_app_length.
    unfold if_name. set (b := path_bytes (chars name)) in *. clearbody b.
    replace (IFNAMSIZ - Nat.min (length b) (IFNAMSIZ - 1))%nat with (S (15 - Nat.min (length b) 15))
      by (unfold IFNAMSIZ; lia).
    rewrite c_string_pad by by apply Forall_take. change (IFNAMSIZ - 1)%nat with 15%nat.
    destruct (decide (length b <= 15)%nat); [rewrite !take_ge by lia; done|]. f_equal. lia. }
  split_and!; [|done| |].
  - unfold tap_ifreq, IfReq_bytes. cbn [ifr_name ifr_flags].
    rewrite !length_app, length_if_name, length_le_bytes, length_replicate. reflexivity.
  - unfold tap_ifreq, IfReq_bytes. cbn [ifr_name ifr_flags].
    rewrite <- (length_if_name name), drop_app_length. reflexivity.
  - rewrite H15. unfold path_bytes. split.
    + intros E. apply (f_equal length) in E. rewrite length_take, length_fmap in E. lia.
    + intros Hl. apply take_ge. by rewrite length_fmap.
Qed.

Lemma tap_request_layout_witness :
  c_string (take IFNAMSIZ (tap_ifreq "container-uplink0")) = path_bytes (chars "container-uplin").
Proof.
  destruct (tap_request_layout "container-uplink0") as (_ & H & _); [repeat constructor; discriminate|].
  exact H.
Defined.
