(* ===== verification/Protocol.v ===== *)
(** * The wire protocol ([src/protocol.rs])

    Message types, the type-byte codec, and the 4-byte length-prefix framing
    that both processes use on the stream socket. *)

From S2P Require Import Prelude Net Stream.
#[local] Open Scope Z_scope.

(** ** Data *)

Definition MSG_TYPE_CONTROL : byte := x00.
Definition MSG_TYPE_FRAME : byte := x01.

Inductive ClientHello := MkClientHello.

Record ProxyConfig := {
  pc_tap_ip : IpAddr;
  pc_tap_mac : array 6;
  pc_prefix_len : Z;  (* u8 *)
  pc_mtu : Z;         (* u16 *)
}.

Definition default_mtu : Z := 1500.

Record InterfaceStats := {
  rx_bytes : Z; rx_packets : Z; rx_errors : Z; rx_dropped : Z;
  tx_bytes : Z; tx_packets : Z; tx_errors : Z; tx_dropped : Z;
}.

Inductive ProxyCommand :=
| AddRoute (id : Z) (destination : IpAddr) (prefix_len : Z)
| RemoveRoute (id : Z) (destination : IpAddr) (prefix_len : Z)
| GetIfaceStats (id : Z).

Inductive ProxyResponse :=
| RespOk (id : Z)
| RespError (id : Z) (error : string)
| RespIfaceStats (id : Z) (interfaces : gmap string InterfaceStats).

Definition resp_id (r : ProxyResponse) : Z :=
  match r with RespOk id => id | RespError id _ => id | RespIfaceStats id _ => id end.

Definition cmd_id (c : ProxyCommand) : Z :=
  match c with AddRoute id _ _ => id | RemoveRoute id _ _ => id | GetIfaceStats id => id end.

(** [send_proxy_command] overwrites the id of the command it is given. *)
Definition set_cmd_id (c : ProxyCommand) (id : Z) : ProxyCommand :=
  match c with
  | AddRoute _ d p => AddRoute id d p
  | RemoveRoute _ d p => RemoveRoute id d p
  | GetIfaceStats _ => GetIfaceStats id
  end.

Definition resp_ok (id : Z) : ProxyResponse := RespOk id.
Definition resp_error (id : Z) (msg : string) : ProxyResponse := RespError id msg.

Inductive Message :=
| Control (payload : bytes)
| Frame (payload : bytes).

(** ** serde_json

    [serde_json::to_vec] and [from_slice] at a type that derives [Serialize] and
    [Deserialize] are parameters of the model. *)
Class Serde (T : Type) := {
  to_vec : T -> string + bytes;
  from_slice : bytes -> string + T;
}.

(** What the protocol relies on: a value serializes, and deserializing the
    output returns the value. *)
Class SerdeOk (T : Type) `{Serde T} : Prop :=
  serde_roundtrip : forall t : T, exists j, to_vec t = inr j /\ from_slice j = inr t.

(** ** Codec *)

Definition encode_control {T} `{Serde T} (msg : T) : result bytes :=
  match to_vec msg with
  | inl e => Err (IoError InvalidData e)
  | inr json => Ok (MSG_TYPE_CONTROL :: json)
  end.

Definition decode_control {T} `{Serde T} (data : bytes) : result T :=
  match from_slice data with
  | inl e => Err (IoError InvalidData e)
  | inr t => Ok t
  end.

Definition encode_frame (frame : bytes) : bytes := MSG_TYPE_FRAME :: frame.

(** [format!("{:02x}", b)] *)
Definition hex_digit (n : Z) : string :=
  match n with
  | 0 => "0" | 1 => "1" | 2 => "2" | 3 => "3" | 4 => "4" | 5 => "5" | 6 => "6" | 7 => "7"
  | 8 => "8" | 9 => "9" | 10 => "a" | 11 => "b" | 12 => "c" | 13 => "d" | 14 => "e" | _ => "f"
  end.

Definition hex_byte (b : byte) : string :=
  (hex_digit (byte_val b / 16) +:+ hex_digit (byte_val b mod 16))%string.

Definition decode_message (data : bytes) : result Message :=
  match data with
  | [] => Err (IoError InvalidData "empty message")
  | msg_type :: payload =>
      if decide (msg_type = MSG_TYPE_CONTROL) then Ok (Control payload)
      else if decide (msg_type = MSG_TYPE_FRAME) then Ok (Frame payload)
      else Err (IoError InvalidData ("unknown message type: 0x" +:+ hex_byte msg_type)%string)
  end.

(** ** Length-prefix framing *)

(** [(msg.len() as u32).to_be_bytes()] *)
Definition len_prefix (msg : bytes) : bytes := be_bytes 4 (wrap 32 (Z.of_nat (length msg))).

Definition write_framed_sync (msg : bytes) (w : wstream) : result unit * wstream :=
  let len := len_prefix msg in
  match write_all len w with
  | (Err e, w1) => (Err e, w1)
  | (Ok _, w1) =>
      match write_all msg w1 with
      | (Err e, w2) => (Err e, w2)
      | (Ok _, w2) => (Ok (), w2)
      end
  end.

(** On success the caller's buffer is returned with its first [len] bytes
    overwritten, extended with zeros when it was shorter than [len]. *)
Definition read_framed_sync (buf : bytes) (s : rstream) : result (nat * bytes) * rstream :=
  match read_exact 4 s with
  | (Err e, s1) => (Err e, s1)
  | (Ok len_buf, s1) =>
      let len := Z.to_nat (be_val len_buf) in
      if decide (len = 0%nat) then (Err (IoError InvalidData "zero-length frame"), s1)
      else
        let buf := if decide (length buf < len)%nat
                   then buf ++ replicate (len - length buf) x00 else buf in
        match read_exact len s1 with
        | (Err e, s2) => (Err e, s2)
        | (Ok body, s2) => (Ok (len, body ++ drop len buf), s2)
        end
  end.

(** The bytes that framing one message puts on the wire, and those of a
    sequence of messages. *)
Definition frame_msg (msg : bytes) : bytes := len_prefix msg ++ msg.
Definition frame_msgs (msgs : list bytes) : bytes := concat (frame_msg <$> msgs).

Definition frameable (msg : bytes) : Prop := 0 < Z.of_nat (length msg) < 2 ^ 32.

(** ** Lemmas *)

Lemma length_len_prefix msg : length (len_prefix msg) = 4%nat.
Proof. apply length_be_bytes. Qed.

Lemma len_prefix_val msg :
  Z.of_nat (length msg) < 2 ^ 32 -> be_val (len_prefix msg) = Z.of_nat (length msg).
Proof.
  intros H. unfold len_prefix. rewrite be_val_be_bytes.
  change (256 ^ Z.of_nat 4) with (2 ^ 32). unfold wrap.
  rewrite Z.mod_mod, Z.mod_small by lia. done.
Qed.

Lemma frame_msg_take msg rest :
  take 4 (frame_msg msg ++ rest) = len_prefix msg /\
  drop 4 (frame_msg msg ++ rest) = msg ++ rest.
Proof.
  unfold frame_msg. rewrite <- app_assoc, <- (length_len_prefix msg).
  by rewrite take_app_length, drop_app_length.
Qed.

Lemma decode_encode_control {T} `{SerdeOk T} (t : T) :
  exists payload, encode_control t = Ok (MSG_TYPE_CONTROL :: payload) /\
    decode_message (MSG_TYPE_CONTROL :: payload) = Ok (Control payload) /\
    decode_control payload = Ok t.
Proof.
  destruct (serde_roundtrip t) as (j & H1 & H2). exists j.
  unfold encode_control, decode_control. by rewrite H1, H2.
Qed.

(** Reading one frame of a well-formed stream, whatever its chunks. *)
Lemma read_framed_frame buf msg rest s :
  rs_wf s -> frameable msg -> rbytes s = frame_msg msg ++ rest ->
  exists buf' s', read_framed_sync buf s = (Ok (length msg, buf'), s') /\
    take (length msg) buf' = msg /\ (length msg <= length buf')%nat /\
    rbytes s' = rest /\ rs_wf s' /\ ends s' = ends s.
Proof.
  intros Hwf [Hpos Hmax] Hb. unfold read_framed_sync, read_exact.
  destruct (frame_msg_take msg rest) as [Ht Hd].
  destruct (read_exact_with_spec (IoError UnexpectedEof "failed to fill whole buffer") 4 s Hwf)
    as (He & Hw & H).
  destruct (read_exact_loop _ _ _ _ _) as [r s1]; cbn [fst snd] in *.
  rewrite Hb, decide_True, Ht, Hd in H
    by (unfold frame_msg; rewrite !length_app, length_len_prefix; lia).
  destruct H as [-> H1]. rewrite len_prefix_val, Nat2Z.id by lia.
  rewrite decide_False by lia.
  destruct (read_exact_with_spec (IoError UnexpectedEof "failed to fill whole buffer")
    (length msg) s1 Hw) as (He2 & Hw2 & H2).
  destruct (read_exact_loop _ _ _ _ _) as [r2 s2]; cbn [fst snd] in *.
  rewrite H1, decide_True, take_app_length, drop_app_length in H2 by (rewrite length_app; lia).
  destruct H2 as [-> H2]. do 2 eexists. split; [reflexivity|].
  rewrite take_app_length, length_app. split_and!; [done|lia|done|done|congruence].
Qed.

Lemma write_all_loop_ok buf acc sc w :
  write_all_loop buf acc sc = (Ok (), w) -> written w = acc ++ buf.
Proof.
  revert buf acc. induction sc as [|[k|e] sc IH]; intros [|b buf] acc; cbn [write_all_loop];
    try (by intros [= <-]; rewrite ?app_nil_r).
  - destruct k; [done|]. intros H. apply IH in H. by rewrite H, <- app_assoc, take_drop.
Qed.

Lemma write_all_ok buf w w' :
  write_all buf w = (Ok (), w') -> written w' = written w ++ buf.
Proof. apply write_all_loop_ok. Qed.

(** ** Properties *)

(** C15: Framing round trip over a real stream: if [write_framed_sync] reports
    success for a message of 1 to 2^32-1 bytes, then a reader that receives the
    bytes it wrote, cut into chunks in any way and followed by any other bytes,
    gets from [read_framed_sync] exactly that message (whatever buffer it passes)
    and is left at the first byte after it. *)
Theorem framed_roundtrip (msg buf rest : bytes) (w w' : wstream) (s : rstream)
  (Hlen : frameable msg) (Hwrite : write_framed_sync msg w = (Ok (), w'))
  (Hwf : rs_wf s) (Hs : written w ++ rbytes s = written w' ++ rest) :
  exists buf' s', read_framed_sync buf s = (Ok (length msg, buf'), s') /\
    take (length msg) buf' = msg /\ rbytes s' = rest.
Proof.
  unfold write_framed_sync in Hwrite.
  destruct (write_all (len_prefix msg) w) as [[[]|] w1] eqn:E1; [|done].
  destruct (write_all msg w1) as [[[]|] w2] eqn:E2; [|done].
  injection Hwrite as <-. apply write_all_ok in E1, E2.
  rewrite E2, E1, <- !app_assoc in Hs. apply app_inv_head in Hs.
  rewrite app_assoc in Hs.
  destruct (read_framed_frame buf msg rest s Hwf Hlen Hs) as (buf' & s' & ?); naive_solver.
Qed.

Lemma framed_roundtrip_witness :
  exists buf' s', read_framed_sync [] (RStream [[x00]; [x00; x00; x02; x01]; [xaa; xbb]] Eof)
    = (Ok (2%nat, buf'), s') /\ take 2 buf' = [x01; xaa] /\ rbytes s' = [xbb].
Proof.
  apply (framed_roundtrip [x01; xaa] [] [xbb] (WStream [] [WrMax 3])
    (WStream [x00; x00; x00; x02; x01; xaa] []) _).
  - split; reflexivity.
  - reflexivity.
  - repeat constructor; done.
  - reflexivity.
Defined.

(** A reader that reaches the end of the stream inside a frame (after any
    proper prefix of its bytes, however cut) gets [UnexpectedEof], never a
    shorter or corrupted message. *)
Theorem framed_truncated (msg buf : bytes) (s : rstream)
  (Hlen : frameable msg) (Hwf : rs_wf s) (Heof : ends s = Eof)
  (Hcut : (length (rbytes s) < length (frame_msg msg))%nat)
  (Hs : rbytes s `prefix_of` frame_msg msg) :
  exists s', read_framed_sync buf s
    = (Err (IoError UnexpectedEof "failed to fill whole buffer"), s').
Proof.
  destruct Hs as [tl Htl]. destruct Hlen as [Hpos Hmax]. unfold read_framed_sync, read_exact.
  destruct (read_exact_with_spec (IoError UnexpectedEof "failed to fill whole buffer") 4 s Hwf)
    as (He & Hw & H).
  destruct (read_exact_loop _ _ _ _ _) as [r s1]; cbn [fst snd] in *. rewrite Heof in *.
  destruct (decide (4 <= length (rbytes s))%nat) as [H4|H4]; [|rewrite H; eauto].
  destruct (frame_msg_take msg []) as [Ht Hd]. rewrite app_nil_r in Ht, Hd.
  rewrite Htl, take_app_le in Ht by lia. rewrite Htl, drop_app_le, app_nil_r in Hd by lia.
  destruct H as [-> H1]. rewrite Ht, len_prefix_val, Nat2Z.id by lia.
  rewrite decide_False by lia.
  destruct (read_exact_with_spec (IoError UnexpectedEof "failed to fill whole buffer")
    (length msg) s1 Hw) as (He2 & Hw2 & H2).
  destruct (read_exact_loop _ _ _ _ _) as [r2 s2]; cbn [fst snd] in *.
  rewrite decide_False in H2.
  - rewrite H2, He. eauto.
  - rewrite H1, length_drop. revert Hcut. unfold frame_msg.
    rewrite length_app, length_len_prefix. lia.
Qed.

Lemma framed_truncated_witness :
  exists s', read_framed_sync [] (RStream [[x00; x00; x00]; [x02; x01]] Eof)
    = (Err (IoError UnexpectedEof "failed to fill whole buffer"), s').
Proof.
  apply (framed_truncated [x01; xaa] []).
  - split; reflexivity.
  - repeat constructor; done.
  - reflexivity.
  - vm_compute. lia.
  - exists [xaa]. reflexivity.
Defined.

(** [decode_message] is the exact inverse of the two encoders: a message
    decodes as a frame (a control message) exactly when it is the encoding of
    that frame (of that payload), and every other byte string is rejected with
    [InvalidData]. *)
Theorem decode_message_exact (data : bytes) :
  match decode_message data with
  | Ok (Frame f) => data = encode_frame f
  | Ok (Control p) => data = MSG_TYPE_CONTROL :: p
  | Err e => ekind e = InvalidData /\
      (forall f, data <> encode_frame f) /\ (forall p, data <> MSG_TYPE_CONTROL :: p)
  end /\
  (forall f, decode_message (encode_frame f) = Ok (Frame f)).
Proof.
  split; [|done]. unfold decode_message. destruct data as [|t p]; [done|].
  repeat case_decide; subst; [done..|]. split_and!; [done|..]; intros q [= ? ?]; congruence.
Qed.
