(* ===== verification/Externals.v ===== *)
(** * Third-party interfaces

    tokio's bounded [mpsc] channels and smoltcp's sockets, socket sets and
    interface are not part of the repository.  Each is a class of operations, a
    parameter of every definition that uses it, and a class of laws that states
    what its documentation promises; theorems that need a law take it as a
    hypothesis.  [Module Reference] instantiates both, which shows that the laws
    can hold together and lets concrete runs be evaluated. *)

From S2P Require Import Prelude Net.
#[local] Open Scope Z_scope.

(** ** tokio::sync::mpsc *)

Inductive send_result := SendOk | SendFull | SendClosed.

Inductive recv_result (A : Type) := RecvOk (a : A) | RecvEmpty | RecvDisconnected.
Arguments RecvOk {A} a.
Arguments RecvEmpty {A}.
Arguments RecvDisconnected {A}.

(** What can be observed of a channel: the queued messages (oldest first), the
    capacity given at creation, and whether each side is still alive. *)
Record chan_view (A : Type) := ChanView {
  items : list A; cap : nat; tx_alive : bool; rx_alive : bool
}.
Arguments ChanView {A}.
Arguments items {A}.
Arguments cap {A}.
Arguments tx_alive {A}.
Arguments rx_alive {A}.

(** The documented behaviour on views. *)
Module ChanSpec.

Definition channel {A} (n : nat) : chan_view A := ChanView [] n true true.

Definition has_room {A} (v : chan_view A) : bool := bool_decide (length (items v) < cap v)%nat.

Definition reserve {A} (v : chan_view A) : send_result :=
  if negb (rx_alive v) then SendClosed else if has_room v then SendOk else SendFull.

Definition push {A} (a : A) (v : chan_view A) : chan_view A :=
  ChanView (items v ++ [a]) (cap v) (tx_alive v) (rx_alive v).

Definition try_send {A} (a : A) (v : chan_view A) : send_result * chan_view A :=
  match reserve v with SendOk => (SendOk, push a v) | r => (r, v) end.

Definition try_recv {A} (v : chan_view A) : recv_result A * chan_view A :=
  match items v with
  | a :: r => (RecvOk a, ChanView r (cap v) (tx_alive v) (rx_alive v))
  | [] => (if tx_alive v then RecvEmpty else RecvDisconnected, v)
  end.

Definition drop_tx {A} (v : chan_view A) : chan_view A :=
  ChanView (items v) (cap v) false (rx_alive v).

Definition drop_rx {A} (v : chan_view A) : chan_view A :=
  ChanView [] (cap v) (tx_alive v) false.

End ChanSpec.

Class Mpsc := {
  chan : Type -> Type;
  view : forall {A}, chan A -> chan_view A;
  mpsc_channel : forall {A}, nat -> chan A;
  try_send : forall {A}, A -> chan A -> send_result * chan A;
  try_recv : forall {A}, chan A -> recv_result A * chan A;
  (* [try_reserve] followed at once by [Permit::send], or by dropping the permit *)
  try_reserve : forall {A}, chan A -> send_result;
  permit_send : forall {A}, A -> chan A -> chan A;
  (* the last sender, the receiver, goes out of scope *)
  drop_tx : forall {A}, chan A -> chan A;
  drop_rx : forall {A}, chan A -> chan A;
}.

Class MpscLaws `{Mpsc} : Prop := {
  channel_view : forall A n, view (mpsc_channel (A:=A) n) = ChanSpec.channel n;
  try_send_view : forall A (a : A) c,
    (fst (try_send a c), view (snd (try_send a c))) = ChanSpec.try_send a (view c);
  try_recv_view : forall A (c : chan A),
    (fst (try_recv c), view (snd (try_recv c))) = ChanSpec.try_recv (view c);
  try_reserve_view : forall A (c : chan A), try_reserve c = ChanSpec.reserve (view c);
  permit_send_view : forall A (a : A) c,
    try_reserve c = SendOk -> view (permit_send a c) = ChanSpec.push a (view c);
  drop_tx_view : forall A (c : chan A), view (drop_tx c) = ChanSpec.drop_tx (view c);
  drop_rx_view : forall A (c : chan A), view (drop_rx c) = ChanSpec.drop_rx (view c);
}.

(** ** smoltcp *)

Inductive TcpState :=
| StClosed | StListen | StSynSent | StSynReceived | StEstablished | StFinWait1
| StFinWait2 | StCloseWait | StClosing | StLastAck | StTimeWait.

#[global] Instance TcpState_eq_dec : EqDecision TcpState.
Proof. solve_decision. Defined.

Record IpCidr := { cidr_address : IpAddress; cidr_prefix_len : Z }.

#[global] Instance IpCidr_eq_dec : EqDecision IpCidr.
Proof. solve_decision. Defined.

Class Smoltcp := {
  SocketHandle : Type;
  handle_eq_dec :: EqDecision SocketHandle;
  handle_countable :: Countable SocketHandle;
  handle_size : Z;  (* size_of::<SocketHandle>() *)
  TcpSocket : Type;
  UdpSocket : Type;
  SocketSet : Type;
  Interface : Type;
  (* tcp::Socket *)
  tcp_new : nat -> nat -> TcpSocket;
  tcp_state : TcpSocket -> TcpState;
  tcp_listen : IpListenEndpoint -> TcpSocket -> string + TcpSocket;
  tcp_connect : IpEndpoint -> IpListenEndpoint -> Interface -> TcpSocket ->
    (string + TcpSocket) * Interface;
  tcp_close : TcpSocket -> TcpSocket;
  tcp_may_send : TcpSocket -> bool;
  tcp_can_send : TcpSocket -> bool;
  tcp_send_slice : bytes -> TcpSocket -> option nat * TcpSocket;
  tcp_can_recv : TcpSocket -> bool;
  tcp_recv_slice : nat -> TcpSocket -> option bytes * TcpSocket;
  tcp_remote_endpoint : TcpSocket -> option IpEndpoint;
  tcp_local_endpoint : TcpSocket -> option IpEndpoint;
  (* logical views: octets accepted for transmission since creation, octets
     received and not yet dequeued *)
  tcp_sent : TcpSocket -> bytes;
  tcp_rx : TcpSocket -> bytes;
  (* udp::Socket *)
  udp_new : nat -> nat -> UdpSocket;
  udp_bind : IpListenEndpoint -> UdpSocket -> string + UdpSocket;
  udp_close : UdpSocket -> UdpSocket;
  udp_can_send : UdpSocket -> bool;
  udp_send_slice : bytes -> IpEndpoint -> UdpSocket -> bool * UdpSocket;
  udp_can_recv : UdpSocket -> bool;
  udp_recv_slice : nat -> UdpSocket -> option (bytes * IpEndpoint) * UdpSocket;
  (* logical views: packets accepted since creation, packets waiting *)
  udp_sent : UdpSocket -> list (bytes * IpEndpoint);
  udp_rx : UdpSocket -> list (bytes * IpEndpoint);
  (* SocketSet; get_mut is a get (None: it panics) and a put *)
  sockets_new : SocketSet;
  sockets_add_tcp : TcpSocket -> SocketSet -> SocketHandle * SocketSet;
  sockets_add_udp : UdpSocket -> SocketSet -> SocketHandle * SocketSet;
  sockets_remove : SocketHandle -> SocketSet -> outcome SocketSet;
  get_tcp : SocketHandle -> SocketSet -> option TcpSocket;
  put_tcp : SocketHandle -> TcpSocket -> SocketSet -> SocketSet;
  get_udp : SocketHandle -> SocketSet -> option UdpSocket;
  put_udp : SocketHandle -> UdpSocket -> SocketSet -> SocketSet;
  (* IpCidr and Interface *)
  ip_cidr_new : IpAddress -> Z -> outcome IpCidr;
  addr_allowed : IpAddress -> bool;  (* unicast or unspecified *)
  ip_addrs : Interface -> list IpCidr;
  addr_push : IpCidr -> list IpCidr -> option (list IpCidr);
  update_ip_addrs : forall {R}, (list IpCidr -> R * list IpCidr) -> Interface ->
    outcome (R * Interface);
  max_addr_count : nat;
  (* Interface::new, Routes::add_default_ipv{4,6}_route (None: table full), set_any_ip *)
  iface_new : array 6 -> Interface;
  add_default_route : IpAddress -> Interface -> option Interface;
  set_any_ip : bool -> Interface -> Interface;
}.

(** The device and the polling entry points of [Interface]. *)
Inductive PollIngressSingleResult := IngressNone | PacketProcessed | IngressStateChanged.

Class Phy `{Smoltcp} := {
  Device : Type;
  poll_ingress_single : Z -> Device -> Interface -> SocketSet ->
    PollIngressSingleResult * Device * Interface * SocketSet;
  (* true: SocketStateChanged *)
  poll_egress : Z -> Device -> Interface -> SocketSet -> bool * Device * Interface * SocketSet;
}.

Definition cidr_width (a : IpAddress) : Z := match a with Ipv4 _ => 32 | Ipv6 _ => 128 end.

(** [SocketSet]: [add] returns a handle that was not in use, [remove] frees one,
    and [get_mut] gives access to one socket and leaves the others alone. *)
Class SocketSetLaws `{Smoltcp} : Prop := {
  get_tcp_new : forall h, get_tcp h sockets_new = None;
  get_udp_new : forall h, get_udp h sockets_new = None;
  get_one_kind : forall h s, get_tcp h s = None \/ get_udp h s = None;
  add_tcp_spec : forall k s h s', sockets_add_tcp k s = (h, s') ->
    get_tcp h s = None /\ get_udp h s = None /\
    (forall j, get_tcp j s' = if decide (j = h) then Some k else get_tcp j s) /\
    (forall j, get_udp j s' = get_udp j s);
  add_udp_spec : forall k s h s', sockets_add_udp k s = (h, s') ->
    get_tcp h s = None /\ get_udp h s = None /\
    (forall j, get_udp j s' = if decide (j = h) then Some k else get_udp j s) /\
    (forall j, get_tcp j s' = get_tcp j s);
  remove_spec : forall h s, is_Some (get_tcp h s) ->
    exists s', sockets_remove h s = Ret s' /\
    (forall j, get_tcp j s' = if decide (j = h) then None else get_tcp j s) /\
    (forall j, get_udp j s' = get_udp j s);
  put_tcp_spec : forall h k s, is_Some (get_tcp h s) ->
    (forall j, get_tcp j (put_tcp h k s) = if decide (j = h) then Some k else get_tcp j s) /\
    (forall j, get_udp j (put_tcp h k s) = get_udp j s);
  put_udp_spec : forall h k s, is_Some (get_udp h s) ->
    (forall j, get_udp j (put_udp h k s) = if decide (j = h) then Some k else get_udp j s) /\
    (forall j, get_tcp j (put_udp h k s) = get_tcp j s);
}.

(** [tcp::Socket] *)
Class TcpLaws `{Smoltcp} : Prop := {
  tcp_new_state : forall a b, tcp_state (tcp_new a b) = StClosed;
  (* listen: InvalidState when open, Unaddressable when the port is zero *)
  tcp_listen_spec : forall e s, tcp_state s = StClosed ->
    if decide (lep_port e = 0) then exists m, tcp_listen e s = inl m
    else exists s', tcp_listen e s = inr s' /\ tcp_state s' = StListen;
  tcp_connect_state : forall r l i s s' i',
    tcp_connect r l i s = (inr s', i') -> tcp_state s' = StSynSent;
  tcp_connect_iface : forall r l i s, ip_addrs (snd (tcp_connect r l i s)) = ip_addrs i;
  (* close of a listening socket *)
  tcp_close_listen : forall s, tcp_state s = StListen -> tcp_state (tcp_close s) = StClosed;
  tcp_close_data : forall s, tcp_sent (tcp_close s) = tcp_sent s /\ tcp_rx (tcp_close s) = tcp_rx s;
  (* can_send: the transmit half is open and the buffer is not full *)
  tcp_can_send_may : forall s, tcp_can_send s = true -> tcp_may_send s = true;
  (* send_slice: enqueues a prefix; InvalidState when the half is closed *)
  tcp_send_slice_spec : forall d s,
    match tcp_send_slice d s with
    | (Some n, s') => tcp_may_send s = true /\ (n <= length d)%nat /\
        tcp_sent s' = tcp_sent s ++ take n d /\ tcp_rx s' = tcp_rx s /\
        tcp_may_send s' = tcp_may_send s
    | (None, s') => tcp_may_send s = false /\ s' = s
    end;
  (* can_recv: the receive buffer is not empty *)
  tcp_can_recv_spec : forall s, tcp_can_recv s = true -> tcp_rx s <> [];
  (* recv_slice: dequeues what fits the slice *)
  tcp_recv_slice_spec : forall n s, tcp_can_recv s = true ->
    exists s', tcp_recv_slice n s = (Some (take n (tcp_rx s)), s') /\
    tcp_rx s' = drop n (tcp_rx s) /\ tcp_sent s' = tcp_sent s;
}.

(** [udp::Socket] *)
Class UdpLaws `{Smoltcp} : Prop := {
  (* bind: Unaddressable when the port is zero *)
  udp_bind_spec : forall e a b,
    if decide (lep_port e = 0) then exists m, udp_bind e (udp_new a b) = inl m
    else exists s', udp_bind e (udp_new a b) = inr s';
  udp_send_slice_spec : forall d e s,
    match udp_send_slice d e s with
    | (true, s') => udp_sent s' = udp_sent s ++ [(d, e)] /\ udp_rx s' = udp_rx s
    | (false, s') => s' = s
    end;
  udp_close_data : forall s, udp_sent (udp_close s) = udp_sent s;
  udp_can_recv_spec : forall s, udp_can_recv s = bool_decide (udp_rx s <> []);
  (* recv_slice: a packet that does not fit the slice is dropped (Truncated) *)
  udp_recv_slice_spec : forall n s d e r, udp_rx s = (d, e) :: r ->
    exists s', udp_recv_slice n s
      = (if decide (length d <= n)%nat then Some (d, e) else None, s') /\
    udp_rx s' = r /\ udp_sent s' = udp_sent s;
}.

(** [IpCidr] and [Interface] *)
Class IfaceLaws `{Smoltcp} : Prop := {
  (* IpCidr::new panics on a prefix length that is invalid for the address *)
  ip_cidr_new_spec : forall a p, ip_cidr_new a p =
    if decide (p <= cidr_width a) then Ret {| cidr_address := a; cidr_prefix_len := p |} else Panic;
  (* heapless::Vec::push fails when the vector is full *)
  addr_push_spec : forall c l,
    addr_push c l = if decide (length l < max_addr_count)%nat then Some (l ++ [c]) else None;
  (* update_ip_addrs panics when an address of the new list is not unicast *)
  update_ip_addrs_spec : forall R (f : list IpCidr -> R * list IpCidr) i,
    if forallb (fun c => addr_allowed (cidr_address c)) (snd (f (ip_addrs i)))
    then exists i', update_ip_addrs f i = Ret (fst (f (ip_addrs i)), i') /\
           ip_addrs i' = snd (f (ip_addrs i))
    else update_ip_addrs f i = Panic;
  iface_new_addrs : forall m, ip_addrs (iface_new m) = [];
  add_default_route_addrs : forall a i i', add_default_route a i = Some i' -> ip_addrs i' = ip_addrs i;
  set_any_ip_addrs : forall b i, ip_addrs (set_any_ip b i) = ip_addrs i;
}.

(** Polling moves packets; it neither adds nor removes sockets, nor does it
    change the addresses of the interface. *)
Class PhyLaws `{Phy} : Prop := {
  ingress_sockets : forall t d i s r d' i' s',
    poll_ingress_single t d i s = (r, d', i', s') ->
    (forall h, is_Some (get_tcp h s') <-> is_Some (get_tcp h s)) /\
    (forall h, is_Some (get_udp h s') <-> is_Some (get_udp h s)) /\ ip_addrs i' = ip_addrs i;
  egress_sockets : forall t d i s r d' i' s',
    poll_egress t d i s = (r, d', i', s') ->
    (forall h, is_Some (get_tcp h s') <-> is_Some (get_tcp h s)) /\
    (forall h, is_Some (get_udp h s') <-> is_Some (get_udp h s)) /\ ip_addrs i' = ip_addrs i;
}.

(** All the laws of smoltcp together. *)
Class SmoltcpLaws `{Smoltcp} : Prop := {
  smoltcp_sockets :: SocketSetLaws;
  smoltcp_tcp :: TcpLaws;
  smoltcp_udp :: UdpLaws;
  smoltcp_iface :: IfaceLaws;
}.

(** ** Reference instances *)
Module Reference.

#[export] Instance mpsc : Mpsc := {|
  chan := chan_view;
  view := fun _ c => c;
  mpsc_channel := @ChanSpec.channel;
  try_send := @ChanSpec.try_send;
  try_recv := @ChanSpec.try_recv;
  try_reserve := @ChanSpec.reserve;
  permit_send := @ChanSpec.push;
  drop_tx := @ChanSpec.drop_tx;
  drop_rx := @ChanSpec.drop_rx;
|}.

#[export] Instance mpsc_laws : MpscLaws.
Proof. constructor; intros; cbn; try done; by destruct (ChanSpec.try_send _ _) || destruct (ChanSpec.try_recv _). Qed.

Record tcp := Tcp {
  t_state : TcpState; t_sent : bytes; t_room : nat; t_rx : bytes;
  t_remote : option IpEndpoint; t_local : option IpEndpoint
}.

Record udp := Udp {
  u_port : Z; u_sent : list (bytes * IpEndpoint); u_room : nat;
  u_rx : list (bytes * IpEndpoint)
}.

Definition may_send (t : tcp) : bool :=
  bool_decide (t_state t = StEstablished \/ t_state t = StCloseWait).

Definition set_state (st : TcpState) (t : tcp) : tcp :=
  Tcp st (t_sent t) (t_room t) (t_rx t) (t_remote t) (t_local t).

Definition send_slice (d : bytes) (t : tcp) : option nat * tcp :=
  if may_send t then
    let n := Nat.min (length d) (t_room t) in
    (Some n, Tcp (t_state t) (t_sent t ++ take n d) (t_room t - n) (t_rx t) (t_remote t) (t_local t))
  else (None, t).

Definition recv_slice (n : nat) (t : tcp) : option bytes * tcp :=
  (Some (take n (t_rx t)),
   Tcp (t_state t) (t_sent t) (t_room t) (drop n (t_rx t)) (t_remote t) (t_local t)).

Definition close (t : tcp) : tcp :=
  set_state match t_state t with
            | StListen | StSynSent => StClosed
            | StSynReceived | StEstablished => StFinWait1
            | StCloseWait => StLastAck
            | s => s
            end t.

Definition connect (r : IpEndpoint) (l : IpListenEndpoint) (i : list IpCidr) (t : tcp)
  : (string + tcp) * list IpCidr :=
  if decide (t_state t <> StClosed) then (inl "invalid state", i)
  else if decide (ep_port r = 0 \/ lep_port l = 0) then (inl "unaddressable", i)
  else (inr (Tcp StSynSent [] (t_room t) [] (Some r)
          ((fun a => {| ep_addr := a; ep_port := lep_port l |}) <$> lep_addr l)), i).

Definition listen (e : IpListenEndpoint) (t : tcp) : string + tcp :=
  if decide (t_state t <> StClosed) then inl "invalid state"
  else if decide (lep_port e = 0) then inl "unaddressable"
  else inr (set_state StListen t).

Definition usend (d : bytes) (e : IpEndpoint) (u : udp) : bool * udp :=
  match u_room u with
  | O => (false, u)
  | S r => (true, Udp (u_port u) (u_sent u ++ [(d, e)]) r (u_rx u))
  end.

Definition urecv (n : nat) (u : udp) : option (bytes * IpEndpoint) * udp :=
  match u_rx u with
  | [] => (None, u)
  | (d, e) :: r =>
      (if decide (length d <= n)%nat then Some (d, e) else None, Udp (u_port u) (u_sent u) (u_room u) r)
  end.

Definition get_l {A B} (o : option (A + B)) : option A :=
  match o with Some (inl a) => Some a | _ => None end.
Definition get_r {A B} (o : option (A + B)) : option B :=
  match o with Some (inr b) => Some b | _ => None end.

#[export] Instance smoltcp : Smoltcp := {|
  SocketHandle := nat;
  handle_size := 8;
  TcpSocket := tcp;
  UdpSocket := udp;
  SocketSet := gmap nat (tcp + udp);
  Interface := list IpCidr;
  tcp_new := fun _ room => Tcp StClosed [] room [] None None;
  tcp_state := t_state;
  tcp_listen := listen;
  tcp_connect := connect;
  tcp_close := close;
  tcp_may_send := may_send;
  tcp_can_send := fun t => may_send t && bool_decide (0 < t_room t)%nat;
  tcp_send_slice := send_slice;
  tcp_can_recv := fun t => bool_decide (t_rx t <> []);
  tcp_recv_slice := recv_slice;
  tcp_remote_endpoint := t_remote;
  tcp_local_endpoint := t_local;
  tcp_sent := t_sent;
  tcp_rx := t_rx;
  udp_new := fun slots _ => Udp 0 [] slots [];
  udp_bind := fun e u =>
    if decide (lep_port e = 0) then inl "unaddressable"
    else inr (Udp (lep_port e) (u_sent u) (u_room u) (u_rx u));
  udp_close := fun u => Udp 0 (u_sent u) (u_room u) [];
  udp_can_send := fun u => bool_decide (0 < u_room u)%nat;
  udp_send_slice := usend;
  udp_can_recv := fun u => bool_decide (u_rx u <> []);
  udp_recv_slice := urecv;
  udp_sent := u_sent;
  udp_rx := u_rx;
  sockets_new := ∅;
  sockets_add_tcp := fun k m => let h := fresh (dom m : gset nat) in (h, <[h := inl k]> m);
  sockets_add_udp := fun k m => let h := fresh (dom m : gset nat) in (h, <[h := inr k]> m);
  sockets_remove := fun h m => match m !! h with Some _ => Ret (delete h m) | None => Panic end;
  get_tcp := fun h m => get_l (m !! h);
  put_tcp := fun h k m => <[h := inl k]> m;
  get_udp := fun h m => get_r (m !! h);
  put_udp := fun h k m => <[h := inr k]> m;
  ip_cidr_new := fun a p => if decide (p <= cidr_width a)
    then Ret {| cidr_address := a; cidr_prefix_len := p |} else Panic;
  addr_allowed := fun a => match a with
    | Ipv4 o => bool_decide (byte_val (o !!! 0%fin) < 224)
    | Ipv6 o => bool_decide (byte_val (o !!! 0%fin) < 255) end;
  ip_addrs := fun i => i;
  addr_push := fun c l => if decide (length l < 2)%nat then Some (l ++ [c]) else None;
  update_ip_addrs := fun R f i =>
    let '(r, l) := f i in
    if forallb (fun c => match cidr_address c with
      | Ipv4 o => bool_decide (byte_val (o !!! 0%fin) < 224)
      | Ipv6 o => bool_decide (byte_val (o !!! 0%fin) < 255) end) l
    then Ret (r, l) else Panic;
  max_addr_count := 2;
  iface_new := fun _ => [];
  add_default_route := fun _ i => Some i;
  set_any_ip := fun _ i => i;
|}.

(** A device whose pending work is a list of changes to the sockets. *)
#[export] Instance phy : Phy := {|
  Device := list (nat * (tcp -> tcp));
  poll_ingress_single := fun _ d i s =>
    match d with
    | [] => (IngressNone, d, i, s)
    | (h, f) :: d' =>
        match s !! h with
        | Some (inl k) => (IngressStateChanged, d', i, <[h := inl (f k)]> s)
        | _ => (PacketProcessed, d', i, s)
        end
    end;
  poll_egress := fun _ d i s => (false, d, i, s);
|}.

Lemma fresh_none (m : gmap nat (tcp + udp)) : m !! fresh (dom m : gset nat) = None.
Proof. apply not_elem_of_dom, is_fresh. Qed.

#[export] Instance socket_set_laws : SocketSetLaws.
Proof.
  constructor; cbn; intros.
  - done.
  - done.
  - destruct (s !! h) as [[|]|]; cbn; auto.
  - injection H as <- <-. rewrite fresh_none. split_and!; try done; intros j;
      rewrite lookup_insert; repeat case_decide; subst; try done; by rewrite fresh_none.
  - injection H as <- <-. rewrite fresh_none. split_and!; try done; intros j;
      rewrite lookup_insert; repeat case_decide; subst; try done; by rewrite fresh_none.
  - destruct H as [x Hx]. destruct (s !! h) as [[|]|] eqn:E; try done.
    eexists. split; [done|]. split; intros j; rewrite lookup_delete; case_decide;
      repeat case_decide; subst; try done; by rewrite E.
  - destruct H as [x Hx]. split; intros j; rewrite lookup_insert; repeat case_decide; subst; try done.
    cbn. by destruct (s !! j) as [[|]|].
  - destruct H as [x Hx]. split; intros j; rewrite lookup_insert; repeat case_decide; subst; try done.
    cbn. by destruct (s !! j) as [[|]|].
Qed.

#[export] Instance tcp_laws : TcpLaws.
Proof.
  constructor; cbn; try done.
  - intros e s Hs. unfold listen.
    destruct (decide (t_state s <> StClosed)) as [Hn|_]; [by destruct Hn|].
    case_decide; eauto.
  - intros r l i s s' i'. unfold connect. repeat case_decide; try done. by intros [= <- <-].
  - intros r l i s. unfold connect. by repeat case_decide.
  - intros s Hs. unfold close. by rewrite Hs.
  - by intros s [? ?]%andb_true_iff.
  - intros d s. unfold send_slice. destruct (may_send s) eqn:E; [|done].
    split_and!; try done. lia.
  - intros s. by rewrite bool_decide_eq_true.
  - intros n s _. eauto.
Qed.

#[export] Instance udp_laws : UdpLaws.
Proof.
  constructor; cbn; try done.
  - intros e ? ?. case_decide; eauto.
  - intros d e s. unfold usend. by destruct (u_room s).
  - intros n s d e r Hs. unfold urecv. rewrite Hs. eauto.
Qed.

#[export] Instance iface_laws : IfaceLaws.
Proof.
  constructor; cbn; try done.
  - intros R f i. destruct (f i) as [r l]; cbn. destruct (forallb _ _); eauto.
  - by intros a i i' [= <-].
Qed.

#[export] Instance phy_laws : PhyLaws.
Proof.
  constructor; cbn.
  - intros t [|[h f] d] i s r d' i' s'; [by intros [= <- <- <- <-]|].
    destruct (s !! h) as [[k|k]|] eqn:E; intros [= <- <- <- <-]; [|done..].
    split_and!; [..|done]; intros j; rewrite lookup_insert; case_decide; subst;
      rewrite ?E; cbn; rewrite ?is_Some_alt; done.
  - by intros t d i s r d' i' s' [= <- <- <- <-].
Qed.

#[export] Instance smoltcp_laws : SmoltcpLaws.
Proof. constructor; apply _. Qed.

End Reference.
