(* ===== verification/Stack.v ===== *)
(** * The stack task: state and commands ([src/stack/mod.rs])

    [run_stack] owns the smoltcp interface and sockets and six maps.  Here they
    are one record, [stack]; each [handle_*] function is a state transformer that
    may panic (where the source indexes a vector or calls [SocketSet::get_mut]).

    Channels are shared between the task and the application, so they live in a
    store addressed by identifiers: a [TcpSocketState] and the [TcpChannels] handed
    to the application hold the two ends of the same two channels.

    A oneshot sender is a token; answering it, or dropping it unanswered, is
    recorded in [log], oldest first. *)

From S2P Require Import Prelude Net Externals.
#[local] Open Scope Z_scope.

Definition INGRESS_BATCH_SIZE : nat := 256.
Definition TCP_SOCKET_BUFFER_SIZE : nat := Z.to_nat 65535.
Definition UDP_PACKET_BUFFER_SIZE : nat := Z.to_nat 65535.
Definition UDP_READ_BUF_SIZE : nat := Z.to_nat 9216.
Definition UDP_PACKET_METADATA_SLOTS : nat := 256.
Definition TCP_CHANNEL_CAPACITY : nat := 8.
Definition UDP_CHANNEL_CAPACITY : nat := 512.

(** ** Data *)

Record TcpChannels := { write_tx : nat; read_rx : nat }.

Record TcpSocketState := {
  write_rx : nat; read_tx : nat; pending_write : option bytes
}.

Record UdpChannels := { uwrite_tx : nat; uread_rx : nat }.

Record UdpSocketState := { uwrite_rx : nat; uread_tx : nat }.

(** Data path counters, the fields of [TunnelStats] ([src/lib.rs]). *)
Record TunnelStats := {
  ipc_rx_frames : Z; ipc_rx_dropped : Z; ipc_tx_frames : Z; ipc_tx_errors : Z;
  device_rx_frames : Z; device_tx_frames : Z; device_tx_dropped : Z;
  udp_tx_packets : Z; udp_tx_failed : Z; udp_rx_packets : Z; udp_rx_dropped : Z;
}.

(** [TunnelStats::default()] *)
Definition stats_zero : TunnelStats :=
  Build_TunnelStats 0 0 0 0 0 0 0 0 0 0 0.

Definition token := nat.

Section Stack.
Context {M : Mpsc} {N : Smoltcp}.

Inductive StackCommand :=
| TcpConnect (local_ip : option IpAddr) (addr : SocketAddr) (response : token)
| TcpListen (addr : SocketAddr) (backlog : nat) (response : token)
| TcpAccept (handle : SocketHandle) (response : token)
| TcpListenerClose (handle : SocketHandle)
| TcpClose (handle : SocketHandle)
| UdpBind (addr : SocketAddr) (response : token)
| UdpClose (handle : SocketHandle)
| AddIp (ip : IpAddr) (prefix_len : Z) (response : token)
| RemoveIp (ip : IpAddr) (response : token)
| GetIps (response : token).

Inductive PendingOp :=
| PendConnect (local_addr peer_addr : SocketAddr) (channels : TcpChannels) (response : token)
| PendAccept (response : token).

Record ListenerState := {
  l_addr : SocketAddr; listening_handles : list SocketHandle
}.

Record StackConfig := {
  cfg_mac : array 6; cfg_ip : IpAddr; cfg_prefix_len : Z; cfg_gateway : IpAddr
}.

(** What the task does to a oneshot sender. *)
Inductive event :=
| EvStream (t : token) (r : result (SocketHandle * SocketAddr * SocketAddr * TcpChannels))
| EvListen (t : token) (r : result (SocketHandle * SocketAddr))
| EvUdp (t : token) (r : result (SocketHandle * SocketAddr * UdpChannels))
| EvUnit (t : token) (r : result unit)
| EvIps (t : token) (ips : list (IpAddr * Z))
| EvDropped (t : token).

Record stack := MkStack {
  iface : Interface;
  sockets : SocketSet;
  pending : gmap SocketHandle PendingOp;
  listeners : gmap SocketHandle ListenerState;
  tcp_states : gmap SocketHandle TcpSocketState;
  udp_states : gmap SocketHandle UdpSocketState;
  bchans : gmap nat (chan bytes);
  uchans : gmap nat (chan (bytes * SocketAddr));
  next_chan : nat;
  eport : Z;
  stats : TunnelStats;
  log : list event;
}.

(** ** Field updates *)

Definition set_iface x (s : stack) : stack :=
  MkStack x (sockets s) (pending s) (listeners s) (tcp_states s) (udp_states s)
    (bchans s) (uchans s) (next_chan s) (eport s) (stats s) (log s).
Definition set_sockets x (s : stack) : stack :=
  MkStack (iface s) x (pending s) (listeners s) (tcp_states s) (udp_states s)
    (bchans s) (uchans s) (next_chan s) (eport s) (stats s) (log s).
Definition set_pending x (s : stack) : stack :=
  MkStack (iface s) (sockets s) x (listeners s) (tcp_states s) (udp_states s)
    (bchans s) (uchans s) (next_chan s) (eport s) (stats s) (log s).
Definition set_listeners x (s : stack) : stack :=
  MkStack (iface s) (sockets s) (pending s) x (tcp_states s) (udp_states s)
    (bchans s) (uchans s) (next_chan s) (eport s) (stats s) (log s).
Definition set_tcp_states x (s : stack) : stack :=
  MkStack (iface s) (sockets s) (pending s) (listeners s) x (udp_states s)
    (bchans s) (uchans s) (next_chan s) (eport s) (stats s) (log s).
Definition set_udp_states x (s : stack) : stack :=
  MkStack (iface s) (sockets s) (pending s) (listeners s) (tcp_states s) x
    (bchans s) (uchans s) (next_chan s) (eport s) (stats s) (log s).
Definition set_bchans x (s : stack) : stack :=
  MkStack (iface s) (sockets s) (pending s) (listeners s) (tcp_states s) (udp_states s)
    x (uchans s) (next_chan s) (eport s) (stats s) (log s).
Definition set_uchans x (s : stack) : stack :=
  MkStack (iface s) (sockets s) (pending s) (listeners s) (tcp_states s) (udp_states s)
    (bchans s) x (next_chan s) (eport s) (stats s) (log s).
Definition set_next_chan x (s : stack) : stack :=
  MkStack (iface s) (sockets s) (pending s) (listeners s) (tcp_states s) (udp_states s)
    (bchans s) (uchans s) x (eport s) (stats s) (log s).
Definition set_eport x (s : stack) : stack :=
  MkStack (iface s) (sockets s) (pending s) (listeners s) (tcp_states s) (udp_states s)
    (bchans s) (uchans s) (next_chan s) x (stats s) (log s).
Definition set_stats x (s : stack) : stack :=
  MkStack (iface s) (sockets s) (pending s) (listeners s) (tcp_states s) (udp_states s)
    (bchans s) (uchans s) (next_chan s) (eport s) x (log s).

(** A use of a oneshot sender. *)
Definition emit (e : event) (s : stack) : stack :=
  MkStack (iface s) (sockets s) (pending s) (listeners s) (tcp_states s) (udp_states s)
    (bchans s) (uchans s) (next_chan s) (eport s) (stats s) (log s ++ [e]).

(** ** Channels *)

Definition create_tcp_channels (s : stack) : TcpChannels * TcpSocketState * stack :=
  let w := next_chan s in
  let r := S w in
  ({| write_tx := w; read_rx := r |},
   {| write_rx := w; read_tx := r; pending_write := None |},
   set_next_chan (S r)
     (set_bchans (<[r := mpsc_channel TCP_CHANNEL_CAPACITY]>
                    (<[w := mpsc_channel TCP_CHANNEL_CAPACITY]> (bchans s))) s)).

Definition create_udp_channels (s : stack) : UdpChannels * UdpSocketState * stack :=
  let w := next_chan s in
  let r := S w in
  ({| uwrite_tx := w; uread_rx := r |},
   {| uwrite_rx := w; uread_tx := r |},
   set_next_chan (S r)
     (set_uchans (<[r := mpsc_channel UDP_CHANNEL_CAPACITY]>
                    (<[w := mpsc_channel UDP_CHANNEL_CAPACITY]> (uchans s))) s)).

(** Going out of scope: the task's ends of a socket's channels, and the
    application's ends held by a pending connect. *)
Definition drop_tcp_state (t : TcpSocketState) (s : stack) : stack :=
  set_bchans (alter drop_tx (read_tx t) (alter drop_rx (write_rx t) (bchans s))) s.

Definition drop_udp_state (t : UdpSocketState) (s : stack) : stack :=
  set_uchans (alter drop_tx (uread_tx t) (alter drop_rx (uwrite_rx t) (uchans s))) s.

Definition drop_tcp_channels (c : TcpChannels) (s : stack) : stack :=
  set_bchans (alter drop_rx (read_rx c) (alter drop_tx (write_tx c) (bchans s))) s.

(** [tcp_states.remove(&handle)], [udp_states.remove(&handle)] *)
Definition remove_tcp_state (h : SocketHandle) (s : stack) : stack :=
  match tcp_states s !! h with
  | None => s
  | Some t => drop_tcp_state t (set_tcp_states (delete h (tcp_states s)) s)
  end.

Definition remove_udp_state (h : SocketHandle) (s : stack) : stack :=
  match udp_states s !! h with
  | None => s
  | Some t => drop_udp_state t (set_udp_states (delete h (udp_states s)) s)
  end.

(** A pending operation that is dropped unanswered. *)
Definition drop_pending_op (op : PendingOp) (s : stack) : stack :=
  match op with
  | PendConnect _ _ c t => emit (EvDropped t) (drop_tcp_channels c s)
  | PendAccept t => emit (EvDropped t) s
  end.

(** [pending.insert(handle, op)]: a previous entry is dropped. *)
Definition insert_pending (h : SocketHandle) (op : PendingOp) (s : stack) : stack :=
  let s' := match pending s !! h with Some old => drop_pending_op old s | None => s end in
  set_pending (<[h := op]> (pending s')) s'.

(** [pending.remove(&handle);] as a statement: the entry is dropped. *)
Definition discard_pending (h : SocketHandle) (s : stack) : stack :=
  let s' := match pending s !! h with Some old => drop_pending_op old s | None => s end in
  set_pending (delete h (pending s')) s'.

(** [sockets.get_mut::<tcp::Socket>(h)] followed by an update. *)
Definition with_tcp (h : SocketHandle) (f : TcpSocket -> TcpSocket) (socks : SocketSet)
  : outcome SocketSet :=
  match get_tcp h socks with
  | Some k => Ret (put_tcp h (f k) socks)
  | None => Panic
  end.

Definition with_udp (h : SocketHandle) (f : UdpSocket -> UdpSocket) (socks : SocketSet)
  : outcome SocketSet :=
  match get_udp h socks with
  | Some k => Ret (put_udp h (f k) socks)
  | None => Panic
  end.

(** ** Command handlers *)

Definition handle_tcp_connect (cfg : StackConfig) (local_ip : option IpAddr) (addr : SocketAddr)
    (response : token) (s : stack) : outcome stack :=
  let '(handle, socks) :=
    sockets_add_tcp (tcp_new TCP_SOCKET_BUFFER_SIZE TCP_SOCKET_BUFFER_SIZE) (sockets s) in
  let remote := socket_addr_to_endpoint addr in
  let source_ip := default (cfg_ip cfg) local_ip in
  let '(local_port, port') := allocate_ephemeral_port (eport s) in
  let local := {| lep_addr := Some (ip_addr_to_smoltcp source_ip); lep_port := local_port |} in
  match get_tcp handle socks with
  | None => Panic
  | Some k =>
      match tcp_connect remote local (iface s) k with
      | (inl e, ifc) =>
          socks' ← sockets_remove handle socks;
          Ret (emit (EvStream response (Err (IoError OtherError ("connect failed: " +:+ e)%string)))
                 (set_iface ifc (set_eport port' (set_sockets socks' s))))
      | (inr k', ifc) =>
          let s1 := set_iface ifc (set_eport port' (set_sockets (put_tcp handle k' socks) s)) in
          let '(channels, state, s2) := create_tcp_channels s1 in
          let s3 := set_tcp_states (<[handle := state]> (tcp_states s2)) s2 in
          let local_addr := make_socket_addr source_ip local_port in
          Ret (insert_pending handle (PendConnect local_addr addr channels response) s3)
      end
  end.

(** The loop that creates [n] listening sockets: the handles so far and the
    socket set, or the error of the first [listen] that fails. *)
Fixpoint listen_loop (n : nat) (e : IpListenEndpoint) (handles : list SocketHandle)
    (socks : SocketSet) : (string + unit) * list SocketHandle * SocketSet :=
  match n with
  | O => (inr (), handles, socks)
  | S n' =>
      match tcp_listen e (tcp_new TCP_SOCKET_BUFFER_SIZE TCP_SOCKET_BUFFER_SIZE) with
      | inl err => (inl err, handles, socks)
      | inr k =>
          let '(h, socks') := sockets_add_tcp k socks in
          listen_loop n' e (handles ++ [h]) socks'
      end
  end.

Fixpoint remove_all (hs : list SocketHandle) (socks : SocketSet) : outcome SocketSet :=
  match hs with
  | [] => Ret socks
  | h :: r => socks' ← sockets_remove h socks; remove_all r socks'
  end.

Definition port_in_use (port : Z) (ls : gmap SocketHandle ListenerState) : bool :=
  existsb (fun '(_, st) => bool_decide (sock_port (l_addr st) = port)) (map_to_list ls).

(** [Vec::with_capacity]: a capacity of more than [isize::MAX] octets panics. *)
Definition ISIZE_MAX : Z := 2 ^ 63 - 1.
Definition handles_with_capacity (n : nat) : outcome (list SocketHandle) :=
  if decide (Z.of_nat n * handle_size <= ISIZE_MAX) then Ret [] else Panic.

Definition handle_tcp_listen (addr : SocketAddr) (backlog : nat) (response : token) (s : stack)
  : outcome stack :=
  let listen_endpoint := socket_addr_to_listen_endpoint addr in
  if decide (sock_port addr = 0) then
    Ret (emit (EvListen response (Err (IoError InvalidInput "cannot listen on port 0"))) s)
  else if port_in_use (sock_port addr) (listeners s) then
    Ret (emit (EvListen response (Err (IoError AddrInUse "address already in use"))) s)
  else
    let backlog := Nat.max backlog 1 in
    listening_handles ← handles_with_capacity backlog;
    match listen_loop backlog listen_endpoint listening_handles (sockets s) with
    | (inl e, handles, socks) =>
        socks' ← remove_all handles socks;
        Ret (emit (EvListen response (Err (IoError AddrInUse ("listen failed: " +:+ e)%string)))
               (set_sockets socks' s))
    | (inr _, [], _) => Panic
    | (inr _, primary :: rest, socks) =>
        let st := {| l_addr := addr; listening_handles := primary :: rest |} in
        Ret (emit (EvListen response (Ok (primary, addr)))
               (set_listeners (<[primary := st]> (listeners s)) (set_sockets socks s)))
    end.

(** The scan of [try_accept_socket]: index and addresses of the first socket that
    is Established and has a remote endpoint. *)
Fixpoint find_established (socks : SocketSet) (addr : SocketAddr) (hs : list SocketHandle)
    (idx : nat) : outcome (option (nat * SocketAddr * SocketAddr)) :=
  match hs with
  | [] => Ret None
  | h :: r =>
      match get_tcp h socks with
      | None => Panic
      | Some k =>
          if decide (tcp_state k = StEstablished) then
            match tcp_remote_endpoint k with
            | Some remote =>
                let local := match tcp_local_endpoint k with
                             | Some l => endpoint_to_socket_addr l
                             | None => addr
                             end in
                Ret (Some (idx, local, endpoint_to_socket_addr remote))
            | None => find_established socks addr r (S idx)
            end
          else find_established socks addr r (S idx)
      end
  end.

Definition try_accept_socket (socks : SocketSet) (st : ListenerState)
  : outcome (option (SocketHandle * SocketAddr * SocketAddr) * SocketSet * ListenerState) :=
  found ← find_established socks (l_addr st) (listening_handles st) 0;
  match found with
  | None => Ret (None, socks, st)
  | Some (idx, local, peer) =>
      match listening_handles st !! idx with
      | None => Panic
      | Some accepted =>
          let remaining := delete idx (listening_handles st) in
          let listen_endpoint := socket_addr_to_listen_endpoint (l_addr st) in
          match tcp_listen listen_endpoint (tcp_new TCP_SOCKET_BUFFER_SIZE TCP_SOCKET_BUFFER_SIZE) with
          | inr k =>
              let '(h, socks') := sockets_add_tcp k socks in
              Ret (Some (accepted, local, peer), socks',
                   {| l_addr := l_addr st; listening_handles := remaining ++ [h] |})
          | inl _ =>
              Ret (Some (accepted, local, peer), socks,
                   {| l_addr := l_addr st; listening_handles := remaining |})
          end
      end
  end.

(** The common end of [handle_tcp_accept] and of the accept branch of
    [process_pending]: channels for the accepted socket, and the answer. *)
Definition finish_accept (accepted : SocketHandle) (local peer : SocketAddr) (response : token)
    (s : stack) : stack :=
  let '(channels, state, s1) := create_tcp_channels s in
  emit (EvStream response (Ok (accepted, local, peer, channels)))
    (set_tcp_states (<[accepted := state]> (tcp_states s1)) s1).

Definition handle_tcp_accept (handle : SocketHandle) (response : token) (s : stack)
  : outcome stack :=
  match listeners s !! handle with
  | None =>
      Ret (emit (EvStream response (Err (IoError InvalidInput "not a listener handle"))) s)
  | Some st =>
      '(found, socks, st') ← try_accept_socket (sockets s) st;
      let s1 := set_listeners (<[handle := st']> (listeners s)) (set_sockets socks s) in
      match found with
      | Some (accepted, local, peer) => Ret (finish_accept accepted local peer response s1)
      | None => Ret (insert_pending handle (PendAccept response) s1)
      end
  end.

(** Close the sockets that are still in the Listen state. *)
Fixpoint close_listening (hs : list SocketHandle) (socks : SocketSet) : outcome SocketSet :=
  match hs with
  | [] => Ret socks
  | h :: r =>
      socks' ← with_tcp h (fun k => if decide (tcp_state k = StListen) then tcp_close k else k) socks;
      close_listening r socks'
  end.

Definition handle_tcp_listener_close (handle : SocketHandle) (s : stack) : outcome stack :=
  let s1 := discard_pending handle s in
  match listeners s1 !! handle with
  | None => Ret s1
  | Some st =>
      let s2 := set_listeners (delete handle (listeners s1)) s1 in
      socks ← close_listening (listening_handles st) (sockets s2);
      Ret (set_sockets socks s2)
  end.

Definition handle_tcp_close (handle : SocketHandle) (s : stack) : outcome stack :=
  socks ← with_tcp handle tcp_close (sockets s);
  Ret (remove_tcp_state handle (set_sockets socks s)).

Definition handle_udp_bind (addr : SocketAddr) (response : token) (s : stack) : outcome stack :=
  let k := udp_new UDP_PACKET_METADATA_SLOTS UDP_PACKET_BUFFER_SIZE in
  let '(port, port') :=
    if decide (sock_port addr = 0) then allocate_ephemeral_port (eport s)
    else (sock_port addr, eport s) in
  let s1 := set_eport port' s in
  let bound_addr := match addr with
                    | SockV4 ip _ => SockV4 ip port
                    | SockV6 ip _ _ _ => SockV6 ip port 0 0
                    end in
  let endpoint := socket_addr_to_listen_endpoint_with_port addr port in
  match udp_bind endpoint k with
  | inl e =>
      Ret (emit (EvUdp response (Err (IoError AddrInUse ("bind failed: " +:+ e)%string))) s1)
  | inr k' =>
      let '(handle, socks) := sockets_add_udp k' (sockets s1) in
      let '(channels, state, s2) := create_udp_channels (set_sockets socks s1) in
      Ret (emit (EvUdp response (Ok (handle, bound_addr, channels)))
             (set_udp_states (<[handle := state]> (udp_states s2)) s2))
  end.

Definition handle_udp_close (handle : SocketHandle) (s : stack) : outcome stack :=
  socks ← with_udp handle udp_close (sockets s);
  Ret (remove_udp_state handle (set_sockets socks s)).

Definition handle_add_ip (ip : IpAddr) (prefix_len : Z) (response : token) (s : stack)
  : outcome stack :=
  cidr ← ip_cidr_new (ip_addr_to_smoltcp ip) prefix_len;
  if existsb (fun a => bool_decide (a = cidr)) (ip_addrs (iface s)) then
    Ret (emit (EvUnit response (Ok ())) s)
  else
    '(add_result, ifc) ←
      update_ip_addrs (fun addrs =>
        match addr_push cidr addrs with
        | Some addrs' => (Ok (), addrs')
        | None => (Err (IoError OutOfMemory "address list full"), addrs)
        end) (iface s);
    Ret (emit (EvUnit response add_result) (set_iface ifc s)).

Definition handle_remove_ip (ip : IpAddr) (response : token) (s : stack) : outcome stack :=
  let target := ip_addr_to_smoltcp ip in
  '(_, ifc) ←
    update_ip_addrs (fun addrs =>
      ((), List.filter (fun a => bool_decide (cidr_address a <> target)) addrs)) (iface s);
  Ret (emit (EvUnit response (Ok ())) (set_iface ifc s)).

Definition handle_get_ips (response : token) (s : stack) : stack :=
  let ips := (fun c => (smoltcp_to_ip_addr (cidr_address c), cidr_prefix_len c)) <$>
               ip_addrs (iface s) in
  emit (EvIps response ips) s.

(** [handle_command]: the boolean tells whether the task goes on. *)
Definition handle_command (cfg : StackConfig) (cmd : StackCommand) (s : stack)
  : outcome (bool * stack) :=
  s' ← match cmd with
       | TcpConnect local_ip addr t => handle_tcp_connect cfg local_ip addr t s
       | TcpListen addr backlog t => handle_tcp_listen addr backlog t s
       | TcpAccept h t => handle_tcp_accept h t s
       | TcpListenerClose h => handle_tcp_listener_close h s
       | TcpClose h => handle_tcp_close h s
       | UdpBind addr t => handle_udp_bind addr t s
       | UdpClose h => handle_udp_close h s
       | AddIp ip p t => handle_add_ip ip p t s
       | RemoveIp ip t => handle_remove_ip ip t s
       | GetIps t => Ret (handle_get_ips t s)
       end;
  Ret (true, s').

End Stack.
