(* ===== verification/StackPoll.v ===== *)
(** * The stack task: data path and main loop ([src/stack/mod.rs])

    [process_tcp_write], [process_tcp_read] and their UDP counterparts move data
    between the application's channels and the smoltcp sockets; [process_pending]
    completes connects and accepts; [stack_iter] is one turn of the loop of
    [run_stack].

    The order in which the source visits a [HashMap] is unspecified: every
    iteration takes the list of handles it visits as an argument.

    A loop that the source bounds by a channel takes fuel from the channel: a
    write loop receives at most the queued messages and one more answer, a read
    loop sends at most until the channel is full; [*_loop_fuel] (in [StackData])
    shows that more fuel changes nothing. *)

From S2P Require Import Prelude Net Externals Stack.
#[local] Open Scope Z_scope.

Section Poll.
Context {M : Mpsc} {N : Smoltcp}.

(** ** One socket *)

(** [while socket.can_send()] of [process_tcp_write]; the last component is the
    new [pending_write]. *)
Fixpoint tcp_write_loop (fuel : nat) (k : TcpSocket) (c : chan bytes)
  : TcpSocket * chan bytes * option bytes :=
  match fuel with
  | O => (k, c, None)
  | S fuel' =>
      if tcp_can_send k then
        match try_recv c with
        | (RecvOk data, c') =>
            match tcp_send_slice data k with
            | (Some n, k') =>
                if decide (n < length data)%nat then (k', c', Some (drop n data))
                else tcp_write_loop fuel' k' c'
            | (None, k') => (k', c', None)
            end
        | (RecvEmpty, c') => (k, c', None)
        | (RecvDisconnected, c') => (tcp_close k, c', None)
        end
      else (k, c, None)
  end.

Definition write_fuel {A} (c : chan A) : nat := S (length (items (view c))).
Definition read_fuel {A} (c : chan A) : nat := S (cap (view c) - length (items (view c))).

Definition process_tcp_write (k : TcpSocket) (c : chan bytes) (pend : option bytes)
  : TcpSocket * chan bytes * option bytes :=
  match pend with
  | Some p =>
      if tcp_may_send k then
        match tcp_send_slice p k with
        | (Some n, k') =>
            if decide (n < length p)%nat then (k', c, Some (drop n p))
            else tcp_write_loop (write_fuel c) k' c
        | (None, k') => (k', c, None)
        end
      else (k, c, Some p)
  | None => tcp_write_loop (write_fuel c) k c
  end.

Fixpoint tcp_read_loop (fuel : nat) (k : TcpSocket) (c : chan bytes) : TcpSocket * chan bytes :=
  match fuel with
  | O => (k, c)
  | S fuel' =>
      if tcp_can_recv k then
        match try_reserve c with
        | SendOk =>
            match tcp_recv_slice TCP_SOCKET_BUFFER_SIZE k with
            | (Some (b :: buf), k') => tcp_read_loop fuel' k' (permit_send (b :: buf) c)
            | (_, k') => (k', c)
            end
        | _ => (k, c)
        end
      else (k, c)
  end.

Definition process_tcp_read (k : TcpSocket) (c : chan bytes) : TcpSocket * chan bytes :=
  tcp_read_loop (read_fuel c) k c.

Definition bump (x : Z) : Z := snd (fetch_add 64 x 1).

Definition add_udp_tx (st : TunnelStats) : TunnelStats :=
  Build_TunnelStats (ipc_rx_frames st) (ipc_rx_dropped st) (ipc_tx_frames st) (ipc_tx_errors st)
    (device_rx_frames st) (device_tx_frames st) (device_tx_dropped st)
    (bump (udp_tx_packets st)) (udp_tx_failed st) (udp_rx_packets st) (udp_rx_dropped st).
Definition add_udp_tx_failed (st : TunnelStats) : TunnelStats :=
  Build_TunnelStats (ipc_rx_frames st) (ipc_rx_dropped st) (ipc_tx_frames st) (ipc_tx_errors st)
    (device_rx_frames st) (device_tx_frames st) (device_tx_dropped st)
    (udp_tx_packets st) (bump (udp_tx_failed st)) (udp_rx_packets st) (udp_rx_dropped st).
Definition add_udp_rx (st : TunnelStats) : TunnelStats :=
  Build_TunnelStats (ipc_rx_frames st) (ipc_rx_dropped st) (ipc_tx_frames st) (ipc_tx_errors st)
    (device_rx_frames st) (device_tx_frames st) (device_tx_dropped st)
    (udp_tx_packets st) (udp_tx_failed st) (bump (udp_rx_packets st)) (udp_rx_dropped st).
Definition add_udp_rx_dropped (st : TunnelStats) : TunnelStats :=
  Build_TunnelStats (ipc_rx_frames st) (ipc_rx_dropped st) (ipc_tx_frames st) (ipc_tx_errors st)
    (device_rx_frames st) (device_tx_frames st) (device_tx_dropped st)
    (udp_tx_packets st) (udp_tx_failed st) (udp_rx_packets st) (bump (udp_rx_dropped st)).

Fixpoint udp_write_loop (fuel : nat) (k : UdpSocket) (c : chan (bytes * SocketAddr))
    (st : TunnelStats) : UdpSocket * chan (bytes * SocketAddr) * TunnelStats :=
  match fuel with
  | O => (k, c, st)
  | S fuel' =>
      if udp_can_send k then
        match try_recv c with
        | (RecvOk (data, dest), c') =>
            let endpoint := socket_addr_to_endpoint dest in
            match udp_send_slice data endpoint k with
            | (true, k') => udp_write_loop fuel' k' c' (add_udp_tx st)
            | (false, k') => udp_write_loop fuel' k' c' (add_udp_tx_failed st)
            end
        | (RecvEmpty, c') => (k, c', st)
        | (RecvDisconnected, c') => (udp_close k, c', st)
        end
      else (k, c, st)
  end.

Definition process_udp_write (k : UdpSocket) (c : chan (bytes * SocketAddr)) (st : TunnelStats)
  : UdpSocket * chan (bytes * SocketAddr) * TunnelStats :=
  udp_write_loop (write_fuel c) k c st.

Fixpoint udp_read_loop (fuel : nat) (k : UdpSocket) (c : chan (bytes * SocketAddr))
    (st : TunnelStats) : UdpSocket * chan (bytes * SocketAddr) * TunnelStats :=
  match fuel with
  | O => (k, c, st)
  | S fuel' =>
      if udp_can_recv k then
        match try_reserve c with
        | SendOk =>
            match udp_recv_slice UDP_READ_BUF_SIZE k with
            | (Some (data, ep), k') =>
                udp_read_loop fuel' k' (permit_send (data, endpoint_to_socket_addr ep) c)
                  (add_udp_rx st)
            | (None, k') => (k', c, st)
            end
        | _ => (k, c, add_udp_rx_dropped st)
        end
      else (k, c, st)
  end.

Definition process_udp_read (k : UdpSocket) (c : chan (bytes * SocketAddr)) (st : TunnelStats)
  : UdpSocket * chan (bytes * SocketAddr) * TunnelStats :=
  udp_read_loop (read_fuel c) k c st.

(** ** All sockets *)

Fixpoint each (f : SocketHandle -> stack -> outcome stack) (hs : list SocketHandle) (s : stack)
  : outcome stack :=
  match hs with
  | [] => Ret s
  | h :: r => s' ← f h s; each f r s'
  end.

(** The body of each loop of [poll_write_channels] and [poll_read_channels].  A
    missing socket is the panic of [get_mut]; an identifier that is not in the
    channel store (which no reachable state has, see [StackInv]) is one too. *)
Definition poll_tcp_write (h : SocketHandle) (s : stack) : outcome stack :=
  match tcp_states s !! h with
  | None => Ret s
  | Some t =>
      match get_tcp h (sockets s), bchans s !! write_rx t with
      | Some k, Some c =>
          let '(k', c', pend) := process_tcp_write k c (pending_write t) in
          Ret (set_tcp_states
                 (<[h := {| write_rx := write_rx t; read_tx := read_tx t; pending_write := pend |}]>
                    (tcp_states s))
                 (set_bchans (<[write_rx t := c']> (bchans s))
                    (set_sockets (put_tcp h k' (sockets s)) s)))
      | _, _ => Panic
      end
  end.

Definition poll_udp_write (h : SocketHandle) (s : stack) : outcome stack :=
  match udp_states s !! h with
  | None => Ret s
  | Some t =>
      match get_udp h (sockets s), uchans s !! uwrite_rx t with
      | Some k, Some c =>
          let '(k', c', st) := process_udp_write k c (stats s) in
          Ret (set_stats st (set_uchans (<[uwrite_rx t := c']> (uchans s))
                 (set_sockets (put_udp h k' (sockets s)) s)))
      | _, _ => Panic
      end
  end.

Definition poll_tcp_read (h : SocketHandle) (s : stack) : outcome stack :=
  match tcp_states s !! h with
  | None => Ret s
  | Some t =>
      match get_tcp h (sockets s), bchans s !! read_tx t with
      | Some k, Some c =>
          let '(k', c') := process_tcp_read k c in
          Ret (set_bchans (<[read_tx t := c']> (bchans s))
                 (set_sockets (put_tcp h k' (sockets s)) s))
      | _, _ => Panic
      end
  end.

Definition poll_udp_read (h : SocketHandle) (s : stack) : outcome stack :=
  match udp_states s !! h with
  | None => Ret s
  | Some t =>
      match get_udp h (sockets s), uchans s !! uread_tx t with
      | Some k, Some c =>
          let '(k', c', st) := process_udp_read k c (stats s) in
          Ret (set_stats st (set_uchans (<[uread_tx t := c']> (uchans s))
                 (set_sockets (put_udp h k' (sockets s)) s)))
      | _, _ => Panic
      end
  end.

Definition poll_write_channels (tcp_order udp_order : list SocketHandle) (s : stack)
  : outcome stack :=
  s' ← each poll_tcp_write tcp_order s;
  each poll_udp_write udp_order s'.

Definition poll_read_channels (tcp_order udp_order : list SocketHandle) (s : stack)
  : outcome stack :=
  s' ← each poll_tcp_read tcp_order s;
  each poll_udp_read udp_order s'.

(** ** Pending operations *)

Definition process_one_pending (h : SocketHandle) (s : stack) : outcome stack :=
  match pending s !! h with
  | Some (PendConnect local_addr peer_addr channels response) =>
      match get_tcp h (sockets s) with
      | None => Panic
      | Some k =>
          match tcp_state k with
          | StEstablished =>
              Ret (emit (EvStream response (Ok (h, local_addr, peer_addr, channels)))
                     (set_pending (delete h (pending s)) s))
          | StClosed | StTimeWait =>
              let s1 := remove_tcp_state h (set_pending (delete h (pending s)) s) in
              Ret (drop_tcp_channels channels
                     (emit (EvStream response (Err (IoError ConnectionRefused "connection failed"))) s1))
          | _ => Ret s
          end
      end
  | Some (PendAccept response) =>
      match listeners s !! h with
      | Some st =>
          '(found, socks, st') ← try_accept_socket (sockets s) st;
          let s1 := set_listeners (<[h := st']> (listeners s)) (set_sockets socks s) in
          match found with
          | Some (accepted, local, peer) =>
              Ret (finish_accept accepted local peer response
                     (set_pending (delete h (pending s1)) s1))
          | None => Ret s1
          end
      | None =>
          Ret (emit (EvStream response (Err (IoError InvalidInput "listener closed")))
                 (set_pending (delete h (pending s)) s))
      end
  | None => Ret s
  end.

Definition process_pending (order : list SocketHandle) (s : stack) : outcome stack :=
  each process_one_pending order s.

(** ** Shutdown *)

(** [for (_handle, op) in pending.drain()]: every waiter gets an error. *)
Definition abort_pending_op (op : PendingOp) (s : stack) : stack :=
  let e := Err (IoError ConnectionAborted "proxy connection lost") in
  match op with
  | PendConnect _ _ c t => drop_tcp_channels c (emit (EvStream t e) s)
  | PendAccept t => emit (EvStream t e) s
  end.

Fixpoint drain_pending (order : list SocketHandle) (s : stack) : stack :=
  match order with
  | [] => s
  | h :: r =>
      match pending s !! h with
      | Some op =>
          drain_pending r (abort_pending_op op (set_pending (delete h (pending s)) s))
      | None => drain_pending r s
      end
  end.

(** The locals of [run_stack] go out of scope when it returns: senders still in
    [pending] are dropped, and so are the task's ends of every channel. *)
Definition drop_locals (pend tcp udp : list SocketHandle) (s : stack) : stack :=
  let s1 := foldl (fun s h => discard_pending h s) s pend in
  let s2 := foldl (fun s h => remove_tcp_state h s) s1 tcp in
  foldl (fun s h => remove_udp_state h s) s2 udp.

(** ** The main loop *)

Definition MAX_POLL_INTERVAL_MS : Z := 1.

(** How long the task sleeps at most, in microseconds, given smoltcp's wish. *)
Definition poll_interval (poll_delay : option Z) : Z :=
  match poll_delay with
  | Some delay => Z.min delay (MAX_POLL_INTERVAL_MS * 1000)
  | None => MAX_POLL_INTERVAL_MS * 1000
  end.

Context {P : Phy}.

(** The loop over [0..INGRESS_BATCH_SIZE]: whether some socket changed state. *)
Fixpoint ingress_batch (n : nat) (now : Z) (changed : bool) (d : Device) (s : stack)
  : bool * Device * stack :=
  match n with
  | O => (changed, d, s)
  | S n' =>
      let '(r, d', ifc, socks) := poll_ingress_single now d (iface s) (sockets s) in
      let s' := set_iface ifc (set_sockets socks s) in
      match r with
      | IngressNone => (changed, d', s')
      | PacketProcessed => ingress_batch n' now changed d' s'
      | IngressStateChanged => ingress_batch n' now true d' s'
      end
  end.

(** The HashMap orders of one turn, and the outcome of its [select!]. *)
Record turn := {
  o_wtcp : list SocketHandle; o_wudp : list SocketHandle;
  o_rtcp : list SocketHandle; o_rudp : list SocketHandle;
  o_pend : list SocketHandle; o_drain : list SocketHandle;
  t_now : Z; t_ipc_dead : bool;
}.

(** The command branch of the [select!]: a command, the end of the command
    channel, or one of the two other branches (which do nothing themselves). *)
Inductive wake := WakeCommand (cmd : StackCommand) | WakeDisconnected | WakeOther.

Inductive iter_result :=
| Continue (d : Device) (s : stack)
| Stop (d : Device) (s : stack).

(** From the write poll to the end of the loop body. *)
Definition stack_poll (t : turn) (d : Device) (s : stack) : outcome iter_result :=
  s1 ← poll_write_channels (o_wtcp t) (o_wudp t) s;
  let '(changed, d1, s2) := ingress_batch INGRESS_BATCH_SIZE (t_now t) false d s1 in
  let '(egress, d2, ifc, socks) := poll_egress (t_now t) d1 (iface s2) (sockets s2) in
  let s3 := set_iface ifc (set_sockets socks s2) in
  s4 ← poll_read_channels (o_rtcp t) (o_rudp t) s3;
  s5 ← (if changed || egress then process_pending (o_pend t) s4 else Ret s4);
  if t_ipc_dead t then Ret (Stop d2 (drain_pending (o_drain t) s5))
  else Ret (Continue d2 s5).

Definition stack_iter (cfg : StackConfig) (w : wake) (t : turn) (d : Device) (s : stack)
  : outcome iter_result :=
  match w with
  | WakeDisconnected => Ret (Stop d s)
  | WakeCommand cmd =>
      x ← handle_command cfg cmd s;
      let '(go_on, s') := x : bool * stack in
      if go_on then stack_poll t d s' else Ret (Stop d s')
  | WakeOther => stack_poll t d s
  end.

(** The state before the first turn: [run_stack] up to its loop. *)
Definition stack_init (cfg : StackConfig) (port : Z) : outcome stack :=
  let ifc := iface_new (cfg_mac cfg) in
  cidr ← ip_cidr_new (ip_addr_to_smoltcp (cfg_ip cfg)) (cfg_prefix_len cfg);
  '(pushed, ifc1) ←
    update_ip_addrs (fun addrs =>
      match addr_push cidr addrs with Some l => (true, l) | None => (false, addrs) end) ifc;
  if negb pushed then Panic
  else match add_default_route (ip_addr_to_smoltcp (cfg_gateway cfg)) ifc1 with
       | None => Panic
       | Some ifc2 =>
           Ret (MkStack (set_any_ip true ifc2) sockets_new ∅ ∅ ∅ ∅ ∅ ∅ 0 port stats_zero [])
       end.

End Poll.
