(* ===== verification/StackData.v ===== *)
(** * The data path of the stack task: no loss, no reordering, accounting

    Theorems on [process_tcp_write], [process_tcp_read], [process_udp_write] and
    [process_udp_read] against the documented behaviour of channels and
    sockets. *)

From S2P Require Import Prelude Net Externals Stack StackPoll.
#[local] Open Scope Z_scope.

Section Channels.
Context `{MpscLaws} {A : Type}.
Implicit Types (c : chan A) (a : A).

(** The two ends and the capacity, which data transfer leaves alone. *)
Definition same_ends c c' : Prop :=
  cap (view c') = cap (view c) /\ tx_alive (view c') = tx_alive (view c) /\
  rx_alive (view c') = rx_alive (view c).

Lemma same_ends_refl c : same_ends c c.
Proof. done. Qed.

Lemma same_ends_trans c1 c2 c3 : same_ends c1 c2 -> same_ends c2 c3 -> same_ends c1 c3.
Proof. unfold same_ends. intuition congruence. Qed.

Lemma try_recv_ok c a c' :
  try_recv c = (RecvOk a, c') -> items (view c) = a :: items (view c') /\ same_ends c c'.
Proof.
  intros E. pose proof (try_recv_view A c) as L. rewrite E in L. cbn in L.
  unfold ChanSpec.try_recv in L. destruct (items (view c)) eqn:Ei.
  - destruct (tx_alive (view c)); discriminate.
  - injection L as -> Hv. unfold same_ends. rewrite Hv. cbn. done.
Qed.

Lemma try_recv_empty c c' :
  try_recv c = (RecvEmpty, c') ->
  items (view c) = [] /\ tx_alive (view c) = true /\ view c' = view c.
Proof.
  intros E. pose proof (try_recv_view A c) as L. rewrite E in L. cbn in L.
  unfold ChanSpec.try_recv in L. destruct (items (view c)) eqn:Ei; [|discriminate].
  destruct (tx_alive (view c)) eqn:Et; [|discriminate]. by injection L as ->.
Qed.

Lemma try_recv_disconnected c c' :
  try_recv c = (RecvDisconnected, c') ->
  items (view c) = [] /\ tx_alive (view c) = false /\ view c' = view c.
Proof.
  intros E. pose proof (try_recv_view A c) as L. rewrite E in L. cbn in L.
  unfold ChanSpec.try_recv in L. destruct (items (view c)) eqn:Ei; [|discriminate].
  destruct (tx_alive (view c)) eqn:Et; [discriminate|]. by injection L as ->.
Qed.

Lemma reserve_ok c :
  try_reserve c = SendOk -> (length (items (view c)) < cap (view c))%nat /\ rx_alive (view c) = true.
Proof.
  rewrite try_reserve_view. unfold ChanSpec.reserve, ChanSpec.has_room.
  destruct (rx_alive (view c)); cbn; [|done]. case_bool_decide; done.
Qed.

Lemma permit_send_ok a c :
  try_reserve c = SendOk ->
  items (view (permit_send a c)) = items (view c) ++ [a] /\ same_ends c (permit_send a c).
Proof. intros E. unfold same_ends. rewrite permit_send_view by done. done. Qed.

Lemma view_same_ends c c' : view c' = view c -> same_ends c c'.
Proof. unfold same_ends. by intros ->. Qed.

End Channels.

#[export] Hint Resolve same_ends_refl view_same_ends : tunnel.

(** Turn an equation on a channel operation into facts about views. *)
Ltac chan_facts :=
  repeat match goal with
  | E : try_recv _ = (RecvOk _, _) |- _ => apply try_recv_ok in E as [? ?]
  | E : try_recv _ = (RecvEmpty, _) |- _ => apply try_recv_empty in E as (? & ? & ?)
  | E : try_recv _ = (RecvDisconnected, _) |- _ => apply try_recv_disconnected in E as (? & ? & ?)
  end.

Section Tcp.
Context `{MpscLaws} `{TcpLaws}.
Implicit Types (k : TcpSocket) (c : chan bytes).

(** What is still on its way from the application to the peer: the octets the
    socket accepted, then the pending partial write, then the queue. *)
Definition tx_stream k (pend : option bytes) c : bytes :=
  tcp_sent k ++ default [] pend ++ concat (items (view c)).

Lemma send_slice_some d k n k' :
  tcp_send_slice d k = (Some n, k') ->
  (n <= length d)%nat /\ tcp_sent k' = tcp_sent k ++ take n d.
Proof. intros E. pose proof (tcp_send_slice_spec d k) as L. rewrite E in L. tauto. Qed.

Lemma send_slice_none d k k' :
  tcp_send_slice d k = (None, k') -> tcp_may_send k = false.
Proof. intros E. pose proof (tcp_send_slice_spec d k) as L. rewrite E in L. tauto. Qed.

Lemma tcp_write_loop_stream fuel k c k' c' pend :
  tcp_write_loop fuel k c = (k', c', pend) ->
  tx_stream k' pend c' = tx_stream k None c /\
  tcp_sent k `prefix_of` tcp_sent k' /\ same_ends c c' /\
  (forall p, pend = Some p -> p <> []).
Proof.
  revert k c. induction fuel as [|fuel IH]; intros k c; cbn [tcp_write_loop].
  { intros [= <- <- <-]. auto with tunnel. }
  destruct (tcp_can_send k) eqn:Hcs; [|intros [= <- <- <-]; auto with tunnel].
  destruct (try_recv c) as [[data| |] c1] eqn:Er; chan_facts; unfold tx_stream.
  - destruct (tcp_send_slice data k) as [[n|] k1] eqn:Es.
    2:{ apply send_slice_none in Es. apply tcp_can_send_may in Hcs. congruence. }
    apply send_slice_some in Es as [Hn Hs].
    match goal with E : items (view c) = _ |- _ => rewrite E end. cbn [default concat].
    case_decide as Hlt.
    + intros [= <- <- <-]. rewrite Hs. split_and!; [|by eexists|done|].
      * cbn [default from_option id]. rewrite <- !app_assoc, (app_assoc (take _ _)), take_drop. done.
      * intros p [= <-] Hp. apply (f_equal length) in Hp. rewrite length_drop in Hp. cbn in Hp. lia.
    + intros (Hst & Hpre & He & Hp)%IH. unfold tx_stream in Hst. rewrite Hs in Hst, Hpre.
      rewrite take_ge in Hst, Hpre by lia. split_and!; [| | |done].
      * rewrite Hst. cbn. by rewrite <- app_assoc.
      * etrans; [|exact Hpre]. by eexists.
      * by eapply same_ends_trans.
  - intros [= <- <- <-].
    match goal with E : view c1 = view c |- _ => rewrite E end. auto with tunnel.
  - intros [= <- <- <-]. destruct (tcp_close_data k) as [-> _].
    match goal with E : view c1 = view c |- _ => rewrite E end. auto with tunnel.
Qed.

(** More fuel than the queue needs does not change the result. *)
Lemma tcp_write_loop_fuel fuel k c :
  (length (items (view c)) < fuel)%nat ->
  tcp_write_loop fuel k c = tcp_write_loop (write_fuel c) k c.
Proof.
  unfold write_fuel. remember (S (length (items (view c)))) as m eqn:Em.
  revert k c m Em. induction fuel as [|fuel IH]; intros k c m Em Hlt; [lia|].
  subst m. cbn [tcp_write_loop]. destruct (tcp_can_send k); [|done].
  destruct (try_recv c) as [[data| |] c1] eqn:Er; [|done..]. chan_facts.
  destruct (tcp_send_slice data k) as [[n|] k1]; [|done]. case_decide; [done|].
  match goal with E : items (view c) = _ |- _ => rewrite E in * end. cbn [length] in *.
  apply IH; [done|lia].
Qed.

(** What is on its way from the peer to the application. *)
Definition rx_stream c k : bytes := concat (items (view c)) ++ tcp_rx k.

(** A readable socket hands over a non-empty chunk. *)
Lemma recv_slice_chunk k :
  tcp_can_recv k = true ->
  exists b buf k', tcp_recv_slice TCP_SOCKET_BUFFER_SIZE k = (Some (b :: buf), k') /\
    tcp_rx k = (b :: buf) ++ tcp_rx k' /\ tcp_sent k' = tcp_sent k.
Proof.
  intros Hr. destruct (tcp_recv_slice_spec TCP_SOCKET_BUFFER_SIZE k Hr) as (k1 & E & Hrx & Hsent).
  apply tcp_can_recv_spec in Hr. rewrite E.
  destruct (take TCP_SOCKET_BUFFER_SIZE (tcp_rx k)) as [|b buf] eqn:Ek.
  - destruct (tcp_rx k); [done|]. unfold TCP_SOCKET_BUFFER_SIZE in Ek.
    change (Z.to_nat 65535) with (S (Z.to_nat 65534)) in Ek. discriminate.
  - exists b, buf, k1. rewrite Hrx, <- Ek, take_drop. done.
Qed.

Lemma tcp_read_loop_stream fuel k c k' c' :
  tcp_read_loop fuel k c = (k', c') ->
  rx_stream c' k' = rx_stream c k /\ tcp_sent k' = tcp_sent k /\ same_ends c c' /\
  exists new, items (view c') = items (view c) ++ new /\ Forall (fun d => d <> []) new.
Proof.
  revert k c. induction fuel as [|fuel IH]; intros k c; cbn [tcp_read_loop].
  { intros [= <- <-]. split_and!; auto with tunnel. exists []. by rewrite app_nil_r. }
  assert (Hstop : forall kk cc, (k, c) = (kk, cc) ->
    rx_stream cc kk = rx_stream c k /\ tcp_sent kk = tcp_sent k /\ same_ends c cc /\
    exists new, items (view cc) = items (view c) ++ new /\ Forall (fun d => d <> []) new).
  { intros ? ? [= <- <-]. split_and!; auto with tunnel. exists []. by rewrite app_nil_r. }
  destruct (tcp_can_recv k) eqn:Hr; [|apply Hstop].
  destruct (try_reserve c) eqn:Et; [|apply Hstop..].
  destruct (recv_slice_chunk k Hr) as (b & buf & k1 & -> & Hrx & Hsent).
  destruct (permit_send_ok (b :: buf) c Et) as [Hi He].
  intros (H1' & H2' & H3' & new & H4' & H5')%IH. split_and!.
  - rewrite H1'. unfold rx_stream. rewrite Hi, concat_app, Hrx, <- app_assoc. cbn [concat].
    by rewrite app_nil_r.
  - congruence.
  - by eapply same_ends_trans.
  - exists ((b :: buf) :: new). rewrite H4', Hi, <- app_assoc. split; [done|by constructor].
Qed.

(** The read loop ends only when the socket has nothing to read or the channel
    takes nothing more. *)
Lemma tcp_read_loop_done fuel k c k' c' :
  (cap (view c) - length (items (view c)) < fuel)%nat ->
  tcp_read_loop fuel k c = (k', c') ->
  tcp_can_recv k' = false \/ try_reserve c' <> SendOk.
Proof.
  revert k c. induction fuel as [|fuel IH]; intros k c Hf; [lia|]. cbn [tcp_read_loop].
  destruct (tcp_can_recv k) eqn:Hr; [|intros [= <- <-]; auto].
  destruct (try_reserve c) eqn:Et; [|intros [= <- <-]; right; congruence..].
  destruct (recv_slice_chunk k Hr) as (b & buf & k1 & -> & Hrx & Hsent).
  pose proof (reserve_ok c Et) as [Hroom _].
  destruct (permit_send_ok (b :: buf) c Et) as [Hi (Hc & _)]. apply IH.
  rewrite Hc, Hi, length_app. cbn [length]. lia.
Qed.

Lemma tcp_write_loop_done fuel k c k' c' pend :
  (length (items (view c)) < fuel)%nat ->
  tcp_write_loop fuel k c = (k', c', pend) ->
  pend <> None \/ items (view c') = [] \/ tcp_can_send k' = false.
Proof.
  revert k c. induction fuel as [|fuel IH]; intros k c Hf; [lia|]. cbn [tcp_write_loop].
  destruct (tcp_can_send k) eqn:Hcs; [|intros [= <- <- <-]; auto].
  destruct (try_recv c) as [[data| |] c1] eqn:Er; chan_facts.
  - destruct (tcp_send_slice data k) as [[n|] k1] eqn:Es.
    2:{ apply send_slice_none in Es. apply tcp_can_send_may in Hcs. congruence. }
    match goal with E : items (view c) = _ |- _ => rewrite E in Hf end. cbn [length] in Hf.
    case_decide; [intros [= <- <- <-]; auto|]. apply IH. lia.
  - intros [= <- <- <-]. match goal with E : view c1 = view c |- _ => rewrite E end. auto.
  - intros [= <- <- <-]. match goal with E : view c1 = view c |- _ => rewrite E end. auto.
Qed.

End Tcp.

Section Udp.
Context `{MpscLaws} `{UdpLaws}.
Implicit Types (k : UdpSocket) (c : chan (bytes * SocketAddr)) (st : TunnelStats).

(** Counters are 64-bit: they advance modulo [2^64]. *)
Definition advanced (x y : Z) (n : nat) : Prop := y mod 2 ^ 64 = (x + Z.of_nat n) mod 2 ^ 64.

Lemma advanced_0 x : advanced x x 0.
Proof. unfold advanced. f_equal. lia. Qed.

Lemma advanced_bump x y n : advanced (bump x) y n -> advanced x y (S n).
Proof.
  unfold advanced, bump, fetch_add, wrap. cbn [snd]. intros ->.
  rewrite Zplus_mod_idemp_l. f_equal. lia.
Qed.

Definition to_endpoint (p : bytes * SocketAddr) : bytes * IpEndpoint :=
  (fst p, socket_addr_to_endpoint (snd p)).

(** The counters other than the two of the write path. *)
Definition same_but_udp_tx st st' : Prop :=
  udp_rx_packets st' = udp_rx_packets st /\ udp_rx_dropped st' = udp_rx_dropped st /\
  device_tx_frames st' = device_tx_frames st /\ ipc_rx_frames st' = ipc_rx_frames st.

Lemma udp_write_loop_spec fuel k c st k' c' st' :
  udp_write_loop fuel k c st = (k', c', st') ->
  exists taken accepted failed,
    items (view c) = taken ++ items (view c') /\
    udp_sent k' = udp_sent k ++ accepted /\
    accepted `sublist_of` (to_endpoint <$> taken) /\
    length taken = (length accepted + failed)%nat /\
    advanced (udp_tx_packets st) (udp_tx_packets st') (length accepted) /\
    advanced (udp_tx_failed st) (udp_tx_failed st') failed /\
    same_but_udp_tx st st' /\ same_ends c c'.
Proof.
  revert k c st. induction fuel as [|fuel IH]; intros k c st; cbn [udp_write_loop].
  { intros [= <- <- <-]. exists [], [], 0%nat. rewrite app_nil_r.
    split_and!; auto using advanced_0 with tunnel; done. }
  destruct (udp_can_send k).
  2:{ intros [= <- <- <-]. exists [], [], 0%nat. rewrite app_nil_r.
      split_and!; auto using advanced_0 with tunnel; done. }
  destruct (try_recv c) as [[[data dest]| |] c1] eqn:Er; chan_facts.
  - pose proof (udp_send_slice_spec data (socket_addr_to_endpoint dest) k) as L.
    match goal with E : items (view c) = _ |- _ => rewrite E end.
    destruct (udp_send_slice data _ k) as [[] k1].
    + destruct L as [L1 L2]. intros (tk & ac & fl & E1 & E2 & E3 & E4 & E5 & E6 & E7 & E8)%IH.
      exists ((data, dest) :: tk), (to_endpoint (data, dest) :: ac), fl.
      rewrite E1, E2, L1, <- app_assoc. cbn in E5, E6. split_and!; try done.
      * by apply sublist_skip.
      * cbn. lia.
      * by apply advanced_bump.
      * by eapply same_ends_trans.
    + subst k1. intros (tk & ac & fl & E1 & E2 & E3 & E4 & E5 & E6 & E7 & E8)%IH.
      exists ((data, dest) :: tk), ac, (S fl). rewrite E1. cbn in E5, E6. split_and!; try done.
      * by apply sublist_cons.
      * cbn. lia.
      * by apply advanced_bump.
      * by eapply same_ends_trans.
  - intros [= <- <- <-]. exists [], [], 0%nat. rewrite app_nil_r.
    match goal with E : view c1 = view c |- _ => rewrite E end.
    split_and!; auto using advanced_0 with tunnel; done.
  - intros [= <- <- <-]. exists [], [], 0%nat. rewrite app_nil_r, udp_close_data.
    match goal with E : view c1 = view c |- _ => rewrite E end.
    split_and!; auto using advanced_0 with tunnel; done.
Qed.





End Udp.

(** The whole of [process_tcp_write]. *)
Lemma process_tcp_write_stream `{MpscLaws} `{TcpLaws} (k k' : TcpSocket) (c c' : chan bytes)
  (pend pend' : option bytes) (Hrun : process_tcp_write k c pend = (k', c', pend')) :
  tx_stream k' pend' c' = tx_stream k pend c /\
  tcp_sent k `prefix_of` tcp_sent k' /\ same_ends c c' /\
  (pend' = None -> items (view c') = [] \/ tcp_can_send k' = false).
Proof.
  assert (Hloop : forall k1, tcp_write_loop (write_fuel c) k1 c = (k', c', pend') ->
    tx_stream k' pend' c' = tx_stream k1 None c /\ tcp_sent k1 `prefix_of` tcp_sent k' /\
    same_ends c c' /\ (pend' = None -> items (view c') = [] \/ tcp_can_send k' = false)).
  { intros k1 E. pose proof (tcp_write_loop_stream _ _ _ _ _ _ E) as (? & ? & ? & _).
    pose proof (tcp_write_loop_done _ _ _ _ _ _ (Nat.lt_succ_diag_r _) E).
    split_and!; [done..|]. by intros ->; intuition. }
  unfold process_tcp_write in Hrun. destruct pend as [p|]; [|by apply Hloop].
  destruct (tcp_may_send k) eqn:Hm.
  2:{ injection Hrun as <- <- <-. split_and!; auto with tunnel. done. }
  destruct (tcp_send_slice p k) as [[n|] k1] eqn:Es.
  2:{ apply send_slice_none in Es. congruence. }
  apply send_slice_some in Es as [Hn Hs]. case_decide.
  - injection Hrun as <- <- <-. unfold tx_stream. rewrite Hs. cbn [default from_option id].
    split_and!; [|by eexists|auto with tunnel|done].
    by rewrite <- !app_assoc, (app_assoc (take _ _)), take_drop.
  - apply Hloop in Hrun as (E1 & E2 & E3 & E4). unfold tx_stream in *. rewrite Hs in E1, E2.
    rewrite take_ge in E1, E2 by lia. split_and!; [|by eapply prefix_app_l|done|done].
    rewrite E1. cbn. by rewrite <- app_assoc.
Qed.

(** ** Properties *)

(** TCP write path: [process_tcp_write] neither loses, duplicates nor reorders
    an octet.  The octets accepted by the socket, followed by the pending partial
    write and the queued writes, form the same stream before and after; what the
    socket had accepted stays accepted; and the function only stops with nothing
    pending when the queue is empty or the socket cannot take more. *)
Theorem tcp_write_lossless `{MpscLaws} `{TcpLaws} (k k' : TcpSocket) (c c' : chan bytes)
  (pend pend' : option bytes) (Hrun : process_tcp_write k c pend = (k', c', pend')) :
  tx_stream k' pend' c' = tx_stream k pend c /\
  tcp_sent k `prefix_of` tcp_sent k' /\ same_ends c c' /\
  (pend' = None -> items (view c') = [] \/ tcp_can_send k' = false).
Proof. by apply process_tcp_write_stream. Qed.

(** TCP read path: [process_tcp_read] neither loses, duplicates nor reorders
    an octet (the queue to the application followed by the socket's receive buffer
    is the same stream before and after), only queues non-empty chunks, and stops
    only when the socket has nothing left or the channel takes nothing more. *)
Theorem tcp_read_lossless `{MpscLaws} `{TcpLaws} (k k' : TcpSocket) (c c' : chan bytes)
  (Hrun : process_tcp_read k c = (k', c')) :
  rx_stream c' k' = rx_stream c k /\ tcp_sent k' = tcp_sent k /\ same_ends c c' /\
  (exists new, items (view c') = items (view c) ++ new /\ Forall (fun d => d <> []) new) /\
  (tcp_can_recv k' = false \/ try_reserve c' <> SendOk).
Proof.
  pose proof (tcp_read_loop_stream _ _ _ _ _ Hrun) as (? & ? & ? & ?).
  pose proof (tcp_read_loop_done _ _ _ _ _ (Nat.lt_succ_diag_r _) Hrun). done.
Qed.

(** UDP write path accounting: every datagram taken from the application's
    queue is offered to the socket exactly once, in order; those the socket accepts
    are its new transmissions and advance [udp_tx_packets], the others advance
    [udp_tx_failed], and the rest of the queue is untouched. *)
Theorem udp_write_accounting `{MpscLaws} `{UdpLaws} (k k' : UdpSocket)
  (c c' : chan (bytes * SocketAddr)) (st st' : TunnelStats)
  (Hrun : process_udp_write k c st = (k', c', st')) :
  exists taken accepted failed,
    items (view c) = taken ++ items (view c') /\
    udp_sent k' = udp_sent k ++ accepted /\
    accepted `sublist_of` (to_endpoint <$> taken) /\
    length taken = (length accepted + failed)%nat /\
    advanced (udp_tx_packets st) (udp_tx_packets st') (length accepted) /\
    advanced (udp_tx_failed st) (udp_tx_failed st') failed.
Proof.
  destruct (udp_write_loop_spec _ _ _ _ _ _ _ Hrun)
    as (tk & ac & fl & ? & ? & ? & ? & ? & ? & _). by exists tk, ac, fl.
Qed.


(** ** Witnesses: the properties at concrete inputs, on the reference instances *)

#[local] Existing Instances Reference.mpsc Reference.mpsc_laws Reference.smoltcp
  Reference.smoltcp_laws Reference.phy Reference.phy_laws.

Lemma tcp_write_lossless_witness :
  exists k' c' pend',
    process_tcp_write (M:=Reference.mpsc) (N:=Reference.smoltcp)
      (Reference.Tcp StEstablished [] 5 [] None None)
      (ChanView [[x03]; [x04; x05; x06]] 8 true true) (Some [x01; x02]) = (k', c', pend') /\
    tx_stream k' pend' c' = [x01; x02; x03; x04; x05; x06] /\ pend' = Some [x06].
Proof.
  destruct (process_tcp_write (M:=Reference.mpsc) (N:=Reference.smoltcp)
    (Reference.Tcp StEstablished [] 5 [] None None)
    (ChanView [[x03]; [x04; x05; x06]] 8 true true) (Some [x01; x02])) as [[k' c'] pend'] eqn:E.
  exists k', c', pend'. split; [done|].
  destruct (tcp_write_lossless _ _ _ _ _ _ E) as [-> _].
  split; [reflexivity|]. vm_compute in E. by injection E as _ _ <-.
Defined.

Lemma tcp_read_lossless_witness :
  exists k' c', process_tcp_read (M:=Reference.mpsc) (N:=Reference.smoltcp)
      (Reference.Tcp StEstablished [] 5 [x02; x03] None None) (ChanView [[x01]] 8 true true)
    = (k', c') /\ rx_stream c' k' = [x01; x02; x03] /\ items c' = [[x01]; [x02; x03]].
Proof.
  destruct (process_tcp_read (M:=Reference.mpsc) (N:=Reference.smoltcp)
    (Reference.Tcp StEstablished [] 5 [x02; x03] None None) (ChanView [[x01]] 8 true true))
    as [k' c'] eqn:E.
  exists k', c'. split; [done|].
  destruct (tcp_read_lossless _ _ _ _ E) as [-> _]. split; [reflexivity|].
  vm_compute in E. by injection E as _ <-.
Defined.

Lemma udp_write_accounting_witness :
  exists k' c' st', process_udp_write (M:=Reference.mpsc) (N:=Reference.smoltcp)
      (Reference.Udp 9 [] 1 [])
      (ChanView [([x01], SockV4 [#x0a;x00;x00;x01] 7); ([x02], SockV4 [#x0a;x00;x00;x01] 7)] 8 true true)
      stats_zero = (k', c', st') /\
    exists taken, ([x01], SockV4 [#x0a;x00;x00;x01] 7) :: [([x02], SockV4 [#x0a;x00;x00;x01] 7)]
      = taken ++ items c'.
Proof.
  destruct (process_udp_write (M:=Reference.mpsc) (N:=Reference.smoltcp) (Reference.Udp 9 [] 1 [])
      (ChanView [([x01], SockV4 [#x0a;x00;x00;x01] 7); ([x02], SockV4 [#x0a;x00;x00;x01] 7)] 8 true true)
      stats_zero) as [[k' c'] st'] eqn:E.
  exists k', c', st'. split; [done|].
  destruct (udp_write_accounting _ _ _ _ _ _ E) as (tk & _ & _ & Hi & _).
  exists tk. exact Hi.
Defined.


