(* ===== verification/StackInv.v ===== *)
(** * The invariant of the stack task

    [stack_ok] relates the maps of [run_stack] to the socket set and to the
    channel store.  Of the commands the API can send ([command_sent]), those of
    [command_panics] make the task panic: an address or a backlog the API passes on
    unchecked.  Every other one, every poll and every completion preserves the
    invariant and returns, so that [SocketSet::get_mut] and the vector accesses of
    the source do not panic. *)

From S2P Require Import Prelude Net Externals Stack StackPoll StackData.
#[local] Open Scope Z_scope.

Section Inv.
Context {M : Mpsc} {N : Smoltcp}.

Definition has_tcp (socks : SocketSet) (h : SocketHandle) : Prop := is_Some (get_tcp h socks).
Definition has_udp (socks : SocketSet) (h : SocketHandle) : Prop := is_Some (get_udp h socks).

Definition is_connect (op : PendingOp) : bool :=
  match op with PendConnect _ _ _ _ => true | PendAccept _ => false end.

Definition chan_ids (t : TcpSocketState) : list nat := [write_rx t; read_tx t].
Definition uchan_ids (t : UdpSocketState) : list nat := [uwrite_rx t; uread_tx t].

(** The data channels of the sockets: every identifier is in the store, and no
    two ends of the task share a channel. *)
Record chans_ok (s : stack) : Prop := {
  ok_bfresh : forall i, is_Some (bchans s !! i) -> (i < next_chan s)%nat;
  ok_ufresh : forall i, is_Some (uchans s !! i) -> (i < next_chan s)%nat;
  ok_tchans : forall h t i, tcp_states s !! h = Some t -> i ∈ chan_ids t -> is_Some (bchans s !! i);
  ok_uchans : forall h t i, udp_states s !! h = Some t -> i ∈ uchan_ids t -> is_Some (uchans s !! i);
  ok_tids : forall h t, tcp_states s !! h = Some t -> NoDup (chan_ids t);
  ok_uids : forall h t, udp_states s !! h = Some t -> NoDup (uchan_ids t);
  ok_tsep : forall h h' t t' i, tcp_states s !! h = Some t -> tcp_states s !! h' = Some t' ->
    i ∈ chan_ids t -> i ∈ chan_ids t' -> h = h';
  ok_usep : forall h h' t t' i, udp_states s !! h = Some t -> udp_states s !! h' = Some t' ->
    i ∈ uchan_ids t -> i ∈ uchan_ids t' -> h = h';
}.

(** No connect is waiting on the handle. *)
Definition unconnecting (pend : gmap SocketHandle PendingOp) (h : SocketHandle) : Prop :=
  is_connect <$> pend !! h <> Some true.

(** One listener: its sockets exist, are distinct, and belong to no stream. *)
Record listener_ok (s : stack) (h : SocketHandle) (l : ListenerState) : Prop := {
  lo_key : has_tcp (sockets s) h;
  lo_all : Forall (has_tcp (sockets s)) (listening_handles l);
  lo_nonempty : listening_handles l <> [];
  lo_port : sock_port (l_addr l) <> 0;
  lo_nodup : NoDup (listening_handles l);
  lo_states : Forall (fun j => tcp_states s !! j = None) (listening_handles l);
  lo_pending : Forall (unconnecting (pending s)) (listening_handles l);
}.

(** A handle that was handed to the application still names a socket, and no
    connect is waiting on it. *)
Definition event_ok (socks : SocketSet) (pend : gmap SocketHandle PendingOp) (e : event) : Prop :=
  match e with
  | EvStream _ (Ok (h, _, _, _)) => has_tcp socks h /\ unconnecting pend h
  | EvUdp _ (Ok (h, _, _)) => has_udp socks h
  | _ => True
  end.

(** The application's ends in a pending connect are those of the socket. *)
Definition paired (c : TcpChannels) (t : TcpSocketState) : Prop :=
  write_rx t = write_tx c /\ read_tx t = read_rx c.

Record stack_ok (s : stack) : Prop := {
  ok_chans : chans_ok s;
  ok_tcp : forall h, is_Some (tcp_states s !! h) -> has_tcp (sockets s) h;
  ok_udp : forall h, is_Some (udp_states s !! h) -> has_udp (sockets s) h;
  ok_connect : forall h op, pending s !! h = Some op -> is_connect op = true ->
    has_tcp (sockets s) h /\ listeners s !! h = None;
  ok_accept : forall h op, pending s !! h = Some op -> is_connect op = false ->
    is_Some (listeners s !! h);
  ok_listener : forall h l, listeners s !! h = Some l -> listener_ok s h l;
  ok_disjoint : forall h h' l l' j, listeners s !! h = Some l -> listeners s !! h' = Some l' ->
    j ∈ listening_handles l -> j ∈ listening_handles l' -> h = h';
  ok_ports : forall h h' l l', listeners s !! h = Some l -> listeners s !! h' = Some l' ->
    sock_port (l_addr l) = sock_port (l_addr l') -> h = h';
  ok_addrs : Forall (fun c => addr_allowed (cidr_address c) = true) (ip_addrs (iface s));
  ok_log : Forall (event_ok (sockets s) (pending s)) (log s);
  ok_paired : forall h l p c t, pending s !! h = Some (PendConnect l p c t) ->
    exists ts, tcp_states s !! h = Some ts /\ paired c ts;
}.

(** The commands the API sends: close commands carry the handle of a stream or
    of a UDP socket that the task handed out; all others carry what the caller
    passed, unchecked. *)
Definition command_sent (s : stack) (cmd : StackCommand) : Prop :=
  match cmd with
  | TcpClose h => exists t l p c, EvStream t (Ok (h, l, p, c)) ∈ log s
  | UdpClose h => exists t l c, EvUdp t (Ok (h, l, c)) ∈ log s
  | _ => True
  end.

(** The commands of the API that panic the task: an added address whose prefix
    length is invalid for its family, or that is not unicast while the list of the
    interface has room; and a listen that gets as far as allocating a backlog
    larger than the address space. *)
Definition command_panics (s : stack) (cmd : StackCommand) : bool :=
  match cmd with
  | AddIp ip p _ =>
      bool_decide (ip_width ip < p) ||
      negb (addr_allowed (ip_addr_to_smoltcp ip)) &&
      bool_decide (length (ip_addrs (iface s)) < max_addr_count)%nat
  | TcpListen addr backlog _ =>
      negb (bool_decide (sock_port addr = 0)) && negb (port_in_use (sock_port addr) (listeners s)) &&
      bool_decide (ISIZE_MAX < Z.of_nat (Nat.max backlog 1) * handle_size)
  | _ => false
  end.

Definition command_ok (s : stack) (cmd : StackCommand) : Prop :=
  command_sent s cmd /\ command_panics s cmd = false.

(** ** Frames *)

(** The invariant reads sockets and channels only through their existence. *)
Definition grows (s s' : stack) : Prop :=
  (forall h, has_tcp (sockets s) h -> has_tcp (sockets s') h) /\
  (forall h, has_udp (sockets s) h -> has_udp (sockets s') h).

Lemma log_ok_mono (socks socks' : SocketSet) pend pend' l :
  (forall h, has_tcp socks h -> has_tcp socks' h) ->
  (forall h, has_udp socks h -> has_udp socks' h) ->
  (forall h, unconnecting pend h -> unconnecting pend' h) ->
  Forall (event_ok socks pend) l -> Forall (event_ok socks' pend') l.
Proof.
  intros G1 G2 Hp H. eapply Forall_impl; [|exact H].
  intros [t [[[[h a] p] c]|]|t r|t [[[h a] c]|]|t r|t i|t]; cbn; auto. intros []. auto.
Qed.

Lemma listener_ok_frame s s' h l :
  grows s s' ->
  (forall j, tcp_states s !! j = None -> j ∈ listening_handles l -> tcp_states s' !! j = None) ->
  (forall j, unconnecting (pending s) j -> j ∈ listening_handles l -> unconnecting (pending s') j) ->
  listener_ok s h l -> listener_ok s' h l.
Proof.
  intros [G _] Ht Hp [Hk Ha Hn Hport Hd Hs Hpe]. rewrite !Forall_elem_of in Ha, Hs, Hpe.
  constructor; auto; rewrite Forall_elem_of; auto.
Qed.

Lemma chans_ok_frame s s' :
  tcp_states s' = tcp_states s -> udp_states s' = udp_states s ->
  next_chan s' = next_chan s ->
  (forall i, is_Some (bchans s' !! i) <-> is_Some (bchans s !! i)) ->
  (forall i, is_Some (uchans s' !! i) <-> is_Some (uchans s !! i)) ->
  chans_ok s -> chans_ok s'.
Proof.
  intros E1 E2 E3 Hb Hu []. constructor; rewrite ?E1, ?E2, ?E3; eauto;
    intros; rewrite ?Hb, ?Hu in *; eauto.
Qed.

Lemma stack_ok_frame s s' :
  grows s s' -> pending s' = pending s -> listeners s' = listeners s ->
  tcp_states s' = tcp_states s -> udp_states s' = udp_states s ->
  ip_addrs (iface s') = ip_addrs (iface s) -> chans_ok s' ->
  Forall (event_ok (sockets s') (pending s')) (log s') ->
  stack_ok s -> stack_ok s'.
Proof.
  intros G E1 E2 E3 E4 E5 Hc El []. destruct G as [G1 G2]. rewrite E1 in El.
  constructor; rewrite ?E1, ?E2, ?E3, ?E4, ?E5; eauto.
  - intros h op Ho Hi. destruct (ok_connect0 h op Ho Hi). auto.
  - intros h l Hl. apply (listener_ok_frame s); [by split|..|by eauto];
      rewrite ?E1, ?E3; auto.
Qed.

(** [stack_ok] does not look at the log, the port counter or the statistics. *)
Lemma stack_ok_emit e s : event_ok (sockets s) (pending s) e -> stack_ok s -> stack_ok (emit e s).
Proof.
  intros He Hs. eapply stack_ok_frame; [..|exact Hs]; try done.
  - eapply chans_ok_frame; [..|apply Hs]; done.
  - cbn. apply Forall_app. split; [apply Hs|]. by apply Forall_singleton.
Qed.

Lemma stack_ok_eport x s : stack_ok s -> stack_ok (set_eport x s).
Proof.
  intros Hs. eapply stack_ok_frame; [..|exact Hs]; try done; [|apply Hs].
  eapply chans_ok_frame; [..|apply Hs]; done.
Qed.

Lemma stack_ok_stats x s : stack_ok s -> stack_ok (set_stats x s).
Proof.
  intros Hs. eapply stack_ok_frame; [..|exact Hs]; try done; [|apply Hs].
  eapply chans_ok_frame; [..|apply Hs]; done.
Qed.

Lemma stack_ok_iface x s :
  Forall (fun c => addr_allowed (cidr_address c) = true) (ip_addrs x) ->
  stack_ok s -> stack_ok (set_iface x s).
Proof.
  intros Ha []. constructor; try done.
  - destruct ok_chans0. constructor; done.
  - intros h l Hl. destruct (ok_listener0 h l Hl). constructor; done.
Qed.

Lemma stack_ok_sockets x s :
  grows s (set_sockets x s) -> stack_ok s -> stack_ok (set_sockets x s).
Proof.
  intros G Hs. eapply stack_ok_frame; [exact G|..|exact Hs]; try done.
  2:{ destruct G. eapply log_ok_mono; [..|apply (ok_log s Hs)]; done. }
  eapply chans_ok_frame; [..|apply Hs]; done.
Qed.

Lemma alter_is_Some {A} (f : A -> A) (m : gmap nat A) i j :
  is_Some (alter f j m !! i) <-> is_Some (m !! i).
Proof. rewrite lookup_alter. case_decide; subst; rewrite ?fmap_is_Some; done. Qed.

Lemma stack_ok_drop_channels c s : stack_ok s -> stack_ok (drop_tcp_channels c s).
Proof.
  intros Hs. eapply stack_ok_frame; [..|exact Hs]; try done; [|apply Hs].
  eapply chans_ok_frame; [..|apply Hs]; try done. intros i. cbn. by rewrite !alter_is_Some.
Qed.

Lemma stack_ok_drop_op op s : stack_ok s -> stack_ok (drop_pending_op op s).
Proof. intros. destruct op; apply stack_ok_emit; cbn; auto using stack_ok_drop_channels. Qed.

Lemma drop_pending_op_fields op s :
  pending (drop_pending_op op s) = pending s /\ listeners (drop_pending_op op s) = listeners s /\
  sockets (drop_pending_op op s) = sockets s /\ tcp_states (drop_pending_op op s) = tcp_states s /\
  iface (drop_pending_op op s) = iface s.
Proof. by destruct op. Qed.

Lemma unconnecting_delete m h j : unconnecting m j -> unconnecting (delete h m) j.
Proof. unfold unconnecting. rewrite lookup_delete. by case_decide. Qed.

(** Removing a pending operation, a listener or a socket state. *)
Lemma stack_ok_delete_pending h s :
  stack_ok s -> stack_ok (set_pending (delete h (pending s)) s).
Proof.
  intros Hs. destruct Hs. constructor; cbn; eauto.
  - destruct ok_chans0. constructor; done.
  - intros j op [_ Hj]%lookup_delete_Some. eauto.
  - intros j op [_ Hj]%lookup_delete_Some. eauto.
  - intros j l Hl. apply (listener_ok_frame s); [by split|..|by eauto]; cbn; auto.
    intros i Hi _. by apply unconnecting_delete.
  - eapply log_ok_mono; [done|done|apply unconnecting_delete|done].
  - intros j l p c t [_ Hj]%lookup_delete_Some. eauto.
Qed.

Lemma stack_ok_discard h s : stack_ok s -> stack_ok (discard_pending h s).
Proof.
  intros Hs. unfold discard_pending. apply stack_ok_delete_pending.
  destruct (pending s !! h); auto using stack_ok_drop_op.
Qed.

Lemma stack_ok_remove_tcp h s :
  unconnecting (pending s) h -> stack_ok s -> stack_ok (remove_tcp_state h s).
Proof.
  intros Hun Hs. unfold remove_tcp_state. destruct (tcp_states s !! h) as [t|] eqn:Et; [|done].
  destruct Hs. constructor; cbn; eauto.
  - destruct ok_chans0. constructor; cbn; eauto; intros *;
      rewrite ?lookup_delete_Some, ?alter_is_Some; naive_solver.
  - intros j Hj. apply ok_tcp0. destruct Hj as [x [_ Hx]%lookup_delete_Some]. eauto.
  - intros j l Hl. apply (listener_ok_frame s); [by split|..|by eauto]; cbn; auto.
    intros i Hi _. rewrite lookup_delete. by case_decide.
  - intros j l p c t' Hj. rewrite lookup_delete_ne; [by eauto|]. intros <-.
    by apply Hun; rewrite Hj.
Qed.

Lemma stack_ok_remove_udp h s : stack_ok s -> stack_ok (remove_udp_state h s).
Proof.
  intros Hs. unfold remove_udp_state. destruct (udp_states s !! h) as [t|] eqn:Et; [|done].
  destruct Hs. constructor; cbn; eauto.
  - destruct ok_chans0. constructor; cbn; eauto; intros *;
      rewrite ?lookup_delete_Some, ?alter_is_Some; naive_solver.
  - intros j Hj. apply ok_udp0. destruct Hj as [x [_ Hx]%lookup_delete_Some]. eauto.
  - intros j l Hl. apply (listener_ok_frame s); [by split|..|by eauto]; cbn; auto.
Qed.

(** A handle that no listener is waiting on. *)
Definition unlisted (s : stack) (h : SocketHandle) : Prop :=
  forall j l, listeners s !! j = Some l -> h ∉ listening_handles l.

Lemma stack_ok_insert_pending h op s :
  stack_ok s ->
  match op with
  | PendConnect _ _ c _ =>
      has_tcp (sockets s) h /\ listeners s !! h = None /\ unlisted s h /\
      (exists ts, tcp_states s !! h = Some ts /\ paired c ts) /\
      (forall t l p c', EvStream t (Ok (h, l, p, c')) ∉ log s)
  | PendAccept _ => is_Some (listeners s !! h)
  end ->
  stack_ok (insert_pending h op s).
Proof.
  intros Hs Hop. unfold insert_pending.
  set (s' := match pending s !! h with Some old => drop_pending_op old s | None => s end).
  assert (Hs' : stack_ok s') by (subst s'; destruct (pending s !! h); auto using stack_ok_drop_op).
  assert (E : sockets s' = sockets s /\ listeners s' = listeners s /\ tcp_states s' = tcp_states s)
    by (subst s'; destruct (pending s !! h) as [[]|]; done).
  assert (El : forall e, e ∈ log s' -> e ∈ log s \/ exists t, e = EvDropped t).
  { subst s'. intros e. destruct (pending s !! h) as [[]|]; cbn; rewrite ?elem_of_app, ?list_elem_of_singleton;
      naive_solver. }
  destruct E as (E1 & E2 & E3). clearbody s'. destruct Hs'. constructor; cbn; eauto.
  - destruct ok_chans0. constructor; done.
  - intros j o. rewrite lookup_insert. case_decide as Hj; [|eauto].
    intros [= <-] Hc. subst. destruct op; [|done]. rewrite E1, E2. tauto.
  - intros j o. rewrite lookup_insert. case_decide as Hj; [|eauto].
    intros [= <-] Hc. subst. destruct op; [done|]. by rewrite E2.
  - intros j l Hl. apply (listener_ok_frame s'); [by split|..|by eauto]; cbn; auto.
    intros i Hi Hin. unfold unconnecting. rewrite lookup_insert. case_decide as Hj; [|done].
    subst i. destruct op; [|done]. destruct Hop as (_ & _ & Hu & _). rewrite E2 in Hl.
    by destruct (Hu j l Hl).
  - rewrite Forall_elem_of in ok_log0 |- *. intros e He. specialize (ok_log0 e He).
    destruct e as [t [[[[j l] p] c]|]|t r|t [[[j l] c]|]|t r|t i|t]; cbn in *; auto.
    destruct ok_log0 as [Hj Hu]. split; [done|]. unfold unconnecting. rewrite lookup_insert.
    case_decide; [|done]. subst j. destruct op; [|done]. destruct Hop as (_ & _ & _ & _ & Hno).
    exfalso. destruct (El _ He) as [?|[? ?]]; [by eapply Hno|done].
  - intros j l p c t. rewrite lookup_insert. case_decide as Hj; [|eauto].
    intros [= ->]. subst j. rewrite E3. tauto.
Qed.

(** Fresh channels for a socket that is not in the Listen backlog. *)
Lemma stack_ok_new_state h s :
  stack_ok s -> has_tcp (sockets s) h -> unlisted s h -> unconnecting (pending s) h ->
  let '(_, t, s1) := create_tcp_channels s in
  stack_ok (set_tcp_states (<[h := t]> (tcp_states s1)) s1).
Proof.
  intros Hs Hh Hu Hc. cbn. destruct Hs. constructor; cbn; eauto.
  - destruct ok_chans0.
    assert (Hold : forall j t i, tcp_states s !! j = Some t -> i ∈ chan_ids t -> (i < next_chan s)%nat)
      by eauto.
    constructor; cbn; eauto.
    + intros i. rewrite !lookup_insert. repeat case_decide; subst; [lia..|].
      intros Hi. apply ok_bfresh0 in Hi. lia.
    + intros i Hi. apply ok_ufresh0 in Hi. lia.
    + intros j t i. rewrite !lookup_insert. repeat case_decide; subst; try (intros; done); [|by eauto].
      intros [= <-] Hi. unfold chan_ids in Hi. cbn in Hi. exfalso. set_solver.
    + intros j t. rewrite lookup_insert. case_decide; [|eauto]. intros [= <-].
      unfold chan_ids. cbn. repeat constructor; set_solver by lia.
    + intros j j' t t' i. rewrite !lookup_insert. repeat case_decide; subst; try done; [..|by eauto].
      * intros [= <-] Ht' Hi Hi'. specialize (Hold _ _ _ Ht' Hi'). unfold chan_ids in Hi. cbn in Hi.
        exfalso. set_solver by lia.
      * intros Ht [= <-] Hi Hi'. specialize (Hold _ _ _ Ht Hi). unfold chan_ids in Hi'. cbn in Hi'.
        exfalso. set_solver by lia.
  - intros j Hj. rewrite lookup_insert in Hj. case_decide; subst; auto.
  - intros j l Hl. apply (listener_ok_frame s); [by split|..|by eauto]; cbn; auto.
    intros i Hi Hin. rewrite lookup_insert. case_decide; [|done]. subst. by destruct (Hu j l Hl).
  - intros j l p c t Hj. rewrite lookup_insert_ne; [by eauto|]. intros <-. by apply Hc; rewrite Hj.
Qed.

Lemma stack_ok_new_udp h s :
  stack_ok s -> has_udp (sockets s) h ->
  let '(_, t, s1) := create_udp_channels s in
  stack_ok (set_udp_states (<[h := t]> (udp_states s1)) s1).
Proof.
  intros Hs Hh. cbn. destruct Hs. constructor; cbn; eauto.
  - destruct ok_chans0.
    assert (Hold : forall j t i, udp_states s !! j = Some t -> i ∈ uchan_ids t -> (i < next_chan s)%nat)
      by eauto.
    constructor; cbn; eauto.
    + intros i Hi. apply ok_bfresh0 in Hi. lia.
    + intros i. rewrite !lookup_insert. repeat case_decide; subst; [lia..|].
      intros Hi. apply ok_ufresh0 in Hi. lia.
    + intros j t i. rewrite !lookup_insert. repeat case_decide; subst; try (intros; done); [|by eauto].
      intros [= <-] Hi. unfold uchan_ids in Hi. cbn in Hi. exfalso. set_solver.
    + intros j t. rewrite lookup_insert. case_decide; [|eauto]. intros [= <-].
      unfold uchan_ids. cbn. repeat constructor; set_solver by lia.
    + intros j j' t t' i. rewrite !lookup_insert. repeat case_decide; subst; try done; [..|by eauto].
      * intros [= <-] Ht' Hi Hi'. specialize (Hold _ _ _ Ht' Hi'). unfold uchan_ids in Hi. cbn in Hi.
        exfalso. set_solver by lia.
      * intros Ht [= <-] Hi Hi'. specialize (Hold _ _ _ Ht Hi). unfold uchan_ids in Hi'. cbn in Hi'.
        exfalso. set_solver by lia.
  - intros j Hj. rewrite lookup_insert in Hj. case_decide; subst; auto.
  - intros j l Hl. apply (listener_ok_frame s); [by split|..|by eauto]; cbn; auto.
Qed.

End Inv.
