(* ===== verification/StackSafe.v ===== *)
(** * Safety of the stack task

    Every handler of [Stack] and every routine of [StackPoll] preserves
    [stack_ok] and returns. *)

From S2P Require Import Prelude Net Externals Stack StackPoll StackData StackInv.
#[local] Open Scope Z_scope.

Section Safe.
Context {M : Mpsc} {ML : MpscLaws} {N : Smoltcp} {NL : SmoltcpLaws}.

(** A new computation that keeps the invariant. *)
Definition safe (m : outcome stack) : Prop := exists s', m = Ret s' /\ stack_ok s'.

Lemma safe_ret s : stack_ok s -> safe (Ret s).
Proof. intros. by exists s. Qed.

Lemma safe_bind (m : outcome stack) f :
  safe m -> (forall s, stack_ok s -> safe (f s)) -> safe (m ≫= f).
Proof. intros (s & -> & Hs) Hf. cbn. auto. Qed.

(** ** Socket sets *)

Lemma has_tcp_put socks h k j :
  has_tcp socks h -> has_tcp (put_tcp h k socks) j <-> has_tcp socks j.
Proof.
  intros Hh. unfold has_tcp in *. destruct (put_tcp_spec h k socks Hh) as [-> _].
  case_decide; subst; [|done]. split; eauto.
Qed.

Lemma has_udp_put_tcp socks h k j :
  has_tcp socks h -> has_udp (put_tcp h k socks) j <-> has_udp socks j.
Proof. intros Hh. unfold has_udp. by destruct (put_tcp_spec h k socks Hh) as [_ ->]. Qed.

Lemma has_udp_put socks h k j :
  has_udp socks h -> has_udp (put_udp h k socks) j <-> has_udp socks j.
Proof.
  intros Hh. unfold has_udp in *. destruct (put_udp_spec h k socks Hh) as [-> _].
  case_decide; subst; [|done]. split; eauto.
Qed.

Lemma has_tcp_put_udp socks h k j :
  has_udp socks h -> has_tcp (put_udp h k socks) j <-> has_tcp socks j.
Proof. intros Hh. unfold has_tcp. by destruct (put_udp_spec h k socks Hh) as [_ ->]. Qed.

Lemma with_tcp_ok h f socks :
  has_tcp socks h ->
  exists socks', with_tcp h f socks = Ret socks' /\
    (forall j, has_tcp socks' j <-> has_tcp socks j) /\
    (forall j, has_udp socks' j <-> has_udp socks j).
Proof.
  intros Hh. unfold with_tcp. destruct Hh as [k Hk]. rewrite Hk. eexists. split; [done|].
  split; intros j; [apply has_tcp_put|apply has_udp_put_tcp]; by exists k.
Qed.

Lemma with_udp_ok h f socks :
  has_udp socks h ->
  exists socks', with_udp h f socks = Ret socks' /\
    (forall j, has_tcp socks' j <-> has_tcp socks j) /\
    (forall j, has_udp socks' j <-> has_udp socks j).
Proof.
  intros Hh. unfold with_udp. destruct Hh as [k Hk]. rewrite Hk. eexists. split; [done|].
  split; intros j; [apply has_tcp_put_udp|apply has_udp_put]; by exists k.
Qed.

(** A freshly added TCP socket. *)
Lemma add_tcp_ok k socks h socks' :
  sockets_add_tcp k socks = (h, socks') ->
  ~ has_tcp socks h /\ has_tcp socks' h /\ get_tcp h socks' = Some k /\
  (forall j, j <> h -> get_tcp j socks' = get_tcp j socks) /\
  (forall j, has_tcp socks j -> has_tcp socks' j) /\
  (forall j, has_udp socks' j <-> has_udp socks j).
Proof.
  intros E. destruct (add_tcp_spec _ _ _ _ E) as (H1 & H2 & H3 & H4). unfold has_tcp, has_udp.
  split_and!.
  - rewrite H1. by intros [? ?].
  - rewrite H3, decide_True by done. eauto.
  - by rewrite H3, decide_True by done.
  - intros j Hj. by rewrite H3, decide_False by done.
  - intros j Hj. rewrite H3. case_decide; eauto.
  - intros j. by rewrite H4.
Qed.

(** Nothing in the task mentions a handle that is not in the socket set. *)
Record unused (s : stack) (h : SocketHandle) : Prop := {
  un_listed : unlisted s h;
  un_listener : listeners s !! h = None;
  un_state : tcp_states s !! h = None;
  un_connect : unconnecting (pending s) h;
  un_issued : forall t l p c, EvStream t (Ok (h, l, p, c)) ∉ log s;
}.

Lemma fresh_unused s h : stack_ok s -> ~ has_tcp (sockets s) h -> unused s h.
Proof.
  intros Hs Hf. constructor.
  - intros j l Hl Hin. pose proof (lo_all _ _ _ (ok_listener s Hs j l Hl)) as Ha.
    rewrite Forall_elem_of in Ha. by apply Hf, Ha.
  - destruct (listeners s !! h) eqn:E; [|done].
    by pose proof (lo_key _ _ _ (ok_listener s Hs h _ E)).
  - destruct (tcp_states s !! h) eqn:E; [|done]. destruct Hf. apply (ok_tcp s Hs). eauto.
  - unfold unconnecting. destruct (pending s !! h) as [op|] eqn:Ho; [|done]. cbn. intros [= Hc].
    by destruct (ok_connect s Hs h op Ho Hc).
  - intros t l p c Hin. pose proof (ok_log s Hs) as L. rewrite Forall_elem_of in L.
    by destruct (L _ Hin).
Qed.

Lemma grows_sockets s socks :
  (forall j, has_tcp (sockets s) j -> has_tcp socks j) ->
  (forall j, has_udp socks j <-> has_udp (sockets s) j) -> grows s (set_sockets socks s).
Proof. intros H1 H2. split; cbn; [done|]. intros h. apply H2. Qed.

(** ** Handlers *)

Lemma handle_tcp_connect_safe cfg local_ip addr t s :
  stack_ok s -> safe (handle_tcp_connect cfg local_ip addr t s).
Proof.
  intros Hs. unfold handle_tcp_connect.
  destruct (sockets_add_tcp _ (sockets s)) as [h socks] eqn:Ea.
  destruct (add_tcp_ok _ _ _ _ Ea) as (Hf & Hh & Hg & Hne & Hgrow & Hudp).
  destruct (allocate_ephemeral_port (eport s)) as [port port'].
  rewrite Hg. destruct (fresh_unused s h Hs Hf) as [Hu Hl Ht Hc Hi'].
  pose proof (tcp_connect_iface (socket_addr_to_endpoint addr)
    {| lep_addr := Some (ip_addr_to_smoltcp (default (cfg_ip cfg) local_ip)); lep_port := port |}
    (iface s) (tcp_new TCP_SOCKET_BUFFER_SIZE TCP_SOCKET_BUFFER_SIZE)) as Hi.
  destruct (tcp_connect _ _ _ _) as [[e|k'] ifc]; cbn [snd] in Hi.
  - destruct (remove_spec h socks Hh) as (socks' & -> & Hr1 & Hr2). cbn. apply safe_ret.
    apply stack_ok_emit; [done|]. apply stack_ok_iface; [rewrite Hi; apply Hs|].
    apply stack_ok_eport, stack_ok_sockets; [|done]. split; cbn; intros j.
    + intros Hj. unfold has_tcp. rewrite Hr1. case_decide; [by subst|]. by apply Hgrow.
    + unfold has_udp. rewrite Hr2. apply Hudp.
  - assert (Hs1 : stack_ok (set_iface ifc (set_eport port' (set_sockets (put_tcp h k' socks) s)))).
    { apply stack_ok_iface; [rewrite Hi; apply Hs|]. apply stack_ok_eport.
      apply stack_ok_sockets; [|done]. apply grows_sockets; intros j.
      - intros Hj. apply has_tcp_put; auto.
      - rewrite has_udp_put_tcp by done. apply Hudp. }
    pose proof (stack_ok_new_state h _ Hs1) as Hnew. cbn -[chan_ids] in Hnew |- *.
    apply safe_ret, stack_ok_insert_pending; cbn -[chan_ids].
    + apply Hnew; [by apply has_tcp_put|exact Hu|exact Hc].
    + split_and!; [by apply has_tcp_put|done|exact Hu| |exact Hi'].
      rewrite lookup_insert_eq. by eexists.
Qed.

(** The loop of [handle_tcp_listen] on a non-zero port. *)
Lemma listen_loop_ok n e hs socks :
  lep_port e <> 0 ->
  exists new socks', listen_loop n e hs socks = (inr (), hs ++ new, socks') /\
    length new = n /\ NoDup new /\ Forall (fun h => ~ has_tcp socks h) new /\
    Forall (fun h => exists k, get_tcp h socks' = Some k /\ tcp_state k = StListen) new /\
    (forall j, j ∉ new -> get_tcp j socks' = get_tcp j socks) /\
    (forall j, has_udp socks' j <-> has_udp socks j).
Proof.
  intros Hp. revert hs socks. induction n as [|n IH]; intros hs socks; cbn [listen_loop].
  { exists [], socks. rewrite app_nil_r. split_and!; try done; constructor. }
  pose proof (tcp_listen_spec e (tcp_new TCP_SOCKET_BUFFER_SIZE TCP_SOCKET_BUFFER_SIZE)
    (tcp_new_state _ _)) as L. rewrite decide_False in L by done.
  destruct L as (k & -> & Hk). destruct (sockets_add_tcp k socks) as [h socks1] eqn:Ea.
  destruct (add_tcp_ok _ _ _ _ Ea) as (Hf & Hh & Hg & Hne & Hgrow & Hudp).
  destruct (IH (hs ++ [h]) socks1) as (new & socks' & E & H1 & H2 & H3 & H4 & H5 & H6).
  rewrite Forall_elem_of in H3.
  assert (Hnin : h ∉ new) by (intros Hin; by apply (H3 h Hin)).
  exists (h :: new), socks'. rewrite E, <- app_assoc. split_and!; try done.
  - cbn. lia.
  - by constructor.
  - constructor; [done|]. rewrite Forall_elem_of. intros x Hx Hc. by apply (H3 x Hx), Hgrow.
  - constructor; [|done]. exists k. by rewrite H5.
  - intros j Hj. rewrite H5, Hne by set_solver. done.
  - intros j. by rewrite H6.
Qed.

Lemma port_in_use_spec port (ls : gmap SocketHandle ListenerState) :
  port_in_use port ls = true <-> exists h l, ls !! h = Some l /\ sock_port (l_addr l) = port.
Proof.
  unfold port_in_use. rewrite existsb_exists. split.
  - intros ([h l] & Hin & Hp). exists h, l. apply list_elem_of_In, elem_of_map_to_list in Hin.
    by rewrite bool_decide_eq_true in Hp.
  - intros (h & l & Hl & Hp). exists (h, l). rewrite bool_decide_eq_true.
    split; [|done]. by apply list_elem_of_In, elem_of_map_to_list.
Qed.

(** A new listener on fresh sockets and an unused port. *)
Lemma stack_ok_new_listener s addr primary rest socks :
  stack_ok s -> sock_port addr <> 0 -> port_in_use (sock_port addr) (listeners s) = false ->
  NoDup (primary :: rest) -> Forall (fun h => ~ has_tcp (sockets s) h) (primary :: rest) ->
  Forall (has_tcp socks) (primary :: rest) ->
  (forall j, has_tcp (sockets s) j -> has_tcp socks j) ->
  (forall j, has_udp socks j <-> has_udp (sockets s) j) ->
  stack_ok (set_listeners
    (<[primary := {| l_addr := addr; listening_handles := primary :: rest |}]> (listeners s))
    (set_sockets socks s)).
Proof.
  intros Hs Hport Huse Hnd Hfr Hin Hg Hu. rewrite Forall_elem_of in Hfr.
  assert (Hfu : forall h, h ∈ primary :: rest -> unused s h) by (intros; apply fresh_unused; auto).
  assert (Hs1 : stack_ok (set_sockets socks s))
    by (apply stack_ok_sockets; [by apply grows_sockets|done]).
  assert (Hpend : forall h op, pending s !! h = Some op -> is_connect op = true -> h ∉ primary :: rest).
  { intros h op Ho Hc Hh. destruct (ok_connect s Hs h op Ho Hc) as [Hh' _]. by apply (Hfr h). }
  constructor; cbn; try apply Hs1.
  - eapply chans_ok_frame; [..|apply Hs]; done.
  - intros h op Ho Hc. destruct (ok_connect _ Hs1 h op Ho Hc) as [? Hn]. split; [done|].
    rewrite lookup_insert_ne; [done|]. intros ->. destruct (Hpend h op Ho Hc). by left.
  - intros h op Ho Hc. rewrite lookup_insert. case_decide; [by eauto|].
    exact (ok_accept _ Hs1 h op Ho Hc).
  - intros h l. rewrite lookup_insert. case_decide as Hj.
    + intros [= <-]. subst h. constructor; cbn; try done.
      * rewrite Forall_elem_of in Hin. apply Hin. by left.
      * apply Forall_elem_of. intros j Hj. by apply Hfu.
      * apply Forall_elem_of. intros j Hj. by apply Hfu.
    + intros Hl. eapply listener_ok_frame; [..|apply (ok_listener _ Hs1 h l Hl)]; done.
  - intros h h' l l' j. rewrite !lookup_insert. repeat case_decide; subst; try done.
    + intros [= <-] Hl' Hj Hj'. by destruct (un_listed _ _ (Hfu j Hj) _ _ Hl').
    + intros Hl [= <-] Hj Hj'. by destruct (un_listed _ _ (Hfu j Hj') _ _ Hl).
    + apply (ok_disjoint _ Hs1).
  - assert (Hno : forall h l, listeners s !! h = Some l -> sock_port (l_addr l) <> sock_port addr).
    { intros h l Hl Hp. apply not_true_iff_false in Huse. apply Huse, port_in_use_spec. eauto. }
    intros h h' l l'. rewrite !lookup_insert. repeat case_decide; subst; try done.
    + intros [= <-] Hl' Hp. cbn in Hp. by destruct (Hno _ _ Hl').
    + intros Hl [= <-] Hp. cbn in Hp. by destruct (Hno _ _ Hl).
    + apply (ok_ports _ Hs1).
Qed.

(** A handler that panics exactly on a condition. *)
Definition panics_on (b : bool) (o : outcome stack) : Prop := if b then o = Panic else safe o.

Lemma handle_tcp_listen_safe addr backlog t s :
  stack_ok s -> panics_on (command_panics s (TcpListen addr backlog t)) (handle_tcp_listen addr backlog t s).
Proof.
  intros Hs. unfold handle_tcp_listen, command_panics, handles_with_capacity.
  case_bool_decide as Hp; [rewrite decide_True by done|rewrite decide_False by done]; cbn [negb andb].
  { by apply safe_ret, stack_ok_emit. }
  destruct (port_in_use _ _) eqn:Hu; cbn [negb andb]; [by apply safe_ret, stack_ok_emit|].
  case_bool_decide as Hcap; [by rewrite decide_False by lia|rewrite decide_True by lia]. cbn [mbind outcome_bind].
  destruct (listen_loop_ok (Nat.max backlog 1) (socket_addr_to_listen_endpoint addr) []
    (sockets s) Hp) as (new & socks & -> & H1 & H2 & H3 & H4 & H5 & H6).
  cbn [app]. destruct new as [|primary rest]; [cbn in H1; lia|].
  apply safe_ret, stack_ok_emit; [done|]. apply stack_ok_new_listener; auto.
  - eapply Forall_impl; [|exact H4]. intros h (k & Hk & _). by exists k.
  - intros j Hj. unfold has_tcp. rewrite H5; [exact Hj|]. intros Hin.
    rewrite Forall_elem_of in H3. by apply (H3 j Hin).
Qed.

(** The scan finds the first Established socket with a remote endpoint. *)
Definition found_post (socks : SocketSet) (addr : SocketAddr) (hs : list SocketHandle) (i : nat)
    (r : option (nat * SocketAddr * SocketAddr)) : Prop :=
  match r with
  | None => Forall (fun h => forall k, get_tcp h socks = Some k ->
      tcp_state k = StEstablished -> tcp_remote_endpoint k = None) hs
  | Some (idx, local, peer) => exists h k remote, (i <= idx)%nat /\
      hs !! (idx - i)%nat = Some h /\ get_tcp h socks = Some k /\
      tcp_state k = StEstablished /\ tcp_remote_endpoint k = Some remote /\
      peer = endpoint_to_socket_addr remote /\
      local = match tcp_local_endpoint k with
              | Some l => endpoint_to_socket_addr l | None => addr end
  end.

Lemma found_post_skip socks addr h k hs i r :
  get_tcp h socks = Some k ->
  (tcp_state k = StEstablished -> tcp_remote_endpoint k = None) ->
  found_post socks addr hs (S i) r -> found_post socks addr (h :: hs) i r.
Proof.
  intros Hk Hno Hr. destruct r as [[[idx local] peer]|]; cbn in *.
  - destruct Hr as (h' & k' & remote & Hi & Hl & Hrest). exists h', k', remote.
    split; [lia|]. split; [|done]. replace (idx - i)%nat with (S (idx - S i)) by lia. done.
  - constructor; [|done]. intros k' Hk'. rewrite Hk in Hk'. by injection Hk' as <-.
Qed.

Lemma find_established_ok socks addr hs i :
  Forall (has_tcp socks) hs ->
  exists r, find_established socks addr hs i = Ret r /\ found_post socks addr hs i r.
Proof.
  revert i. induction hs as [|h hs IH]; intros i Hall; cbn [find_established].
  { exists None. split; [done|constructor]. }
  apply Forall_cons_1 in Hall as [[k Hk] Hall]. rewrite Hk.
  destruct (IH (S i) Hall) as (r & Er & Hr).
  case_decide as He; [|exists r; split; [done|]; by eapply found_post_skip].
  destruct (tcp_remote_endpoint k) as [remote|] eqn:Erem.
  - eexists. split; [done|]. exists h, k, remote. rewrite Nat.sub_diag. split_and!; done.
  - exists r. split; [done|]. by eapply found_post_skip.
Qed.

(** What [try_accept_socket] does on a listener of the invariant. *)
Definition accept_post (socks : SocketSet) (st : ListenerState)
    (r : option (SocketHandle * SocketAddr * SocketAddr)) (socks' : SocketSet)
    (st' : ListenerState) : Prop :=
  match r with
  | None => socks' = socks /\ st' = st /\
      Forall (fun h => forall k, get_tcp h socks = Some k ->
        tcp_state k = StEstablished -> tcp_remote_endpoint k = None) (listening_handles st)
  | Some (acc, local, peer) =>
      exists hs1 hs2 new k knew remote,
        listening_handles st = hs1 ++ acc :: hs2 /\
        st' = {| l_addr := l_addr st; listening_handles := (hs1 ++ hs2) ++ [new] |} /\
        get_tcp acc socks = Some k /\ tcp_state k = StEstablished /\
        tcp_remote_endpoint k = Some remote /\ peer = endpoint_to_socket_addr remote /\
        local = match tcp_local_endpoint k with
                | Some l => endpoint_to_socket_addr l | None => l_addr st end /\
        ~ has_tcp socks new /\ get_tcp new socks' = Some knew /\ tcp_state knew = StListen /\
        (forall j, j <> new -> get_tcp j socks' = get_tcp j socks) /\
        (forall j, has_udp socks' j <-> has_udp socks j)
  end.

Lemma try_accept_ok socks st :
  Forall (has_tcp socks) (listening_handles st) -> sock_port (l_addr st) <> 0 ->
  exists r socks' st', try_accept_socket socks st = Ret (r, socks', st') /\
    accept_post socks st r socks' st'.
Proof.
  intros Hall Hport. unfold try_accept_socket.
  destruct (find_established_ok socks (l_addr st) _ 0 Hall) as ([[[idx local] peer]|] & -> & Hr).
  2:{ exists None, socks, st. done. }
  destruct Hr as (h & k & remote & _ & Hh & Hk & Hst & Hrem & Hpeer & Hlocal).
  rewrite Nat.sub_0_r in Hh. cbn [mbind outcome_bind]. rewrite Hh.
  pose proof (tcp_listen_spec (socket_addr_to_listen_endpoint (l_addr st))
    (tcp_new TCP_SOCKET_BUFFER_SIZE TCP_SOCKET_BUFFER_SIZE) (tcp_new_state _ _)) as L.
  rewrite decide_False in L by done. destruct L as (kn & -> & Hkn).
  destruct (sockets_add_tcp kn socks) as [new socks'] eqn:Ea.
  destruct (add_tcp_ok _ _ _ _ Ea) as (Hf & _ & Hg & Hne & _ & Hudp).
  do 3 eexists. split; [reflexivity|].
  exists (take idx (listening_handles st)), (drop (S idx) (listening_handles st)), new, k, kn, remote.
  split_and!; try done.
  - by rewrite take_drop_middle.
  - f_equal. f_equal. apply delete_take_drop.
Qed.

(** The listener that handed out one socket and got another: the invariant
    holds, and the accepted socket belongs to nobody. *)
Lemma stack_ok_relisten s h st hs1 acc hs2 new socks :
  stack_ok s -> listeners s !! h = Some st -> listening_handles st = hs1 ++ acc :: hs2 ->
  ~ has_tcp (sockets s) new -> has_tcp socks new ->
  (forall j, has_tcp (sockets s) j -> has_tcp socks j) ->
  (forall j, has_udp socks j <-> has_udp (sockets s) j) ->
  let s1 := set_listeners
    (<[h := {| l_addr := l_addr st; listening_handles := (hs1 ++ hs2) ++ [new] |}]> (listeners s))
    (set_sockets socks s) in
  stack_ok s1 /\ unlisted s1 acc /\ unconnecting (pending s1) acc.
Proof.
  intros Hs Hl Hhs Hf Hn Hg Hu s1.
  assert (Hs0 : stack_ok (set_sockets socks s))
    by (apply stack_ok_sockets; [by apply grows_sockets|done]).
  pose proof (ok_listener _ Hs0 h st Hl) as [Lk La Ln Lp Ld Ls Lc].
  destruct (fresh_unused s new Hs Hf) as [Hun _ Ht Hpn _].
  rewrite Hhs in *. rewrite Forall_app, Forall_cons_iff in La, Ls, Lc.
  destruct La as (La1 & La2 & La3), Ls as (Ls1 & Ls2 & Ls3), Lc as (Lc1 & Lc2 & Lc3).
  assert (Hnin : new ∉ hs1 ++ acc :: hs2) by (rewrite <- Hhs; by apply (Hun h st)).
  assert (Hsub : forall j, j ∈ (hs1 ++ hs2) ++ [new] -> j = new \/ j ∈ listening_handles st)
    by (intros j; rewrite Hhs; set_solver).
  assert (Hnd : NoDup ((hs1 ++ hs2) ++ [new])).
  { rewrite list.NoDup_app, list.NoDup_cons in Ld. rewrite !list.NoDup_app. 
    split_and!; [tauto| set_solver|tauto| set_solver|apply NoDup_singleton]. }
  assert (Hold : forall j l, listeners s !! j = Some l -> j <> h ->
    forall i, i ∈ listening_handles l -> i ∈ (hs1 ++ hs2) ++ [new] -> False).
  { intros j l Hj Hne i Hi Hi'. apply Hsub in Hi' as [->|Hi']; [by apply (Hun j l)|].
    apply Hne. exact (ok_disjoint s Hs j h l st i Hj Hl Hi Hi'). }
  split; [|split; [|exact Lc2]].
  - constructor; subst s1; cbn; try apply Hs0.
    + eapply chans_ok_frame; [..|apply Hs]; done.
    + intros j op Ho Hc. destruct (ok_connect _ Hs0 j op Ho Hc) as [? Hj]. split; [done|].
      rewrite lookup_insert_ne; [done|]. intros ->. cbn in Hj. by rewrite Hl in Hj.
    + intros j op Ho Hc. rewrite lookup_insert. case_decide; [by eauto|].
      exact (ok_accept _ Hs0 j op Ho Hc).
    + intros j l. rewrite lookup_insert. case_decide as Hj.
      * intros [= <-]. subst j. constructor; cbn; try done;
          rewrite ?Forall_app, ?Forall_singleton; auto.
        intros E. by apply app_eq_nil in E as [_ ?].
      * intros Hl'. eapply listener_ok_frame; [..|apply (ok_listener _ Hs0 j l Hl')]; done.
    + intros j j' l l' i. rewrite !lookup_insert. repeat case_decide; subst; try done.
      * intros [= <-] Hl' Hi Hi'. exfalso. by eapply (Hold j').
      * intros Hl' [= <-] Hi Hi'. exfalso. by eapply (Hold j).
      * apply (ok_disjoint _ Hs0).
    + intros j j' l l'. rewrite !lookup_insert. repeat case_decide; subst; try done.
      * intros [= <-] Hl' Hp. exact (ok_ports _ Hs0 _ _ _ _ Hl Hl' Hp).
      * intros Hl' [= <-] Hp. exact (ok_ports _ Hs0 _ _ _ _ Hl' Hl Hp).
      * apply (ok_ports _ Hs0).
  - intros j l. subst s1. cbn. rewrite lookup_insert. case_decide as Hj.
    + intros [= <-]. cbn. rewrite list.NoDup_app, list.NoDup_cons in Ld. set_solver.
    + intros Hl' Hin. apply not_eq_sym in Hj. apply Hj.
      apply (ok_disjoint s Hs j h l st acc Hl' Hl Hin). rewrite Hhs. set_solver.
Qed.

Lemma stack_ok_accepted s h st r socks' st' :
  stack_ok s -> listeners s !! h = Some st -> accept_post (sockets s) st r socks' st' ->
  let s1 := set_listeners (<[h := st']> (listeners s)) (set_sockets socks' s) in
  stack_ok s1 /\
  match r with
  | Some (acc, _, _) => has_tcp socks' acc /\ unlisted s1 acc /\ unconnecting (pending s) acc
  | None => True
  end.
Proof.
  intros Hs Hl Hp. destruct r as [[[acc local] peer]|]; cbn in Hp.
  - destruct Hp as (hs1 & hs2 & new & k & kn & remote & Hhs & -> & Hk & _ & _ & _ & _ & Hf & Hg & _
      & Hne & Hu).
    assert (Hgrow : forall j, has_tcp (sockets s) j -> has_tcp socks' j).
    { intros j Hj. unfold has_tcp. destruct (decide (j = new)) as [->|]; [by rewrite Hg|].
      by rewrite Hne. }
    destruct (stack_ok_relisten s h st hs1 acc hs2 new socks') as [H1 H2]; try done.
    { unfold has_tcp. by rewrite Hg. }
    split; [done|]. split; [|done]. apply Hgrow. by exists k.
  - destruct Hp as (-> & -> & _). split; [|done].
    assert (E : set_listeners (<[h := st]> (listeners s)) (set_sockets (sockets s) s) = s)
      by (destruct s; unfold set_listeners; cbn in *; by rewrite insert_id).
    by rewrite E.
Qed.

Lemma try_accept_listener s h st :
  stack_ok s -> listeners s !! h = Some st ->
  exists r socks' st', try_accept_socket (sockets s) st = Ret (r, socks', st') /\
    accept_post (sockets s) st r socks' st'.
Proof.
  intros Hs Hl. destruct (ok_listener s Hs h st Hl). by apply try_accept_ok.
Qed.

Lemma finish_accept_ok acc local peer t s :
  stack_ok s -> has_tcp (sockets s) acc -> unlisted s acc -> unconnecting (pending s) acc ->
  stack_ok (finish_accept acc local peer t s).
Proof.
  intros Hs Hh Hu Hc. apply stack_ok_emit; [done|]. apply (stack_ok_new_state acc s Hs Hh Hu Hc).
Qed.

Lemma handle_tcp_accept_safe h t s : stack_ok s -> safe (handle_tcp_accept h t s).
Proof.
  intros Hs. unfold handle_tcp_accept.
  destruct (listeners s !! h) as [st|] eqn:Hl; [|by apply safe_ret, stack_ok_emit].
  destruct (try_accept_listener s h st Hs Hl) as (r & socks & st' & -> & Hp).
  destruct (stack_ok_accepted s h st r socks st' Hs Hl Hp) as [H1 H2].
  cbn [mbind outcome_bind]. destruct r as [[[acc local] peer]|]; apply safe_ret.
  - destruct H2 as (? & ? & ?). by apply finish_accept_ok.
  - apply stack_ok_insert_pending; [done|]. cbn. rewrite lookup_insert, decide_True; eauto.
Qed.

Lemma close_listening_ok hs socks :
  Forall (has_tcp socks) hs ->
  exists socks', close_listening hs socks = Ret socks' /\
    (forall j, has_tcp socks' j <-> has_tcp socks j) /\
    (forall j, has_udp socks' j <-> has_udp socks j).
Proof.
  revert socks. induction hs as [|h hs IH]; intros socks Hall; cbn [close_listening].
  { by exists socks. }
  apply Forall_cons_1 in Hall as [Hh Hall]. edestruct (with_tcp_ok h) as (s1 & -> & Ht & Hu); [done|].
  cbn [mbind outcome_bind]. destruct (IH s1) as (s2 & -> & Ht2 & Hu2).
  { eapply Forall_impl; [|exact Hall]. intros j. apply Ht. }
  exists s2. split; [done|]. split; intros j; rewrite ?Ht2, ?Hu2; auto.
Qed.

(** Existence of sockets is all the invariant needs of the socket set. *)
Lemma stack_ok_same_sockets socks s :
  (forall j, has_tcp socks j <-> has_tcp (sockets s) j) ->
  (forall j, has_udp socks j <-> has_udp (sockets s) j) ->
  stack_ok s -> stack_ok (set_sockets socks s).
Proof. intros Ht Hu. apply stack_ok_sockets, grows_sockets; [|done]. intros j. apply Ht. Qed.

Lemma discard_pending_fields h s :
  pending (discard_pending h s) = delete h (pending s) /\
  listeners (discard_pending h s) = listeners s /\ sockets (discard_pending h s) = sockets s.
Proof.
  unfold discard_pending. destruct (pending s !! h) as [op|]; cbn; [|done].
  destruct (drop_pending_op_fields op s) as (-> & -> & -> & _). done.
Qed.

(** A listener may go away once nobody waits on it. *)
Lemma stack_ok_delete_listener h s :
  stack_ok s -> pending s !! h = None -> stack_ok (set_listeners (delete h (listeners s)) s).
Proof.
  intros Hs Hp. constructor; cbn; try apply Hs.
  - eapply chans_ok_frame; [..|apply Hs]; done.
  - intros j op Ho Hc. destruct (ok_connect s Hs j op Ho Hc) as [? Hj]. split; [done|].
    rewrite lookup_delete. by case_decide.
  - intros j op Ho Hc. rewrite lookup_delete. case_decide; [congruence|].
    exact (ok_accept s Hs j op Ho Hc).
  - intros j l [_ Hl]%lookup_delete_Some.
    eapply listener_ok_frame; [..|apply (ok_listener s Hs j l Hl)]; done.
  - intros j j' l l' i [_ Hl]%lookup_delete_Some [_ Hl']%lookup_delete_Some.
    by apply (ok_disjoint s Hs).
  - intros j j' l l' [_ Hl]%lookup_delete_Some [_ Hl']%lookup_delete_Some.
    by apply (ok_ports s Hs).
Qed.

Lemma handle_tcp_listener_close_safe h s : stack_ok s -> safe (handle_tcp_listener_close h s).
Proof.
  intros Hs. unfold handle_tcp_listener_close.
  pose proof (stack_ok_discard h s Hs) as H1. destruct (discard_pending_fields h s) as (Hp & _ & _).
  destruct (listeners (discard_pending h s) !! h) as [st|] eqn:Hl; [|by apply safe_ret].
  pose proof (ok_listener _ H1 h st Hl) as L.
  destruct (close_listening_ok _ _ (lo_all _ _ _ L)) as (socks & E & Ht & Hu).
  cbn [sockets set_listeners]. rewrite E. apply safe_ret.
  apply stack_ok_same_sockets; [done..|]. apply stack_ok_delete_listener; [done|].
  rewrite Hp. by rewrite lookup_delete, decide_True.
Qed.

Lemma handle_tcp_close_safe h s :
  stack_ok s -> has_tcp (sockets s) h /\ unconnecting (pending s) h -> safe (handle_tcp_close h s).
Proof.
  intros Hs [Hh Hc]. unfold handle_tcp_close. destruct (with_tcp_ok h tcp_close _ Hh) as (x & -> & Ht & Hu).
  apply safe_ret, stack_ok_remove_tcp; [done|]. by apply stack_ok_same_sockets.
Qed.

Lemma handle_udp_close_safe h s : stack_ok s -> has_udp (sockets s) h -> safe (handle_udp_close h s).
Proof.
  intros Hs Hh. unfold handle_udp_close. destruct (with_udp_ok h udp_close _ Hh) as (x & -> & Ht & Hu).
  apply safe_ret, stack_ok_remove_udp. by apply stack_ok_same_sockets.
Qed.

Lemma handle_udp_bind_safe addr t s : stack_ok s -> safe (handle_udp_bind addr t s).
Proof.
  intros Hs. unfold handle_udp_bind. destruct (if decide _ then _ else _) as [port port'].
  destruct (udp_bind _ _) as [e|k]; [by apply safe_ret, stack_ok_emit, stack_ok_eport|].
  cbn [sockets set_eport]. destruct (sockets_add_udp k (sockets s)) as [h socks] eqn:Ea.
  destruct (add_udp_spec _ _ _ _ Ea) as (_ & Hf & Hu & Ht).
  assert (Hnew : has_udp socks h) by (unfold has_udp; rewrite Hu, decide_True; eauto).
  apply safe_ret, stack_ok_emit; [done|].
  apply (stack_ok_new_udp h (set_sockets socks (set_eport port' s))).
  - apply stack_ok_sockets; [|by apply stack_ok_eport]. split; cbn; intros j; unfold has_tcp, has_udp.
    + by rewrite Ht.
    + intros Hj. rewrite Hu. case_decide; eauto.
  - done.
Qed.

Lemma addrs_forallb l :
  forallb (fun c => addr_allowed (cidr_address c)) l = true <->
  Forall (fun c => addr_allowed (cidr_address c) = true) l.
Proof. rewrite forallb_forall, Forall_forall. done. Qed.

(** [update_ip_addrs] with a function that keeps the addresses allowed. *)
Lemma update_addrs_ok {R} (f : list IpCidr -> R * list IpCidr) i :
  Forall (fun c => addr_allowed (cidr_address c) = true) (snd (f (ip_addrs i))) ->
  exists i', update_ip_addrs f i = Ret (fst (f (ip_addrs i)), i') /\
    ip_addrs i' = snd (f (ip_addrs i)).
Proof.
  intros Ha%addrs_forallb. pose proof (update_ip_addrs_spec R f i) as U. by rewrite Ha in U.
Qed.

(** An address that is not unicast is not on the list. *)
Lemma disallowed_absent s a p :
  stack_ok s -> addr_allowed a = false ->
  existsb (fun c => bool_decide (c = {| cidr_address := a; cidr_prefix_len := p |})) (ip_addrs (iface s)) = false.
Proof.
  intros Hs Ha. apply not_true_iff_false. intros (c & Hc & E)%existsb_exists.
  apply bool_decide_eq_true in E as ->. pose proof (ok_addrs s Hs) as H. rewrite Forall_forall in H.
  specialize (H _ Hc). cbn in H. congruence.
Qed.

Lemma handle_add_ip_safe ip p t s :
  stack_ok s -> panics_on (command_panics s (AddIp ip p t)) (handle_add_ip ip p t s).
Proof.
  intros Hs. unfold handle_add_ip, command_panics. rewrite ip_cidr_new_spec.
  replace (cidr_width _) with (ip_width ip) by by destruct ip.
  case_bool_decide as Hp; [by rewrite decide_False by lia|rewrite decide_True by lia].
  cbn [mbind outcome_bind orb]. set (cidr := Build_IpCidr _ _).
  assert (Hpush : addr_allowed (ip_addr_to_smoltcp ip) = true \/ (max_addr_count <= length (ip_addrs (iface s)))%nat ->
    Forall (fun c => addr_allowed (cidr_address c) = true)
      (snd match addr_push cidr (ip_addrs (iface s)) with
           | Some l => (Ok (), l)
           | None => (Err (IoError OutOfMemory "address list full"), ip_addrs (iface s)) end)).
  { intros Hor. rewrite addr_push_spec. case_decide; cbn; [|apply Hs]. apply Forall_app. split; [apply Hs|].
    destruct Hor; [by apply Forall_singleton|lia]. }
  destruct (negb _ && _) eqn:Eb; cbn [panics_on].
  - apply andb_true_iff in Eb as [Ha Hroom]. apply negb_true_iff in Ha. apply bool_decide_eq_true in Hroom.
    subst cidr. rewrite disallowed_absent by done.
    match goal with |- context [update_ip_addrs ?f ?i] => pose proof (update_ip_addrs_spec _ f i) as U end.
    cbv beta in U. rewrite addr_push_spec, decide_True in U by done. cbn [fst snd] in U.
    rewrite forallb_app in U. cbn [forallb cidr_address] in U. rewrite Ha, andb_false_r in U. by rewrite U.
  - destruct (existsb _ _); [by apply safe_ret, stack_ok_emit|].
    assert (Hor : addr_allowed (ip_addr_to_smoltcp ip) = true \/ (max_addr_count <= length (ip_addrs (iface s)))%nat).
    { apply andb_false_iff in Eb as [Ha%negb_false_iff|Hroom%bool_decide_eq_false]; [by left|right; lia]. }
    match goal with |- context [update_ip_addrs ?f ?i] => destruct (update_addrs_ok f i) as (i' & -> & Hi) end;
      [by apply Hpush|]. apply safe_ret, stack_ok_emit; [done|]. apply stack_ok_iface; [|done]. rewrite Hi. by apply Hpush.
Qed.

Lemma handle_remove_ip_safe ip t s : stack_ok s -> safe (handle_remove_ip ip t s).
Proof.
  intros Hs. unfold handle_remove_ip.
  assert (Hf : forall g, Forall (fun c => addr_allowed (cidr_address c) = true)
    (List.filter g (ip_addrs (iface s)))).
  { intros g. apply Forall_forall. intros c [Hc _]%filter_In.
    pose proof (ok_addrs s Hs) as Ha. rewrite Forall_forall in Ha. auto. }
  match goal with |- context [update_ip_addrs ?f ?i] => destruct (update_addrs_ok f i) as (i' & -> & Hi) end.
  { apply Hf. }
  apply safe_ret, stack_ok_emit; [done|]. apply stack_ok_iface; [|done]. rewrite Hi. apply Hf.
Qed.

Lemma issued_tcp s h :
  stack_ok s -> (exists t l p c, EvStream t (Ok (h, l, p, c)) ∈ log s) ->
  has_tcp (sockets s) h /\ unconnecting (pending s) h.
Proof.
  intros Hs (t & l & p & c & Hin). pose proof (ok_log s Hs) as L. rewrite Forall_elem_of in L.
  exact (L _ Hin).
Qed.

Lemma issued_udp s h :
  stack_ok s -> (exists t l c, EvUdp t (Ok (h, l, c)) ∈ log s) -> has_udp (sockets s) h.
Proof.
  intros Hs (t & l & c & Hin). pose proof (ok_log s Hs) as L. rewrite Forall_elem_of in L.
  exact (L _ Hin).
Qed.

(** Every command the API sends panics exactly when [command_panics] says so. *)
Lemma handle_command_cases cfg cmd s :
  stack_ok s -> command_sent s cmd ->
  if command_panics s cmd then handle_command cfg cmd s = Panic
  else exists s', handle_command cfg cmd s = Ret (true, s') /\ stack_ok s'.
Proof.
  intros Hs Hc. unfold handle_command.
  match goal with |- context [mbind _ ?m] => assert (Hsafe : panics_on (command_panics s cmd) m) end.
  { destruct cmd; cbn [command_sent] in Hc; [|by apply handle_tcp_listen_safe|..|by apply handle_add_ip_safe| |];
      cbn [command_panics panics_on].
    - by apply handle_tcp_connect_safe.
    - by apply handle_tcp_accept_safe.
    - by apply handle_tcp_listener_close_safe.
    - by eapply handle_tcp_close_safe, issued_tcp.
    - by apply handle_udp_bind_safe.
    - by eapply handle_udp_close_safe, issued_udp.
    - by apply handle_remove_ip_safe.
    - by apply safe_ret, stack_ok_emit. }
  unfold panics_on in Hsafe. destruct (command_panics s cmd); [by rewrite Hsafe|].
  destruct Hsafe as (s' & -> & Hs'). by exists s'.
Qed.

Lemma handle_command_ok cfg cmd s :
  stack_ok s -> command_ok s cmd ->
  exists s', handle_command cfg cmd s = Ret (true, s') /\ stack_ok s'.
Proof.
  intros Hs [Hc Hp]. pose proof (handle_command_cases cfg cmd s Hs Hc) as H. by rewrite Hp in H.
Qed.

(** ** Polling *)

Lemma insert_is_Some {A} (m : gmap nat A) i j x :
  is_Some (m !! j) -> is_Some (<[j := x]> m !! i) <-> is_Some (m !! i).
Proof. intros Hj. rewrite lookup_insert. case_decide; subst; split; eauto. Qed.

Lemma stack_ok_bchan i c s :
  is_Some (bchans s !! i) -> stack_ok s -> stack_ok (set_bchans (<[i := c]> (bchans s)) s).
Proof.
  intros Hi Hs. eapply stack_ok_frame; [..|exact Hs]; try done; [|apply Hs].
  eapply chans_ok_frame; [..|apply Hs]; try done. intros j. cbn. by apply insert_is_Some.
Qed.

Lemma stack_ok_uchan i c s :
  is_Some (uchans s !! i) -> stack_ok s -> stack_ok (set_uchans (<[i := c]> (uchans s)) s).
Proof.
  intros Hi Hs. eapply stack_ok_frame; [..|exact Hs]; try done; [|apply Hs].
  eapply chans_ok_frame; [..|apply Hs]; try done. intros j. cbn. by apply insert_is_Some.
Qed.

(** A new [pending_write] for a socket. *)
Lemma stack_ok_pending_write h t p s :
  tcp_states s !! h = Some t -> stack_ok s ->
  stack_ok (set_tcp_states
    (<[h := {| write_rx := write_rx t; read_tx := read_tx t; pending_write := p |}]>
       (tcp_states s)) s).
Proof.
  intros Ht Hs.
  set (m := <[h := _]> (tcp_states s)).
  assert (Hm : forall j x, m !! j = Some x ->
    exists y, tcp_states s !! j = Some y /\ chan_ids y = chan_ids x).
  { intros j x. subst m. rewrite lookup_insert. case_decide; [|eauto]. subst.
    intros [= <-]. eauto. }
  assert (Hn : forall j, tcp_states s !! j = None -> m !! j = None).
  { intros j Hj. subst m. rewrite lookup_insert_ne; [done|]. congruence. }
  assert (Hp : forall j y c, tcp_states s !! j = Some y -> paired c y ->
    exists x, m !! j = Some x /\ paired c x).
  { intros j y c Hy Hc. subst m. rewrite lookup_insert. case_decide; [|by eauto]. subst j.
    rewrite Ht in Hy. injection Hy as <-. by eexists. }
  clearbody m. constructor; cbn; try apply Hs.
  - destruct (ok_chans s Hs). constructor; cbn; try done.
    + intros j x i (y & Hy & Ei)%Hm. rewrite <- Ei. eauto.
    + intros j x (y & Hy & Ei)%Hm. rewrite <- Ei. eauto.
    + intros j j' x x' i (y & Hy & Ei)%Hm (y' & Hy' & Ei')%Hm. rewrite <- Ei, <- Ei'. eauto.
  - intros j [x (y & Hy & _)%Hm]. apply (ok_tcp s Hs). eauto.
  - intros j l Hl. eapply listener_ok_frame; [..|apply (ok_listener s Hs j l Hl)]; cbn; auto. done.
  - intros j l q c x Hj. destruct (ok_paired s Hs j l q c x Hj) as (y & Hy & Hc). by eapply Hp.
Qed.

Lemma stack_ok_put_tcp h k s :
  has_tcp (sockets s) h -> stack_ok s -> stack_ok (set_sockets (put_tcp h k (sockets s)) s).
Proof.
  intros Hh. apply stack_ok_same_sockets; intros j; [by apply has_tcp_put|by apply has_udp_put_tcp].
Qed.

Lemma stack_ok_put_udp h k s :
  has_udp (sockets s) h -> stack_ok s -> stack_ok (set_sockets (put_udp h k (sockets s)) s).
Proof.
  intros Hh. apply stack_ok_same_sockets; intros j; [by apply has_tcp_put_udp|by apply has_udp_put].
Qed.

(** What a socket state gives access to. *)
Lemma tcp_state_access s h t :
  stack_ok s -> tcp_states s !! h = Some t ->
  exists k w r, get_tcp h (sockets s) = Some k /\ bchans s !! write_rx t = Some w /\
    bchans s !! read_tx t = Some r.
Proof.
  intros Hs Ht. destruct (ok_tcp s Hs h) as [k Hk]; [eauto|].
  destruct (ok_tchans _ (ok_chans s Hs) h t (write_rx t) Ht) as [w Hw]; [by left|].
  destruct (ok_tchans _ (ok_chans s Hs) h t (read_tx t) Ht) as [r Hr]; [by right; left|].
  by exists k, w, r.
Qed.

Lemma udp_state_access s h t :
  stack_ok s -> udp_states s !! h = Some t ->
  exists k w r, get_udp h (sockets s) = Some k /\ uchans s !! uwrite_rx t = Some w /\
    uchans s !! uread_tx t = Some r.
Proof.
  intros Hs Ht. destruct (ok_udp s Hs h) as [k Hk]; [eauto|].
  destruct (ok_uchans _ (ok_chans s Hs) h t (uwrite_rx t) Ht) as [w Hw]; [by left|].
  destruct (ok_uchans _ (ok_chans s Hs) h t (uread_tx t) Ht) as [r Hr]; [by right; left|].
  by exists k, w, r.
Qed.

Lemma poll_tcp_write_safe h s : stack_ok s -> safe (poll_tcp_write h s).
Proof.
  intros Hs. unfold poll_tcp_write. destruct (tcp_states s !! h) as [t|] eqn:Ht; [|by apply safe_ret].
  destruct (tcp_state_access s h t Hs Ht) as (k & w & r & Hk & Hw & Hr). rewrite Hk, Hw.
  destruct (process_tcp_write k w (pending_write t)) as [[k' c'] pend]. apply safe_ret.
  apply (stack_ok_pending_write h t pend (set_bchans _ (set_sockets _ s))); [done|].
  apply (stack_ok_bchan _ _ (set_sockets _ s)); [by eexists|]. apply stack_ok_put_tcp; [by eexists|done].
Qed.

Lemma poll_tcp_read_safe h s : stack_ok s -> safe (poll_tcp_read h s).
Proof.
  intros Hs. unfold poll_tcp_read. destruct (tcp_states s !! h) as [t|] eqn:Ht; [|by apply safe_ret].
  destruct (tcp_state_access s h t Hs Ht) as (k & w & r & Hk & Hw & Hr). rewrite Hk, Hr.
  destruct (process_tcp_read k r) as [k' c']. apply safe_ret.
  apply (stack_ok_bchan _ _ (set_sockets _ s)); [by eexists|]. apply stack_ok_put_tcp; [by eexists|done].
Qed.

Lemma poll_udp_write_safe h s : stack_ok s -> safe (poll_udp_write h s).
Proof.
  intros Hs. unfold poll_udp_write. destruct (udp_states s !! h) as [t|] eqn:Ht; [|by apply safe_ret].
  destruct (udp_state_access s h t Hs Ht) as (k & w & r & Hk & Hw & Hr). rewrite Hk, Hw.
  destruct (process_udp_write k w (stats s)) as [[k' c'] st]. apply safe_ret, stack_ok_stats.
  apply (stack_ok_uchan _ _ (set_sockets _ s)); [by eexists|]. apply stack_ok_put_udp; [by eexists|done].
Qed.

Lemma poll_udp_read_safe h s : stack_ok s -> safe (poll_udp_read h s).
Proof.
  intros Hs. unfold poll_udp_read. destruct (udp_states s !! h) as [t|] eqn:Ht; [|by apply safe_ret].
  destruct (udp_state_access s h t Hs Ht) as (k & w & r & Hk & Hw & Hr). rewrite Hk, Hr.
  destruct (process_udp_read k r (stats s)) as [[k' c'] st]. apply safe_ret, stack_ok_stats.
  apply (stack_ok_uchan _ _ (set_sockets _ s)); [by eexists|]. apply stack_ok_put_udp; [by eexists|done].
Qed.

Lemma each_safe f hs s :
  (forall h s, stack_ok s -> safe (f h s)) -> stack_ok s -> safe (each f hs s).
Proof.
  intros Hf. revert s. induction hs as [|h hs IH]; intros s Hs; cbn [each]; [by apply safe_ret|].
  apply safe_bind; auto.
Qed.

Lemma poll_write_channels_safe ts us s : stack_ok s -> safe (poll_write_channels ts us s).
Proof.
  intros Hs. apply safe_bind; [apply each_safe; auto using poll_tcp_write_safe|].
  intros. apply each_safe; auto using poll_udp_write_safe.
Qed.

Lemma poll_read_channels_safe ts us s : stack_ok s -> safe (poll_read_channels ts us s).
Proof.
  intros Hs. apply safe_bind; [apply each_safe; auto using poll_tcp_read_safe|].
  intros. apply each_safe; auto using poll_udp_read_safe.
Qed.


Lemma process_one_pending_safe h s : stack_ok s -> safe (process_one_pending h s).
Proof.
  intros Hs. unfold process_one_pending.
  destruct (pending s !! h) as [[l p c t|t]|] eqn:Hp; [..|by apply safe_ret].
  - destruct (ok_connect s Hs h _ Hp eq_refl) as [[k Hk] _]. rewrite Hk.
    assert (Hd : stack_ok (set_pending (delete h (pending s)) s)) by by apply stack_ok_delete_pending.
    assert (Hc : unconnecting (delete h (pending s)) h)
      by (unfold unconnecting; by rewrite lookup_delete_eq).
    destruct (tcp_state k); apply safe_ret; try done.
    1,3: apply stack_ok_drop_channels, stack_ok_emit; [done|]; apply stack_ok_remove_tcp; done.
    apply stack_ok_emit; [|done]. split; [by exists k|done].
  - destruct (listeners s !! h) as [st|] eqn:Hl.
    2:{ apply safe_ret, stack_ok_emit; [done|]. by apply stack_ok_delete_pending. }
    destruct (try_accept_listener s h st Hs Hl) as (r & socks & st' & -> & Ha).
    destruct (stack_ok_accepted s h st r socks st' Hs Hl Ha) as [H1 H2].
    cbn [mbind outcome_bind]. destruct r as [[[acc local] peer]|]; apply safe_ret; [|done].
    destruct H2 as (? & ? & ?). apply finish_accept_ok; [|done..|by apply unconnecting_delete].
    exact (stack_ok_delete_pending h _ H1).
Qed.

Lemma process_pending_safe hs s : stack_ok s -> safe (process_pending hs s).
Proof. intros. apply each_safe; auto using process_one_pending_safe. Qed.

Lemma stack_ok_abort op s : stack_ok s -> stack_ok (abort_pending_op op s).
Proof.
  intros. destruct op; cbn [abort_pending_op];
    [apply stack_ok_drop_channels|]; by apply stack_ok_emit.
Qed.

Lemma stack_ok_drain hs s : stack_ok s -> stack_ok (drain_pending hs s).
Proof.
  revert s. induction hs as [|h hs IH]; intros s Hs; cbn [drain_pending]; [done|].
  destruct (pending s !! h); auto using stack_ok_abort, stack_ok_delete_pending.
Qed.

(** ** One turn of the loop *)

Context {P : Phy} {PL : PhyLaws}.

Lemma stack_ok_polled ifc socks s :
  (forall h, has_tcp socks h <-> has_tcp (sockets s) h) ->
  (forall h, has_udp socks h <-> has_udp (sockets s) h) -> ip_addrs ifc = ip_addrs (iface s) ->
  stack_ok s -> stack_ok (set_iface ifc (set_sockets socks s)).
Proof.
  intros Ht Hu Hi Hs. apply stack_ok_iface; [rewrite Hi; apply Hs|]. by apply stack_ok_same_sockets.
Qed.

Lemma ingress_batch_ok n now b d s b' d' s' :
  ingress_batch n now b d s = (b', d', s') -> stack_ok s -> stack_ok s'.
Proof.
  revert b d s. induction n as [|n IH]; intros b d s; cbn [ingress_batch]; [by intros [= -> -> ->]|].
  destruct (poll_ingress_single now d (iface s) (sockets s)) as [[[r d1] ifc] socks] eqn:E.
  destruct (ingress_sockets _ _ _ _ _ _ _ _ E) as (Ht & Hu & Hi).
  intros Hr Hs. pose proof (stack_ok_polled ifc socks s Ht Hu Hi Hs) as H1.
  destruct r; [by injection Hr as <- <- <-|eauto..].
Qed.

Definition iter_ok (r : iter_result) : Prop :=
  match r with Continue _ s | Stop _ s => stack_ok s end.

Lemma stack_poll_ok t d s :
  stack_ok s -> exists r, stack_poll t d s = Ret r /\ iter_ok r.
Proof.
  intros Hs. unfold stack_poll.
  destruct (poll_write_channels_safe (o_wtcp t) (o_wudp t) s Hs) as (s1 & -> & H1).
  cbn [mbind outcome_bind].
  destruct (ingress_batch _ _ _ _ _) as [[b d1] s2] eqn:E2. apply ingress_batch_ok in E2; [|done].
  destruct (poll_egress _ _ _ _) as [[[eg d2] ifc] socks] eqn:E3.
  destruct (egress_sockets _ _ _ _ _ _ _ _ E3) as (Ht & Hu & Hi).
  pose proof (stack_ok_polled ifc socks s2 Ht Hu Hi E2) as H3.
  destruct (poll_read_channels_safe (o_rtcp t) (o_rudp t) _ H3) as (s4 & -> & H4).
  cbn [mbind outcome_bind].
  assert (Hp : safe (if b || eg then process_pending (o_pend t) s4 else Ret s4)).
  { destruct (b || eg); [by apply process_pending_safe|by apply safe_ret]. }
  destruct Hp as (s5 & -> & H5). cbn [mbind outcome_bind].
  destruct (t_ipc_dead t); eexists; split; [done|by apply stack_ok_drain|done|done].
Qed.

(** A turn on what the API sends, and the turns that panic. *)
Definition wake_sent (s : stack) (w : wake) : Prop :=
  match w with WakeCommand cmd => command_sent s cmd | _ => True end.
Definition wake_panics (s : stack) (w : wake) : bool :=
  match w with WakeCommand cmd => command_panics s cmd | _ => false end.

Lemma stack_iter_cases cfg w t d s :
  stack_ok s -> wake_sent s w ->
  if wake_panics s w then stack_iter cfg w t d s = Panic
  else exists r, stack_iter cfg w t d s = Ret r /\ iter_ok r.
Proof.
  intros Hs Hw. destruct w as [cmd| |]; cbn [stack_iter wake_panics wake_sent] in *.
  - pose proof (handle_command_cases cfg cmd s Hs Hw) as H. destruct (command_panics s cmd); [by rewrite H|].
    destruct H as (s' & -> & Hs'). by apply stack_poll_ok.
  - by eexists.
  - by apply stack_poll_ok.
Qed.

Lemma stack_init_ok cfg port s : stack_init cfg port = Ret s -> stack_ok s.
Proof.
  unfold stack_init. destruct (ip_cidr_new _ _) as [c|]; [|done]. cbn [mbind outcome_bind].
  match goal with |- context [update_ip_addrs ?f ?i] =>
    pose proof (update_ip_addrs_spec _ f i) as U; destruct (update_ip_addrs f i) as [[b ifc]|] end;
    [|done].
  destruct b; [|done]. cbn [mbind outcome_bind negb].
  destruct (add_default_route _ _) as [i2|] eqn:Er; [|done]. intros [= <-].
  assert (Ha : Forall (fun c => addr_allowed (cidr_address c) = true) (ip_addrs ifc)).
  { destruct (forallb _ _) eqn:Ef in U; [|done]. destruct U as (i' & E & Hi).
    injection E as _ ->. rewrite Hi. by apply addrs_forallb. }
  assert (He : forall A (h : SocketHandle), ~ is_Some ((∅ : gmap SocketHandle A) !! h))
    by (intros A h [x Hx]; by rewrite lookup_empty in Hx).
  constructor; cbn; intros *; rewrite ?lookup_empty; try done; try naive_solver.
  - constructor; cbn; intros *; rewrite ?lookup_empty; intros; naive_solver.
  - by rewrite set_any_ip_addrs, (add_default_route_addrs _ _ _ Er).
Qed.

End Safe.
