(* ===== verification/StackTokens.v ===== *)
(** * Every request of the stack task is answered exactly once

    A request carries a oneshot sender.  [tokens] is the multiset of the senders
    the task has used or dropped (its log) and still owes (its pending map): a
    command adds its own sender, and nothing else changes the multiset, so no
    sender is forgotten and none is used twice. *)

From stdpp Require Import gmultiset.
From S2P Require Import Prelude Net Externals Stack StackPoll.
#[local] Open Scope Z_scope.

(** Case analysis on the calls a handler makes, in the equation of its result. *)
Ltac handler_cases :=
  repeat match goal with
  | H : Ret _ = Ret _ |- _ => injection H as <-
  | H : Panic = Ret _ |- _ => discriminate H
  | H : create_tcp_channels _ = (_, _, _) |- _ => injection H as <- <- <-
  | H : create_udp_channels _ = (_, _, _) |- _ => injection H as <- <- <-
  | H : context [match ?x with _ => _ end] |- _ => destruct x eqn:?
  | H : mbind _ ?x = Ret _ |- _ => destruct x eqn:?; cbn [mbind outcome_bind] in H
  end.

Section Tokens.
Context {M : Mpsc} {N : Smoltcp}.

Definition event_token (e : event) : token :=
  match e with
  | EvStream t _ | EvListen t _ | EvUdp t _ | EvUnit t _ | EvIps t _ | EvDropped t => t
  end.

Definition op_token (op : PendingOp) : token :=
  match op with PendConnect _ _ _ t | PendAccept t => t end.

Definition command_tokens (cmd : StackCommand) : gmultiset token :=
  match cmd with
  | TcpConnect _ _ t | TcpListen _ _ t | TcpAccept _ t | UdpBind _ t
  | AddIp _ _ t | RemoveIp _ t | GetIps t => {[+ t +]}
  | TcpListenerClose _ | TcpClose _ | UdpClose _ => ∅
  end.

(** Senders used or dropped, and senders owed. *)
Definition settled (s : stack) : gmultiset token := list_to_set_disj (event_token <$> log s).
Definition owed (m : gmap SocketHandle PendingOp) : gmultiset token :=
  list_to_set_disj ((fun p => op_token (snd p)) <$> map_to_list m).
Definition tokens (s : stack) : gmultiset token := settled s ⊎ owed (pending s).

Lemma owed_empty : owed ∅ = ∅.
Proof. unfold owed. by rewrite map_to_list_empty. Qed.

Lemma owed_insert m h op : m !! h = None -> owed (<[h := op]> m) = {[+ op_token op +]} ⊎ owed m.
Proof.
  intros Hh. unfold owed. rewrite (map_to_list_insert m h op Hh). done.
Qed.

Lemma owed_delete m h op : m !! h = Some op -> owed m = {[+ op_token op +]} ⊎ owed (delete h m).
Proof.
  intros Hh. rewrite <- (owed_insert (delete h m) h) by (by rewrite lookup_delete_eq).
  by rewrite insert_delete_id.
Qed.

Lemma tokens_emit e s : tokens (emit e s) = {[+ event_token e +]} ⊎ tokens s.
Proof.
  unfold tokens, settled. cbn [log pending emit]. rewrite fmap_app, list_to_set_disj_app.
  cbn [fmap list_fmap list_to_set_disj]. multiset_solver.
Qed.

(** [tokens] only looks at the log and the pending map. *)
Lemma tokens_frame s s' : log s' = log s -> pending s' = pending s -> tokens s' = tokens s.
Proof. unfold tokens, settled. by intros -> ->. Qed.

Lemma tokens_drop_op op s : tokens (drop_pending_op op s) = {[+ op_token op +]} ⊎ tokens s.
Proof. destruct op; cbn [drop_pending_op]; by rewrite tokens_emit. Qed.

Lemma drop_op_pending op s : pending (drop_pending_op op s) = pending s.
Proof. by destruct op. Qed.

Lemma tokens_delete_pending h op s :
  pending s !! h = Some op ->
  tokens s = {[+ op_token op +]} ⊎ tokens (set_pending (delete h (pending s)) s).
Proof.
  intros Hp. unfold tokens, settled. cbn [log pending set_pending]. rewrite (owed_delete _ _ _ Hp). multiset_solver.
Qed.

Lemma tokens_insert_pending h op s :
  tokens (insert_pending h op s) = {[+ op_token op +]} ⊎ tokens s.
Proof.
  unfold insert_pending. destruct (pending s !! h) as [old|] eqn:Hp.
  - rewrite drop_op_pending.
    assert (E : owed (<[h := op]> (pending s)) ⊎ {[+ op_token old +]}
      = {[+ op_token op +]} ⊎ owed (pending s)).
    { rewrite (owed_delete _ _ _ Hp), <- insert_delete_eq, owed_insert by (by rewrite lookup_delete_eq).
      multiset_solver. }
    pose proof (tokens_drop_op old s) as D. unfold tokens, settled in *.
    rewrite drop_op_pending in D. cbn [log pending set_pending]. multiset_solver.
  - unfold tokens, settled. cbn [log pending set_pending]. rewrite owed_insert by done. multiset_solver.
Qed.

Lemma tokens_discard h s : tokens (discard_pending h s) = tokens s.
Proof.
  unfold discard_pending. destruct (pending s !! h) as [old|] eqn:Hp.
  - pose proof (tokens_drop_op old s) as D. pose proof (tokens_delete_pending h old s Hp) as E.
    unfold tokens, settled in *. rewrite drop_op_pending in *.
    cbn [log pending set_pending] in *. multiset_solver.
  - apply tokens_frame; [done|]. cbn. by rewrite delete_id.
Qed.

Lemma tokens_remove_tcp h s : tokens (remove_tcp_state h s) = tokens s.
Proof. unfold remove_tcp_state. by destruct (tcp_states s !! h). Qed.

Lemma tokens_remove_udp h s : tokens (remove_udp_state h s) = tokens s.
Proof. unfold remove_udp_state. by destruct (udp_states s !! h). Qed.

Lemma tokens_drop_channels c s : tokens (drop_tcp_channels c s) = tokens s.
Proof. done. Qed.

Lemma tokens_finish_accept a l p t s :
  tokens (finish_accept a l p t s) = {[+ t +]} ⊎ tokens s.
Proof. unfold finish_accept. cbn -[tokens]. by rewrite tokens_emit. Qed.

(** ** Handlers *)

(** Solve the equations of a handler by the lemmas above. *)
Ltac tokens_step :=
  handler_cases;
  rewrite ?tokens_drop_channels, ?tokens_emit, ?tokens_insert_pending, ?tokens_finish_accept,
    ?tokens_remove_tcp, ?tokens_remove_udp; try done.

Lemma tokens_connect cfg ip a t s s' :
  handle_tcp_connect cfg ip a t s = Ret s' -> tokens s' = {[+ t +]} ⊎ tokens s.
Proof. unfold handle_tcp_connect. intros H. tokens_step. Qed.

Lemma tokens_listen a b t s s' :
  handle_tcp_listen a b t s = Ret s' -> tokens s' = {[+ t +]} ⊎ tokens s.
Proof. unfold handle_tcp_listen, handles_with_capacity. intros H. tokens_step. Qed.

Lemma tokens_accept h t s s' :
  handle_tcp_accept h t s = Ret s' -> tokens s' = {[+ t +]} ⊎ tokens s.
Proof. unfold handle_tcp_accept. intros H. tokens_step. Qed.

Lemma tokens_listener_close h s s' :
  handle_tcp_listener_close h s = Ret s' -> tokens s' = tokens s.
Proof.
  unfold handle_tcp_listener_close. intros H. rewrite <- (tokens_discard h s). tokens_step.
Qed.

Lemma tokens_close h s s' : handle_tcp_close h s = Ret s' -> tokens s' = tokens s.
Proof. unfold handle_tcp_close. intros H. tokens_step. Qed.

Lemma tokens_udp_bind a t s s' :
  handle_udp_bind a t s = Ret s' -> tokens s' = {[+ t +]} ⊎ tokens s.
Proof. unfold handle_udp_bind. intros H. tokens_step. Qed.

Lemma tokens_udp_close h s s' : handle_udp_close h s = Ret s' -> tokens s' = tokens s.
Proof. unfold handle_udp_close. intros H. tokens_step. Qed.

Lemma tokens_add_ip ip p t s s' :
  handle_add_ip ip p t s = Ret s' -> tokens s' = {[+ t +]} ⊎ tokens s.
Proof. unfold handle_add_ip. intros H. tokens_step. Qed.

Lemma tokens_remove_ip ip t s s' :
  handle_remove_ip ip t s = Ret s' -> tokens s' = {[+ t +]} ⊎ tokens s.
Proof. unfold handle_remove_ip. intros H. tokens_step. Qed.

Lemma tokens_command cfg cmd s b s' :
  handle_command cfg cmd s = Ret (b, s') -> tokens s' = command_tokens cmd ⊎ tokens s.
Proof.
  unfold handle_command. intros H.
  match type of H with mbind _ ?m = _ => destruct m as [s1|] eqn:E; [|done] end.
  injection H as _ <-. destruct cmd; cbn [command_tokens]; rewrite ?(left_id_L ∅ (⊎));
    eauto using tokens_connect, tokens_listen, tokens_accept, tokens_listener_close, tokens_close,
      tokens_udp_bind, tokens_udp_close, tokens_add_ip, tokens_remove_ip.
  injection E as <-. apply tokens_emit.
Qed.

(** ** Polling *)

Lemma tokens_each f hs s s' :
  (forall h s s', f h s = Ret s' -> tokens s' = tokens s) ->
  each f hs s = Ret s' -> tokens s' = tokens s.
Proof.
  intros Hf. revert s. induction hs as [|h hs IH]; intros s; cbn [each]; [by intros [= ->]|].
  destruct (f h s) as [s1|] eqn:E; [|done]. cbn. intros Hr. rewrite (IH _ Hr). eauto.
Qed.

(** The data path neither answers nor creates requests. *)
Definition quiet (s s' : stack) : Prop := log s' = log s /\ pending s' = pending s.

Lemma quiet_each f hs s s' :
  (forall h s s', f h s = Ret s' -> quiet s s') -> each f hs s = Ret s' -> quiet s s'.
Proof.
  intros Hf. revert s. induction hs as [|h hs IH]; intros s; cbn [each]; [by intros [= ->]|].
  destruct (f h s) as [s1|] eqn:E; [|done]. cbn. intros Hr.
  destruct (IH _ Hr) as [Hl Hp], (Hf _ _ _ E) as [Hl' Hp']. split; congruence.
Qed.

Lemma quiet_poll_tcp_write h s s' : poll_tcp_write h s = Ret s' -> quiet s s'.
Proof. unfold poll_tcp_write. intros H. tokens_step. Qed.

Lemma quiet_poll_udp_write h s s' : poll_udp_write h s = Ret s' -> quiet s s'.
Proof. unfold poll_udp_write. intros H. tokens_step. Qed.

Lemma quiet_poll_tcp_read h s s' : poll_tcp_read h s = Ret s' -> quiet s s'.
Proof. unfold poll_tcp_read. intros H. tokens_step. Qed.

Lemma quiet_poll_udp_read h s s' : poll_udp_read h s = Ret s' -> quiet s s'.
Proof. unfold poll_udp_read. intros H. tokens_step. Qed.

Lemma quiet_write ts us s s' : poll_write_channels ts us s = Ret s' -> quiet s s'.
Proof.
  unfold poll_write_channels. destruct (each poll_tcp_write ts s) as [s1|] eqn:E; [|done].
  cbn [mbind outcome_bind]. intros H. apply (quiet_each _ _ _ _ quiet_poll_udp_write) in H as [Hl Hp].
  apply (quiet_each _ _ _ _ quiet_poll_tcp_write) in E as [Hl' Hp']. split; congruence.
Qed.

Lemma quiet_read ts us s s' : poll_read_channels ts us s = Ret s' -> quiet s s'.
Proof.
  unfold poll_read_channels. destruct (each poll_tcp_read ts s) as [s1|] eqn:E; [|done].
  cbn [mbind outcome_bind]. intros H. apply (quiet_each _ _ _ _ quiet_poll_udp_read) in H as [Hl Hp].
  apply (quiet_each _ _ _ _ quiet_poll_tcp_read) in E as [Hl' Hp']. split; congruence.
Qed.

Lemma tokens_one_pending h s s' : process_one_pending h s = Ret s' -> tokens s' = tokens s.
Proof.
  unfold process_one_pending. intros H. destruct (pending s !! h) as [op|] eqn:Hp; [|tokens_step].
  rewrite (tokens_delete_pending h op s Hp). destruct op; cbn [op_token]; tokens_step;
    try exact (tokens_delete_pending h _ s Hp).
Qed.

Lemma tokens_drain hs s : tokens (drain_pending hs s) = tokens s.
Proof.
  revert s. induction hs as [|h hs IH]; intros s; cbn [drain_pending]; [done|].
  destruct (pending s !! h) as [op|] eqn:Hp; [|done]. rewrite IH, (tokens_delete_pending h op s Hp).
  destruct op; cbn [abort_pending_op];
    by rewrite ?tokens_drop_channels, tokens_emit.
Qed.

(** Completing requests: events are added, and no request appears. *)
Definition completion (e : event) : Prop :=
  match e with
  | EvStream _ (Ok _) => True
  | EvStream _ (Err r) => ekind r = ConnectionRefused \/ ekind r = InvalidInput
  | _ => False
  end.

Definition completes (s s' : stack) : Prop :=
  (exists done, log s' = log s ++ done /\ Forall completion done) /\ pending s' ⊆ pending s.

Lemma completes_refl s : completes s s.
Proof. split; [exists []; by rewrite app_nil_r|done]. Qed.

Lemma completes_trans s1 s2 s3 : completes s1 s2 -> completes s2 s3 -> completes s1 s3.
Proof.
  intros [(d1 & H1 & F1) H2] [(d2 & H3 & F2) H4]. split; [|by etrans].
  exists (d1 ++ d2). rewrite H3, H1, app_assoc. split; [done|by apply Forall_app].
Qed.

Lemma quiet_completes s s' : quiet s s' -> completes s s'.
Proof. intros [Hl Hp]. split; [exists []; by rewrite Hl, app_nil_r|]. by rewrite Hp. Qed.

Lemma completes_delete h e s s' :
  log s' = log s ++ [e] -> completion e -> pending s' = delete h (pending s) -> completes s s'.
Proof.
  intros Hl He Hp. split; [exists [e]; split; [done|by apply Forall_singleton]|].
  rewrite Hp. apply delete_subseteq.
Qed.

Lemma remove_tcp_quiet h s : quiet s (remove_tcp_state h s).
Proof. unfold remove_tcp_state. by destruct (tcp_states s !! h). Qed.

Lemma process_one_completes h s s' : process_one_pending h s = Ret s' -> completes s s'.
Proof.
  unfold process_one_pending. destruct (pending s !! h) as [[l p c t|t]|] eqn:Hp.
  - destruct (get_tcp h (sockets s)) as [k|]; [|done].
    destruct (remove_tcp_quiet h (set_pending (delete h (pending s)) s)) as [Hl Hpe].
    destruct (tcp_state k); intros [= <-]; try apply completes_refl;
      eapply (completes_delete h); cbn; rewrite ?Hl, ?Hpe; try done; cbn; auto.
  - destruct (listeners s !! h) as [st|].
    2:{ intros [= <-]. eapply (completes_delete h); cbn; try done; cbn; auto. }
    destruct (try_accept_socket _ _) as [[[[[[a l] q]|] socks] st']|]; [..|done];
      cbn [mbind outcome_bind]; intros [= <-].
    + by eapply (completes_delete h).
    + by apply quiet_completes.
  - intros [= <-]. apply completes_refl.
Qed.

Lemma process_pending_completes hs s s' : process_pending hs s = Ret s' -> completes s s'.
Proof.
  unfold process_pending. revert s. induction hs as [|h hs IH]; intros s; cbn [each].
  { intros [= ->]. apply completes_refl. }
  destruct (process_one_pending h s) as [s1|] eqn:E; [|done]. cbn [mbind outcome_bind].
  intros Hr. exact (completes_trans _ _ _ (process_one_completes _ _ _ E) (IH _ Hr)).
Qed.

(** Draining answers every request with the same error. *)
Definition aborted (t : token) : event :=
  EvStream t (Err (IoError ConnectionAborted "proxy connection lost")).

Lemma abort_fields op s :
  log (abort_pending_op op s) = log s ++ [aborted (op_token op)] /\
  pending (abort_pending_op op s) = pending s.
Proof. by destruct op. Qed.

Lemma drain_pending_spec hs s :
  (forall h, is_Some (pending s !! h) -> h ∈ hs) ->
  pending (drain_pending hs s) = ∅ /\
  exists ts, log (drain_pending hs s) = log s ++ (aborted <$> ts) /\
    owed (pending s) = list_to_set_disj ts.
Proof.
  revert s. induction hs as [|h hs IH]; intros s Hd; cbn [drain_pending].
  - assert (E : pending s = ∅).
    { apply map_eq. intros h. rewrite lookup_empty. destruct (pending s !! h) eqn:E; [|done].
      exfalso. set_solver. }
    split; [done|]. exists []. by rewrite E, owed_empty, app_nil_r.
  - destruct (pending s !! h) as [op|] eqn:Hp.
    + destruct (abort_fields op (set_pending (delete h (pending s)) s)) as [Hl Hpe]. cbn in Hl, Hpe.
      destruct (IH (abort_pending_op op (set_pending (delete h (pending s)) s))) as (He & ts & H1 & H2).
      { intros j. rewrite Hpe, lookup_delete. case_decide; [by intros []|].
        intros [->|?]%Hd%elem_of_cons; done. }
      split; [done|]. exists (op_token op :: ts). rewrite H1, Hl, <- app_assoc. split; [done|].
      by rewrite (owed_delete _ _ _ Hp), <- Hpe, H2.
    + apply IH. intros j Hj. pose proof (Hd j Hj) as [->|?]%elem_of_cons; [|done].
      rewrite Hp in Hj. by destruct Hj.
Qed.

End Tokens.
