(* ===== verification/StackRun.v ===== *)
(** * Runs of the stack task

    The loop of [run_stack] as a transition system: a state is reached from
    [stack_init] by turns of the loop and by what the application does to its
    channel ends between turns.  The invariant [stack_ok] holds along every run,
    so a turn panics exactly on the commands that do so themselves; the senders of the commands received are accounted for;
    and losing the proxy answers every waiter. *)

From stdpp Require Import gmultiset.
From S2P Require Import Prelude Net Externals Stack StackPoll StackData StackInv StackSafe StackTokens.
#[local] Open Scope Z_scope.

Section Run.
Context {M : Mpsc} {ML : MpscLaws} {N : Smoltcp} {NL : SmoltcpLaws} {P : Phy} {PL : PhyLaws}.

(** What the application does to its ends of the data channels. *)
Inductive app_action :=
| AppSend (i : nat) (b : bytes)
| AppRecv (i : nat)
| AppSendTo (i : nat) (p : bytes * SocketAddr)
| AppRecvFrom (i : nat)
| AppDropTx (i : nat)
| AppDropRx (i : nat).

Definition app_step (a : app_action) (s : stack) : stack :=
  match a with
  | AppSend i b => set_bchans (alter (fun c => snd (try_send b c)) i (bchans s)) s
  | AppRecv i => set_bchans (alter (fun c => snd (try_recv c)) i (bchans s)) s
  | AppSendTo i p => set_uchans (alter (fun c => snd (try_send p c)) i (uchans s)) s
  | AppRecvFrom i => set_uchans (alter (fun c => snd (try_recv c)) i (uchans s)) s
  | AppDropTx i => set_uchans (alter drop_tx i (uchans s)) (set_bchans (alter drop_tx i (bchans s)) s)
  | AppDropRx i => set_uchans (alter drop_rx i (uchans s)) (set_bchans (alter drop_rx i (bchans s)) s)
  end.

Definition wake_commands (w : wake) : list StackCommand :=
  match w with WakeCommand cmd => [cmd] | _ => [] end.

(** States of the task before a turn, with the commands received so far. *)
Inductive reachable (cfg : StackConfig) (port : Z) : list StackCommand -> Device -> stack -> Prop :=
| reach_init d s : stack_init cfg port = Ret s -> reachable cfg port [] d s
| reach_turn cs w t d s d' s' :
    reachable cfg port cs d s -> wake_sent s w ->
    stack_iter cfg w t d s = Ret (Continue d' s') ->
    reachable cfg port (cs ++ wake_commands w) d' s'
| reach_app cs a d s :
    reachable cfg port cs d s -> reachable cfg port cs d (app_step a s).

(** ** The invariant *)

Lemma app_step_ok a s : stack_ok s -> stack_ok (app_step a s).
Proof.
  intros Hs.
  destruct a; (eapply stack_ok_frame; [..|exact Hs]; try done; [|apply Hs]);
    (eapply chans_ok_frame; [..|apply Hs]; try done; intros; cbn; by rewrite ?alter_is_Some).
Qed.

Lemma reachable_ok cfg port cs d s : reachable cfg port cs d s -> stack_ok s.
Proof.
  induction 1 as [d s Hi|cs w t d s d' s' _ IH Hw Hr|cs a d s _ IH].
  - by eapply stack_init_ok.
  - pose proof (stack_iter_cases cfg w t d s IH Hw) as H. destruct (wake_panics s w); [congruence|].
    destruct H as (r & E & Hr'). rewrite E in Hr. by injection Hr as ->.
  - by apply app_step_ok.
Qed.

(** ** Accounting *)

Definition iter_state (r : iter_result) : stack :=
  match r with Continue _ s | Stop _ s => s end.

Definition wake_tokens (w : wake) : gmultiset token :=
  match w with WakeCommand cmd => command_tokens cmd | _ => ∅ end.

Lemma quiet_ingress n now b d s b' d' s' :
  ingress_batch n now b d s = (b', d', s') -> quiet s s'.
Proof.
  revert b d s. induction n as [|n IH]; intros b d s; cbn [ingress_batch]; [by intros [= -> -> ->]|].
  destruct (poll_ingress_single now d (iface s) (sockets s)) as [[[[] d1] ifc] socks].
  - by intros [= <- <- <-].
  - intros E. exact (IH _ _ _ E).
  - intros E. exact (IH _ _ _ E).
Qed.

(** The same turn while the proxy lives. *)
Definition while_alive (t : turn) : turn := {|
  o_wtcp := o_wtcp t; o_wudp := o_wudp t; o_rtcp := o_rtcp t; o_rudp := o_rudp t; o_pend := o_pend t;
  o_drain := o_drain t; t_now := t_now t; t_ipc_dead := false
|}.

(** A turn up to the check of the IPC task: only [process_pending] completes
    requests. *)
Lemma stack_poll_completes t d s r :
  stack_poll t d s = Ret r ->
  exists d' s5, completes s s5 /\ tokens s5 = tokens s /\
    stack_poll (while_alive t) d s = Ret (Continue d' s5) /\
    r = if t_ipc_dead t then Stop d' (drain_pending (o_drain t) s5) else Continue d' s5.
Proof.
  unfold stack_poll. cbn [while_alive o_wtcp o_wudp o_rtcp o_rudp o_pend o_drain t_now t_ipc_dead].
  destruct (poll_write_channels _ _ s) as [s1|] eqn:E1; [|done].
  cbn [mbind outcome_bind]. destruct (ingress_batch _ _ _ _ _) as [[b d1] s2] eqn:E2.
  apply quiet_write in E1 as [L1 P1]. apply quiet_ingress in E2 as [L2 P2].
  destruct (poll_egress _ _ _ _) as [[[eg d2] ifc] socks].
  destruct (poll_read_channels _ _ _) as [s4|] eqn:E4; [|done]. cbn [mbind outcome_bind].
  apply quiet_read in E4 as [L4 P4]. cbn in L4, P4.
  assert (Q : quiet s s4) by (split; congruence).
  destruct (if b || eg then _ else _) as [s5|] eqn:E5; [|done]. cbn [mbind outcome_bind].
  assert (H5 : completes s4 s5 /\ tokens s5 = tokens s4).
  { destruct (b || eg); [|injection E5 as ->; by split; [apply completes_refl|]].
    split; [by eapply process_pending_completes|].
    exact (tokens_each _ _ _ _ tokens_one_pending E5). }
  destruct H5 as [C5 T5]. intros Hr. exists d2, s5. split_and!.
  2:{ rewrite T5. apply tokens_frame; apply Q. }
  2:{ done. }
  2:{ by destruct (t_ipc_dead t); injection Hr as <-. }
  eapply completes_trans; [by apply quiet_completes|done].
Qed.

Lemma tokens_poll t d s r : stack_poll t d s = Ret r -> tokens (iter_state r) = tokens s.
Proof.
  intros (d' & s5 & _ & T & _ & ->)%stack_poll_completes. rewrite <- T.
  destruct (t_ipc_dead t); [apply tokens_drain|done].
Qed.

Lemma tokens_iter cfg w t d s r :
  stack_iter cfg w t d s = Ret r -> tokens (iter_state r) = wake_tokens w ⊎ tokens s.
Proof.
  destruct w as [cmd| |]; cbn [stack_iter wake_tokens].
  - destruct (handle_command cfg cmd s) as [[go s1]|] eqn:E; [|done]. cbn [mbind outcome_bind].
    apply tokens_command in E. destruct go; [|by intros [= <-]].
    intros Hr. by rewrite (tokens_poll _ _ _ _ Hr).
  - intros [= <-]. by rewrite (left_id_L ∅ (⊎)).
  - intros Hr. by rewrite (tokens_poll _ _ _ _ Hr), (left_id_L ∅ (⊎)).
Qed.

Definition request_tokens (cs : list StackCommand) : gmultiset token :=
  foldr (fun c m => command_tokens c ⊎ m) ∅ cs.

Lemma request_tokens_app cs1 cs2 :
  request_tokens (cs1 ++ cs2) = request_tokens cs1 ⊎ request_tokens cs2.
Proof.
  induction cs1 as [|c cs1 IH]; cbn [app request_tokens foldr].
  - by rewrite (left_id_L ∅ (⊎)).
  - unfold request_tokens in IH at 1. rewrite IH. by rewrite (assoc_L (⊎)).
Qed.

Lemma tokens_app a s : tokens (app_step a s) = tokens s.
Proof. by destruct a. Qed.

Lemma stack_init_fields cfg port s : stack_init cfg port = Ret s -> log s = [] /\ pending s = ∅.
Proof.
  unfold stack_init. destruct (ip_cidr_new _ _); [|done]. cbn [mbind outcome_bind].
  destruct (update_ip_addrs _ _) as [[b ifc]|]; [|done]. cbn [mbind outcome_bind].
  destruct b; [|done]. cbn [negb]. destruct (add_default_route _ _); [|done]. by intros [= <-].
Qed.

Lemma reachable_tokens cfg port cs d s :
  reachable cfg port cs d s -> tokens s = request_tokens cs.
Proof.
  induction 1 as [d s Hi|cs w t d s d' s' _ IH Hw Hr|cs a d s _ IH].
  - apply stack_init_fields in Hi as [Hl Hp]. unfold tokens, settled. rewrite Hl, Hp, owed_empty. done.
  - apply tokens_iter in Hr. cbn [iter_state] in Hr. rewrite Hr, request_tokens_app, IH.
    destruct w; cbn [wake_tokens wake_commands request_tokens foldr]; multiset_solver.
  - by rewrite tokens_app.
Qed.

(** ** Properties *)

(** C1: Exactly when the task panics.  In every state reached from [run_stack]'s
    initialisation by turns of its loop (whatever the order in which the maps are
    visited, whatever arrives from the network) and by the application's use of
    its channel ends, the next turn panics on the commands of [command_panics]
    ([add_local_ip] with a prefix length that is invalid for the address, or with an
    address that is not unicast while the list has room; a backlog beyond the address
    space) and on nothing else: on every other command the API sends, and on no
    command, it returns and the invariant [stack_ok] holds again.  In particular no
    [get_mut] on a missing socket and no out-of-range vector access happens. *)
Theorem stack_panics_exactly (cfg : StackConfig) (port : Z) (cs : list StackCommand) (d : Device)
  (s : stack) (w : wake) (t : turn)
  (Hreach : reachable cfg port cs d s) (Hwake : wake_sent s w) :
  if wake_panics s w then stack_iter cfg w t d s = Panic
  else exists r, stack_iter cfg w t d s = Ret r /\ iter_ok r.
Proof. apply stack_iter_cases; [by eapply reachable_ok|done]. Qed.

(** C2: Exactly-once answers: along every run, each oneshot sender has been used
    or dropped, or is still owed by the pending map, exactly as many times as it
    was received in a command: none is answered twice, none is forgotten. *)
Theorem requests_accounted (cfg : StackConfig) (port : Z) (cs : list StackCommand) (d : Device)
  (s : stack) (Hreach : reachable cfg port cs d s) (t : token) :
  (multiplicity t (settled s) + multiplicity t (owed (pending s)))%nat
  = multiplicity t (request_tokens cs).
Proof.
  rewrite <- (reachable_tokens _ _ _ _ _ Hreach). unfold tokens. by rewrite multiplicity_disj_union.
Qed.

(** C32: Losing the proxy: a turn that finds the IPC reader dead stops the loop
    and leaves no waiter behind.  The turn does what it would do with the proxy alive:
    requests whose connection completed in it are answered with the stream or its
    refusal.  All the others, exactly those such a turn would leave pending, are then
    answered with [ConnectionAborted], each once. *)
Theorem proxy_loss_answers_all (t : turn) (d : Device) (s : stack)
  (Hok : stack_ok s) (Hdead : t_ipc_dead t = true)
  (Hall : forall h, is_Some (pending s !! h) -> h ∈ o_drain t) :
  exists d' s5 s' completed ts,
    stack_poll (while_alive t) d s = Ret (Continue d' s5) /\
    log s5 = log s ++ completed /\ Forall completion completed /\ pending s5 ⊆ pending s /\
    owed (pending s) = list_to_set_disj (event_token <$> completed) ⊎ owed (pending s5) /\
    stack_poll t d s = Ret (Stop d' s') /\ pending s' = ∅ /\
    log s' = log s5 ++ (aborted <$> ts) /\ owed (pending s5) = list_to_set_disj ts.
Proof.
  destruct (stack_poll_ok t d s Hok) as (r & Hr & _). pose proof Hr as Hr'.
  apply stack_poll_completes in Hr' as (d' & s5 & [(completed & Hl & Hc) Hp] & T & Ha & E).
  rewrite Hdead in E. subst r.
  destruct (drain_pending_spec (o_drain t) s5) as (He & ts & Hlog & Howed).
  { intros h [op Hop]. apply Hall. exists op. by eapply lookup_weaken. }
  exists d', s5, (drain_pending (o_drain t) s5), completed, ts. split_and!; try done.
  unfold tokens, settled in T. rewrite Hl, fmap_app, list_to_set_disj_app in T. multiset_solver.
Qed.

End Run.

(** ** Witnesses: the properties at concrete inputs, on the reference instances *)

#[local] Existing Instances Reference.mpsc Reference.mpsc_laws Reference.smoltcp
  Reference.smoltcp_laws Reference.phy Reference.phy_laws.

Definition demo_cfg : StackConfig := {|
  cfg_mac := [# x02; x00; x00; x00; x00; x01]; cfg_ip := V4 [# x0a; x00; x00; x02];
  cfg_prefix_len := 24; cfg_gateway := V4 [# x0a; x00; x00; x01]
|}.

Definition demo_device : Device := [].

Definition demo_addr : SocketAddr := SockV4 [# x0a; x00; x00; x02] 80.
Definition demo_listen : wake := WakeCommand (TcpListen demo_addr 2 7%nat).
Definition demo_turn (dead : bool) (hs : list nat) : turn := {|
  o_wtcp := hs; o_wudp := []; o_rtcp := hs; o_rudp := []; o_pend := hs; o_drain := hs;
  t_now := 0; t_ipc_dead := dead
|}.

(** The state after initialisation, and after a turn with a listen command. *)
Definition demo_init : stack :=
  match stack_init demo_cfg 49152 with
  | Ret s => s
  | Panic => MkStack [] ∅ ∅ ∅ ∅ ∅ ∅ ∅ 0 0 stats_zero []
  end.

Definition demo_state (w : wake) (s : stack) : stack :=
  match stack_iter demo_cfg w (demo_turn false []) demo_device s with
  | Ret r => iter_state r
  | Panic => s
  end.

Lemma demo_reachable : reachable demo_cfg 49152 [] demo_device demo_init.
Proof.
  constructor. unfold demo_init.
  assert (H : returns (stack_init demo_cfg 49152)) by (vm_compute; exact I).
  by destruct (stack_init demo_cfg 49152).
Qed.

(** A turn that goes on and leaves the device as it was. *)
Definition goes_on (w : wake) (s : stack) : bool :=
  match stack_iter demo_cfg w (demo_turn false []) demo_device s with
  | Ret (Continue [] _) => true
  | _ => false
  end.

Lemma demo_step cs w s :
  reachable demo_cfg 49152 cs demo_device s -> wake_sent s w -> goes_on w s = true ->
  reachable demo_cfg 49152 (cs ++ wake_commands w) demo_device (demo_state w s).
Proof.
  intros Hr Hw Hg. unfold goes_on, demo_state in *.
  destruct (stack_iter _ _ _ _ _) as [[[|] s'|]|] eqn:E; try done.
  exact (reach_turn demo_cfg 49152 cs w (demo_turn false []) demo_device s demo_device s' Hr Hw E).
Qed.

Lemma demo_listening :
  reachable demo_cfg 49152 [TcpListen demo_addr 2 7%nat] demo_device (demo_state demo_listen demo_init).
Proof. apply (demo_step [] demo_listen demo_init demo_reachable I). by vm_compute. Qed.

(** A listener with one waiting accept, when the proxy goes away. *)
Definition demo_accept : wake := WakeCommand (TcpAccept (N:=Reference.smoltcp) 0%nat 8%nat).
Definition demo_waiting : stack := demo_state demo_accept (demo_state demo_listen demo_init).

Lemma demo_waiting_ok : stack_ok demo_waiting.
Proof.
  eapply reachable_ok. apply (demo_step _ demo_accept _ demo_listening I). by vm_compute.
Qed.

(** Three commands in the initial state: one that returns, and two that panic. *)
Definition demo_add (prefix_len : Z) : wake :=
  WakeCommand (AddIp (N:=Reference.smoltcp) (V4 [# x0a; x00; x00; x03]) prefix_len 9%nat).
Definition demo_multicast : wake :=
  WakeCommand (AddIp (N:=Reference.smoltcp) (V4 [# xe0; x00; x00; x01]) 24 9%nat).

Lemma stack_panics_exactly_witness :
  (exists r, stack_iter demo_cfg demo_listen (demo_turn false []) demo_device demo_init = Ret r /\
    iter_ok r) /\
  stack_iter demo_cfg (demo_add 33) (demo_turn false []) demo_device demo_init = Panic /\
  stack_iter demo_cfg demo_multicast (demo_turn false []) demo_device demo_init = Panic.
Proof.
  pose proof (fun w => stack_panics_exactly demo_cfg 49152 [] demo_device demo_init w (demo_turn false [])
    demo_reachable) as H. split_and!.
  - specialize (H demo_listen I). replace (wake_panics demo_init demo_listen) with false in H
      by (vm_compute; reflexivity). exact H.
  - specialize (H (demo_add 33) I). replace (wake_panics demo_init (demo_add 33)) with true in H
      by (vm_compute; reflexivity). exact H.
  - specialize (H demo_multicast I). replace (wake_panics demo_init demo_multicast) with true in H
      by (vm_compute; reflexivity). exact H.
Defined.

Lemma requests_accounted_witness :
  (multiplicity 7%nat (settled (demo_state demo_listen demo_init))
   + multiplicity 7%nat (owed (pending (demo_state demo_listen demo_init))))%nat = 1%nat.
Proof.
  etransitivity; [exact (requests_accounted demo_cfg 49152 [TcpListen demo_addr 2 7%nat]
    demo_device _ demo_listening 7%nat)|].
  vm_compute. reflexivity.
Defined.

Lemma singleton_tokens (x : token) (ts : list token) :
  ({[+ x +]} : gmultiset token) = list_to_set_disj ts -> ts = [x].
Proof.
  intros E. pose proof (f_equal size E) as Hs. rewrite gmultiset_size_singleton in Hs.
  destruct ts as [|t1 [|t2 ts]]; cbn [list_to_set_disj foldr fmap list_fmap] in *.
  - done.
  - rewrite (right_id_L ∅ (⊎)) in E. assert (Hin : x ∈ ({[+ t1 +]} : gmultiset token)) by (rewrite <- E; by apply gmultiset_elem_of_singleton).
    by apply gmultiset_elem_of_singleton in Hin as ->.
  - rewrite !gmultiset_size_disj_union, !gmultiset_size_singleton in Hs. lia.
Qed.

Lemma proxy_loss_answers_all_witness :
  exists d' s', stack_poll (demo_turn true [0%nat]) demo_device demo_waiting = Ret (Stop d' s') /\
    pending s' = ∅ /\ log s' = log demo_waiting ++ [aborted 8%nat].
Proof.
  assert (E : pending demo_waiting = {[0%nat := PendAccept 8%nat]}) by (vm_compute; reflexivity).
  destruct (proxy_loss_answers_all (demo_turn true [0%nat]) demo_device demo_waiting demo_waiting_ok
    (eq_refl true)) as (d' & s5 & s' & completed & ts & H1 & H2 & _ & _ & _ & H5 & H6 & H7 & H8).
  { intros h [op Hop]. rewrite E in Hop. apply lookup_singleton_Some in Hop as [<- _]. by left. }
  assert (E5 : match stack_poll (while_alive (demo_turn true [0%nat])) demo_device demo_waiting with
    | Ret (Continue _ s5) => length (log s5) = length (log demo_waiting) /\ owed (pending s5) = {[+ 8%nat +]}
    | _ => False end) by (vm_compute; done).
  rewrite H1 in E5. destruct E5 as [El Ho]. rewrite H2, length_app in El. destruct completed; [|cbn in El; lia].
  rewrite app_nil_r in H2. rewrite H2 in H7. exists d', s'. split_and!; try done.
  rewrite Ho in H8. by rewrite (singleton_tokens 8%nat ts H8) in H7.
Defined.
