(* ===== verification/StackSpec.v ===== *)
(** * What the commands of the stack task do

    Functional behaviour of the handlers on every branch, for states that satisfy
    the invariant of the task. *)

From S2P Require Import Prelude Net Externals Stack StackPoll StackData StackInv StackSafe StackTokens.
From S2P Require Import StackRun.
#[local] Open Scope Z_scope.

Section Spec.
Context {M : Mpsc} {ML : MpscLaws} {N : Smoltcp} {NL : SmoltcpLaws}.

(** A socket a listener can hand out. *)
Definition acceptable (socks : SocketSet) (h : SocketHandle) : Prop :=
  exists k r, get_tcp h socks = Some k /\ tcp_state k = StEstablished /\
    tcp_remote_endpoint k = Some r.

(** The addresses reported for an accepted socket. *)
Definition reported (socks : SocketSet) (addr : SocketAddr) (h : SocketHandle)
    (local peer : SocketAddr) : Prop :=
  exists k r, get_tcp h socks = Some k /\ tcp_remote_endpoint k = Some r /\
    peer = endpoint_to_socket_addr r /\
    local = match tcp_local_endpoint k with Some l => endpoint_to_socket_addr l | None => addr end.

(** The two ends of a stream's channels, fresh and empty. *)
Definition fresh_stream (s s' : stack) (h : SocketHandle) (c : TcpChannels) : Prop :=
  tcp_states s' !! h
    = Some {| write_rx := write_tx c; read_tx := read_rx c; pending_write := None |} /\
  bchans s' !! write_tx c = Some (mpsc_channel TCP_CHANNEL_CAPACITY) /\
  bchans s' !! read_rx c = Some (mpsc_channel TCP_CHANNEL_CAPACITY) /\
  write_tx c <> read_rx c /\ bchans s !! write_tx c = None /\ bchans s !! read_rx c = None.

Lemma chans_fresh s i : chans_ok s -> (next_chan s <= i)%nat -> bchans s !! i = None.
Proof.
  intros Hc Hi. destruct (bchans s !! i) eqn:E; [|done].
  assert (i < next_chan s)%nat by (apply (ok_bfresh s Hc); eauto). lia.
Qed.

Lemma fresh_stream_create s h :
  chans_ok s ->
  let '(c, t, s1) := create_tcp_channels s in
  fresh_stream s (set_tcp_states (<[h := t]> (tcp_states s1)) s1) h c.
Proof.
  intros Hc. unfold fresh_stream. cbn. rewrite !lookup_insert_eq, lookup_insert_ne by lia.
  rewrite lookup_insert_eq. split_and!; try done; try lia; apply chans_fresh; done || lia.
Qed.

(** ** Accept *)

(** The first acceptable socket of the backlog is handed out: it leaves the
    backlog, a new listening socket takes a place at its end. *)
Definition handed_out (s s' : stack) (h : SocketHandle) (st : ListenerState) (t : token) : Prop :=
  exists hs1 acc hs2 new k local peer c,
    listening_handles st = hs1 ++ acc :: hs2 /\ acceptable (sockets s) acc /\
    Forall (fun j => ~ acceptable (sockets s) j) hs1 /\
    reported (sockets s) (l_addr st) acc local peer /\
    listeners s' = <[h := {| l_addr := l_addr st; listening_handles := (hs1 ++ hs2) ++ [new] |}]>
                     (listeners s) /\
    ~ has_tcp (sockets s) new /\ get_tcp new (sockets s') = Some k /\ tcp_state k = StListen /\
    (forall j, j <> new -> get_tcp j (sockets s') = get_tcp j (sockets s)) /\
    fresh_stream s s' acc c /\
    log s' = log s ++ [EvStream t (Ok (acc, local, peer, c))].

Lemma find_established_first socks addr hs i idx local peer :
  Forall (has_tcp socks) hs -> find_established socks addr hs i = Ret (Some (idx, local, peer)) ->
  Forall (fun j => ~ acceptable socks j) (take (idx - i) hs).
Proof.
  revert i. induction hs as [|h hs IH]; intros i Hall; cbn [find_established]; [done|].
  apply Forall_cons_1 in Hall as [[k Hk] Hall]. rewrite Hk.
  assert (Hskip : find_established socks addr hs (S i) = Ret (Some (idx, local, peer)) ->
    (tcp_state k = StEstablished -> tcp_remote_endpoint k = None) ->
    Forall (fun j => ~ acceptable socks j) (take (idx - i) (h :: hs))).
  { intros Hf Hno. destruct (find_established_ok socks addr hs (S i) Hall) as (r & Er & Hr).
    rewrite Hf in Er. injection Er as <-. destruct Hr as (_ & _ & _ & Hi & _).
    replace (idx - i)%nat with (S (idx - S i)) by lia. cbn [take]. constructor; [|by eapply IH].
    intros (k' & r & Hk' & Hs & Hr). rewrite Hk in Hk'. injection Hk' as <-.
    rewrite Hno in Hr; done. }
  case_decide as He; [|by intros; apply Hskip].
  destruct (tcp_remote_endpoint k) as [r|] eqn:Er; [|by intros; apply Hskip].
  intros [= <- <- <-]. by rewrite Nat.sub_diag.
Qed.

Lemma try_accept_first socks st acc local peer socks' st' :
  Forall (has_tcp socks) (listening_handles st) -> sock_port (l_addr st) <> 0 ->
  try_accept_socket socks st = Ret (Some (acc, local, peer), socks', st') ->
  exists hs1 hs2 new k, listening_handles st = hs1 ++ acc :: hs2 /\
    st' = {| l_addr := l_addr st; listening_handles := (hs1 ++ hs2) ++ [new] |} /\
    acceptable socks acc /\ Forall (fun j => ~ acceptable socks j) hs1 /\
    reported socks (l_addr st) acc local peer /\
    ~ has_tcp socks new /\ get_tcp new socks' = Some k /\ tcp_state k = StListen /\
    (forall j, j <> new -> get_tcp j socks' = get_tcp j socks).
Proof.
  intros Hall Hport. unfold try_accept_socket.
  destruct (find_established_ok socks (l_addr st) _ 0 Hall) as (r & Ef & Hr). rewrite Ef.
  destruct r as [[[idx l] p]|]; [|done]. cbn [mbind outcome_bind].
  apply find_established_first in Ef; [|done]. rewrite Nat.sub_0_r in Ef.
  destruct Hr as (h & k & remote & _ & Hh & Hk & Hst & Hrem & Hpeer & Hlocal).
  rewrite Nat.sub_0_r in Hh. rewrite Hh.
  pose proof (tcp_listen_spec (socket_addr_to_listen_endpoint (l_addr st))
    (tcp_new TCP_SOCKET_BUFFER_SIZE TCP_SOCKET_BUFFER_SIZE) (tcp_new_state _ _)) as L.
  rewrite decide_False in L by done. destruct L as (kn & -> & Hkn).
  destruct (sockets_add_tcp kn socks) as [new socks1] eqn:Ea.
  destruct (add_tcp_ok _ _ _ _ Ea) as (Hf & _ & Hg & Hne & _ & _).
  intros [= <- -> -> <- <-].
  exists (take idx (listening_handles st)), (drop (S idx) (listening_handles st)), new, kn.
  split_and!; try done.
  - by rewrite take_drop_middle.
  - f_equal. f_equal. apply delete_take_drop.
  - by exists k, remote.
  - by exists k, remote.
Qed.

Lemma handle_tcp_accept_cases h t s st :
  stack_ok s -> listeners s !! h = Some st ->
  exists s', handle_tcp_accept h t s = Ret s' /\
    (handed_out s s' h st t \/
     (Forall (fun j => ~ acceptable (sockets s) j) (listening_handles st) /\
      s' = insert_pending h (PendAccept t) s)).
Proof.
  intros Hs Hl. unfold handle_tcp_accept. rewrite Hl.
  destruct (try_accept_listener s h st Hs Hl) as (r & socks & st' & E & Hp). rewrite E.
  pose proof (ok_listener s Hs h st Hl) as L. cbn [mbind outcome_bind].
  destruct r as [[[acc local] peer]|]; eexists; (split; [reflexivity|]).
  - left. apply try_accept_first in E as (hs1 & hs2 & new & k & H1 & -> & H2 & H3 & H4 & H5 & H6 & H7 & H8);
      [|apply L..].
    set (s1 := set_listeners _ _).
    assert (Hc : chans_ok s1) by (eapply chans_ok_frame; [..|apply (ok_chans s Hs)]; done).
    pose proof (fresh_stream_create s1 acc Hc) as F.
    exists hs1, acc, hs2, new, k, local, peer, {| write_tx := next_chan s; read_rx := S (next_chan s) |}.
    split_and!; done.
  - right. destruct Hp as (-> & -> & Hn). split.
    + eapply Forall_impl; [|exact Hn]. intros j Hj (k & r & Hk & Hst & Hr).
      rewrite (Hj k Hk Hst) in Hr. done.
    + f_equal. destruct s; unfold set_listeners; cbn in *. by rewrite insert_id.
Qed.

(** ** Helpers for the other handlers *)

Lemma insert_pending_fields h op s :
  pending (insert_pending h op s) = <[h := op]> (pending s) /\
  log (insert_pending h op s) = log s ++ match pending s !! h with
                                         | Some old => [EvDropped (op_token old)]
                                         | None => []
                                         end /\
  sockets (insert_pending h op s) = sockets s /\ listeners (insert_pending h op s) = listeners s /\
  tcp_states (insert_pending h op s) = tcp_states s.
Proof.
  unfold insert_pending. destruct (pending s !! h) as [[]|]; cbn; by rewrite ?app_nil_r.
Qed.

(** Both sides of a channel are gone. *)
Definition dead (s : stack) (i : nat) : Prop :=
  exists c, bchans s !! i = Some c /\ tx_alive (view c) = false /\ rx_alive (view c) = false.

Lemma dead_channels h ts c s :
  chans_ok s -> tcp_states s !! h = Some ts -> paired c ts ->
  forall e, let s' := drop_tcp_channels c (emit e (remove_tcp_state h s)) in
  dead s' (write_tx c) /\ dead s' (read_rx c) /\ tcp_states s' !! h = None.
Proof.
  intros Hc Ht [Hw Hr] e. unfold remove_tcp_state. rewrite Ht. cbn. unfold dead. cbn.
  destruct (ok_tchans s Hc h ts (write_rx ts) Ht) as [w Ew]; [by left|].
  destruct (ok_tchans s Hc h ts (read_tx ts) Ht) as [r Er]; [by right; left|].
  pose proof (ok_tids s Hc h ts Ht) as Hn. unfold chan_ids in Hn.
  assert (Hne : write_tx c <> read_rx c).
  { rewrite <- Hw, <- Hr. apply list.NoDup_cons in Hn as [Hn _]. intros E. apply Hn. rewrite E. by left. }
  rewrite Hw, Hr in *. split_and!.
  - eexists. rewrite lookup_alter_ne, lookup_alter_eq, lookup_alter_ne, lookup_alter_eq by done.
    rewrite Ew. split; [reflexivity|]. by rewrite drop_tx_view, drop_rx_view.
  - eexists. rewrite lookup_alter_eq, lookup_alter_ne, lookup_alter_eq, lookup_alter_ne by done.
    rewrite Er. split; [reflexivity|]. by rewrite drop_rx_view, drop_tx_view.
  - apply lookup_delete_eq.
Qed.

Lemma close_listening_spec hs socks :
  NoDup hs -> Forall (has_tcp socks) hs ->
  exists socks', close_listening hs socks = Ret socks' /\
    forall j, get_tcp j socks' =
      if decide (j ∈ hs) then
        (fun k => if decide (tcp_state k = StListen) then tcp_close k else k) <$> get_tcp j socks
      else get_tcp j socks.
Proof.
  revert socks. induction hs as [|h hs IH]; intros socks Hnd Hall; cbn [close_listening].
  { exists socks. split; [done|]. intros j. by rewrite decide_False by set_solver. }
  apply list.NoDup_cons in Hnd as [Hh Hnd]. apply Forall_cons_1 in Hall as [Hx Hall].
  unfold with_tcp at 1. pose proof Hx as [k Hk]. rewrite Hk. cbn [mbind outcome_bind].
  set (k' := if decide (tcp_state k = StListen) then _ else _).
  destruct (put_tcp_spec h k' socks Hx) as [Hp _].
  destruct (IH (put_tcp h k' socks) Hnd) as (s2 & -> & H2).
  { eapply Forall_impl; [|exact Hall]. intros j. apply has_tcp_put. done. }
  exists s2. split; [done|]. intros j. rewrite H2, Hp.
  destruct (decide (j = h)) as [->|Hj].
  - rewrite (decide_False (P := h ∈ hs)), decide_True by set_solver. by rewrite Hk.
  - destruct (decide (j ∈ hs)); [rewrite decide_True by set_solver|rewrite decide_False by set_solver]; done.
Qed.

Lemma list_filter_bool {A} (Q : A -> Prop) `{!forall x, Decision (Q x)} (l : list A) :
  List.filter (fun a => bool_decide (Q a)) l = filter Q l.
Proof.
  induction l as [|a l IH]; [done|]. cbn [List.filter]. rewrite filter_cons.
  case_bool_decide; case_decide; try done; by rewrite IH.
Qed.

(** ** Properties *)

(** C31: Accept.  A handle that is no listener is an [InvalidInput] error.  On a
    listener, the first backlog socket that is Established is handed out with
    channels that are fresh, paired with the socket's and empty, leaves the backlog
    for good, and is replaced by a new listening socket, so the backlog keeps its
    size; when there is none the request becomes the listener's waiter, and a
    previous waiter is dropped without an answer. *)
Theorem tcp_accept_behaviour (h : SocketHandle) (t : token) (s : stack) (Hok : stack_ok s) :
  exists s', handle_tcp_accept h t s = Ret s' /\
  match listeners s !! h with
  | None => s' = emit (EvStream t (Err (IoError InvalidInput "not a listener handle"))) s
  | Some st =>
      handed_out s s' h st t \/
      (Forall (fun j => ~ acceptable (sockets s) j) (listening_handles st) /\
       pending s' = <[h := PendAccept t]> (pending s) /\
       log s' = log s ++ match pending s !! h with
                         | Some old => [EvDropped (op_token old)]
                         | None => []
                         end /\
       sockets s' = sockets s /\ listeners s' = listeners s)
  end.
Proof.
  destruct (listeners s !! h) as [st|] eqn:Hl.
  - destruct (handle_tcp_accept_cases h t s st Hok Hl) as (s' & E & [H|[H ->]]); eexists.
    + split; [exact E|by left].
    + split; [exact E|right]. destruct (insert_pending_fields h (PendAccept t) s) as (? & ? & ? & ? & _).
      split_and!; done.
  - unfold handle_tcp_accept. rewrite Hl. by eexists.
Qed.

(** C35: Listen.  Port 0 is [InvalidInput]; a port on which any listener listens is
    [AddrInUse], whatever the two addresses are; otherwise the listener gets
    [max backlog 1] distinct new sockets, all in the Listen state, and is known
    under the first of them.  Only a backlog beyond the address space panics. *)
Theorem tcp_listen_behaviour (addr : SocketAddr) (backlog : nat) (t : token) (s : stack)
  (Hok : stack_ok s) :
  if command_panics s (TcpListen addr backlog t) then handle_tcp_listen addr backlog t s = Panic else
  exists s', handle_tcp_listen addr backlog t s = Ret s' /\
  if decide (sock_port addr = 0) then
    s' = emit (EvListen t (Err (IoError InvalidInput "cannot listen on port 0"))) s
  else
    ((exists h l, listeners s !! h = Some l /\ sock_port (l_addr l) = sock_port addr) /\
     s' = emit (EvListen t (Err (IoError AddrInUse "address already in use"))) s) \/
    ((forall h l, listeners s !! h = Some l -> sock_port (l_addr l) <> sock_port addr) /\
     exists primary rest,
       listeners s' = <[primary := {| l_addr := addr; listening_handles := primary :: rest |}]>
                        (listeners s) /\
       length (primary :: rest) = Nat.max backlog 1 /\ NoDup (primary :: rest) /\
       Forall (fun h => ~ has_tcp (sockets s) h) (primary :: rest) /\
       Forall (fun h => exists k, get_tcp h (sockets s') = Some k /\ tcp_state k = StListen)
         (primary :: rest) /\
       log s' = log s ++ [EvListen t (Ok (primary, addr))]).
Proof.
  unfold handle_tcp_listen, command_panics, handles_with_capacity.
  destruct (decide (sock_port addr = 0)) as [Hp|Hp];
    [rewrite bool_decide_eq_true_2 by done; by eexists|rewrite bool_decide_eq_false_2 by done].
  cbn [negb andb].
  destruct (port_in_use _ _) eqn:Hu; cbn [negb andb].
  { eexists. split; [reflexivity|]. left. split; [by apply port_in_use_spec|done]. }
  case_bool_decide; [by rewrite decide_False by lia|rewrite decide_True by lia]. cbn [mbind outcome_bind].
  destruct (listen_loop_ok (Nat.max backlog 1) (socket_addr_to_listen_endpoint addr) []
    (sockets s) Hp) as (new & socks & -> & H1 & H2 & H3 & H4 & _).
  cbn [app]. destruct new as [|primary rest]; [cbn in H1; lia|].
  eexists. split; [reflexivity|]. right. split.
  - intros h l Hl E. apply not_true_iff_false in Hu. apply Hu, port_in_use_spec. eauto.
  - exists primary, rest. split_and!; done.
Qed.

(** C33: Completion of a connect.  Once the socket is Established the waiter gets
    the stream, whose channels are the other ends of the socket's own channels;
    when it is Closed or in TimeWait the waiter gets [ConnectionRefused], the task
    forgets the socket and both channels are dead; in every other state (CloseWait
    included) nothing changes. *)
Theorem connect_completion (h : SocketHandle) (local peer : SocketAddr) (c : TcpChannels)
  (t : token) (s : stack) (k : TcpSocket) (Hok : stack_ok s)
  (Hpend : pending s !! h = Some (PendConnect local peer c t))
  (Hsock : get_tcp h (sockets s) = Some k) :
  exists s', process_one_pending h s = Ret s' /\
  match tcp_state k with
  | StEstablished =>
      log s' = log s ++ [EvStream t (Ok (h, local, peer, c))] /\
      pending s' = delete h (pending s) /\
      exists ts, tcp_states s' !! h = Some ts /\ paired c ts
  | StClosed | StTimeWait =>
      log s' = log s ++ [EvStream t (Err (IoError ConnectionRefused "connection failed"))] /\
      pending s' = delete h (pending s) /\
      dead s' (write_tx c) /\ dead s' (read_rx c) /\ tcp_states s' !! h = None
  | _ => s' = s
  end.
Proof.
  unfold process_one_pending. rewrite Hpend, Hsock.
  destruct (ok_paired s Hok h local peer c t Hpend) as (ts & Hts & Hc).
  set (s0 := set_pending (delete h (pending s)) s).
  assert (Hch : chans_ok s0) by (eapply chans_ok_frame; [..|apply (ok_chans s Hok)]; done).
  destruct (remove_tcp_quiet h s0) as [Hl Hp].
  destruct (tcp_state k); eexists; (split; [reflexivity|]); try done; cycle 1.
  { split_and!; try done. by exists ts. }
  all: (split; [cbn; by rewrite Hl|]); (split; [cbn; by rewrite Hp|]); by eapply dead_channels.
Qed.

(** C34: Connect.  A new socket is asked to connect to the requested address from the
    requested source (by default the tunnel's own address) and the next ephemeral
    port, which is used up.  smoltcp's answer decides: when it refuses, the request is
    answered at once with its error and no socket is left; otherwise the connecting
    socket is kept under a new handle, and the request is pending on it with these
    addresses and with fresh channels.  No other socket changes. *)
Theorem tcp_connect_behaviour (cfg : StackConfig) (local_ip : option IpAddr) (addr : SocketAddr)
  (t : token) (s : stack) (Hok : stack_ok s) :
  let source := default (cfg_ip cfg) local_ip in
  let port := fst (allocate_ephemeral_port (eport s)) in
  let local := {| lep_addr := Some (ip_addr_to_smoltcp source); lep_port := port |} in
  exists s', handle_tcp_connect cfg local_ip addr t s = Ret s' /\
  eport s' = snd (allocate_ephemeral_port (eport s)) /\
  match tcp_connect (socket_addr_to_endpoint addr) local (iface s)
          (tcp_new TCP_SOCKET_BUFFER_SIZE TCP_SOCKET_BUFFER_SIZE) with
  | (inl e, ifc) =>
      log s' = log s ++ [EvStream t (Err (IoError OtherError ("connect failed: " +:+ e)%string))] /\
      pending s' = pending s /\ tcp_states s' = tcp_states s /\ iface s' = ifc /\
      forall j, get_tcp j (sockets s') = get_tcp j (sockets s)
  | (inr k, ifc) =>
      exists h c, ~ has_tcp (sockets s) h /\ get_tcp h (sockets s') = Some k /\
      tcp_state k = StSynSent /\ log s' = log s /\ fresh_stream s s' h c /\ iface s' = ifc /\
      pending s' = <[h := PendConnect (make_socket_addr source port) addr c t]> (pending s) /\
      forall j, j <> h -> get_tcp j (sockets s') = get_tcp j (sockets s)
  end.
Proof.
  intros source port local. subst port local. unfold handle_tcp_connect. fold source.
  destruct (sockets_add_tcp _ (sockets s)) as [h socks] eqn:Ea.
  destruct (add_tcp_ok _ _ _ _ Ea) as (Hf & Hh & Hg & Hne & _ & _).
  destruct (allocate_ephemeral_port (eport s)) as [port port']. rewrite Hg. cbn [fst snd].
  destruct (tcp_connect _ _ _ _) as [[e|k] ifc] eqn:Ec.
  - destruct (remove_spec h socks Hh) as (socks' & -> & Hr & _). eexists. split; [reflexivity|].
    split; [done|]. split_and!; [done..|]. cbn. intros j. rewrite Hr.
    case_decide; [subst|by apply Hne]. destruct (get_tcp h (sockets s)) eqn:E; [|done].
    destruct Hf. by eexists.
  - apply tcp_connect_state in Ec. cbn -[fresh_stream].
    set (s1 := set_iface ifc (set_eport port' (set_sockets (put_tcp h k socks) s))).
    assert (Hc : chans_ok s1) by (eapply chans_ok_frame; [..|apply (ok_chans s Hok)]; done).
    pose proof (fresh_stream_create s1 h Hc) as F.
    set (s3 := set_tcp_states _ _). set (op := PendConnect _ _ _ _).
    assert (Hno : pending s !! h = None).
    { destruct (pending s !! h) as [o|] eqn:Ho; [|done]. exfalso. apply Hf.
      destruct (is_connect o) eqn:Hi; [by apply (ok_connect s Hok h o)|].
      destruct (ok_accept s Hok h o Ho Hi) as [l Hl]. apply (lo_key _ _ _ (ok_listener s Hok h l Hl)). }
    unfold insert_pending. change (pending s3) with (pending s). rewrite Hno.
    destruct (put_tcp_spec h k socks Hh) as [Hput _].
    eexists. split; [reflexivity|]. split; [done|]. exists h, {| write_tx := next_chan s; read_rx := S (next_chan s) |}.
    split_and!; try done.
    + cbn. by rewrite Hput, decide_True.
    + intros j Hj. cbn. by rewrite Hput, decide_False, Hne by done.
Qed.

(** C36: Closing a listener.  The listener and its waiter go away (the waiter is
    dropped), and of its backlog exactly the sockets that are still in the Listen
    state are closed: a connection already established or half open stays. *)
Theorem listener_close_behaviour (h : SocketHandle) (s : stack) (st : ListenerState)
  (Hok : stack_ok s) (Hlis : listeners s !! h = Some st) :
  exists s', handle_tcp_listener_close h s = Ret s' /\
    listeners s' = delete h (listeners s) /\ pending s' = delete h (pending s) /\
    log s' = log s ++ match pending s !! h with
                      | Some op => [EvDropped (op_token op)]
                      | None => []
                      end /\
    forall j k, get_tcp j (sockets s) = Some k ->
      get_tcp j (sockets s') =
        Some (if decide (j ∈ listening_handles st /\ tcp_state k = StListen)
              then tcp_close k else k).
Proof.
  unfold handle_tcp_listener_close. destruct (discard_pending_fields h s) as (Hp & Hl & Hs).
  assert (Hlog : log (discard_pending h s) = log s ++ match pending s !! h with
    | Some op => [EvDropped (op_token op)] | None => [] end).
  { unfold discard_pending. destruct (pending s !! h) as [[]|]; cbn; by rewrite ?app_nil_r. }
  rewrite Hl, Hlis. cbn [sockets set_listeners]. rewrite Hs.
  destruct (ok_listener s Hok h st Hlis) as [_ La _ _ Ln _ _].
  destruct (close_listening_spec _ _ Ln La) as (socks & -> & Hsock).
  eexists. split; [reflexivity|].
  cbn [listeners pending log sockets set_sockets set_listeners]. split_and!; [done..|].
  intros j k Hk. rewrite Hsock, Hk. cbn. repeat case_decide; naive_solver.
Qed.

(** Addresses of the interface.  [AddIp] with a valid prefix succeeds without a
    change when the address is already there with that prefix, is [OutOfMemory]
    when the list is full, and otherwise appends it. *)
Theorem add_ip_behaviour (ip : IpAddr) (p : Z) (t : token) (s : stack) (Hok : stack_ok s)
  (Hprefix : p <= ip_width ip) (Hallowed : addr_allowed (ip_addr_to_smoltcp ip) = true) :
  let cidr := {| cidr_address := ip_addr_to_smoltcp ip; cidr_prefix_len := p |} in
  exists s' r, handle_add_ip ip p t s = Ret s' /\ log s' = log s ++ [EvUnit t r] /\
    ((cidr ∈ ip_addrs (iface s) /\ r = Ok () /\ ip_addrs (iface s') = ip_addrs (iface s)) \/
     ((cidr ∉ ip_addrs (iface s)) /\ (length (ip_addrs (iface s)) < max_addr_count)%nat /\
      r = Ok () /\ ip_addrs (iface s') = ip_addrs (iface s) ++ [cidr]) \/
     ((cidr ∉ ip_addrs (iface s)) /\ (max_addr_count <= length (ip_addrs (iface s)))%nat /\
      r = Err (IoError OutOfMemory "address list full") /\
      ip_addrs (iface s') = ip_addrs (iface s))).
Proof.
  intros cidr. unfold handle_add_ip. rewrite ip_cidr_new_spec, decide_True by by destruct ip.
  cbn [mbind outcome_bind]. fold cidr. destruct (existsb _ _) eqn:Ee.
  - do 2 eexists. split; [reflexivity|]. split; [done|]. left. split_and!; try done.
    apply existsb_exists in Ee as (x & Hin & Hx). apply bool_decide_eq_true in Hx as ->.
    by apply list_elem_of_In.
  - assert (Hnin : cidr ∉ ip_addrs (iface s)).
    { intros Hin%list_elem_of_In. apply not_true_iff_false in Ee. apply Ee, existsb_exists.
      exists cidr. by rewrite bool_decide_eq_true. }
    match goal with |- context [update_ip_addrs ?f ?i] =>
      destruct (update_addrs_ok f i) as (i' & -> & Hi) end.
    { rewrite addr_push_spec. case_decide; cbn; [|apply Hok].
      apply Forall_app. split; [apply Hok|by apply Forall_singleton]. }
    cbn [mbind outcome_bind]. do 2 eexists. split; [reflexivity|]. split; [done|]. right.
    cbn [iface set_iface emit]. rewrite Hi, addr_push_spec. case_decide; cbn; [left|right].
    + done.
    + split_and!; try done. lia.
Qed.

(** [RemoveIp] always succeeds and removes exactly the entries with that
    address, whatever their prefix, keeping the others in order; [GetIps] then
    reports each remaining entry as the address and prefix it was added with. *)
Theorem remove_ip_behaviour (ip : IpAddr) (t u : token) (s : stack) (Hok : stack_ok s) :
  exists s', handle_remove_ip ip t s = Ret s' /\ log s' = log s ++ [EvUnit t (Ok ())] /\
    ip_addrs (iface s') = filter (fun c => cidr_address c <> ip_addr_to_smoltcp ip)
                            (ip_addrs (iface s)) /\
    exists l, log (handle_get_ips u s') = log s' ++ [EvIps u l] /\
      ip_addrs (iface s') = (fun '(a, p) => {| cidr_address := ip_addr_to_smoltcp a;
                                               cidr_prefix_len := p |}) <$> l /\
      Forall (fun '(a, _) => a <> ip) l.
Proof.
  unfold handle_remove_ip.
  match goal with |- context [update_ip_addrs ?f ?i] =>
    destruct (update_addrs_ok f i) as (i' & -> & Hi) end.
  { apply Forall_forall. intros c [Hc _]%filter_In.
    pose proof (ok_addrs s Hok) as Ha. rewrite Forall_forall in Ha. auto. }
  cbn [mbind outcome_bind]. eexists. split; [reflexivity|]. split; [done|]. cbn [iface set_iface emit].
  cbn [snd] in Hi. rewrite list_filter_bool in Hi.
  rewrite Hi. split; [done|]. eexists. split; [reflexivity|]. cbn [iface set_iface emit].
  rewrite Hi. split.
  - rewrite <- list_fmap_compose. symmetry. rewrite <- (list_fmap_id (filter _ _)) at 2.
    apply list_fmap_ext. intros _ [[]] _; reflexivity.
  - apply Forall_fmap, Forall_forall. intros [a q] Hin%list_elem_of_In. cbn.
    apply list_elem_of_filter in Hin as [Hne _]. cbn in Hne. intros <-. by destruct a; apply Hne.
Qed.

(** [AddIp] does not check the prefix length: one that is too long for the
    address family panics the stack task. *)
Theorem add_ip_invalid_prefix (ip : IpAddr) (p : Z) (t : token) (s : stack)
  (Hprefix : ip_width ip < p) : handle_add_ip ip p t s = Panic.
Proof.
  unfold handle_add_ip. rewrite ip_cidr_new_spec, decide_False; [done|].
  destruct ip; cbn in *; lia.
Qed.

(** UDP bind.  Port 0 asks for the next ephemeral port, any other port is
    taken as it is; the socket is bound to that port (reported with the requested
    address) on a new handle with fresh channels, unless the port that results is
    0, which is an [AddrInUse] error that creates nothing. *)
Theorem udp_bind_behaviour (addr : SocketAddr) (t : token) (s : stack) (Hok : stack_ok s) :
  let port := if decide (sock_port addr = 0) then fst (allocate_ephemeral_port (eport s))
              else sock_port addr in
  exists s', handle_udp_bind addr t s = Ret s' /\
  if decide (port = 0) then
    exists e, log s' = log s ++ [EvUdp t (Err (IoError AddrInUse e))] /\
      sockets s' = sockets s /\ udp_states s' = udp_states s
  else
    exists h bound c, ~ has_udp (sockets s) h /\ has_udp (sockets s') h /\
      sock_ip bound = sock_ip addr /\ sock_port bound = port /\
      log s' = log s ++ [EvUdp t (Ok (h, bound, c))] /\
      udp_states s' = <[h := {| uwrite_rx := uwrite_tx c; uread_tx := uread_rx c |}]> (udp_states s) /\
      uchans s !! uwrite_tx c = None /\ uchans s !! uread_rx c = None.
Proof.
  intros port. unfold handle_udp_bind.
  destruct (if decide (sock_port addr = 0) then allocate_ephemeral_port (eport s) else _)
    as [q q'] eqn:Eq.
  assert (Hq : q = port).
  { subst port. destruct (decide (sock_port addr = 0)); [by rewrite Eq|by injection Eq]. }
  rewrite <- Hq. clear port Hq Eq.
  pose proof (udp_bind_spec (socket_addr_to_listen_endpoint_with_port addr q)
    UDP_PACKET_METADATA_SLOTS UDP_PACKET_BUFFER_SIZE) as B.
  replace (lep_port _) with q in B by by destruct addr.
  case_decide as Hz; destruct B as [x ->].
  { eexists. split; [reflexivity|]. eexists. by split_and!. }
  cbn [sockets set_eport]. destruct (sockets_add_udp x (sockets s)) as [h socks] eqn:Ea.
  destruct (add_udp_spec _ _ _ _ Ea) as (_ & Hf & Hu & _).
  eexists. split; [reflexivity|].
  exists h, match addr with SockV4 ip _ => SockV4 ip q | SockV6 ip _ _ _ => SockV6 ip q 0 0 end,
    {| uwrite_tx := next_chan s; uread_rx := S (next_chan s) |}.
  assert (Hfresh : forall i, (next_chan s <= i)%nat -> uchans s !! i = None).
  { intros i Hi. destruct (uchans s !! i) eqn:E; [|done].
    assert (i < next_chan s)%nat by (apply (ok_ufresh s (ok_chans s Hok)); eauto). lia. }
  unfold has_udp. cbn. rewrite Hf, Hu, decide_True by done.
  split_and!; try (by destruct addr); try (apply Hfresh; lia); by intros [].
Qed.

End Spec.

(** ** Witnesses: the properties at concrete inputs, on the reference instances *)

#[local] Existing Instances Reference.mpsc Reference.mpsc_laws Reference.smoltcp
  Reference.smoltcp_laws Reference.phy Reference.phy_laws.

Lemma demo_init_ok : stack_ok demo_init.
Proof. exact (reachable_ok _ _ _ _ _ demo_reachable). Qed.

Lemma demo_listening_ok : stack_ok (demo_state demo_listen demo_init).
Proof. exact (reachable_ok _ _ _ _ _ demo_listening). Qed.

Lemma tcp_accept_behaviour_witness :
  exists s', handle_tcp_accept (N:=Reference.smoltcp) 5%nat 9%nat demo_waiting = Ret s' /\
    s' = emit (EvStream 9%nat (Err (IoError InvalidInput "not a listener handle"))) demo_waiting.
Proof. exact (tcp_accept_behaviour (N:=Reference.smoltcp) 5%nat 9%nat demo_waiting demo_waiting_ok). Defined.

Lemma tcp_listen_behaviour_witness :
  exists s', handle_tcp_listen (SockV4 [# x0a; x00; x00; x02] 0) 4 9%nat demo_init = Ret s' /\
    s' = emit (EvListen 9%nat (Err (IoError InvalidInput "cannot listen on port 0"))) demo_init.
Proof.
  exact (tcp_listen_behaviour (SockV4 [# x0a; x00; x00; x02] 0) 4 9%nat demo_init demo_init_ok).
Defined.

(** A state in which a connect waits: the request answered in one step. *)
Definition demo_connect : wake :=
  WakeCommand (TcpConnect None (SockV4 [# x0a; x00; x00; x01] 22) 9%nat).
Definition demo_connecting : stack := demo_state demo_connect demo_init.

Lemma demo_connecting_ok : stack_ok demo_connecting.
Proof.
  eapply reachable_ok. apply (demo_step [] demo_connect demo_init demo_reachable I). by vm_compute.
Qed.

Lemma connect_completion_witness :
  exists local peer c k, pending demo_connecting !! 0%nat = Some (PendConnect local peer c 9%nat) /\
    get_tcp 0%nat (sockets demo_connecting) = Some k /\
    tcp_state k = StSynSent /\
    process_one_pending (N:=Reference.smoltcp) 0%nat demo_connecting = Ret demo_connecting.
Proof.
  destruct (pending demo_connecting !! 0%nat) as [[l p c t|t]|] eqn:Hp;
    [|vm_compute in Hp; discriminate Hp..].
  destruct (get_tcp (Smoltcp:=Reference.smoltcp) 0%nat (sockets demo_connecting)) as [k|] eqn:Hk.
  2:{ assert (E : tcp_state <$> get_tcp (Smoltcp:=Reference.smoltcp) 0%nat (sockets demo_connecting)
        = Some StSynSent) by (vm_compute; reflexivity). by rewrite Hk in E. }
  assert (Ht : t = 9%nat) by (vm_compute in Hp; congruence). subst t.
  assert (Hst : tcp_state k = StSynSent).
  { assert (E : tcp_state <$> get_tcp (Smoltcp:=Reference.smoltcp) 0%nat (sockets demo_connecting)
      = Some StSynSent) by (vm_compute; reflexivity).
    rewrite Hk in E. by injection E. }
  exists l, p, c, k. split_and!; [done..|].
  destruct (connect_completion (N:=Reference.smoltcp) 0%nat l p c 9%nat demo_connecting k demo_connecting_ok Hp Hk)
    as (s' & -> & Hs'). rewrite Hst in Hs'. by rewrite Hs'.
Defined.

(** A connect to port 22 dials that port; one to port 0 is refused by smoltcp. *)
Lemma tcp_connect_behaviour_witness :
  (exists s' h k c, handle_tcp_connect demo_cfg None (SockV4 [# x0a; x00; x00; x01] 22) 9%nat demo_init = Ret s' /\
    eport s' = 49153 /\ get_tcp h (sockets s') = Some k /\
    tcp_remote_endpoint k = Some {| ep_addr := Ipv4 [# x0a; x00; x00; x01]; ep_port := 22 |} /\
    pending s' = <[h := PendConnect (SockV4 [# x0a; x00; x00; x02] 49152) (SockV4 [# x0a; x00; x00; x01] 22) c 9%nat]>
      (pending demo_init)) /\
  (exists s', handle_tcp_connect demo_cfg None (SockV4 [# x0a; x00; x00; x01] 0) 9%nat demo_init = Ret s' /\
    log s' = log demo_init ++ [EvStream 9%nat (Err (IoError OtherError "connect failed: unaddressable"))]).
Proof.
  split.
  - destruct (tcp_connect_behaviour demo_cfg None (SockV4 [# x0a; x00; x00; x01] 22) 9%nat demo_init
      demo_init_ok) as (s' & E & Hp & H).
    replace (eport demo_init) with 49152 in * by (vm_compute; reflexivity).
    cbn -[demo_init TCP_SOCKET_BUFFER_SIZE fresh_stream get_tcp has_tcp] in H.
    destruct H as (h & c & _ & Hk & _ & _ & _ & _ & Hq & _).
    exists s', h. eexists. exists c. split; [exact E|]. split; [exact Hp|]. split; [exact Hk|]. split; [reflexivity|exact Hq].
  - destruct (tcp_connect_behaviour demo_cfg None (SockV4 [# x0a; x00; x00; x01] 0) 9%nat demo_init
      demo_init_ok) as (s' & E & Hp & H).
    exists s'. split; [exact E|]. cbn -[demo_init TCP_SOCKET_BUFFER_SIZE fresh_stream get_tcp has_tcp] in H. apply H.
Defined.

Lemma listener_close_behaviour_witness :
  exists st s', listeners demo_waiting !! 0%nat = Some st /\
    handle_tcp_listener_close (N:=Reference.smoltcp) 0%nat demo_waiting = Ret s' /\
    listeners s' = delete 0%nat (listeners demo_waiting).
Proof.
  destruct (listeners demo_waiting !! 0%nat) as [st|] eqn:Hl.
  2:{ assert (E : l_addr <$> listeners demo_waiting !! 0%nat = Some demo_addr)
        by (vm_compute; reflexivity). by rewrite Hl in E. }
  destruct (listener_close_behaviour (N:=Reference.smoltcp) 0%nat demo_waiting st demo_waiting_ok Hl) as (s' & E & H & _).
  by exists st, s'.
Defined.

Lemma add_ip_behaviour_witness :
  exists s' r, handle_add_ip (V4 [# x0a; x00; x00; x03]) 24 9%nat demo_init = Ret s' /\
    log s' = log demo_init ++ [EvUnit 9%nat r].
Proof.
  destruct (add_ip_behaviour (V4 [# x0a; x00; x00; x03]) 24 9%nat demo_init demo_init_ok)
    as (s' & r & E & H & _); [by vm_compute..|]. by exists s', r.
Defined.

Lemma remove_ip_behaviour_witness :
  exists s', handle_remove_ip (V4 [# x0a; x00; x00; x02]) 9%nat demo_init = Ret s' /\
    log s' = log demo_init ++ [EvUnit 9%nat (Ok ())].
Proof.
  destruct (remove_ip_behaviour (V4 [# x0a; x00; x00; x02]) 9%nat 10%nat demo_init demo_init_ok)
    as (s' & E & H & _). by exists s'.
Defined.

Lemma add_ip_invalid_prefix_witness :
  handle_add_ip (V4 [# x0a; x00; x00; x03]) 33 9%nat demo_init = Panic.
Proof. apply (add_ip_invalid_prefix (V4 [# x0a; x00; x00; x03]) 33 9%nat demo_init). by vm_compute. Defined.

Lemma udp_bind_behaviour_witness :
  exists s', handle_udp_bind (SockV4 [# x0a; x00; x00; x02] 0) 9%nat demo_init = Ret s' /\
    exists h bound c, log s' = log demo_init ++ [EvUdp 9%nat (Ok (h, bound, c))] /\
      sock_port bound = 49152.
Proof.
  destruct (udp_bind_behaviour (SockV4 [# x0a; x00; x00; x02] 0) 9%nat demo_init demo_init_ok)
    as (s' & E & H).
  exists s'. split; [exact E|].
  replace (eport demo_init) with 49152 in H by (vm_compute; reflexivity). cbn in H.
  destruct H as (h & b & c & _ & _ & _ & Hb & Hl & _). by exists h, b, c.
Defined.
