(* ===== verification/StackStreams.v ===== *)
(** * Connections inside the stack task

    The streams of all connections at once: polling moves octets between queues and
    sockets but changes no connection's stream, and a command changes at most the
    connection it names. *)

From S2P Require Import Prelude Net Externals Stack StackPoll StackData StackInv StackSafe StackTokens.
From S2P Require Import StackRun StackSpec.
#[local] Open Scope Z_scope.

Section Streams.
Context {M : Mpsc} {ML : MpscLaws} {N : Smoltcp} {NL : SmoltcpLaws}.

(** The two streams of a connection: the octets on their way to the peer (accepted by
    the socket, pending, queued) and to the application (queued, in the socket). *)
Definition conn (s : stack) (h : SocketHandle) : option (bytes * bytes) :=
  t ← tcp_states s !! h;
  k ← get_tcp h (sockets s);
  w ← bchans s !! write_rx t;
  r ← bchans s !! read_tx t;
  Some (tx_stream k (pending_write t) w, rx_stream r k).

Lemma conn_intro s h t k w r :
  tcp_states s !! h = Some t -> get_tcp h (sockets s) = Some k ->
  bchans s !! write_rx t = Some w -> bchans s !! read_tx t = Some r ->
  conn s h = Some (tx_stream k (pending_write t) w, rx_stream r k).
Proof. intros E1 E2 E3 E4. unfold conn. rewrite E1. cbn. rewrite E2. cbn. rewrite E3. cbn. by rewrite E4. Qed.

(** A change that leaves a connection's state, socket and channels alone. *)
Lemma conn_frame s s' h :
  tcp_states s' !! h = tcp_states s !! h -> get_tcp h (sockets s') = get_tcp h (sockets s) ->
  (forall t i, tcp_states s !! h = Some t -> i ∈ chan_ids t -> bchans s' !! i = bchans s !! i) ->
  conn s' h = conn s h.
Proof.
  intros E1 E2 E3. unfold conn. rewrite E1. destruct (tcp_states s !! h) as [t|]; [|done]. cbn.
  rewrite E2, !(E3 t) by (done || (by left) || (by right; left)). done.
Qed.

Lemma tcp_write_loop_rx fuel k c k' c' p :
  tcp_write_loop fuel k c = (k', c', p) -> tcp_rx k' = tcp_rx k.
Proof.
  revert k c. induction fuel as [|fuel IH]; intros k c; cbn [tcp_write_loop]; [by intros [= <- _ _]|].
  destruct (tcp_can_send k); [|by intros [= <- _ _]].
  destruct (try_recv c) as [[d| |] c1]; [|by intros [= <- _ _]|].
  2:{ intros [= <- _ _]. by destruct (tcp_close_data k). }
  pose proof (tcp_send_slice_spec d k) as L. destruct (tcp_send_slice d k) as [[n|] k1].
  - destruct L as (_ & _ & _ & L & _). case_decide; [by intros [= <- _ _]|]. intros ->%IH. done.
  - destruct L as [_ ->]. by intros [= <- _ _].
Qed.

Lemma process_tcp_write_rx k c p k' c' p' :
  process_tcp_write k c p = (k', c', p') -> tcp_rx k' = tcp_rx k.
Proof.
  unfold process_tcp_write. destruct p as [d|]; [|apply tcp_write_loop_rx].
  destruct (tcp_may_send k); [|by intros [= <- _ _]].
  pose proof (tcp_send_slice_spec d k) as L. destruct (tcp_send_slice d k) as [[n|] k1].
  - destruct L as (_ & _ & _ & L & _). case_decide; [by intros [= <- _ _]|]. intros ->%tcp_write_loop_rx. done.
  - destruct L as [_ ->]. by intros [= <- _ _].
Qed.

(** Another connection shares no channel. *)
Lemma other_chans s h h' t t' i :
  stack_ok s -> h' <> h -> tcp_states s !! h = Some t -> tcp_states s !! h' = Some t' ->
  i ∈ chan_ids t -> i ∉ chan_ids t'.
Proof.
  intros Hs Hne Ht Ht' Hi Hi'. apply Hne. symmetry. exact (ok_tsep _ (ok_chans s Hs) h h' t t' i Ht Ht' Hi Hi').
Qed.

Lemma write_read_ne s h t : stack_ok s -> tcp_states s !! h = Some t -> write_rx t <> read_tx t.
Proof.
  intros Hs Ht E. pose proof (ok_tids _ (ok_chans s Hs) h t Ht) as Hn. unfold chan_ids in Hn.
  rewrite E in Hn. apply list.NoDup_cons in Hn as [Hn _]. apply Hn. by left.
Qed.

Definition same_conns (s s' : stack) : Prop := forall h, conn s' h = conn s h.

Lemma poll_tcp_write_conns h0 s s' :
  stack_ok s -> poll_tcp_write h0 s = Ret s' -> same_conns s s'.
Proof.
  intros Hs. unfold poll_tcp_write. destruct (tcp_states s !! h0) as [t|] eqn:Ht; [|by intros [= <-]].
  destruct (tcp_state_access s h0 t Hs Ht) as (k & w & r & Hk & Hw & Hr). rewrite Hk, Hw.
  destruct (process_tcp_write k w (pending_write t)) as [[k' c'] pend] eqn:Ep. intros [= <-] h.
  destruct (put_tcp_spec h0 k' (sockets s)) as [Hput _]; [by eexists|].
  destruct (decide (h = h0)) as [->|Hne].
  - rewrite (conn_intro _ _ {| write_rx := write_rx t; read_tx := read_tx t; pending_write := pend |} k' c' r);
      cbn; [|by rewrite lookup_insert_eq|by rewrite Hput, decide_True|by rewrite lookup_insert_eq|].
    2:{ rewrite lookup_insert_ne; [done|]. by eapply write_read_ne. }
    rewrite (conn_intro s h0 t k w r) by done.
    destruct (process_tcp_write_stream _ _ _ _ _ _ Ep) as [-> _]. apply process_tcp_write_rx in Ep.
    unfold rx_stream. by rewrite Ep.
  - apply conn_frame; cbn; [by rewrite lookup_insert_ne|by rewrite Hput, decide_False|].
    intros t' i Ht' Hi. rewrite lookup_insert_ne; [done|]. intros <-.
    eapply (other_chans s h0 h); [..|exact Hi]; [done|done|exact Ht|exact Ht'|by left].
Qed.

Lemma poll_tcp_read_conns h0 s s' :
  stack_ok s -> poll_tcp_read h0 s = Ret s' -> same_conns s s'.
Proof.
  intros Hs. unfold poll_tcp_read. destruct (tcp_states s !! h0) as [t|] eqn:Ht; [|by intros [= <-]].
  destruct (tcp_state_access s h0 t Hs Ht) as (k & w & r & Hk & Hw & Hr). rewrite Hk, Hr.
  destruct (process_tcp_read k r) as [k' c'] eqn:Ep. intros [= <-] h.
  destruct (put_tcp_spec h0 k' (sockets s)) as [Hput _]; [by eexists|].
  destruct (decide (h = h0)) as [->|Hne].
  - rewrite (conn_intro _ _ t k' w c'); cbn; [|done|by rewrite Hput, decide_True| |by rewrite lookup_insert_eq].
    2:{ rewrite lookup_insert_ne; [done|]. intros E. by eapply (write_read_ne s h0 t). }
    rewrite (conn_intro s h0 t k w r) by done.
    destruct (tcp_read_loop_stream _ _ _ _ _ Ep) as (-> & E2 & _). unfold tx_stream. by rewrite E2.
  - apply conn_frame; cbn; [done|by rewrite Hput, decide_False|].
    intros t' i Ht' Hi. rewrite lookup_insert_ne; [done|]. intros <-.
    eapply (other_chans s h0 h); [..|exact Hi]; [done|done|exact Ht|exact Ht'|by right; left].
Qed.

Lemma poll_udp_write_conns h0 s s' :
  stack_ok s -> poll_udp_write h0 s = Ret s' -> same_conns s s'.
Proof.
  intros Hs. unfold poll_udp_write. destruct (udp_states s !! h0) as [t|] eqn:Ht; [|by intros [= <-]].
  destruct (udp_state_access s h0 t Hs Ht) as (k & w & r & Hk & Hw & Hr). rewrite Hk, Hw.
  destruct (process_udp_write k w (stats s)) as [[k' c'] st]. intros [= <-] h.
  destruct (put_udp_spec h0 k' (sockets s)) as [_ Hput]; [by eexists|]. by apply conn_frame; cbn.
Qed.

Lemma poll_udp_read_conns h0 s s' :
  stack_ok s -> poll_udp_read h0 s = Ret s' -> same_conns s s'.
Proof.
  intros Hs. unfold poll_udp_read. destruct (udp_states s !! h0) as [t|] eqn:Ht; [|by intros [= <-]].
  destruct (udp_state_access s h0 t Hs Ht) as (k & w & r & Hk & Hw & Hr). rewrite Hk, Hr.
  destruct (process_udp_read k r (stats s)) as [[k' c'] st]. intros [= <-] h.
  destruct (put_udp_spec h0 k' (sockets s)) as [_ Hput]; [by eexists|]. by apply conn_frame; cbn.
Qed.

Lemma each_conns f hs s s' :
  (forall h s, stack_ok s -> safe (f h s)) ->
  (forall h s s', stack_ok s -> f h s = Ret s' -> same_conns s s') ->
  stack_ok s -> each f hs s = Ret s' -> same_conns s s' /\ stack_ok s'.
Proof.
  intros Hsafe Hf. revert s. induction hs as [|h hs IH]; intros s Hs; cbn [each].
  { by intros [= <-]. }
  destruct (Hsafe h s Hs) as (s1 & E & H1). rewrite E. cbn. intros [H2 H3]%IH; [|done].
  split; [|done]. intros j. rewrite H2. by apply (Hf h).
Qed.

Lemma poll_write_conns to uo s s' :
  stack_ok s -> poll_write_channels to uo s = Ret s' -> same_conns s s' /\ stack_ok s'.
Proof.
  intros Hs. unfold poll_write_channels.
  destruct (each poll_tcp_write to s) as [s1|] eqn:E1; [|done]. cbn. intros E2.
  apply each_conns in E1 as [H1 Hs1]; [|apply poll_tcp_write_safe|apply poll_tcp_write_conns|done].
  apply each_conns in E2 as [H2 Hs2]; [|apply poll_udp_write_safe|apply poll_udp_write_conns|done].
  split; [|done]. intros h. by rewrite H2.
Qed.

Lemma poll_read_conns to uo s s' :
  stack_ok s -> poll_read_channels to uo s = Ret s' -> same_conns s s' /\ stack_ok s'.
Proof.
  intros Hs. unfold poll_read_channels.
  destruct (each poll_tcp_read to s) as [s1|] eqn:E1; [|done]. cbn. intros E2.
  apply each_conns in E1 as [H1 Hs1]; [|apply poll_tcp_read_safe|apply poll_tcp_read_conns|done].
  apply each_conns in E2 as [H2 Hs2]; [|apply poll_udp_read_safe|apply poll_udp_read_conns|done].
  split; [|done]. intros h. by rewrite H2.
Qed.


(** ** Isolation of commands *)

(** What a connection consists of is untouched. *)
Record keeps (h : SocketHandle) (s s' : stack) : Prop := {
  kp_state : tcp_states s' !! h = tcp_states s !! h;
  kp_socket : get_tcp h (sockets s') = get_tcp h (sockets s);
  kp_chans : forall t i, tcp_states s !! h = Some t -> i ∈ chan_ids t -> bchans s' !! i = bchans s !! i;
}.

Lemma keeps_conn h s s' : keeps h s s' -> conn s' h = conn s h.
Proof. intros []. by apply conn_frame. Qed.

Lemma keeps_fields h s s' :
  tcp_states s' = tcp_states s -> bchans s' = bchans s ->
  get_tcp h (sockets s') = get_tcp h (sockets s) -> keeps h s s'.
Proof. intros E1 E2 E3. constructor; [by rewrite E1|done|by rewrite E2]. Qed.

(** The identifiers of new channels. *)
Lemma new_chans s h t i :
  stack_ok s -> tcp_states s !! h = Some t -> i ∈ chan_ids t ->
  i <> next_chan s /\ i <> S (next_chan s).
Proof.
  intros Hs Ht Hi. pose proof (ok_tchans _ (ok_chans s Hs) h t i Ht Hi) as Hb.
  apply (ok_bfresh _ (ok_chans s Hs)) in Hb. lia.
Qed.

(** Channels for another handle, on a state that differs in nothing else. *)
Lemma keeps_new_state h h' t s s1 s2 :
  stack_ok s -> tcp_states s !! h = Some t -> h' <> h ->
  tcp_states s1 = tcp_states s -> bchans s1 = bchans s -> next_chan s1 = next_chan s ->
  get_tcp h (sockets s1) = get_tcp h (sockets s) ->
  tcp_states s2 = <[h' := snd (fst (create_tcp_channels s1))]> (tcp_states s) ->
  bchans s2 = bchans (snd (create_tcp_channels s1)) -> sockets s2 = sockets s1 -> keeps h s s2.
Proof.
  intros Hs Ht Hne E1 E2 E3 E4 F1 F2 F3. constructor.
  - by rewrite F1, lookup_insert_ne.
  - by rewrite F3.
  - intros t' i Ht' Hi. destruct (new_chans s h t' i Hs Ht' Hi) as [H1 H2].
    rewrite F2. cbn. rewrite E3 in *. rewrite !lookup_insert_ne, E2 by congruence. done.
Qed.

(** Dropping the ends of channels that are not the connection's. *)
Lemma keeps_alter h s s' (f g : chan bytes -> chan bytes) a b :
  tcp_states s' !! h = tcp_states s !! h -> sockets s' = sockets s ->
  bchans s' = alter f a (alter g b (bchans s)) ->
  (forall t, tcp_states s !! h = Some t -> (a ∉ chan_ids t) /\ (b ∉ chan_ids t)) -> keeps h s s'.
Proof.
  intros E1 E2 E3 Hn. constructor; [done|by rewrite E2|].
  intros t i Ht Hi. destruct (Hn t Ht). rewrite E3, !lookup_alter_ne; [done|congruence..].
Qed.

Lemma keeps_discard h j t s :
  stack_ok s -> tcp_states s !! h = Some t -> j <> h \/ unconnecting (pending s) h ->
  keeps h s (discard_pending j s).
Proof.
  intros Hs Ht Hj. unfold discard_pending.
  destruct (pending s !! j) as [[l p c tk|tk]|] eqn:Ep; [|by apply keeps_fields..].
  assert (Hne : j <> h).
  { destruct Hj as [|Hu]; [done|]. intros ->. unfold unconnecting in Hu. by rewrite Ep in Hu. }
  destruct (ok_paired s Hs j l p c tk Ep) as (tj & Hj' & [H1 H2]).
  apply (keeps_alter h s _ drop_rx drop_tx (read_rx c) (write_tx c)); [done..|].
  intros t' Ht'. rewrite <- H1, <- H2.
  split; (eapply (other_chans s j h); [done|congruence|exact Hj'|exact Ht'|]);
    [by right; left|by left].
Qed.

Lemma keeps_connect cfg ip addr tk h t s s' :
  stack_ok s -> tcp_states s !! h = Some t ->
  handle_tcp_connect cfg ip addr tk s = Ret s' -> keeps h s s'.
Proof.
  intros Hs Ht. unfold handle_tcp_connect.
  destruct (sockets_add_tcp _ (sockets s)) as [h' socks] eqn:Ea.
  destruct (add_tcp_ok _ _ _ _ Ea) as (Hf & Hh & Hg & Hne & _).
  assert (Hd : h' <> h) by (intros ->; apply Hf, (ok_tcp s Hs); eauto).
  destruct (allocate_ephemeral_port (eport s)) as [port port']. rewrite Hg.
  destruct (tcp_connect _ _ _ _) as [[e|k'] ifc].
  - destruct (remove_spec h' socks Hh) as (socks' & -> & Hr & _). cbn. intros [= <-].
    apply keeps_fields; cbn; try done. rewrite Hr, decide_False, Hne by congruence. done.
  - cbn. intros [= <-]. unfold insert_pending. cbn.
    destruct (fresh_unused s h' Hs Hf) as [_ _ _ Hc _]. unfold unconnecting in Hc.
    destruct (put_tcp_spec h' k' socks Hh) as [Hput _].
    set (s1 := set_iface ifc (set_eport port' (set_sockets (put_tcp h' k' socks) s))).
    eapply (keeps_new_state h h' t s s1); try done;
      [|destruct (pending s !! h') as [[]|] eqn:E; done..].
    cbn. by rewrite Hput, decide_False, Hne by congruence.
Qed.

Lemma keeps_listen addr n tk h t s s' :
  stack_ok s -> tcp_states s !! h = Some t -> handle_tcp_listen addr n tk s = Ret s' -> keeps h s s'.
Proof.
  intros Hs Ht. unfold handle_tcp_listen. case_decide as Hp; [by intros [= <-]; apply keeps_fields|].
  destruct (port_in_use _ _); [by intros [= <-]; apply keeps_fields|].
  unfold handles_with_capacity. case_decide; [|done]. cbn [mbind outcome_bind].
  destruct (listen_loop_ok (Nat.max n 1) (socket_addr_to_listen_endpoint addr) [] (sockets s) Hp)
    as (new & socks & -> & _ & _ & H3 & _ & H5 & _).
  cbn [app]. destruct new as [|p r]; [done|]. intros [= <-]. apply keeps_fields; try done. cbn.
  apply H5. rewrite Forall_elem_of in H3. intros Hin. apply (H3 h Hin), (ok_tcp s Hs). eauto.
Qed.

Lemma keeps_accept hl tk h t s s' :
  stack_ok s -> tcp_states s !! h = Some t -> handle_tcp_accept hl tk s = Ret s' -> keeps h s s'.
Proof.
  intros Hs Ht. unfold handle_tcp_accept.
  destruct (listeners s !! hl) as [st|] eqn:El; [|by intros [= <-]; apply keeps_fields].
  destruct (try_accept_listener s hl st Hs El) as (r & socks & st' & E & Hp). rewrite E. cbn.
  pose proof (ok_listener s Hs hl st El) as L.
  destruct r as [[[acc local] peer]|]; intros [= <-].
  - destruct Hp as (hs1 & hs2 & new & k & kn & rem & H1 & _ & _ & _ & _ & _ & _ & Hnew & _ & _ & Hsame & _).
    assert (Hacc : acc <> h).
    { intros ->. pose proof (lo_states _ _ _ L) as Hn. rewrite Forall_elem_of in Hn.
      rewrite (Hn h) in Ht by (rewrite H1; set_solver). done. }
    eapply (keeps_new_state h acc t s (set_listeners (<[hl := st']> (listeners s)) (set_sockets socks s)));
      try done.
    cbn. apply Hsame. intros ->. apply Hnew, (ok_tcp s Hs). eauto.
  - destruct Hp as (-> & -> & _).
    unfold insert_pending. cbn.
    destruct (pending s !! hl) as [[l p c x|x]|] eqn:Ep; [|by apply keeps_fields..].
    destruct (ok_connect s Hs hl _ Ep eq_refl) as [_ Hn]. congruence.
Qed.

Lemma keeps_listener_close hl h t s s' :
  stack_ok s -> tcp_states s !! h = Some t -> hl <> h \/ unconnecting (pending s) h ->
  handle_tcp_listener_close hl s = Ret s' -> keeps h s s'.
Proof.
  intros Hs Ht Hhl. unfold handle_tcp_listener_close.
  pose proof (keeps_discard h hl t s Hs Ht Hhl) as [K1 K2 K3].
  destruct (discard_pending_fields hl s) as (_ & El & Es).
  set (s1 := discard_pending hl s) in *. clearbody s1. rewrite El.
  destruct (listeners s !! hl) as [st|] eqn:E; [|intros [= <-]; by constructor].
  pose proof (ok_listener s Hs hl st E) as L. cbn [sockets set_listeners]. rewrite Es.
  destruct (close_listening_spec (listening_handles st) (sockets s)) as (socks & -> & Hc); [apply L..|].
  cbn. intros [= <-]. constructor; cbn; [done| |done].
  rewrite Hc, decide_False; [done|]. intros Hin. pose proof (lo_states _ _ _ L) as Hn.
  rewrite Forall_elem_of in Hn. rewrite (Hn h Hin) in Ht. done.
Qed.

Lemma keeps_close j h t s s' :
  stack_ok s -> tcp_states s !! h = Some t -> j <> h -> handle_tcp_close j s = Ret s' -> keeps h s s'.
Proof.
  intros Hs Ht Hj. unfold handle_tcp_close, with_tcp.
  destruct (get_tcp j (sockets s)) as [k|] eqn:Hk; [|done]. cbn.
  destruct (put_tcp_spec j (tcp_close k) (sockets s)) as [Hput _]; [by eexists|].
  intros [= <-]. unfold remove_tcp_state. cbn.
  destruct (tcp_states s !! j) as [tj|] eqn:Ej.
  - constructor; cbn; [by rewrite lookup_delete_ne|by rewrite Hput, decide_False|].
    intros t' i Ht' Hi. rewrite !lookup_alter_ne; [done|..]; intros <-;
      (eapply (other_chans s j h); [done|congruence|exact Ej|exact Ht'| |exact Hi]);
      [by left|by right; left].
  - apply keeps_fields; cbn; try done. by rewrite Hput, decide_False.
Qed.

Lemma keeps_udp_bind addr tk h s s' : handle_udp_bind addr tk s = Ret s' -> keeps h s s'.
Proof.
  unfold handle_udp_bind. destruct (if decide _ then _ else _) as [port port'].
  destruct (udp_bind _ _) as [e|k]; [by intros [= <-]; apply keeps_fields|].
  cbn. destruct (sockets_add_udp k (sockets s)) as [j socks] eqn:Ea.
  destruct (add_udp_spec _ _ _ _ Ea) as (_ & _ & _ & Hsame). intros [= <-]. by apply keeps_fields.
Qed.

Lemma keeps_udp_close j h s s' : handle_udp_close j s = Ret s' -> keeps h s s'.
Proof.
  unfold handle_udp_close, with_udp. destruct (get_udp j (sockets s)) as [k|] eqn:Hk; [|done]. cbn.
  destruct (put_udp_spec j (udp_close k) (sockets s)) as [_ Hput]; [by eexists|].
  intros [= <-]. unfold remove_udp_state. cbn. destruct (udp_states s !! j); by apply keeps_fields.
Qed.

Lemma keeps_add_ip ip p tk h s s' : handle_add_ip ip p tk s = Ret s' -> keeps h s s'.
Proof.
  unfold handle_add_ip. destruct (ip_cidr_new _ _) as [c|]; [|done]. cbn.
  destruct (existsb _ _); [by intros [= <-]; apply keeps_fields|].
  destruct (update_ip_addrs _ _) as [[r i]|]; [|done]. cbn. intros [= <-]. by apply keeps_fields.
Qed.

Lemma keeps_remove_ip ip tk h s s' : handle_remove_ip ip tk s = Ret s' -> keeps h s s'.
Proof.
  unfold handle_remove_ip. destruct (update_ip_addrs _ _) as [[r i]|]; [|done]. cbn.
  intros [= <-]. by apply keeps_fields.
Qed.

(** ** Properties *)

(** C5: Polling loses nothing on any connection: whatever the order in which the maps
    are visited, [poll_write_channels] and [poll_read_channels] return, keep the
    invariant of the task, and leave both streams of every connection (what is on its
    way to the peer and what is on its way to the application) exactly as they were. *)
Theorem polls_lossless (s : stack) (Hok : stack_ok s) (tcp_order udp_order : list SocketHandle) :
  (exists s', poll_write_channels tcp_order udp_order s = Ret s' /\ stack_ok s' /\
     forall h, conn s' h = conn s h) /\
  (exists s', poll_read_channels tcp_order udp_order s = Ret s' /\ stack_ok s' /\
     forall h, conn s' h = conn s h).
Proof.
  destruct (poll_write_channels_safe tcp_order udp_order s Hok) as (s1 & E1 & H1).
  destruct (poll_read_channels_safe tcp_order udp_order s Hok) as (s2 & E2 & H2).
  split; eexists; split_and!; try done; [by eapply poll_write_conns|by eapply poll_read_conns].
Qed.

(** C30: Commands are isolated: a command changes neither stream of a connection, unless
    it closes that very connection (or closes, as a listener, a handle on which the
    connect is still waiting). *)
Theorem commands_isolated (cfg : StackConfig) (cmd : StackCommand) (s s' : stack) (go : bool)
  (h : SocketHandle) (Hok : stack_ok s) (Hconn : is_Some (tcp_states s !! h))
  (Hrun : handle_command cfg cmd s = Ret (go, s')) (Hclose : cmd <> TcpClose h)
  (Hlistener : cmd <> TcpListenerClose h \/ unconnecting (pending s) h) :
  is_Some (conn s h) /\ conn s' h = conn s h.
Proof.
  destruct Hconn as [t Ht]. split.
  { destruct (tcp_state_access s h t Hok Ht) as (k & w & r & Hk & Hw & Hr).
    rewrite (conn_intro s h t k w r) by done. done. }
  apply keeps_conn. unfold handle_command in Hrun.
  match type of Hrun with mbind _ ?m = _ => destruct m as [s1|] eqn:E; [|done] end.
  injection Hrun as _ <-.
  destruct cmd; [by eapply keeps_connect|by eapply keeps_listen|by eapply keeps_accept| | |
    by eapply keeps_udp_bind|by eapply keeps_udp_close|by eapply keeps_add_ip|by eapply keeps_remove_ip|].
  - eapply keeps_listener_close; [done|done| |exact E]. destruct Hlistener; [left; congruence|by right].
  - eapply keeps_close; [done|done| |exact E]. congruence.
  - injection E as <-. by apply keeps_fields.
Qed.

End Streams.

(** ** Witnesses: the properties at concrete inputs, on the reference instances *)

#[local] Existing Instances Reference.mpsc Reference.mpsc_laws Reference.smoltcp
  Reference.smoltcp_laws Reference.phy Reference.phy_laws.

Lemma demo_connecting_state : is_Some (tcp_states demo_connecting !! 0%nat).
Proof.
  assert (E : (fun _ => ()) <$> tcp_states demo_connecting !! 0%nat = Some ()) by (vm_compute; reflexivity).
  destruct (tcp_states demo_connecting !! 0%nat); [by eexists|discriminate E].
Qed.

Lemma polls_lossless_witness :
  exists s', poll_write_channels (N:=Reference.smoltcp) [0%nat; 7%nat] [] demo_connecting = Ret s' /\
    conn (N:=Reference.smoltcp) s' 0%nat = conn (N:=Reference.smoltcp) demo_connecting 0%nat.
Proof.
  destruct (polls_lossless (N:=Reference.smoltcp) demo_connecting demo_connecting_ok [0%nat; 7%nat] [])
    as [(s' & E & _ & H) _].
  exists s'. split; [exact E|apply H].
Defined.

Lemma commands_isolated_witness :
  exists s', handle_command (N:=Reference.smoltcp) demo_cfg (GetIps 12%nat) demo_connecting = Ret (true, s') /\
    is_Some (conn (N:=Reference.smoltcp) demo_connecting 0%nat) /\
    conn (N:=Reference.smoltcp) s' 0%nat = conn (N:=Reference.smoltcp) demo_connecting 0%nat.
Proof.
  eexists. split; [reflexivity|].
  apply (commands_isolated (N:=Reference.smoltcp) demo_cfg (GetIps 12%nat) demo_connecting _ true 0%nat
    demo_connecting_ok demo_connecting_state); [reflexivity|discriminate|by left].
Defined.
