(* ===== verification/Socket.v ===== *)
(** * The application's sockets ([src/socket/mod.rs])

    [TcpStream], its two owned halves, [UdpSocket] and [TcpListener] hold the
    application's ends of the channels whose other ends the stack task holds, and
    a sender of the command channel.  An operation takes the channel it works on
    and returns it; an [async fn] is a function that is [Pending] as long as the
    channel operation it waits for is not ready and then changes nothing (a
    receive waits on an empty channel, a send on a full one). *)

From S2P Require Import Prelude Net Externals Stack StackPoll StackData.
#[local] Open Scope Z_scope.

Inductive poll (A : Type) := Ready (a : A) | Pending.
Arguments Ready {A} a.
Arguments Pending {A}.

Section Socket.
Context {M : Mpsc} {N : Smoltcp}.

Record TcpStream := {
  s_handle : SocketHandle; s_local_addr : SocketAddr; s_peer_addr : SocketAddr;
  s_write_tx : nat; s_read_rx : nat; read_buf : bytes
}.

(** [TcpStream::from_channels] *)
Definition from_channels (handle : SocketHandle) (local_addr peer_addr : SocketAddr)
    (channels : TcpChannels) : TcpStream := {|
  s_handle := handle; s_local_addr := local_addr; s_peer_addr := peer_addr;
  s_write_tx := write_tx channels; s_read_rx := read_rx channels; read_buf := []
|}.

(** ** Reading *)

(** [TcpStream::read] and [OwnedReadHalf::read] into a buffer of [n] octets: the
    octets read, the new internal buffer and the channel. *)
Definition stream_read (n : nat) (read_buf : bytes) (c : chan bytes)
  : poll (result bytes) * bytes * chan bytes :=
  if decide (read_buf <> []) then
    let len := Nat.min (length read_buf) n in
    (Ready (Ok (take len read_buf)), drop len read_buf, c)
  else
    match try_recv c with
    | (RecvOk data, c') =>
        let len := Nat.min (length data) n in
        (Ready (Ok (take len data)),
         if decide (len < length data)%nat then read_buf ++ drop len data else read_buf, c')
    | (RecvDisconnected, c') => (Ready (Ok []), read_buf, c')
    | (RecvEmpty, c') => (Pending, read_buf, c')
    end.

(** tokio's [ReadBuf]: the filled part and the capacity; [put_slice] panics when
    the slice does not fit. *)
Record ReadBuf := { filled : bytes; rb_cap : nat }.

Definition remaining (b : ReadBuf) : nat := rb_cap b - length (filled b).

Definition put_slice (d : bytes) (b : ReadBuf) : outcome ReadBuf :=
  if decide (length d <= remaining b)%nat then Ret {| filled := filled b ++ d; rb_cap := rb_cap b |}
  else Panic.

(** [poll_read] of [TcpStream] and of [OwnedReadHalf]. *)
Definition poll_read (buf : ReadBuf) (read_buf : bytes) (c : chan bytes)
  : outcome (poll (result unit) * ReadBuf * bytes * chan bytes) :=
  if decide (read_buf <> []) then
    let len := Nat.min (length read_buf) (remaining buf) in
    buf' ← put_slice (take len read_buf) buf;
    Ret (Ready (Ok ()), buf', drop len read_buf, c)
  else
    match try_recv c with
    | (RecvOk data, c') =>
        let len := Nat.min (length data) (remaining buf) in
        buf' ← put_slice (take len data) buf;
        Ret (Ready (Ok ()), buf',
             if decide (len < length data)%nat then read_buf ++ drop len data else read_buf, c')
    | (RecvDisconnected, c') => Ret (Ready (Ok ()), buf, read_buf, c')
    | (RecvEmpty, c') => Ret (Pending, buf, read_buf, c')
    end.

(** ** Writing *)

(** [TcpStream::write] and [OwnedWriteHalf::write]: the boolean is the wake-up of
    the stack task ([write_notify.notify_one()]). *)
Definition stream_write (buf : bytes) (c : chan bytes)
  : poll (result nat) * bool * chan bytes :=
  match try_send buf c with
  | (SendOk, c') => (Ready (Ok (length buf)), true, c')
  | (SendFull, c') => (Pending, false, c')
  | (SendClosed, c') => (Ready (Err (IoError BrokenPipe "stack task gone")), false, c')
  end.

(** [TcpStream::write_all] *)
Definition stream_write_all (buf : bytes) (c : chan bytes)
  : poll (result unit) * bool * chan bytes :=
  match stream_write buf c with
  | (Ready (Ok _), b, c') => (Ready (Ok ()), b, c')
  | (Ready (Err e), b, c') => (Ready (Err e), b, c')
  | (Pending, b, c') => (Pending, b, c')
  end.

(** [OwnedWriteHalf::write_all], from the octet [written] on; it is suspended with
    the octets written so far. *)
Fixpoint half_write_all (fuel : nat) (buf : bytes) (written : nat) (c : chan bytes)
  : poll (result unit) * nat * chan bytes :=
  match fuel with
  | O => (Pending, written, c)
  | S fuel' =>
      if decide (written < length buf)%nat then
        match stream_write (drop written buf) c with
        | (Ready (Ok n), _, c') =>
            if decide (n = 0%nat) then
              (Ready (Err (IoError WriteZero "failed to write whole buffer")), written, c')
            else half_write_all fuel' buf (written + n) c'
        | (Ready (Err e), _, c') => (Ready (Err e), written, c')
        | (Pending, _, c') => (Pending, written, c')
        end
      else (Ready (Ok ()), written, c)
  end.

(** [poll_write] of [TcpStream] and of [OwnedWriteHalf]. *)
Definition poll_write (buf : bytes) (c : chan bytes) : poll (result nat) * bool * chan bytes :=
  match try_send buf c with
  | (SendOk, c') => (Ready (Ok (length buf)), true, c')
  | (SendFull, c') => (Ready (Err (IoError WouldBlock "channel full")), false, c')
  | (SendClosed, c') => (Ready (Err (IoError BrokenPipe "stack task gone")), false, c')
  end.

(** [poll_flush] of both *)
Definition poll_flush : poll (result unit) := Ready (Ok ()).

(** ** Closing: the command is sent if the channel has room, and lost otherwise *)

Definition stream_close (h : SocketHandle) (cmds : chan StackCommand) : chan StackCommand :=
  snd (try_send (TcpClose h) cmds).

Definition poll_shutdown (h : SocketHandle) (cmds : chan StackCommand)
  : poll (result unit) * chan StackCommand :=
  (Ready (Ok ()), stream_close h cmds).

Definition udp_socket_close (h : SocketHandle) (cmds : chan StackCommand) : chan StackCommand :=
  snd (try_send (UdpClose h) cmds).

Definition listener_close (h : SocketHandle) (cmds : chan StackCommand) : chan StackCommand :=
  snd (try_send (TcpListenerClose h) cmds).

(** ** UDP *)

Definition send_to (buf : bytes) (addr : SocketAddr) (c : chan (bytes * SocketAddr))
  : poll (result nat) * bool * chan (bytes * SocketAddr) :=
  match try_send (buf, addr) c with
  | (SendOk, c') => (Ready (Ok (length buf)), true, c')
  | (SendFull, c') => (Pending, false, c')
  | (SendClosed, c') => (Ready (Err (IoError BrokenPipe "stack task gone")), false, c')
  end.

(** The octets copied to the caller's buffer of [n] octets and the source. *)
Definition recv_from (n : nat) (c : chan (bytes * SocketAddr))
  : poll (result (bytes * SocketAddr)) * chan (bytes * SocketAddr) :=
  match try_recv c with
  | (RecvOk (data, addr), c') => (Ready (Ok (take (Nat.min (length data) n) data, addr)), c')
  | (RecvDisconnected, c') => (Ready (Err (IoError BrokenPipe "socket closed")), c')
  | (RecvEmpty, c') => (Pending, c')
  end.

(** ** Requests: a command with a oneshot sender, and its answer *)

Inductive oneshot (A : Type) := OsWaiting | OsValue (a : A) | OsClosed.
#[global] Arguments OsWaiting {A}.
#[global] Arguments OsValue {A} a.
#[global] Arguments OsClosed {A}.

(** [commands.send(..).await.map_err(..)?] *)
Definition send_command (cmd : StackCommand) (cmds : chan StackCommand)
  : poll (result unit) * chan StackCommand :=
  match try_send cmd cmds with
  | (SendOk, c') => (Ready (Ok ()), c')
  | (SendFull, c') => (Pending, c')
  | (SendClosed, c') => (Ready (Err (IoError BrokenPipe "stack task gone")), c')
  end.

(** [rx.await.map_err(..)??] *)
Definition await_response {A} (rx : oneshot (result A)) : poll (result A) :=
  match rx with
  | OsWaiting => Pending
  | OsValue r => Ready r
  | OsClosed => Ready (Err (IoError BrokenPipe "stack task gone"))
  end.

(** The sender's fate, read off the log of the stack task. *)
Fixpoint stream_response (t : token) (l : list event)
  : oneshot (result (SocketHandle * SocketAddr * SocketAddr * TcpChannels)) :=
  match l with
  | [] => OsWaiting
  | EvStream t' r :: l' => if decide (t' = t) then OsValue r else stream_response t l'
  | EvDropped t' :: l' => if decide (t' = t) then OsClosed else stream_response t l'
  | _ :: l' => stream_response t l'
  end.

(** [TcpListener::accept] and [Tunnel::tcp_connect] after the command was sent. *)
Definition finish_stream (rx : oneshot (result (SocketHandle * SocketAddr * SocketAddr * TcpChannels)))
  : poll (result TcpStream) :=
  match await_response rx with
  | Ready (Ok (handle, local_addr, peer_addr, channels)) =>
      Ready (Ok (from_channels handle local_addr peer_addr channels))
  | Ready (Err e) => Ready (Err e)
  | Pending => Pending
  end.

Definition finish_accept_call
    (rx : oneshot (result (SocketHandle * SocketAddr * SocketAddr * TcpChannels)))
  : poll (result (TcpStream * SocketAddr)) :=
  match finish_stream rx with
  | Ready (Ok st) => Ready (Ok (st, s_peer_addr st))
  | Ready (Err e) => Ready (Err e)
  | Pending => Pending
  end.

(** ** Lemmas *)

Context {ML : MpscLaws}.

Lemma try_send_cases {A} (a : A) (c : chan A) :
  match try_send a c with
  | (SendOk, c') => view c' = ChanSpec.push a (view c) /\ ChanSpec.reserve (view c) = SendOk
  | (r, c') => view c' = view c /\ ChanSpec.reserve (view c) = r
  end.
Proof.
  pose proof (try_send_view A a c) as E. unfold ChanSpec.try_send in E.
  destruct (try_send a c) as [r c']. cbn in E.
  destruct (ChanSpec.reserve (view c)) eqn:Er; injection E as -> ->; done.
Qed.

(** What a read returns, in terms of the octets it can see. *)
Lemma stream_read_spec n buf c r buf' c' :
  stream_read n buf c = (r, buf', c') ->
  match r with
  | Ready (Ok d) => d ++ buf' ++ concat (items (view c')) = buf ++ concat (items (view c))
  | Ready (Err _) => False
  | Pending => buf = [] /\ buf' = [] /\ items (view c) = [] /\ items (view c') = []
  end.
Proof.
  unfold stream_read. case_decide as Hb.
  - intros [= <- <- <-]. by rewrite app_assoc, take_drop.
  - subst buf. destruct (try_recv c) as [[data| |] c1] eqn:E; chan_facts; intros [= <- <- <-].
    + destruct_and?. rewrite H. cbn.
      case_decide; cbn; rewrite ?app_assoc, ?take_drop; [done|]. by rewrite take_ge by lia.
    + split_and!; try done. congruence.
    + cbn. congruence.
Qed.

End Socket.
