(* ===== verification/SocketSpec.v ===== *)
(** * Correctness of the application's sockets

    End-to-end data paths (the channel between [socket/mod.rs] and the stack task,
    with both of its users), and the drop protocol of the two halves of a split
    stream. *)

From S2P Require Import Prelude Net Externals Stack StackPoll StackData Socket.
#[local] Open Scope Z_scope.

(** ** The halves of a split stream

    Dropping a half runs the body of its [Drop], which looks at the strong count of
    the shared [TcpStreamInner] and closes the socket when it is 1, and then drops
    its fields, which decrements the count; the last decrement drops the inner
    state and its command sender.  [into_split] clones the stream's command sender
    into the inner state and forgets the original. *)
Inductive half_pc := HLive | HChecked | HGone.

Record split_state := MkSplit {
  read_half : half_pc; write_half : half_pc;
  strong : nat;   (* strong count of the inner state *)
  closes : nat;   (* close commands issued *)
  senders : nat;  (* senders of the command channel *)
}.

(** A stream whose tunnel has [n] command senders in all, after the split. *)
Definition into_split (n : nat) : split_state := MkSplit HLive HLive 2 0 (S n).

Definition close_if_last (st : split_state) : nat :=
  if decide (strong st = 1%nat) then S (closes st) else closes st.

Definition release (st : split_state) : nat * nat :=
  (pred (strong st), if decide (strong st = 1%nat) then pred (senders st) else senders st).

Inductive split_step : split_state -> split_state -> Prop :=
| read_body st : read_half st = HLive ->
    split_step st (MkSplit HChecked (write_half st) (strong st) (close_if_last st) (senders st))
| read_fields st : read_half st = HChecked ->
    split_step st (MkSplit HGone (write_half st) (fst (release st)) (closes st) (snd (release st)))
| write_body st : write_half st = HLive ->
    split_step st (MkSplit (read_half st) HChecked (strong st) (close_if_last st) (senders st))
| write_fields st : write_half st = HChecked ->
    split_step st (MkSplit (read_half st) HGone (fst (release st)) (closes st) (snd (release st))).

Definition gone (p : half_pc) : nat := match p with HGone => 1 | _ => 0 end.
Definition holds (p : half_pc) : nat := match p with HGone => 0 | _ => 1 end.
Definition dropped (st : split_state) : Prop := read_half st = HGone /\ write_half st = HGone.

(** How many close commands the program counters allow. *)
Definition split_ok (n : nat) (st : split_state) : Prop :=
  strong st = (holds (read_half st) + holds (write_half st))%nat /\
  senders st = (n + Nat.min 1 (strong st))%nat /\
  match read_half st, write_half st with
  | HGone, HLive | HLive, HGone => closes st = 0%nat
  | HGone, HChecked | HChecked, HGone | HGone, HGone => (closes st <= 1)%nat
  | _, _ => closes st = 0%nat
  end.

Lemma split_ok_step n st st' : split_ok n st -> split_step st st' -> split_ok n st'.
Proof.
  intros (H1 & H2 & H3) Hs. unfold split_ok.
  destruct Hs as [[r w g c k] E|[r w g c k] E|[r w g c k] E|[r w g c k] E]; cbn in *; subst;
    unfold close_if_last, release; cbn; (destruct w || destruct r); cbn in *; repeat split;
    repeat case_decide; lia.
Qed.

Lemma split_reach n st : rtc split_step (into_split n) st -> split_ok n st.
Proof.
  apply rtc_invariant; [exact (split_ok_step n)|]. unfold split_ok. cbn. repeat split; lia.
Qed.

(** Once one half is gone and the other still in use. *)
Definition last_half (n : nat) (st : split_state) : Prop :=
  senders st = (n + Nat.min 1 (strong st))%nat /\
  match read_half st, write_half st with
  | HGone, HLive | HLive, HGone => strong st = 1%nat /\ closes st = 0%nat
  | HGone, HChecked | HChecked, HGone => strong st = 1%nat /\ closes st = 1%nat
  | HGone, HGone => strong st = 0%nat /\ closes st = 1%nat
  | _, _ => False
  end.

Lemma last_half_step n st st' : last_half n st -> split_step st st' -> last_half n st'.
Proof.
  intros (H1 & H2) Hs. unfold last_half.
  destruct Hs as [[r w g c k] E|[r w g c k] E|[r w g c k] E|[r w g c k] E]; cbn in *; subst;
    unfold close_if_last, release; cbn; (destruct w || destruct r); cbn in *; try done;
    destruct H2; subst; cbn; repeat split; repeat case_decide; lia.
Qed.

Section Paths.
Context {M : Mpsc} {ML : MpscLaws} {N : Smoltcp} {NL : SmoltcpLaws}.

(** ** The receive path

    The stack task polls the socket, the network fills it, the application reads;
    [r_in] is all the network delivered and [r_got] all the application got. *)
Record rx_sys := MkRx {
  r_sock : TcpSocket; r_chan : chan bytes; r_buf : bytes; r_in : bytes; r_got : bytes
}.

Definition read_octets (r : poll (result bytes)) : bytes :=
  match r with Ready (Ok d) => d | _ => [] end.

Inductive rx_step : rx_sys -> rx_sys -> Prop :=
| rx_net k k' c b i g d : tcp_rx k' = tcp_rx k ++ d ->
    rx_step (MkRx k c b i g) (MkRx k' c b (i ++ d) g)
| rx_stack k k' c c' b i g : process_tcp_read k c = (k', c') ->
    rx_step (MkRx k c b i g) (MkRx k' c' b i g)
| rx_app n k c c' b b' i g r : stream_read n b c = (r, b', c') ->
    rx_step (MkRx k c b i g) (MkRx k c' b' i (g ++ read_octets r)).

Definition rx_all (st : rx_sys) : bytes := r_got st ++ r_buf st ++ rx_stream (r_chan st) (r_sock st).

Lemma rx_step_all st st' : rx_step st st' -> r_in st = rx_all st -> r_in st' = rx_all st'.
Proof.
  unfold rx_all, rx_stream. destruct 1 as [k k' c b i g d Hd|k k' c c' b i g Hp|n k c c' b b' i g r Hr];
    cbn; intros ->.
  - by rewrite Hd, <- !app_assoc.
  - apply tcp_read_loop_stream in Hp as (E & _). unfold rx_stream in E. by rewrite E.
  - apply stream_read_spec in Hr. destruct r as [[d|e]|]; cbn; [|done|].
    + rewrite <- (app_assoc g). f_equal. by rewrite (app_assoc b), <- Hr, <- !app_assoc.
    + destruct Hr as (-> & -> & -> & ->). by rewrite app_nil_r.
Qed.

(** ** The transmit path *)
Record tx_sys := MkTx {
  t_sock : TcpSocket; t_chan : chan bytes; t_pend : option bytes; t_given : bytes
}.

Definition accepted_octets (r : poll (result nat)) (buf : bytes) : bytes :=
  match r with Ready (Ok n) => take n buf | _ => [] end.

Inductive tx_step : tx_sys -> tx_sys -> Prop :=
| tx_net k k' c p g : tcp_sent k' = tcp_sent k ->
    tx_step (MkTx k c p g) (MkTx k' c p g)
| tx_stack k k' c c' p p' g : process_tcp_write k c p = (k', c', p') ->
    tx_step (MkTx k c p g) (MkTx k' c' p' g)
| tx_app buf k c c' p g r b : stream_write buf c = (r, b, c') ->
    tx_step (MkTx k c p g) (MkTx k c' p (g ++ accepted_octets r buf))
| tx_app_poll buf k c c' p g r b : poll_write buf c = (r, b, c') ->
    tx_step (MkTx k c p g) (MkTx k c' p (g ++ accepted_octets r buf)).

Definition tx_all (st : tx_sys) : bytes := tx_stream (t_sock st) (t_pend st) (t_chan st).

Lemma push_concat buf (c c' : chan bytes) :
  view c' = ChanSpec.push buf (view c) -> concat (items (view c')) = concat (items (view c)) ++ buf.
Proof. intros ->. cbn. by rewrite concat_app, concat_cons, app_nil_r. Qed.

Lemma stream_write_spec buf c r b c' :
  stream_write buf c = (r, b, c') ->
  concat (items (view c')) = concat (items (view c)) ++ accepted_octets r buf.
Proof.
  unfold stream_write. pose proof (try_send_cases buf c) as T.
  destruct (try_send buf c) as [[] c1]; intros [= <- <- <-]; destruct T as [Hv _];
    cbn; rewrite ?app_nil_r; [|by rewrite Hv..].
  rewrite (push_concat _ _ _ Hv). by rewrite take_ge.
Qed.

Lemma poll_write_spec buf c r b c' :
  poll_write buf c = (r, b, c') ->
  concat (items (view c')) = concat (items (view c)) ++ accepted_octets r buf.
Proof.
  unfold poll_write. pose proof (try_send_cases buf c) as T.
  destruct (try_send buf c) as [[] c1]; intros [= <- <- <-]; destruct T as [Hv _];
    cbn; rewrite ?app_nil_r; [|by rewrite Hv..].
  rewrite (push_concat _ _ _ Hv). by rewrite take_ge.
Qed.

Lemma tx_step_all st st' : tx_step st st' -> t_given st = tx_all st -> t_given st' = tx_all st'.
Proof.
  unfold tx_all, tx_stream.
  destruct 1 as [k k' c p g Hk|k k' c c' p p' g Hp|buf k c c' p g r b Hw|buf k c c' p g r b Hw];
    cbn; intros ->.
  - by rewrite Hk.
  - apply process_tcp_write_stream in Hp as (E & _). unfold tx_stream in E. by rewrite E.
  - by rewrite (stream_write_spec _ _ _ _ _ Hw), <- !app_assoc.
  - by rewrite (poll_write_spec _ _ _ _ _ Hw), <- !app_assoc.
Qed.

(** ** Properties *)

(** C4: Receive path, end to end: whatever the interleaving of deliveries by the
    network, polls of the stack task and reads of the application (of any buffer
    sizes), the octets the application has read, followed by those still on the
    way, are exactly the octets delivered, in order. *)
Theorem receive_end_to_end (k : TcpSocket) (c : chan bytes) (st : rx_sys)
  (Hk : tcp_rx k = []) (Hc : items (view c) = [])
  (Hrun : rtc rx_step (MkRx k c [] [] []) st) :
  r_in st = r_got st ++ r_buf st ++ concat (items (view (r_chan st))) ++ tcp_rx (r_sock st).
Proof.
  change (r_in st = rx_all st).
  revert Hrun. apply (rtc_invariant _ (fun st => r_in st = rx_all st)); [by eauto using rx_step_all|].
  unfold rx_all, rx_stream. cbn. by rewrite Hc, Hk.
Qed.

(** C3: Transmit path, end to end: whatever the interleaving of writes (waiting or
    polled), polls of the stack task and network activity, the octets the socket
    accepted, followed by the partial write and the queue, are exactly the octets
    for which a write of the application reported success, in order. *)
Theorem transmit_end_to_end (k : TcpSocket) (c : chan bytes) (st : tx_sys)
  (Hk : tcp_sent k = []) (Hc : items (view c) = [])
  (Hrun : rtc tx_step (MkTx k c None []) st) :
  t_given st = tcp_sent (t_sock st) ++ default [] (t_pend st) ++ concat (items (view (t_chan st))).
Proof.
  change (t_given st = tx_all st).
  revert Hrun. apply (rtc_invariant _ (fun st => t_given st = tx_all st)); [by eauto using tx_step_all|].
  unfold tx_all, tx_stream. cbn. by rewrite Hc, Hk.
Qed.

(** A read of a non-empty buffer returns zero octets only at the end of the
    stream: nothing is buffered, the queue is empty and the stack task has dropped
    its sender (given that queued chunks are not empty). *)
Theorem read_zero_is_eof (n : nat) (buf buf' : bytes) (c c' : chan bytes)
  (Hn : (0 < n)%nat) (Hchunks : Forall (fun d => d <> []) (items (view c)))
  (Hread : stream_read n buf c = (Ready (Ok []), buf', c')) :
  buf = [] /\ items (view c) = [] /\ tx_alive (view c) = false.
Proof.
  assert (Ht : forall d : bytes, d <> [] -> take (Nat.min (length d) n) d <> []).
  { intros [|x d] Hd; [done|]. destruct n; [lia|]. done. }
  unfold stream_read in Hread. case_decide as Hb.
  { injection Hread as E _ _. by apply Ht in E. }
  destruct (try_recv c) as [[d| |] c1] eqn:E; chan_facts; [| |by split_and!].
  - injection Hread as Ed _ _. destruct_and?. rewrite H in Hchunks.
    apply Forall_cons_1 in Hchunks as [Hd _]. by apply Ht in Ed.
  - done.
Qed.

(** [poll_read] never overruns the caller's buffer and agrees with [read] of
    the space that remains in it: same octets appended, same state after. *)
Theorem poll_read_agrees (rb : ReadBuf) (buf buf' : bytes) (c c' : chan bytes)
  (r : poll (result bytes)) (Hread : stream_read (remaining rb) buf c = (r, buf', c')) :
  poll_read rb buf c =
    Ret (match r with
         | Ready (Ok d) => (Ready (Ok ()), {| filled := filled rb ++ d; rb_cap := rb_cap rb |}, buf', c')
         | Ready (Err e) => (Ready (Err e), rb, buf', c')
         | Pending => (Pending, rb, buf', c')
         end).
Proof.
  assert (Hput : forall d : bytes, put_slice (take (Nat.min (length d) (remaining rb)) d) rb =
    Ret {| filled := filled rb ++ take (Nat.min (length d) (remaining rb)) d; rb_cap := rb_cap rb |}).
  { intros d. unfold put_slice. rewrite length_take, decide_True by lia. done. }
  unfold poll_read. unfold stream_read in Hread. case_decide as Hb.
  { rewrite Hput. by injection Hread as <- <- <-. }
  destruct (try_recv c) as [[d| |] c1]; injection Hread as <- <- <-; cbn.
  - by rewrite Hput.
  - done.
  - destruct rb. cbn. by rewrite app_nil_r.
Qed.

(** [OwnedWriteHalf::write_all] returns (two turns of its loop suffice): it
    queues the whole buffer as one chunk, or nothing at all, and an empty buffer is
    not queued. *)
Theorem half_write_all_total (buf : bytes) (c : chan bytes) (fuel : nat) (Hf : (2 <= fuel)%nat) :
  let '(r, _, c') := half_write_all fuel buf 0 c in
  items (view c') = items (view c) ++
    match r with Ready (Ok _) => if decide (buf = []) then [] else [buf] | _ => [] end /\
  match r with
  | Ready (Ok _) => True
  | Ready (Err e) => e = IoError BrokenPipe "stack task gone" /\ rx_alive (view c) = false
  | Pending => ChanSpec.reserve (view c) = SendFull
  end.
Proof.
  destruct fuel as [|[|fuel]]; [lia..|]. cbn [half_write_all].
  case_decide as Hl; cbn [length] in Hl.
  2:{ destruct buf; [|cbn in Hl; lia]. by rewrite decide_True, app_nil_r. }
  unfold stream_write at 1. rewrite drop_0. pose proof (try_send_cases buf c) as T.
  destruct (try_send buf c) as [[] c1]; destruct T as [Hv Hr].
  - rewrite decide_False by lia. rewrite decide_False by lia.
    rewrite Hv, decide_False by (intros ->; cbn in Hl; lia). done.
  - by rewrite Hv, app_nil_r.
  - rewrite Hv, app_nil_r. split_and!; try done.
    unfold ChanSpec.reserve in Hr. destruct (rx_alive (view c)); [|done]. cbn in Hr.
    by destruct (ChanSpec.has_room _).
Qed.

End Paths.

(** C40: Dropping the halves of a split stream.  In every interleaving at most one
    close command is issued, and exactly one when one half is gone before the drop
    of the other starts; but when both drops overlap it can be none at all.  And a
    split leaks: when both halves are gone the command channel still has as many
    senders as before, although the stream's own should be gone. *)
Theorem split_drop_behaviour (n : nat) :
  (forall st, rtc split_step (into_split n) st -> dropped st ->
     (closes st <= 1)%nat /\ senders st = n) /\
  (forall mid st, rtc split_step (into_split n) mid -> rtc split_step mid st -> dropped st ->
     (read_half mid = HGone /\ write_half mid = HLive \/
      read_half mid = HLive /\ write_half mid = HGone) -> closes st = 1%nat) /\
  (exists st, rtc split_step (into_split n) st /\ dropped st /\ closes st = 0%nat).
Proof.
  split_and!.
  - intros [r w g c k] H [Hr Hw]. apply split_reach in H as (H1 & H2 & H3). cbn in *. subst. cbn in *.
    split; lia.
  - intros mid st Hmid Hst [Hr Hw] Hone. apply split_reach in Hmid as (H1 & H2 & H3).
    assert (L : last_half n mid).
    { split; [done|]. destruct Hone as [[E1 E2]|[E1 E2]]; rewrite E1, E2 in *; cbn in *; lia. }
    assert (L' : last_half n st).
    { by apply (rtc_invariant split_step (last_half n) mid); [exact (last_half_step n)|..]. }
    destruct L' as [_ L']. rewrite Hr, Hw in L'. tauto.
  - exists (MkSplit HGone HGone 0 0 n). split; [|done].
    eapply rtc_l; [by apply (read_body (into_split n))|].
    eapply rtc_l; [by apply (write_body (MkSplit HChecked HLive 2 0 (S n)))|].
    eapply rtc_l; [by apply (read_fields (MkSplit HChecked HChecked 2 0 (S n)))|].
    eapply rtc_l; [by apply (write_fields (MkSplit HGone HChecked 1 0 (S n)))|]. apply rtc_refl.
Qed.

(** ** Witnesses: the properties at concrete inputs, on the reference instances *)

#[local] Existing Instances Reference.mpsc Reference.mpsc_laws Reference.smoltcp
  Reference.smoltcp_laws.

Definition demo_sock (sent rx : bytes) : TcpSocket :=
  Reference.Tcp StEstablished sent (2 - length sent) rx None None.
Definition demo_chan (l : list bytes) : chan bytes := ChanView l 8 true true.

(** Three octets arrive, the stack task polls, the application reads two. *)
Lemma receive_end_to_end_witness :
  exists st, rtc rx_step (MkRx (demo_sock [] []) (demo_chan []) [] [] []) st /\
    r_got st = [x01; x02] /\ r_in st = r_got st ++ [x03].
Proof.
  set (st := MkRx (demo_sock [] []) (demo_chan []) [x03] [x01; x02; x03] [x01; x02]).
  assert (H : rtc rx_step (MkRx (demo_sock [] []) (demo_chan []) [] [] []) st).
  { eapply rtc_l; [apply (rx_net _ (demo_sock [] [x01; x02; x03]) _ _ _ _ [x01; x02; x03]); reflexivity|].
    eapply rtc_l; [apply (rx_stack _ (demo_sock [] []) _ (demo_chan [[x01; x02; x03]])); reflexivity|].
    eapply rtc_l; [|apply rtc_refl].
    apply (rx_app 2 _ (demo_chan [[x01; x02; x03]]) (demo_chan []) [] [x03] _ [] (Ready (Ok [x01; x02]))).
    reflexivity. }
  exists st. split; [exact H|]. split; [reflexivity|].
  exact (receive_end_to_end (demo_sock [] []) (demo_chan []) st eq_refl eq_refl H).
Defined.

(** A write of three octets, of which the socket takes two. *)
Lemma transmit_end_to_end_witness :
  exists st, rtc tx_step (MkTx (demo_sock [] []) (demo_chan []) None []) st /\
    t_given st = [x01; x02] ++ [x03] /\ t_pend st = Some [x03].
Proof.
  set (st := MkTx (demo_sock [x01; x02] []) (demo_chan [])
    (Some [x03]) [x01; x02; x03]).
  assert (H : rtc tx_step (MkTx (demo_sock [] []) (demo_chan []) None []) st).
  { eapply rtc_l; [apply (tx_app [x01; x02; x03] _ _ (demo_chan [[x01; x02; x03]]) _ _
      (Ready (Ok 3%nat)) true); reflexivity|].
    eapply rtc_l; [|apply rtc_refl]. apply tx_stack. reflexivity. }
  exists st. split; [exact H|]. split; [|reflexivity].
  exact (transmit_end_to_end (demo_sock [] []) (demo_chan []) st eq_refl eq_refl H).
Defined.

(** A channel whose sender is gone. *)
Definition demo_eof : chan bytes := ChanView [] 8 false true.

Lemma read_zero_is_eof_witness :
  stream_read 4 [] demo_eof = (Ready (Ok []), [], demo_eof) /\ tx_alive (view demo_eof) = false.
Proof.
  split; [reflexivity|].
  destruct (read_zero_is_eof 4 [] [] demo_eof demo_eof) as (_ & _ & H);
    [lia|constructor|reflexivity|exact H].
Defined.

Lemma poll_read_agrees_witness :
  poll_read {| filled := [x00]; rb_cap := 3 |} [] (demo_chan [[x01; x02; x03]]) =
    Ret (Ready (Ok ()), {| filled := [x00; x01; x02]; rb_cap := 3 |}, [x03], demo_chan []).
Proof.
  exact (poll_read_agrees {| filled := [x00]; rb_cap := 3 |} [] [x03] (demo_chan [[x01; x02; x03]])
    (demo_chan []) (Ready (Ok [x01; x02])) eq_refl).
Defined.

Lemma half_write_all_total_witness :
  let '(r, _, c') := half_write_all 2 [x01; x02] 0 (demo_chan []) in
  items (view c') = [[x01; x02]] /\ r = Ready (Ok ()).
Proof. split; [exact (proj1 (half_write_all_total [x01; x02] (demo_chan []) 2 (le_n 2)))|reflexivity]. Defined.
