(* ===== verification/Halves.v ===== *)
(** * The owned halves of a TCP stream ([src/socket/mod.rs])

    [into_split] takes a [TcpStream] apart; the two halves have their own copies of its
    methods.  They behave as the stream did, with one exception. *)

From S2P Require Import Prelude Net Externals Stack StackPoll StackData Socket.
#[local] Open Scope Z_scope.

Section Halves.
Context {M : Mpsc} {N : Smoltcp}.

Record TcpStreamInner := { i_handle : SocketHandle; i_local_addr : SocketAddr; i_peer_addr : SocketAddr }.

Record OwnedReadHalf := { rh_inner : TcpStreamInner; rh_read_rx : nat; rh_read_buf : bytes }.
Record OwnedWriteHalf := { wh_inner : TcpStreamInner; wh_write_tx : nat }.

(** [TcpStream::into_split]: what the halves get (the references and the senders are
    counted in [SocketSpec]). *)
Definition into_halves (s : TcpStream) : OwnedReadHalf * OwnedWriteHalf :=
  let inner := {| i_handle := s_handle s; i_local_addr := s_local_addr s; i_peer_addr := s_peer_addr s |} in
  ({| rh_inner := inner; rh_read_rx := s_read_rx s; rh_read_buf := read_buf s |},
   {| wh_inner := inner; wh_write_tx := s_write_tx s |}).

Definition stream_local_addr (s : TcpStream) : SocketAddr := s_local_addr s.
Definition stream_peer_addr (s : TcpStream) : SocketAddr := s_peer_addr s.
Definition read_half_local_addr (h : OwnedReadHalf) : SocketAddr := i_local_addr (rh_inner h).
Definition read_half_peer_addr (h : OwnedReadHalf) : SocketAddr := i_peer_addr (rh_inner h).
Definition write_half_local_addr (h : OwnedWriteHalf) : SocketAddr := i_local_addr (wh_inner h).
Definition write_half_peer_addr (h : OwnedWriteHalf) : SocketAddr := i_peer_addr (wh_inner h).

Definition set_read_buf (b : bytes) (h : OwnedReadHalf) : OwnedReadHalf :=
  {| rh_inner := rh_inner h; rh_read_rx := rh_read_rx h; rh_read_buf := b |}.

(** [OwnedReadHalf::read] into a buffer of [n] octets *)
Definition read_half_read (n : nat) (h : OwnedReadHalf) (c : chan bytes)
  : poll (result bytes) * OwnedReadHalf * chan bytes :=
  if decide (rh_read_buf h <> []) then
    let len := Nat.min (length (rh_read_buf h)) n in
    (Ready (Ok (take len (rh_read_buf h))), set_read_buf (drop len (rh_read_buf h)) h, c)
  else
    match try_recv c with
    | (RecvOk data, c') =>
        let len := Nat.min (length data) n in
        (Ready (Ok (take len data)),
         if decide (len < length data)%nat then set_read_buf (rh_read_buf h ++ drop len data) h else h, c')
    | (RecvDisconnected, c') => (Ready (Ok []), h, c')
    | (RecvEmpty, c') => (Pending, h, c')
    end.

(** [AsyncRead for OwnedReadHalf] *)
Definition read_half_poll_read (buf : ReadBuf) (h : OwnedReadHalf) (c : chan bytes)
  : outcome (poll (result unit) * ReadBuf * OwnedReadHalf * chan bytes) :=
  if decide (rh_read_buf h <> []) then
    let len := Nat.min (length (rh_read_buf h)) (remaining buf) in
    buf' ← put_slice (take len (rh_read_buf h)) buf;
    Ret (Ready (Ok ()), buf', set_read_buf (drop len (rh_read_buf h)) h, c)
  else
    match try_recv c with
    | (RecvOk data, c') =>
        let len := Nat.min (length data) (remaining buf) in
        buf' ← put_slice (take len data) buf;
        Ret (Ready (Ok ()), buf',
             if decide (len < length data)%nat then set_read_buf (rh_read_buf h ++ drop len data) h else h, c')
    | (RecvDisconnected, c') => Ret (Ready (Ok ()), buf, h, c')
    | (RecvEmpty, c') => Ret (Pending, buf, h, c')
    end.

(** [OwnedWriteHalf::write]; its [write_all] is [half_write_all] of [Socket]. *)
Definition write_half_write (buf : bytes) (c : chan bytes) : poll (result nat) * bool * chan bytes :=
  match try_send buf c with
  | (SendOk, c') => (Ready (Ok (length buf)), true, c')
  | (SendFull, c') => (Pending, false, c')
  | (SendClosed, c') => (Ready (Err (IoError BrokenPipe "stack task gone")), false, c')
  end.

(** [AsyncWrite for OwnedWriteHalf] *)
Definition write_half_poll_write (buf : bytes) (c : chan bytes) : poll (result nat) * bool * chan bytes :=
  match try_send buf c with
  | (SendOk, c') => (Ready (Ok (length buf)), true, c')
  | (SendFull, c') => (Ready (Err (IoError WouldBlock "channel full")), false, c')
  | (SendClosed, c') => (Ready (Err (IoError BrokenPipe "stack task gone")), false, c')
  end.
Definition write_half_poll_flush : poll (result unit) := Ready (Ok ()).
Definition write_half_poll_shutdown (h : OwnedWriteHalf) (cmds : chan StackCommand)
  : poll (result unit) * chan StackCommand :=
  (Ready (Ok ()), snd (try_send (TcpClose (i_handle (wh_inner h))) cmds)).

(** ** The same operations on a stream and on its halves *)

Inductive io_op :=
| OpRead (n : nat) | OpPollRead (buf : ReadBuf) | OpWrite (buf : bytes) | OpWriteAll (buf : bytes)
| OpPollWrite (buf : bytes) | OpPollFlush | OpPollShutdown.

Inductive io_result :=
| ResRead (r : poll (result bytes)) | ResPollRead (r : poll (result unit)) (buf : ReadBuf)
| ResWrite (r : poll (result nat)) (woken : bool) | ResUnit (r : poll (result unit)).

(** The channels: the octets received, those to send, the commands. *)
Record ends := MkEnds { e_read : chan bytes; e_write : chan bytes; e_commands : chan StackCommand }.

Definition set_stream_buf (b : bytes) (s : TcpStream) : TcpStream :=
  {| s_handle := s_handle s; s_local_addr := s_local_addr s; s_peer_addr := s_peer_addr s;
     s_write_tx := s_write_tx s; s_read_rx := s_read_rx s; read_buf := b |}.

Definition stream_op (op : io_op) (s : TcpStream) (e : ends) : outcome (io_result * TcpStream * ends) :=
  match op with
  | OpRead n =>
      let '(r, b, c) := stream_read n (read_buf s) (e_read e) in
      Ret (ResRead r, set_stream_buf b s, MkEnds c (e_write e) (e_commands e))
  | OpPollRead buf =>
      x ← poll_read buf (read_buf s) (e_read e);
      let '(r, buf', b, c) := x in
      Ret (ResPollRead r buf', set_stream_buf b s, MkEnds c (e_write e) (e_commands e))
  | OpWrite buf =>
      let '(r, w, c) := stream_write buf (e_write e) in Ret (ResWrite r w, s, MkEnds (e_read e) c (e_commands e))
  | OpWriteAll buf =>
      let '(r, _, c) := stream_write_all buf (e_write e) in Ret (ResUnit r, s, MkEnds (e_read e) c (e_commands e))
  | OpPollWrite buf =>
      let '(r, w, c) := poll_write buf (e_write e) in Ret (ResWrite r w, s, MkEnds (e_read e) c (e_commands e))
  | OpPollFlush => Ret (ResUnit poll_flush, s, e)
  | OpPollShutdown =>
      let '(r, c) := poll_shutdown (s_handle s) (e_commands e) in
      Ret (ResUnit r, s, MkEnds (e_read e) (e_write e) c)
  end.

(** [write_all] of the half writes the whole buffer at once or waits (its loop ends after
    at most two turns). *)
Definition halves_op (op : io_op) (hs : OwnedReadHalf * OwnedWriteHalf) (e : ends)
  : outcome (io_result * (OwnedReadHalf * OwnedWriteHalf) * ends) :=
  let '(rh, wh) := hs in
  match op with
  | OpRead n =>
      let '(r, rh', c) := read_half_read n rh (e_read e) in
      Ret (ResRead r, (rh', wh), MkEnds c (e_write e) (e_commands e))
  | OpPollRead buf =>
      x ← read_half_poll_read buf rh (e_read e);
      let '(r, buf', rh', c) := x in
      Ret (ResPollRead r buf', (rh', wh), MkEnds c (e_write e) (e_commands e))
  | OpWrite buf =>
      let '(r, w, c) := write_half_write buf (e_write e) in
      Ret (ResWrite r w, (rh, wh), MkEnds (e_read e) c (e_commands e))
  | OpWriteAll buf =>
      let '(r, _, c) := half_write_all 2 buf 0 (e_write e) in
      Ret (ResUnit r, (rh, wh), MkEnds (e_read e) c (e_commands e))
  | OpPollWrite buf =>
      let '(r, w, c) := write_half_poll_write buf (e_write e) in
      Ret (ResWrite r w, (rh, wh), MkEnds (e_read e) c (e_commands e))
  | OpPollFlush => Ret (ResUnit write_half_poll_flush, (rh, wh), e)
  | OpPollShutdown =>
      let '(r, c) := write_half_poll_shutdown wh (e_commands e) in
      Ret (ResUnit r, (rh, wh), MkEnds (e_read e) (e_write e) c)
  end.

(** A sequence of operations and their results. *)
Fixpoint stream_ops (ops : list io_op) (s : TcpStream) (e : ends) : outcome (list io_result * TcpStream * ends) :=
  match ops with
  | [] => Ret ([], s, e)
  | op :: ops' =>
      x ← stream_op op s e;
      let '(r, s1, e1) := x in
      y ← stream_ops ops' s1 e1;
      let '(rs, s2, e2) := y in Ret (r :: rs, s2, e2)
  end.

Fixpoint halves_ops (ops : list io_op) (hs : OwnedReadHalf * OwnedWriteHalf) (e : ends)
  : outcome (list io_result * (OwnedReadHalf * OwnedWriteHalf) * ends) :=
  match ops with
  | [] => Ret ([], hs, e)
  | op :: ops' =>
      x ← halves_op op hs e;
      let '(r, hs1, e1) := x in
      y ← halves_ops ops' hs1 e1;
      let '(rs, hs2, e2) := y in Ret (r :: rs, hs2, e2)
  end.

(** The halves of the stream in an outcome. *)
Definition halved {R} (x : outcome (R * TcpStream * ends)) : outcome (R * (OwnedReadHalf * OwnedWriteHalf) * ends) :=
  match x with Ret (r, s, e) => Ret (r, into_halves s, e) | Panic => Panic end.

(** The one exception: writing nothing. *)
Definition writes_something (op : io_op) : Prop := op <> OpWriteAll [].

Lemma half_write_all_stream buf c :
  buf <> [] ->
  let '(r, _, c') := half_write_all 2 buf 0 c in let '(r', _, c'') := stream_write_all buf c in r = r' /\ c' = c''.
Proof.
  intros Hne. assert (Hl : (0 < length buf)%nat) by (destruct buf; [done|cbn; lia]).
  cbn [half_write_all]. rewrite decide_True, drop_0 by done. unfold stream_write_all, stream_write.
  destruct (try_send buf c) as [[] c']; [|by split..].
  rewrite decide_False by lia. by rewrite decide_False by (cbn; lia).
Qed.

Lemma halves_op_stream op s e :
  writes_something op -> halves_op op (into_halves s) e = halved (stream_op op s e).
Proof.
  intros Hop. destruct op as [n|buf|buf|buf|buf| |]; cbn [halves_op stream_op into_halves].
  - unfold read_half_read, stream_read. cbn [rh_read_buf]. case_decide; [done|].
    destruct (try_recv (e_read e)) as [[data| |] c]; try done. by case_decide.
  - unfold read_half_poll_read, poll_read. cbn [rh_read_buf]. case_decide.
    { by destruct (put_slice _ buf). }
    destruct (try_recv (e_read e)) as [[data| |] c]; try done.
    destruct (put_slice _ buf); [|done]. cbn. by case_decide.
  - unfold write_half_write, stream_write. by destruct (try_send buf (e_write e)) as [[] c].
  - pose proof (half_write_all_stream buf (e_write e)) as H.
    destruct (half_write_all 2 buf 0 (e_write e)) as [[r w] c].
    destruct (stream_write_all buf (e_write e)) as [[r' w'] c'].
    destruct H as [-> ->]; [|done]. intros ->. by apply Hop.
  - unfold write_half_poll_write, poll_write. by destruct (try_send buf (e_write e)) as [[] c].
  - done.
  - done.
Qed.

(** ** Properties *)

(** C26: Splitting a stream changes nothing but how it is held: whatever sequence of reads,
    writes, polls and shutdowns is made on the halves, every result (panics included), the
    octets buffered and the channels are those the same sequence on the unsplit stream
    gives, provided no [write_all] of nothing is among them; that one queues an empty
    chunk through the stream (when there is room) and does nothing through the half. *)
Theorem split_equivalent (ops : list io_op) (s : TcpStream) (e : ends) (c : chan bytes)
  (Hops : Forall writes_something ops) :
  halves_ops ops (into_halves s) e = halved (stream_ops ops s e) /\
  read_half_local_addr (fst (into_halves s)) = stream_local_addr s /\
  write_half_peer_addr (snd (into_halves s)) = stream_peer_addr s /\
  stream_write_all [] c = (match try_send [] c with
                           | (SendOk, c') => (Ready (Ok ()), true, c')
                           | (SendFull, c') => (Pending, false, c')
                           | (SendClosed, c') => (Ready (Err (IoError BrokenPipe "stack task gone")), false, c')
                           end) /\
  half_write_all 2 [] 0 c = (Ready (Ok ()), 0%nat, c).
Proof.
  split_and!; [|done|done| |done].
  2:{ unfold stream_write_all, stream_write. by destruct (try_send [] c) as [[] c']. }
  revert s e. induction Hops as [|op ops Hop _ IH]; intros s e; cbn [halves_ops stream_ops]; [done|].
  rewrite halves_op_stream by done. destruct (stream_op op s e) as [[[r s1] e1]|]; [|done].
  cbn [halved mbind outcome_bind]. rewrite IH. by destruct (stream_ops ops s1 e1) as [[[rs s2] e2]|].
Qed.

End Halves.

(** ** Witness: the property on the reference instances *)

#[local] Existing Instances Reference.mpsc Reference.mpsc_laws Reference.smoltcp.

Definition demo_stream : TcpStream := {|
  s_handle := 0%nat; s_local_addr := make_socket_addr (V4 [# x0a; x00; x00; x02]) 49152;
  s_peer_addr := make_socket_addr (V4 [# x0a; x00; x00; x01]) 80; s_write_tx := 0; s_read_rx := 1; read_buf := [x01; x02]
|}.

Definition demo_ends : ends :=
  MkEnds (ChanView [[x03]] 8 true true) (ChanView [] 8 true true) (ChanView [] 8 true true).

Lemma split_equivalent_witness :
  exists hs e, halves_ops [OpRead 1; OpWriteAll [xaa; xbb]; OpRead 5; OpPollShutdown] (into_halves demo_stream) demo_ends =
    Ret ([ResRead (Ready (Ok [x01])); ResUnit (Ready (Ok ())); ResRead (Ready (Ok [x02])); ResUnit (Ready (Ok ()))],
         hs, e) /\ items (view (e_write e)) = [[xaa; xbb]].
Proof.
  destruct (split_equivalent [OpRead 1; OpWriteAll [xaa; xbb]; OpRead 5; OpPollShutdown] demo_stream demo_ends
    (e_write demo_ends)) as (H & _); [by repeat constructor|].
  rewrite H. eexists _, _. split; [cbn; reflexivity|]. reflexivity.
Defined.
