(* ===== verification/Tunnel.v ===== *)
(** * The tunnel's API and lifetime ([src/lib.rs])

    The methods of [Tunnel] (and [TcpListener::accept]) as calls: a call sends one
    command with a oneshot sender and turns the task's answer into its result.  The
    second part is [TunnelInner::close], which any number of threads (and the last
    [Drop]) may run at once. *)

From stdpp Require Import gmultiset.
From S2P Require Import Prelude Net Externals Stack StackPoll StackData StackInv StackSafe StackTokens.
From S2P Require Import StackRun StackSpec Socket.
#[local] Open Scope Z_scope.

Definition DEFAULT_TCP_BACKLOG : nat := 8.

Section Api.
Context {M : Mpsc} {N : Smoltcp}.

Record TcpListener := { tl_handle : SocketHandle; tl_local_addr : SocketAddr }.
Record UdpSock := { us_handle : SocketHandle; us_local_addr : SocketAddr; us_write_tx : nat; us_read_rx : nat }.

Inductive call :=
| CallTcpConnect (addr : SocketAddr)
| CallTcpConnectFrom (local_ip : IpAddr) (remote_addr : SocketAddr)
| CallTcpListen (addr : SocketAddr)
| CallTcpListenWithBacklog (addr : SocketAddr) (backlog : nat)
| CallAccept (handle : SocketHandle)
| CallUdpBind (addr : SocketAddr)
| CallAddLocalIp (ip : IpAddr) (prefix_len : Z)
| CallRemoveLocalIp (ip : IpAddr)
| CallLocalIps.

(** The command a method sends, with the sender of its oneshot channel. *)
Definition call_command (c : call) (t : token) : StackCommand :=
  match c with
  | CallTcpConnect addr => TcpConnect None addr t
  | CallTcpConnectFrom local_ip remote_addr => TcpConnect (Some local_ip) remote_addr t
  | CallTcpListen addr => TcpListen addr DEFAULT_TCP_BACKLOG t
  | CallTcpListenWithBacklog addr backlog => TcpListen addr backlog t
  | CallAccept handle => TcpAccept handle t
  | CallUdpBind addr => UdpBind addr t
  | CallAddLocalIp ip prefix_len => AddIp ip prefix_len t
  | CallRemoveLocalIp ip => RemoveIp ip t
  | CallLocalIps => GetIps t
  end.

(** [TcpListener::from_handle] and [UdpSocket::from_channels] *)
Definition from_handle (handle : SocketHandle) (local_addr : SocketAddr) : TcpListener :=
  {| tl_handle := handle; tl_local_addr := local_addr |}.
Definition udp_from_channels (handle : SocketHandle) (local_addr : SocketAddr) (c : UdpChannels) : UdpSock :=
  {| us_handle := handle; us_local_addr := local_addr; us_write_tx := uwrite_tx c; us_read_rx := uread_rx c |}.

Inductive call_result :=
| ResStream (r : result TcpStream)
| ResAccepted (r : result (TcpStream * SocketAddr))
| ResListener (r : result TcpListener)
| ResUdp (r : result UdpSock)
| ResUnit (r : result unit)
| ResIps (r : result (list (IpAddr * Z))).

Definition call_error (c : call) (e : io_error) : call_result :=
  match c with
  | CallTcpConnect _ | CallTcpConnectFrom _ _ => ResStream (Err e)
  | CallTcpListen _ | CallTcpListenWithBacklog _ _ => ResListener (Err e)
  | CallAccept _ => ResAccepted (Err e)
  | CallUdpBind _ => ResUdp (Err e)
  | CallAddLocalIp _ _ | CallRemoveLocalIp _ => ResUnit (Err e)
  | CallLocalIps => ResIps (Err e)
  end.

(** What a method makes of the use of its sender; [None] for a value of another type,
    which Rust's typing rules out. *)
Definition call_finish (c : call) (e : event) : option call_result :=
  match c, e with
  | _, EvDropped _ => Some (call_error c (broken_pipe "stack task gone"))
  | (CallTcpConnect _ | CallTcpConnectFrom _ _), EvStream _ r =>
      Some (ResStream ((fun '(h, l, p, ch) => from_channels h l p ch) <$> r))
  | CallAccept _, EvStream _ r =>
      Some (ResAccepted ((fun '(h, l, p, ch) => (from_channels h l p ch, p)) <$> r))
  | (CallTcpListen _ | CallTcpListenWithBacklog _ _), EvListen _ r =>
      Some (ResListener ((fun '(h, a) => from_handle h a) <$> r))
  | CallUdpBind _, EvUdp _ r => Some (ResUdp ((fun '(h, a, ch) => udp_from_channels h a ch) <$> r))
  | (CallAddLocalIp _ _ | CallRemoveLocalIp _), EvUnit _ r => Some (ResUnit r)
  | CallLocalIps, EvIps _ ips => Some (ResIps (Ok ips))
  | _, _ => None
  end.

(** Awaiting the answer, given what the task has done with its senders so far. *)
Definition call_await (c : call) (t : token) (l : list event) : poll call_result :=
  match List.find (fun e => bool_decide (event_token e = t)) l with
  | Some e => match call_finish c e with Some r => Ready r | None => Pending end
  | None => Pending
  end.

(** A method up to its first await: the command is queued, or the method fails, or it
    waits for room. *)
Definition call_start (c : call) (t : token) (cmds : chan StackCommand)
  : poll (option call_result) * chan StackCommand :=
  match send_command (call_command c t) cmds with
  | (Ready (Ok _), c') => (Ready None, c')
  | (Ready (Err e), c') => (Ready (Some (call_error c e)), c')
  | (Pending, c') => (Pending, c')
  end.

(** The calls that may wait for the network. *)
Definition may_wait (c : call) : bool :=
  match c with CallTcpConnect _ | CallTcpConnectFrom _ _ | CallAccept _ => true | _ => false end.

Context {ML : MpscLaws} {NL : SmoltcpLaws}.

(** ** Lemmas *)

(** The events of a handler that carry the call's own token are of the call's type. *)
Definition well_typed (c : call) (t : token) (s s' : stack) : Prop :=
  exists evs, log s' = log s ++ evs /\
    Forall (fun e => event_token e = t -> is_Some (call_finish c e)) evs.

Lemma well_typed_frame c t s s' : log s' = log s -> well_typed c t s s'.
Proof. intros E. exists []. by rewrite E, app_nil_r. Qed.

Lemma well_typed_emit c t s s' e :
  log s' = log s ++ [e] -> is_Some (call_finish c e) -> well_typed c t s s'.
Proof. intros E He. exists [e]. split; [done|]. by apply list.Forall_singleton. Qed.

Lemma well_typed_pending c t s s1 h op :
  log s1 = log s -> well_typed c t s (insert_pending h op s1).
Proof.
  intros El. destruct (insert_pending_fields h op s1) as (_ & Hl & _). rewrite El in Hl.
  destruct (pending s1 !! h) as [old|]; rewrite ?app_nil_r in Hl.
  - eapply well_typed_emit; [exact Hl|]. destruct c; by eexists.
  - by apply well_typed_frame.
Qed.

Ltac typed_step :=
  handler_cases;
  first [ eapply well_typed_emit; [cbn; reflexivity|by eexists]
        | apply well_typed_pending; reflexivity
        | apply well_typed_frame; reflexivity ].

Lemma call_well_typed cfg c t s s' b :
  handle_command cfg (call_command c t) s = Ret (b, s') -> well_typed c t s s'.
Proof.
  unfold handle_command. intros H.
  match type of H with mbind _ ?m = _ => destruct m as [s1|] eqn:E; [|done] end. injection H as _ <-.
  destruct c; cbn [call_command] in E;
    unfold handle_tcp_connect, handle_tcp_listen, handles_with_capacity, handle_tcp_accept, handle_udp_bind, handle_add_ip,
      handle_remove_ip, handle_get_ips, finish_accept in E; typed_step.
Qed.

Lemma immediate_pending cfg c t s s' b :
  may_wait c = false -> handle_command cfg (call_command c t) s = Ret (b, s') -> pending s' = pending s.
Proof.
  unfold handle_command. intros Hc H.
  match type of H with mbind _ ?m = _ => destruct m as [s1|] eqn:E; [|done] end. injection H as _ <-.
  destruct c; try discriminate Hc; cbn [call_command] in E;
    unfold handle_tcp_listen, handles_with_capacity, handle_udp_bind, handle_add_ip, handle_remove_ip, handle_get_ips in E;
    handler_cases; done.
Qed.

Lemma settled_elem t s : t ∈ settled s <-> exists e, e ∈ log s /\ event_token e = t.
Proof.
  unfold settled. rewrite elem_of_list_to_set_disj, list_elem_of_fmap. naive_solver.
Qed.

Lemma await_settled c t s s' :
  t ∉ settled s -> well_typed c t s s' -> t ∈ settled s' -> exists r, call_await c t (log s') = Ready r.
Proof.
  intros Hf (evs & El & Hev) Hs. unfold call_await.
  destruct (List.find _ (log s')) as [e|] eqn:E.
  - apply List.find_some in E as [Hin Ht]. apply bool_decide_eq_true in Ht.
    apply list_elem_of_In in Hin. rewrite El in Hin. apply elem_of_app in Hin as [Hin|Hin].
    + destruct Hf. apply settled_elem. eauto.
    + rewrite Forall_elem_of in Hev. destruct (Hev e Hin Ht) as [r ->]. eauto.
  - apply settled_elem in Hs as (e & Hin & Ht). apply list_elem_of_In in Hin.
    pose proof (List.find_none _ _ E e Hin) as Hn. cbv beta in Hn. rewrite bool_decide_eq_true_2 in Hn by done. done.
Qed.

Lemma await_unsettled c t s : t ∉ settled s -> call_await c t (log s) = Pending.
Proof.
  intros Hs. unfold call_await. destruct (List.find _ (log s)) as [e|] eqn:E; [|done].
  apply List.find_some in E as [Hin Ht]. apply bool_decide_eq_true in Ht. apply list_elem_of_In in Hin.
  destruct Hs. apply settled_elem. eauto.
Qed.

(** C16: Every call of the API is answered.  On a state of the invariant, the command of
    a call with a new oneshot channel is handled without a panic, and after it either
    the caller's await is ready with a result of the call's type and the task owes it
    nothing, or the call is a connect or an accept whose sender the pending map holds.
    All other calls return in the same turn. *)
Theorem calls_answered (cfg : StackConfig) (c : call) (t : token) (s : stack) (Hok : stack_ok s)
  (Hcmd : command_ok s (call_command c t)) (Hfresh : t ∉ tokens s) :
  exists s', handle_command cfg (call_command c t) s = Ret (true, s') /\ stack_ok s' /\
    ((exists r, call_await c t (log s') = Ready r) /\ t ∉ owed (pending s') \/
     may_wait c = true /\ call_await c t (log s') = Pending /\ t ∈ owed (pending s')).
Proof.
  destruct (handle_command_ok cfg (call_command c t) s Hok Hcmd) as (s' & E & Hs').
  exists s'. split_and!; [done..|].
  pose proof (tokens_command _ _ _ _ _ E) as Ht.
  assert (Hc : command_tokens (call_command c t) = {[+ t +]}) by by destruct c. rewrite Hc in Ht.
  unfold tokens in Ht, Hfresh.
  assert (Hf : (t ∉ settled s) /\ (t ∉ owed (pending s))) by (split; multiset_solver).
  destruct (decide (t ∈ settled s')) as [Hin|Hin].
  - left. split; [eapply await_settled; [apply Hf|by eapply call_well_typed|done]|].
    intros Ho. rewrite elem_of_multiplicity in Hin, Ho. apply (f_equal (multiplicity t)) in Ht.
    rewrite !multiplicity_disj_union, multiplicity_singleton, decide_True in Ht by done.
    destruct Hf as [Hf1 Hf2]. rewrite elem_of_multiplicity in Hf1, Hf2. lia.
  - right. assert (Ho : t ∈ owed (pending s')) by multiset_solver.
    split_and!; [|by apply await_unsettled|done].
    destruct (may_wait c) eqn:Hw; [done|]. rewrite (immediate_pending cfg c t s s' true Hw E) in Ho. naive_solver.
Qed.

End Api.

(** ** [TunnelInner::close] *)

Module Closing.

(** Where a caller of [close] is: before the swap of [closed]; after it, when it found
    [false]; after the store to [ipc_dead]; after [child.kill()], in [child.wait()]; after
    the child was reaped; and returned, having done the work or not. *)
Inductive close_pc := Entered | Won | Signalled | Waiting | Reaped | Returned (did_work : bool).

(** [exited]: the child process has ended; [killed] and [reaped] are the children that
    [kill] and [wait] were called on, [aborted] the tasks that were aborted. *)
Record tunnel := MkTunnel {
  closed : bool; ipc_dead : bool; proxy_child : option Z; task_handles : list nat; exited : bool;
  killed : list Z; reaped : list Z; aborted : list nat; callers : list close_pc
}.

(** [setup_stack_from_fd]'s [TunnelInner]. *)
Definition tunnel_new (child : option Z) (tasks : list nat) : tunnel :=
  MkTunnel false false child tasks false [] [] [] [].

(** The statements of [close], one step each; a new call; the IPC tasks, which set
    [ipc_dead] on their own when the connection is lost; and the end of the child, which
    may come at any time and which [wait] waits for.  The guard of [proxy_child] is held
    from [step_kill] to [step_wait]. *)
Inductive close_step : tunnel -> tunnel -> Prop :=
| step_call t :
    close_step t (MkTunnel (closed t) (ipc_dead t) (proxy_child t) (task_handles t) (exited t) (killed t)
                    (reaped t) (aborted t) (callers t ++ [Entered]))
| step_lost t :
    close_step t (MkTunnel (closed t) true (proxy_child t) (task_handles t) (exited t) (killed t)
                    (reaped t) (aborted t) (callers t))
| step_exit t :
    close_step t (MkTunnel (closed t) (ipc_dead t) (proxy_child t) (task_handles t) true (killed t)
                    (reaped t) (aborted t) (callers t))
| step_swap t i : callers t !! i = Some Entered ->
    close_step t (MkTunnel true (ipc_dead t) (proxy_child t) (task_handles t) (exited t) (killed t)
                    (reaped t) (aborted t)
                    (<[i := if closed t then Returned false else Won]> (callers t)))
| step_signal t i : callers t !! i = Some Won ->
    close_step t (MkTunnel (closed t) true (proxy_child t) (task_handles t) (exited t) (killed t)
                    (reaped t) (aborted t) (<[i := Signalled]> (callers t)))
| step_kill t i : callers t !! i = Some Signalled ->
    close_step t (MkTunnel (closed t) (ipc_dead t) (proxy_child t) (task_handles t) (exited t)
                    (killed t ++ option_list (proxy_child t)) (reaped t) (aborted t)
                    (<[i := Waiting]> (callers t)))
| step_wait t i : callers t !! i = Some Waiting -> proxy_child t = None \/ exited t = true ->
    close_step t (MkTunnel (closed t) (ipc_dead t) None (task_handles t) (exited t) (killed t)
                    (reaped t ++ option_list (proxy_child t)) (aborted t)
                    (<[i := Reaped]> (callers t)))
| step_abort t i : callers t !! i = Some Reaped ->
    close_step t (MkTunnel (closed t) (ipc_dead t) (proxy_child t) [] (exited t) (killed t) (reaped t)
                    (aborted t ++ task_handles t) (<[i := Returned true]> (callers t))).

(** How far the one caller that does the work has come. *)
Definition progress (child : option Z) (tasks : list nat) (pc : close_pc) (t : tunnel) : Prop :=
  match pc with
  | Entered | Won => proxy_child t = child /\ killed t = [] /\ reaped t = [] /\
                     task_handles t = tasks /\ aborted t = []
  | Signalled => ipc_dead t = true /\ proxy_child t = child /\ killed t = [] /\ reaped t = [] /\
                 task_handles t = tasks /\ aborted t = []
  | Waiting => ipc_dead t = true /\ proxy_child t = child /\ killed t = option_list child /\ reaped t = [] /\
               task_handles t = tasks /\ aborted t = []
  | Reaped => ipc_dead t = true /\ proxy_child t = None /\ killed t = option_list child /\
              reaped t = option_list child /\ task_handles t = tasks /\ aborted t = []
  | Returned _ => ipc_dead t = true /\ proxy_child t = None /\ killed t = option_list child /\
                  reaped t = option_list child /\ task_handles t = [] /\ aborted t = tasks
  end.

Definition works (pc : close_pc) : bool :=
  match pc with Entered | Returned false => false | _ => true end.

Definition close_ok (child : option Z) (tasks : list nat) (t : tunnel) : Prop :=
  if closed t then
    exists i pc, callers t !! i = Some pc /\ works pc = true /\ progress child tasks pc t /\
      forall j pc', callers t !! j = Some pc' -> works pc' = true -> j = i
  else progress child tasks Entered t /\ forall j pc, callers t !! j = Some pc -> pc = Entered.

(** A statement of the caller that does the work. *)
Lemma worker_moves child tasks t t' i pc pc' :
  close_ok child tasks t -> callers t !! i = Some pc -> works pc = true -> works pc' = true ->
  closed t' = closed t -> callers t' = <[i := pc']> (callers t) ->
  (progress child tasks pc t -> progress child tasks pc' t') -> close_ok child tasks t'.
Proof.
  unfold close_ok. intros Hok Hi Hw Hw' Ec El Hp. rewrite Ec.
  destruct (closed t); [|destruct Hok as [_ Hu]; apply Hu in Hi as ->; done].
  destruct Hok as (i0 & pc0 & Hpc & _ & Hp0 & Hu). assert (i = i0) as -> by by eapply Hu.
  rewrite Hi in Hpc. injection Hpc as <-. exists i0, pc'. rewrite El.
  split_and!; [apply list_lookup_insert_eq; by eapply lookup_lt_Some|done|by apply Hp|].
  intros j q [(-> & _)|[_ Hj]]%list_lookup_insert_Some Hq; [done|by eapply Hu].
Qed.

(** A new caller, and the swap. *)
Lemma close_ok_call child tasks t t' :
  close_ok child tasks t -> callers t' = callers t ++ [Entered] -> closed t' = closed t ->
  (forall pc, progress child tasks pc t -> progress child tasks pc t') -> close_ok child tasks t'.
Proof.
  unfold close_ok. intros Hok El Ec Hp. rewrite Ec, El. destruct (closed t).
  - destruct Hok as (i & pc & Hpc & Hw & Hp0 & Hu). exists i, pc.
    split_and!; [by apply lookup_app_l_Some|done|by apply Hp|].
    intros j pc' [[_ Hj]|[_ <-]]%lookup_snoc_Some Hw'; [by eapply Hu|done].
  - destruct Hok as [Hp0 Hu]. split; [by apply (Hp Entered)|].
    intros j pc [[_ Hj]|[_ <-]]%lookup_snoc_Some; eauto.
Qed.

Lemma close_ok_swap child tasks t t' i :
  close_ok child tasks t -> callers t !! i = Some Entered -> closed t' = true ->
  callers t' = <[i := if closed t then Returned false else Won]> (callers t) ->
  (forall pc, progress child tasks pc t -> progress child tasks pc t') -> close_ok child tasks t'.
Proof.
  unfold close_ok. intros Hok Hi Ec El Hp. rewrite Ec, El. destruct (closed t).
  - destruct Hok as (i0 & pc & Hpc & Hw & Hp0 & Hu).
    assert (i <> i0) by (intros ->; rewrite Hi in Hpc; injection Hpc as <-; done).
    exists i0, pc. split_and!; [by rewrite list_lookup_insert_ne|done|by apply Hp|].
    intros j pc' [(_ & <- & _)|[_ Hj]]%list_lookup_insert_Some Hw'; [done|by eapply Hu].
  - destruct Hok as [Hp0 Hu]. exists i, Won.
    split_and!; [apply list_lookup_insert_eq; by eapply lookup_lt_Some|done|by apply (Hp Entered)|].
    intros j pc' [(-> & _)|[_ Hj]]%list_lookup_insert_Some Hw'; [done|]. by apply Hu in Hj as ->.
Qed.

(** What happens outside the callers. *)
Lemma close_ok_outside child tasks t t' :
  close_ok child tasks t -> callers t' = callers t -> closed t' = closed t ->
  (forall pc, progress child tasks pc t -> progress child tasks pc t') -> close_ok child tasks t'.
Proof.
  unfold close_ok. intros Hok El Ec Hp. rewrite Ec, El. destruct (closed t).
  - destruct Hok as (i & pc & Hpc & Hw & Hp0 & Hu). exists i, pc. split_and!; auto.
  - destruct Hok as [Hp0 Hu]. split; [by apply (Hp Entered)|done].
Qed.

Lemma close_ok_step child tasks t t' : close_ok child tasks t -> close_step t t' -> close_ok child tasks t'.
Proof.
  intros Hok Hst. destruct Hst as [t|t|t|t i Hi|t i Hi|t i Hi|t i Hi _|t i Hi].
  - eapply close_ok_call; [exact Hok|done..].
  - eapply close_ok_outside; [exact Hok|done|done|]. intros []; cbn; naive_solver.
  - eapply close_ok_outside; [exact Hok|done..].
  - eapply close_ok_swap; [exact Hok|exact Hi|done..].
  - eapply (worker_moves _ _ t _ i Won Signalled); [done..|]. cbn. naive_solver.
  - eapply (worker_moves _ _ t _ i Signalled Waiting); [done..|]. cbn. by intros (-> & -> & -> & -> & -> & ->).
  - eapply (worker_moves _ _ t _ i Waiting Reaped); [done..|]. cbn. by intros (-> & -> & -> & -> & -> & ->).
  - eapply (worker_moves _ _ t _ i Reaped (Returned true)); [done..|]. cbn. by intros (-> & -> & -> & -> & -> & ->).
Qed.

Lemma reach_close_ok child tasks t : rtc close_step (tunnel_new child tasks) t -> close_ok child tasks t.
Proof. apply rtc_invariant; [apply close_ok_step|]. by split. Qed.

(** What a caller that has not returned waits for: nothing, or the end of the child it
    has killed. *)
Definition goes_on (t : tunnel) (i : nat) : Prop :=
  exists t', close_step t t' /\ callers t' !! i <> callers t !! i.

Lemma close_not_stuck child tasks t i pc :
  close_ok child tasks t -> callers t !! i = Some pc ->
  (exists b, pc = Returned b) \/ goes_on t i \/
  pc = Waiting /\ killed t = option_list child /\ exited t = false /\
    exists t', close_step t t' /\ callers t' !! i = Some Waiting /\ goes_on t' i.
Proof.
  intros Hok Hi. assert (Hl : (i < length (callers t))%nat) by by eapply lookup_lt_Some.
  unfold goes_on. destruct pc as [| | | | |b]; [right..|by left; eexists].
  1-3,5: left; eexists; (split; [by econstructor|cbn; rewrite list_lookup_insert_eq, Hi by done; by destruct (closed t)]).
  destruct (exited t) eqn:Ex.
  - left. eexists. split; [apply (step_wait t i); auto|]. cbn. by rewrite list_lookup_insert_eq, Hi.
  - right. split; [done|]. split.
    { unfold close_ok in Hok. destruct (closed t); [|destruct Hok as [_ Hu]; by specialize (Hu _ _ Hi)].
      destruct Hok as (i0 & pc0 & Hpc & _ & Hp & Hu). assert (i = i0) as <- by by eapply Hu.
      rewrite Hi in Hpc. injection Hpc as <-. apply Hp. }
    split; [done|]. eexists. split; [apply step_exit|]. split; [done|].
    eexists. split; [apply (step_wait _ i); auto|]. cbn. by rewrite list_lookup_insert_eq, Hi.
Qed.

(** Between the store and the return there is one caller, so that neither lock is contended. *)
Lemma close_alone child tasks t i j pci pcj :
  close_ok child tasks t -> callers t !! i = Some pci -> callers t !! j = Some pcj ->
  works pci = true -> works pcj = true -> i = j.
Proof.
  unfold close_ok. intros Hok Hi Hj Wi Wj. destruct (closed t).
  - destruct Hok as (i0 & pc & _ & _ & _ & Hu). by rewrite (Hu i pci Hi Wi), (Hu j pcj Hj Wj).
  - destruct Hok as [_ Hu]. by rewrite (Hu i pci Hi) in Wi.
Qed.

End Closing.

(** C20: Closing a tunnel, by any number of calls and drops at any time and in every
    interleaving of their statements, with the IPC tasks failing and the child ending at
    any moment: the child process is killed and reaped at most once and every task is
    aborted at most once; the flag is set before either happens, so that the stack task
    sees it, and the child is gone before the tasks are aborted.  At most one caller gets
    past the swap, so no caller waits for a lock; the only thing a caller ever waits for is
    the end of the child it has just killed.  Once every caller (there being one) has
    returned, all of it has happened, exactly once. *)
Theorem close_exactly_once (child : option Z) (tasks : list nat) (t : Closing.tunnel)
  (Hreach : rtc Closing.close_step (Closing.tunnel_new child tasks) t) :
  (Closing.killed t = [] /\ Closing.reaped t = [] /\ Closing.proxy_child t = child \/
   Closing.ipc_dead t = true /\ Closing.killed t = option_list child /\
   (Closing.reaped t = [] /\ Closing.proxy_child t = child \/
    Closing.reaped t = option_list child /\ Closing.proxy_child t = None)) /\
  (Closing.aborted t = [] /\ Closing.task_handles t = tasks \/
   Closing.ipc_dead t = true /\ Closing.proxy_child t = None /\ Closing.killed t = option_list child /\
   Closing.reaped t = option_list child /\ Closing.aborted t = tasks /\ Closing.task_handles t = []) /\
  (forall i j pci pcj, Closing.callers t !! i = Some pci -> Closing.callers t !! j = Some pcj ->
     Closing.works pci = true -> Closing.works pcj = true -> i = j) /\
  (forall i pc, Closing.callers t !! i = Some pc ->
     (exists b, pc = Closing.Returned b) \/ Closing.goes_on t i \/
     pc = Closing.Waiting /\ Closing.killed t = option_list child /\ Closing.exited t = false /\
       exists t', Closing.close_step t t' /\ Closing.callers t' !! i = Some Closing.Waiting /\
         Closing.goes_on t' i) /\
  (Closing.callers t <> [] -> Forall (fun pc => exists b, pc = Closing.Returned b) (Closing.callers t) ->
     Closing.killed t = option_list child /\ Closing.reaped t = option_list child /\ Closing.aborted t = tasks).
Proof.
  apply Closing.reach_close_ok in Hreach as Hok. pose proof Hok as Hok'. unfold Closing.close_ok in Hok.
  split_and!.
  - destruct (Closing.closed t); [destruct Hok as (i & [] & _ & _ & Hp & _)|destruct Hok as [Hp _]];
      cbn in Hp; naive_solver.
  - destruct (Closing.closed t); [destruct Hok as (i & [] & _ & _ & Hp & _)|destruct Hok as [Hp _]];
      cbn in Hp; naive_solver.
  - intros i j pci pcj. by apply (Closing.close_alone child tasks).
  - intros i pc. by apply (Closing.close_not_stuck child tasks).
  - intros Hne Hall. rewrite Forall_lookup in Hall. destruct (Closing.closed t).
    + destruct Hok as (i & pc & Hi & Hw & Hp & _). destruct (Hall i pc Hi) as [b ->].
      cbn in Hp. naive_solver.
    + destruct (Closing.callers t) as [|pc l] eqn:E; [done|]. destruct Hok as [_ Hu].
      rewrite (Hu 0%nat pc eq_refl) in Hall. by destruct (Hall 0%nat _ eq_refl).
Qed.

(** ** Witnesses: the properties at concrete inputs, on the reference instances *)

#[local] Existing Instances Reference.mpsc Reference.mpsc_laws Reference.smoltcp
  Reference.smoltcp_laws Reference.phy Reference.phy_laws.

Lemma ips_command_ok (s : stack) (t : token) :
  command_ok (N:=Reference.smoltcp) s (call_command CallLocalIps t).
Proof. by split. Qed.

Lemma calls_answered_witness :
  exists s', handle_command (N:=Reference.smoltcp) demo_cfg (call_command CallLocalIps 3%nat) demo_init
      = Ret (true, s') /\
    exists r, call_await (N:=Reference.smoltcp) CallLocalIps 3%nat (log s') = Ready r.
Proof.
  destruct (calls_answered (N:=Reference.smoltcp) demo_cfg CallLocalIps 3%nat demo_init demo_init_ok
    (ips_command_ok demo_init 3%nat))
    as (s' & E & _ & [[H _]|[H _]]).
  - unfold tokens, settled. replace (log demo_init) with (@nil event) by by vm_compute.
    replace (pending demo_init) with (∅ : gmap nat PendingOp) by by vm_compute.
    rewrite owed_empty. multiset_solver.
  - by exists s'.
  - discriminate H.
Defined.

Lemma close_exactly_once_witness :
  exists t, rtc Closing.close_step (Closing.tunnel_new (Some 77) [1; 2; 3]%nat) t /\
    Closing.killed t = [77] /\ Closing.reaped t = [77] /\ Closing.aborted t = [1; 2; 3]%nat.
Proof.
  set (ts := [1; 2; 3]%nat).
  set (s1 := Closing.MkTunnel false false (Some 77) ts false [] [] [] [Closing.Entered]).
  set (s2 := Closing.MkTunnel true false (Some 77) ts false [] [] [] [Closing.Won]).
  set (s3 := Closing.MkTunnel true true (Some 77) ts false [] [] [] [Closing.Signalled]).
  set (s4 := Closing.MkTunnel true true (Some 77) ts false [77] [] [] [Closing.Waiting]).
  set (s5 := Closing.MkTunnel true true (Some 77) ts true [77] [] [] [Closing.Waiting]).
  set (s6 := Closing.MkTunnel true true None ts true [77] [77] [] [Closing.Reaped]).
  set (s7 := Closing.MkTunnel true true None [] true [77] [77] ts [Closing.Returned true]).
  assert (H : rtc Closing.close_step (Closing.tunnel_new (Some 77) ts) s7).
  { apply (rtc_l _ _ s1); [exact (Closing.step_call (Closing.tunnel_new (Some 77) ts))|].
    apply (rtc_l _ _ s2); [exact (Closing.step_swap s1 0 eq_refl)|].
    apply (rtc_l _ _ s3); [exact (Closing.step_signal s2 0 eq_refl)|].
    apply (rtc_l _ _ s4); [exact (Closing.step_kill s3 0 eq_refl)|].
    apply (rtc_l _ _ s5); [exact (Closing.step_exit s4)|].
    apply (rtc_l _ _ s6); [exact (Closing.step_wait s5 0 eq_refl (or_intror eq_refl))|].
    apply (rtc_l _ _ s7); [exact (Closing.step_abort s6 0 eq_refl)|]. apply rtc_refl. }
  exists s7. split; [exact H|]. destruct (close_exactly_once (Some 77) [1; 2; 3]%nat _ H) as (_ & _ & _ & _ & Hall).
  apply Hall; [done|]. apply list.Forall_singleton. by eexists.
Defined.
