(* ===== verification/AsyncIo.v ===== *)
(** * Asynchronous stream halves

    tokio's [BufReader] and [BufWriter] over the two halves of the IPC socket are
    not part of the repository: [read_exact], [write_all] and [flush] are
    parameters, with what their documentation promises as laws.  The loop that
    writes one length-prefixed message, which four tasks share, is built on them. *)

From S2P Require Import Prelude Stream Protocol.
#[local] Open Scope Z_scope.

Class AsyncIo := {
  AReader : Type;
  (* the octets still to come, and whether the half is in order *)
  rest : AReader -> bytes;
  aread_exact : nat -> AReader -> result bytes * AReader;
  AWriter : Type;
  (* the octets taken by [write_all] so far, in a buffer or beyond it *)
  taken : AWriter -> bytes;
  awrite_all : bytes -> AWriter -> result unit * AWriter;
  aflush : AWriter -> result unit * AWriter;
}.

Class AsyncIoLaws `{AsyncIo} : Prop := {
  (* read_exact fills the buffer, or fails because the stream ends before *)
  aread_exact_spec : forall n r,
    if decide (n <= length (rest r))%nat
    then exists r', aread_exact n r = (Ok (take n (rest r)), r') /\ rest r' = drop n (rest r)
    else exists e r', aread_exact n r = (Err e, r');
  (* write_all takes all, or fails with a part taken *)
  awrite_all_spec : forall b w,
    match awrite_all b w with
    | (Ok _, w') => taken w' = taken w ++ b
    | (Err _, w') => exists k, taken w' = taken w ++ take k b
    end;
  aflush_spec : forall w, taken (snd (aflush w)) = taken w;
}.

(** A device that never fails, reads at once and writes to memory. *)
Module ReferenceIo.

#[export] Instance io : AsyncIo := {|
  AReader := bytes;
  rest := fun r => r;
  aread_exact := fun n r =>
    if decide (n <= length r)%nat then (Ok (take n r), drop n r)
    else (Err (IoError UnexpectedEof "early eof"), []);
  AWriter := bytes;
  taken := fun w => w;
  awrite_all := fun b w => (Ok (), w ++ b);
  aflush := fun w => (Ok (), w);
|}.

#[export] Instance io_laws : AsyncIoLaws.
Proof. constructor; cbn; [|done..]. intros n r. case_decide; eauto. Qed.

End ReferenceIo.

Section Framed.
Context {A : AsyncIo}.

(** [writer.write_all(&len).await.is_err() || writer.write_all(&msg).await.is_err()]:
    true when both writes succeeded. *)
Definition write_msg (msg : bytes) (w : AWriter) : bool * AWriter :=
  match awrite_all (len_prefix msg) w with
  | (Err _, w1) => (false, w1)
  | (Ok _, w1) =>
      match awrite_all msg w1 with
      | (Err _, w2) => (false, w2)
      | (Ok _, w2) => (true, w2)
      end
  end.

Context {AL : AsyncIoLaws}.

Lemma write_msg_ok msg w w' :
  write_msg msg w = (true, w') -> taken w' = taken w ++ frame_msg msg.
Proof.
  unfold write_msg. pose proof (awrite_all_spec (len_prefix msg) w) as H1.
  destruct (awrite_all (len_prefix msg) w) as [[[]|] w1]; [|done].
  pose proof (awrite_all_spec msg w1) as H2.
  destruct (awrite_all msg w1) as [[[]|] w2]; [|done].
  intros [= <-]. unfold frame_msg. by rewrite H2, H1, <- app_assoc.
Qed.

Lemma frame_msgs_cons m ms : frame_msgs (m :: ms) = frame_msg m ++ frame_msgs ms.
Proof. done. Qed.

Lemma frame_msgs_app ms ms' : frame_msgs (ms ++ ms') = frame_msgs ms ++ frame_msgs ms'.
Proof. unfold frame_msgs. by rewrite fmap_app, concat_app. Qed.

(** The two reads that take one message off a stream of framed messages. *)
Lemma read_msg msg tl r :
  Z.of_nat (length msg) < 2 ^ 32 -> rest r = frame_msg msg ++ tl ->
  exists r1, aread_exact 4 r = (Ok (len_prefix msg), r1) /\
    Z.to_nat (be_val (len_prefix msg)) = length msg /\
    exists r2, aread_exact (length msg) r1 = (Ok msg, r2) /\ rest r2 = tl.
Proof.
  intros Hm Hr. destruct (frame_msg_take msg tl) as [Ht Hd].
  pose proof (aread_exact_spec 4 r) as H1.
  rewrite decide_True in H1
    by (rewrite Hr; unfold frame_msg; rewrite !length_app, length_len_prefix; lia).
  destruct H1 as (r1 & E1 & R1). rewrite Hr, Ht in E1. rewrite Hr, Hd in R1.
  exists r1. split; [done|]. split; [by rewrite len_prefix_val, Nat2Z.id|].
  pose proof (aread_exact_spec (length msg) r1) as H2.
  rewrite R1, decide_True, take_app_length, drop_app_length in H2 by (rewrite length_app; lia).
  destruct H2 as (r2 & E2 & R2). by exists r2.
Qed.

(** A stream that ends inside a message (or between two, when it is empty). *)
Definition incomplete (b : bytes) : Prop :=
  (4 <= length b)%nat -> (length b < 4 + Z.to_nat (be_val (take 4 b)))%nat.

Lemma incomplete_nil : incomplete [].
Proof. unfold incomplete. cbn. lia. Qed.

(** One of the two reads of a message fails there. *)
Lemma read_cut r :
  incomplete (rest r) ->
  (exists e r', aread_exact 4 r = (Err e, r')) \/
  (4 <= length (rest r))%nat /\
  exists r1 e r', aread_exact 4 r = (Ok (take 4 (rest r)), r1) /\
    aread_exact (Z.to_nat (be_val (take 4 (rest r)))) r1 = (Err e, r').
Proof.
  intros Hc. pose proof (aread_exact_spec 4 r) as H1. case_decide as H4; [right|by left].
  destruct H1 as (r1 & E1 & R1). split; [done|]. exists r1.
  pose proof (aread_exact_spec (Z.to_nat (be_val (take 4 (rest r)))) r1) as H2. specialize (Hc H4).
  rewrite decide_False in H2 by (rewrite R1, length_drop; lia). destruct H2 as (e & r' & E2). by exists e, r'.
Qed.

(** Where a stream of messages may be cut: after some of them, and perhaps inside the next. *)
Lemma cut_stream bs x lost :
  Forall (fun b => Z.of_nat (length b) < 2 ^ 32) bs -> x ++ lost = frame_msgs bs ->
  exists bs1 bs2 part, bs = bs1 ++ bs2 /\ x = frame_msgs bs1 ++ part /\ part ++ lost = frame_msgs bs2 /\
    incomplete part /\
    ((4 <= length part)%nat -> exists b, b ∈ bs2 /\ Z.to_nat (be_val (take 4 part)) = length b).
Proof.
  revert x. induction bs as [|b bs IH]; intros x Hlen E.
  { apply app_nil in E as [-> ->]. exists [], [], []. split_and!; try done; [apply incomplete_nil|cbn; lia]. }
  apply Forall_cons_1 in Hlen as [Hb Hlen]. rewrite frame_msgs_cons in E.
  assert (Hl : length (frame_msg b) = (4 + length b)%nat) by (unfold frame_msg; by rewrite length_app, length_len_prefix).
  destruct (decide (length (frame_msg b) <= length x)%nat) as [Hx|Hx].
  - assert (Hd : take (length (frame_msg b)) x = frame_msg b).
    { rewrite <- (take_app_le x lost), E by done. by rewrite take_app_length. }
    assert (E' : x = frame_msg b ++ drop (length (frame_msg b)) x) by (rewrite <- Hd at 1; by rewrite take_drop).
    set (y := drop (length (frame_msg b)) x) in *. clearbody y. subst x. rewrite <- app_assoc in E.
    apply app_inv_head in E. destruct (IH y Hlen E) as (bs1 & bs2 & part & -> & -> & H3 & H4 & H5).
    exists (b :: bs1), bs2, part. rewrite frame_msgs_cons, <- app_assoc. by split_and!.
  - exists [], (b :: bs), x. rewrite frame_msgs_cons.
    assert (Hv : (4 <= length x)%nat -> Z.to_nat (be_val (take 4 x)) = length b).
    { intros H4. destruct (frame_msg_take b (frame_msgs bs)) as [Ht _].
      rewrite <- (take_app_le x lost), E, Ht, len_prefix_val by done. lia. }
    split_and!; try done; [|intros H4; exists b; split; [constructor|auto]].
    intros H4. rewrite Hv by done. lia.
Qed.

End Framed.
