(* ===== verification/Device.v ===== *)
(** * The smoltcp device ([src/stack/device.rs])

    [ProxyDevice] bridges smoltcp to the two frame channels of the IPC tasks. *)

From S2P Require Import Prelude Net Externals Stack StackPoll StackData Socket.
#[local] Open Scope Z_scope.

Section Device.
Context {M : Mpsc}.

Record ProxyDevice := {
  dev_rx : chan bytes; dev_tx : chan bytes; dev_mtu : nat; dev_stats : TunnelStats
}.

(** [ProxyDevice::new] *)
Definition device_new (rx tx : chan bytes) (mtu : nat) (st : TunnelStats) : ProxyDevice :=
  {| dev_rx := rx; dev_tx := tx; dev_mtu := mtu; dev_stats := st |}.

Inductive Medium := Ethernet | MediumIp.
Record DeviceCapabilities := { medium : Medium; max_transmission_unit : nat }.

Definition capabilities (d : ProxyDevice) : DeviceCapabilities :=
  {| medium := Ethernet; max_transmission_unit := dev_mtu d |}.

Definition add_device_rx (st : TunnelStats) : TunnelStats :=
  Build_TunnelStats (ipc_rx_frames st) (ipc_rx_dropped st) (ipc_tx_frames st) (ipc_tx_errors st)
    (bump (device_rx_frames st)) (device_tx_frames st) (device_tx_dropped st)
    (udp_tx_packets st) (udp_tx_failed st) (udp_rx_packets st) (udp_rx_dropped st).
Definition add_device_tx (st : TunnelStats) : TunnelStats :=
  Build_TunnelStats (ipc_rx_frames st) (ipc_rx_dropped st) (ipc_tx_frames st) (ipc_tx_errors st)
    (device_rx_frames st) (bump (device_tx_frames st)) (device_tx_dropped st)
    (udp_tx_packets st) (udp_tx_failed st) (udp_rx_packets st) (udp_rx_dropped st).
Definition add_device_tx_dropped (st : TunnelStats) : TunnelStats :=
  Build_TunnelStats (ipc_rx_frames st) (ipc_rx_dropped st) (ipc_tx_frames st) (ipc_tx_errors st)
    (device_rx_frames st) (device_tx_frames st) (bump (device_tx_dropped st))
    (udp_tx_packets st) (udp_tx_failed st) (udp_rx_packets st) (udp_rx_dropped st).

(** [Device::receive]: the frame in the receive token, if any (the transmit token
    that comes with it only borrows the device). *)
Definition receive (d : ProxyDevice) : option bytes * ProxyDevice :=
  match try_recv (dev_rx d) with
  | (RecvOk frame, rx) =>
      (Some frame, {| dev_rx := rx; dev_tx := dev_tx d; dev_mtu := dev_mtu d;
                      dev_stats := add_device_rx (dev_stats d) |})
  | (RecvEmpty, rx) | (RecvDisconnected, rx) =>
      (None, {| dev_rx := rx; dev_tx := dev_tx d; dev_mtu := dev_mtu d; dev_stats := dev_stats d |})
  end.

(** [Device::transmit]: there is always a token. *)
Definition transmit (d : ProxyDevice) : bool := true.

(** [ProxyRxToken::consume] and [ProxyTxToken::consume]; the closure of the latter
    gets a zeroed buffer of the requested length and returns it filled. *)
Definition rx_consume {R} (frame : bytes) (f : bytes -> R) : R := f frame.

Definition tx_consume {R} (len : nat) (f : bytes -> R * bytes) (d : ProxyDevice) : R * ProxyDevice :=
  let '(res, buffer) := f (replicate len x00) in
  match try_send buffer (dev_tx d) with
  | (SendOk, tx) =>
      (res, {| dev_rx := dev_rx d; dev_tx := tx; dev_mtu := dev_mtu d;
               dev_stats := add_device_tx (dev_stats d) |})
  | (_, tx) =>
      (res, {| dev_rx := dev_rx d; dev_tx := tx; dev_mtu := dev_mtu d;
               dev_stats := add_device_tx_dropped (dev_stats d) |})
  end.

(** Transmit a sequence of frames. *)
Definition tx_frame (d : ProxyDevice) (frame : bytes) : ProxyDevice :=
  snd (tx_consume (length frame) (fun _ => ((), frame)) d).

(** Receive until there is nothing left, at most [n] frames. *)
Fixpoint rx_frames (n : nat) (d : ProxyDevice) : list bytes * ProxyDevice :=
  match n with
  | O => ([], d)
  | S n' =>
      match receive d with
      | (Some f, d') => let '(fs, d'') := rx_frames n' d' in (f :: fs, d'')
      | (None, d') => ([], d')
      end
  end.

Context {ML : MpscLaws}.

Lemma bump_advanced x : advanced x (bump x) 1.
Proof. apply advanced_bump, advanced_0. Qed.

(** How many more frames the transmit queue takes. *)
Definition room (c : chan bytes) : nat :=
  if rx_alive (view c) then cap (view c) - length (items (view c)) else 0.

(** One transmission: the frame is queued and counted as sent when there is room, or
    lost and counted as dropped. *)
Lemma tx_frame_cases d f :
  (if decide (0 < room (dev_tx d))%nat
   then items (view (dev_tx (tx_frame d f))) = items (view (dev_tx d)) ++ [f] /\
        dev_stats (tx_frame d f) = add_device_tx (dev_stats d) /\
        room (dev_tx (tx_frame d f)) = pred (room (dev_tx d))
   else items (view (dev_tx (tx_frame d f))) = items (view (dev_tx d)) /\
        dev_stats (tx_frame d f) = add_device_tx_dropped (dev_stats d) /\
        room (dev_tx (tx_frame d f)) = 0%nat) /\
  dev_rx (tx_frame d f) = dev_rx d.
Proof.
  unfold tx_frame, tx_consume, room. pose proof (try_send_cases f (dev_tx d)) as T.
  destruct (try_send f (dev_tx d)) as [[] tx]; destruct T as [Hv Hr]; cbn; rewrite Hv;
    unfold ChanSpec.reserve, ChanSpec.has_room in Hr; destruct (rx_alive _) eqn:Ha; cbn in Hr |- *;
    try case_bool_decide; try discriminate; rewrite ?Ha.
  - rewrite decide_True, length_app by lia. cbn. split_and!; try done. lia.
  - rewrite decide_False by lia. split_and!; try done. lia.
  - by rewrite decide_False by lia.
Qed.

(** ** Properties *)

(** Device accounting: of any sequence of frames the device transmits, exactly the
    first ones, as many as the queue to the proxy has room for, are queued, in order,
    and advance [device_tx_frames]; all the others (all of them when the IPC writer is
    gone) advance [device_tx_dropped]; the receive side is untouched. *)
Theorem device_tx_accounting (d : ProxyDevice) (frames : list bytes) :
  let d' := foldl tx_frame d frames in
  let sent := take (room (dev_tx d)) frames in
  items (view (dev_tx d')) = items (view (dev_tx d)) ++ sent /\
  advanced (device_tx_frames (dev_stats d)) (device_tx_frames (dev_stats d')) (length sent) /\
  advanced (device_tx_dropped (dev_stats d)) (device_tx_dropped (dev_stats d'))
    (length frames - length sent) /\
  dev_rx d' = dev_rx d.
Proof.
  cbn. revert d. induction frames as [|f fs IH]; intros d; cbn [foldl].
  { rewrite take_nil, app_nil_r. split_and!; auto using advanced_0. }
  destruct (IH (tx_frame d f)) as (H1 & H2 & H3 & H4).
  destruct (tx_frame_cases d f) as [C Crx]. case_decide as Hroom; destruct C as (C1 & C2 & C3);
    rewrite C1, C2, C3, ?Crx in *.
  - destruct (room (dev_tx d)) as [|n]; [lia|]. cbn [pred take length] in *.
    rewrite H1, <- app_assoc. split_and!; try done. by apply advanced_bump.
  - assert (room (dev_tx d) = 0)%nat as -> by lia. rewrite !take_0, app_nil_r in *.
    cbn [length] in *. rewrite Nat.sub_0_r in *. split_and!; try done. by apply advanced_bump.
Qed.

(** Device reception: polling the device drains the frame channel in order,
    each frame counted once, and stops when the channel is empty. *)
Theorem device_rx_drains (n : nat) (d d' : ProxyDevice) (fs : list bytes)
  (Hrun : rx_frames n d = (fs, d')) :
  items (view (dev_rx d)) = fs ++ items (view (dev_rx d')) /\
  advanced (device_rx_frames (dev_stats d)) (device_rx_frames (dev_stats d')) (length fs) /\
  ((length fs < n)%nat -> items (view (dev_rx d')) = []) /\ dev_tx d' = dev_tx d.
Proof.
  revert d fs d' Hrun. induction n as [|n IH]; intros d fs d' Hrun; cbn [rx_frames] in Hrun.
  { injection Hrun as <- <-. split_and!; auto using advanced_0. cbn. lia. }
  unfold receive in Hrun. destruct (try_recv (dev_rx d)) as [[f| |] rx] eqn:E; chan_facts; cbn in Hrun.
  - destruct_and?. destruct (rx_frames n _) as [fs1 d1] eqn:E1.
    destruct (IH _ _ _ E1) as (H1 & H2 & H3 & H4). injection Hrun as <- <-. cbn in *.
    split_and!; [rewrite H; by rewrite H1|by apply advanced_bump|intros; apply H3; lia|done].
  - destruct_and?. injection Hrun as <- <-. cbn. split_and!; auto using advanced_0; congruence.
  - destruct_and?. injection Hrun as <- <-. cbn. split_and!; auto using advanced_0; congruence.
Qed.

End Device.

(** ** Witnesses: the properties at concrete inputs, on the reference instances *)

#[local] Existing Instances Reference.mpsc Reference.mpsc_laws.

Definition demo_queue (l : list bytes) : chan bytes := ChanView l 8 true true.

Lemma device_rx_drains_witness :
  exists d', rx_frames 5 (device_new (demo_queue [[x01]; [x02]]) (demo_queue []) 1514 stats_zero) = ([[x01]; [x02]], d') /\
    advanced 0 (device_rx_frames (dev_stats d')) 2.
Proof.
  destruct (rx_frames 5 (device_new (demo_queue [[x01]; [x02]]) (demo_queue []) 1514 stats_zero)) as [fs d'] eqn:E.
  pose proof (device_rx_drains 5 _ d' fs E) as (H1 & H2 & H3 & _).
  assert (Hf : fs = [[x01]; [x02]]) by (vm_compute in E; by injection E as <- _).
  subst fs. exists d'. split; [done|exact H2].
Defined.

Lemma device_tx_accounting_witness :
  let d := device_new (demo_queue []) (ChanView [[x00]] 2 true true : chan bytes) 1514 stats_zero in
  let d' := foldl tx_frame d [[x01]; [x02]; [x03]] in
  items (view (dev_tx d')) = [[x00]; [x01]] /\ advanced 0 (device_tx_dropped (dev_stats d')) 2.
Proof.
  intros d d'.
  destruct (device_tx_accounting d [[x01]; [x02]; [x03]]) as (H1 & _ & H3 & _).
  split; [exact H1|exact H3].
Defined.
