(* ===== verification/SerdeRef.v ===== *)
(** * A reference serializer

    The laws of [serde_json] (class [SerdeOk]) hold for some serializer: values of
    a countable type are written as the binary digits of their number.  Witnesses
    use it where a property is stated for an arbitrary serializer. *)

From S2P Require Import Prelude Net Stream Protocol.
#[local] Open Scope Z_scope.

Fixpoint bits (p : positive) : bytes :=
  match p with
  | xH => []
  | xO q => x00 :: bits q
  | xI q => x01 :: bits q
  end.

Fixpoint unbits (b : bytes) : positive :=
  match b with
  | [] => xH
  | x :: r => if decide (x = x00) then xO (unbits r) else xI (unbits r)
  end.

Lemma unbits_bits p : unbits (bits p) = p.
Proof. induction p as [p IH|p IH|]; cbn; by rewrite ?IH. Qed.

Section Countable.
Context {T : Type} `{Countable T}.

#[local] Instance serde : Serde T := {|
  to_vec := fun t => inr (bits (encode t));
  from_slice := fun b => match decode (unbits b) with Some t => inr t | None => inl "invalid value" end;
|}.

#[local] Instance serde_ok : SerdeOk T.
Proof. intros t. exists (bits (encode t)). cbn. by rewrite unbits_bits, decode_encode. Qed.

End Countable.

(** ** The protocol's types are countable *)

#[local] Program Instance byte_countable : Countable byte :=
  inj_countable' byte_val byte_of byte_of_val.

#[local] Instance ip_eq : EqDecision IpAddr.
Proof. solve_decision. Defined.
Definition ip_enc (i : IpAddr) : bytes + bytes :=
  match i with V4 a => inl (vec_to_list a) | V6 a => inr (vec_to_list a) end.
Definition ip_dec (s : bytes + bytes) : IpAddr :=
  match s with inl a => V4 (array_of 4 a) | inr a => V6 (array_of 16 a) end.
Lemma ip_dec_enc i : ip_dec (ip_enc i) = i.
Proof. destruct i; unfold ip_dec, ip_enc; by rewrite array_of_array. Qed.
#[local] Instance ip_countable : Countable IpAddr := inj_countable' ip_enc ip_dec ip_dec_enc.

#[local] Instance hello_eq : EqDecision ClientHello.
Proof. solve_decision. Defined.
#[local] Program Instance hello_countable : Countable ClientHello :=
  inj_countable' (fun _ => tt) (fun _ => MkClientHello) _.
Next Obligation. by intros []. Qed.

#[local] Instance config_eq : EqDecision ProxyConfig.
Proof. solve_decision. Defined.
Definition config_enc (c : ProxyConfig) : IpAddr * bytes * Z * Z :=
  (pc_tap_ip c, vec_to_list (pc_tap_mac c), pc_prefix_len c, pc_mtu c).
Definition config_dec (x : IpAddr * bytes * Z * Z) : ProxyConfig :=
  let '(a, b, c, d) := x in Build_ProxyConfig a (array_of 6 b) c d.
Lemma config_dec_enc c : config_dec (config_enc c) = c.
Proof. destruct c. unfold config_dec, config_enc. by rewrite array_of_array. Qed.
#[local] Instance config_countable : Countable ProxyConfig :=
  inj_countable' config_enc config_dec config_dec_enc.

#[local] Instance iface_eq : EqDecision InterfaceStats.
Proof. solve_decision. Defined.
#[local] Program Instance iface_countable : Countable InterfaceStats :=
  inj_countable' (fun s => (rx_bytes s, rx_packets s, rx_errors s, rx_dropped s,
                            tx_bytes s, tx_packets s, tx_errors s, tx_dropped s))
    (fun '(a, b, c, d, e, f, g, h) => Build_InterfaceStats a b c d e f g h) _.
Next Obligation. by intros []. Qed.

#[local] Instance command_eq : EqDecision ProxyCommand.
Proof. solve_decision. Defined.
#[local] Program Instance command_countable : Countable ProxyCommand :=
  inj_countable' (fun c => match c with
      | AddRoute i d p => inl (inl (i, d, p)) | RemoveRoute i d p => inl (inr (i, d, p))
      | GetIfaceStats i => inr i end)
    (fun s => match s with
      | inl (inl (i, d, p)) => AddRoute i d p | inl (inr (i, d, p)) => RemoveRoute i d p
      | inr i => GetIfaceStats i end) _.
Next Obligation. by intros []. Qed.

#[local] Instance response_eq : EqDecision ProxyResponse.
Proof. solve_decision. Defined.
#[local] Program Instance response_countable : Countable ProxyResponse :=
  inj_countable' (fun c => match c with
      | RespOk i => inl (inl i) | RespError i e => inl (inr (i, e)) | RespIfaceStats i m => inr (i, m) end)
    (fun s => match s with
      | inl (inl i) => RespOk i | inl (inr (i, e)) => RespError i e | inr (i, m) => RespIfaceStats i m end) _.
Next Obligation. by intros []. Qed.

Definition hello_serde : Serde ClientHello := serde.
Definition config_serde : Serde ProxyConfig := serde.
Definition command_serde : Serde ProxyCommand := serde.
Definition response_serde : Serde ProxyResponse := serde.

Lemma hello_serde_ok : @SerdeOk _ hello_serde.
Proof. apply serde_ok. Qed.
Lemma config_serde_ok : @SerdeOk _ config_serde.
Proof. apply serde_ok. Qed.
Lemma command_serde_ok : @SerdeOk _ command_serde.
Proof. apply serde_ok. Qed.
Lemma response_serde_ok : @SerdeOk _ response_serde.
Proof. apply serde_ok. Qed.
