(* ===== verification/Ipc.v ===== *)
(** * The IPC tasks of the library ([setup_stack_from_fd] in [src/lib.rs])

    The reader task parses the stream from the proxy: frames go to the device's
    channel, control messages answer the waiters of proxy commands.  The writer
    task batches frames and control messages to the proxy.  One definition models
    one turn of each task's loop; [ipc_reader_run] iterates it. *)

From S2P Require Import Prelude Net Stream Protocol AsyncIo Externals Stack StackPoll StackData.
From S2P Require Import Socket.
#[local] Open Scope Z_scope.

Definition add_ipc_rx (st : TunnelStats) : TunnelStats :=
  Build_TunnelStats (bump (ipc_rx_frames st)) (ipc_rx_dropped st) (ipc_tx_frames st) (ipc_tx_errors st)
    (device_rx_frames st) (device_tx_frames st) (device_tx_dropped st)
    (udp_tx_packets st) (udp_tx_failed st) (udp_rx_packets st) (udp_rx_dropped st).
Definition add_ipc_rx_dropped (st : TunnelStats) : TunnelStats :=
  Build_TunnelStats (ipc_rx_frames st) (bump (ipc_rx_dropped st)) (ipc_tx_frames st) (ipc_tx_errors st)
    (device_rx_frames st) (device_tx_frames st) (device_tx_dropped st)
    (udp_tx_packets st) (udp_tx_failed st) (udp_rx_packets st) (udp_rx_dropped st).
Definition add_ipc_tx (st : TunnelStats) : TunnelStats :=
  Build_TunnelStats (ipc_rx_frames st) (ipc_rx_dropped st) (bump (ipc_tx_frames st)) (ipc_tx_errors st)
    (device_rx_frames st) (device_tx_frames st) (device_tx_dropped st)
    (udp_tx_packets st) (udp_tx_failed st) (udp_rx_packets st) (udp_rx_dropped st).
Definition add_ipc_tx_error (st : TunnelStats) : TunnelStats :=
  Build_TunnelStats (ipc_rx_frames st) (ipc_rx_dropped st) (ipc_tx_frames st) (bump (ipc_tx_errors st))
    (device_rx_frames st) (device_tx_frames st) (device_tx_dropped st)
    (udp_tx_packets st) (udp_tx_failed st) (udp_rx_packets st) (udp_rx_dropped st).

Section Ipc.
Context {M : Mpsc} {A : AsyncIo} {SR : Serde ProxyResponse} {SC : Serde ProxyCommand}.

(** ** Reader *)

(** [ir_pending] is [pending_proxy_responses]; [ir_answers] records the responses
    sent to waiters, oldest first; [ir_dead] is the shared flag [ipc_dead]. *)
Record ipc_reader := MkReader {
  ir_in : AReader; ir_frames : chan bytes; ir_pending : gmap Z token;
  ir_stats : TunnelStats; ir_dead : bool; ir_answers : list (token * ProxyResponse)
}.

(** What one decoded message does; the boolean tells whether the loop goes on. *)
Definition reader_dispatch (body : bytes) (r : AReader) (st : ipc_reader) : bool * ipc_reader :=
  match decode_message body with
  | Ok (Frame frame) =>
      let stats := add_ipc_rx (ir_stats st) in
      match try_send frame (ir_frames st) with
      | (SendOk, c) =>
          (true, MkReader r c (ir_pending st) stats (ir_dead st) (ir_answers st))
      | (SendFull, c) =>
          (true, MkReader r c (ir_pending st) (add_ipc_rx_dropped stats) (ir_dead st) (ir_answers st))
      | (SendClosed, c) =>
          (false, MkReader r c (ir_pending st) stats (ir_dead st) (ir_answers st))
      end
  | Ok (Control payload) =>
      match decode_control (T:=ProxyResponse) payload with
      | Ok resp =>
          match ir_pending st !! resp_id resp with
          | Some tx =>
              (true, MkReader r (ir_frames st) (delete (resp_id resp) (ir_pending st)) (ir_stats st)
                       (ir_dead st) (ir_answers st ++ [(tx, resp)]))
          | None =>
              (true, MkReader r (ir_frames st) (ir_pending st) (ir_stats st) (ir_dead st) (ir_answers st))
          end
      | Err _ =>
          (true, MkReader r (ir_frames st) (ir_pending st) (ir_stats st) (ir_dead st) (ir_answers st))
      end
  | Err _ =>
      (true, MkReader r (ir_frames st) (ir_pending st) (ir_stats st) (ir_dead st) (ir_answers st))
  end.

Definition reader_die (r : AReader) (st : ipc_reader) : ipc_reader :=
  MkReader r (ir_frames st) (ir_pending st) (ir_stats st) true (ir_answers st).

(** One turn of the reader's loop. *)
Definition ipc_reader_iter (st : ipc_reader) : bool * ipc_reader :=
  match aread_exact 4 (ir_in st) with
  | (Err _, r1) => (false, reader_die r1 st)
  | (Ok len_buf, r1) =>
      let msg_len := Z.to_nat (be_val len_buf) in
      match aread_exact msg_len r1 with
      | (Err _, r2) => (false, reader_die r2 st)
      | (Ok body, r2) => reader_dispatch body r2 st
      end
  end.

(** The loop; the boolean tells whether it ended within the fuel. *)
Fixpoint ipc_reader_run (fuel : nat) (st : ipc_reader) : bool * ipc_reader :=
  match fuel with
  | O => (false, st)
  | S fuel' =>
      match ipc_reader_iter st with
      | (true, st') => ipc_reader_run fuel' st'
      | (false, st') => (true, st')
      end
  end.

(** ** Writer *)

Record ipc_writer := MkWriter {
  iw_frames : chan bytes; iw_control : chan bytes; iw_out : AWriter;
  iw_stats : TunnelStats; iw_dead : bool
}.

(** The branch that [select!] takes. *)
Inductive select_branch := FrameBranch | ControlBranch.

(** Drain loops; a failed write leaves the loop, not the task. *)
Fixpoint drain_frames (fuel : nat) (st : ipc_writer) : ipc_writer :=
  match fuel with
  | O => st
  | S fuel' =>
      match try_recv (iw_frames st) with
      | (RecvOk frame, c) =>
          match write_msg (encode_frame frame) (iw_out st) with
          | (true, w) =>
              drain_frames fuel' (MkWriter c (iw_control st) w (add_ipc_tx (iw_stats st)) (iw_dead st))
          | (false, w) => MkWriter c (iw_control st) w (add_ipc_tx_error (iw_stats st)) true
          end
      | (_, c) => MkWriter c (iw_control st) (iw_out st) (iw_stats st) (iw_dead st)
      end
  end.

Fixpoint drain_control (fuel : nat) (st : ipc_writer) : ipc_writer :=
  match fuel with
  | O => st
  | S fuel' =>
      match try_recv (iw_control st) with
      | (RecvOk msg, c) =>
          match write_msg msg (iw_out st) with
          | (true, w) => drain_control fuel' (MkWriter (iw_frames st) c w (iw_stats st) (iw_dead st))
          | (false, w) => MkWriter (iw_frames st) c w (iw_stats st) true
          end
      | (_, c) => MkWriter (iw_frames st) c (iw_out st) (iw_stats st) (iw_dead st)
      end
  end.

(** The rest of a turn after the awaited message. *)
Definition writer_batch (st : ipc_writer) : bool * ipc_writer :=
  let st1 := drain_frames (write_fuel (iw_frames st)) st in
  let st2 := drain_control (write_fuel (iw_control st1)) st1 in
  match aflush (iw_out st2) with
  | (Ok _, w) => (true, MkWriter (iw_frames st2) (iw_control st2) w (iw_stats st2) (iw_dead st2))
  | (Err _, w) => (false, MkWriter (iw_frames st2) (iw_control st2) w (iw_stats st2) true)
  end.

(** One turn of the writer's loop; a branch whose channel is empty is not ready
    and nothing happens. *)
Definition ipc_writer_iter (b : select_branch) (st : ipc_writer) : bool * ipc_writer :=
  match b with
  | FrameBranch =>
      match try_recv (iw_frames st) with
      | (RecvOk frame, c) =>
          match write_msg (encode_frame frame) (iw_out st) with
          | (true, w) =>
              writer_batch (MkWriter c (iw_control st) w (add_ipc_tx (iw_stats st)) (iw_dead st))
          | (false, w) => (false, MkWriter c (iw_control st) w (add_ipc_tx_error (iw_stats st)) true)
          end
      | (RecvEmpty, c) => (true, MkWriter c (iw_control st) (iw_out st) (iw_stats st) (iw_dead st))
      | (RecvDisconnected, c) =>
          (false, MkWriter c (iw_control st) (iw_out st) (iw_stats st) (iw_dead st))
      end
  | ControlBranch =>
      match try_recv (iw_control st) with
      | (RecvOk msg, c) =>
          match write_msg msg (iw_out st) with
          | (true, w) => writer_batch (MkWriter (iw_frames st) c w (iw_stats st) (iw_dead st))
          | (false, w) => (false, MkWriter (iw_frames st) c w (iw_stats st) true)
          end
      | (RecvEmpty, c) => (true, MkWriter (iw_frames st) c (iw_out st) (iw_stats st) (iw_dead st))
      | (RecvDisconnected, c) =>
          (false, MkWriter (iw_frames st) c (iw_out st) (iw_stats st) (iw_dead st))
      end
  end.

(** ** Proxy commands ([send_proxy_command] and its callers) *)

Record requests := MkRequests {
  next_request_id : Z; pending_responses : gmap Z token
}.

(** Up to the send on the control channel: the message to queue. *)
Definition register_command (cmd : ProxyCommand) (t : token) (st : requests)
  : result bytes * requests :=
  let '(id, next) := fetch_add 64 (next_request_id st) 1 in
  let st' := MkRequests next (<[id := t]> (pending_responses st)) in
  (encode_control (set_cmd_id cmd id), st').

(** [control_tx.send(msg).await.map_err(..)?] *)
Definition send_control (msg : bytes) (c : chan bytes) : poll (result unit) * chan bytes :=
  match try_send msg c with
  | (SendOk, c') => (Ready (Ok ()), c')
  | (SendFull, c') => (Pending, c')
  | (SendClosed, c') => (Ready (Err (broken_pipe "IPC writer gone")), c')
  end.

(** [rx.await.map_err(..)] *)
Definition proxy_response (rx : oneshot ProxyResponse) : poll (result ProxyResponse) :=
  match rx with
  | OsWaiting => Pending
  | OsValue r => Ready (Ok r)
  | OsClosed => Ready (Err (broken_pipe "proxy response lost"))
  end.

(** The match at the end of [add_peer_route] and [remove_peer_route], and that of
    [get_iface_stats]. *)
Definition route_result (r : result ProxyResponse) : result unit :=
  match r with
  | Err e => Err e
  | Ok (RespOk _) => Ok ()
  | Ok (RespError _ e) => Err (IoError OtherError e)
  | Ok _ => Err (IoError OtherError "unexpected response")
  end.

Definition stats_result (r : result ProxyResponse) : result (gmap string InterfaceStats) :=
  match r with
  | Err e => Err e
  | Ok (RespIfaceStats _ interfaces) => Ok interfaces
  | Ok (RespError _ e) => Err (IoError OtherError e)
  | Ok _ => Err (IoError OtherError "unexpected response")
  end.

End Ipc.
