(* ===== verification/IpcSpec.v ===== *)
(** * Correctness of the IPC tasks

    The reader of a stream of framed messages delivers exactly those messages,
    however the stream is cut; the writer puts exactly its queues on the wire. *)

From S2P Require Import Prelude Net Stream Protocol AsyncIo Externals Stack StackPoll StackData.
From S2P Require Import Socket Ipc SerdeRef.
#[local] Open Scope Z_scope.

Section IpcSpec.
Context {M : Mpsc} {ML : MpscLaws} {A : AsyncIo} {AL : AsyncIoLaws}
  {SR : Serde ProxyResponse} {SRok : SerdeOk ProxyResponse} {SC : Serde ProxyCommand}.

(** ** Reader *)

(** What the proxy sends, and its encoding. *)
Inductive wire := WFrame (f : bytes) | WResp (r : ProxyResponse).

Definition encodes (w : wire) (b : bytes) : Prop :=
  Z.of_nat (length b) < 2 ^ 32 /\
  match w with
  | WFrame f => b = encode_frame f
  | WResp r => encode_control r = Ok b
  end.

Definition frames_of (ws : list wire) : list bytes :=
  omap (fun w => match w with WFrame f => Some f | _ => None end) ws.
Definition resps_of (ws : list wire) : list ProxyResponse :=
  omap (fun w => match w with WResp r => Some r | _ => None end) ws.

(** The first response to a request. *)
Definition response_to (id : Z) (rs : list ProxyResponse) : option ProxyResponse :=
  List.find (fun r => bool_decide (resp_id r = id)) rs.

Lemma iter_msg b tl st :
  Z.of_nat (length b) < 2 ^ 32 -> rest (ir_in st) = frame_msg b ++ tl ->
  exists r, rest r = tl /\ ipc_reader_iter st = reader_dispatch b r st.
Proof.
  intros Hb Hr. destruct (read_msg b tl (ir_in st) Hb Hr) as (r1 & E1 & En & r2 & E2 & Ht).
  exists r2. split; [done|]. unfold ipc_reader_iter. by rewrite E1, En, E2.
Qed.

Lemma iter_cut st :
  incomplete (rest (ir_in st)) -> exists r, ipc_reader_iter st = (false, reader_die r st).
Proof.
  intros [(e & r & E)|(_ & r1 & e & r & E1 & E2)]%read_cut; exists r; unfold ipc_reader_iter;
    [by rewrite E|by rewrite E1, E2].
Qed.

(** A frame is queued, or dropped because the queue is full; it is counted. *)
Lemma dispatch_frame f r st :
  rx_alive (view (ir_frames st)) = true ->
  exists c stats, reader_dispatch (encode_frame f) r st
    = (true, MkReader r c (ir_pending st) stats (ir_dead st) (ir_answers st)) /\
  cap (view c) = cap (view (ir_frames st)) /\ rx_alive (view c) = true /\
  ((items (view c) = items (view (ir_frames st)) ++ [f] /\ stats = add_ipc_rx (ir_stats st)) \/
   ((cap (view c) <= length (items (view c)))%nat /\ items (view c) = items (view (ir_frames st)) /\
    stats = add_ipc_rx_dropped (add_ipc_rx (ir_stats st)))).
Proof.
  intros Ha. change (encode_frame f) with (MSG_TYPE_FRAME :: f). unfold reader_dispatch.
  change (decode_message (MSG_TYPE_FRAME :: f)) with (Ok (Frame f)). cbv beta iota zeta.
  pose proof (try_send_cases f (ir_frames st)) as T. unfold ChanSpec.reserve, ChanSpec.has_room in T.
  rewrite Ha in T. cbn in T.
  destruct (try_send f (ir_frames st)) as [[] c]; destruct T as [Hv Hr]; case_bool_decide; try done;
    do 2 eexists; (split; [reflexivity|]); rewrite Hv; cbn; split_and!; try done.
  - by left.
  - right. split_and!; try done. lia.
Qed.

Lemma dispatch_resp p b r st :
  encode_control p = Ok b ->
  reader_dispatch b r st =
    (true, MkReader r (ir_frames st)
       (match ir_pending st !! resp_id p with
        | Some _ => delete (resp_id p) (ir_pending st) | None => ir_pending st end)
       (ir_stats st) (ir_dead st)
       (match ir_pending st !! resp_id p with
        | Some t => ir_answers st ++ [(t, p)] | None => ir_answers st end)).
Proof.
  destruct (decode_encode_control p) as (payload & E1 & E2 & E3). rewrite E1. intros [= <-].
  unfold reader_dispatch. rewrite E2, E3. by destruct (ir_pending st !! resp_id p).
Qed.

(** The fate of the waiters after some responses. *)
Definition waiters_post (st st' : ipc_reader) (rs : list ProxyResponse) : Prop :=
  (exists l, ir_answers st' = ir_answers st ++ l) /\
  forall id t, ir_pending st !! id = Some t ->
  match response_to id rs with
  | Some r => ir_pending st' !! id = None /\ (t, r) ∈ ir_answers st'
  | None => ir_pending st' !! id = Some t
  end.

(** The fate of the frames. *)
Definition frames_post (st st' : ipc_reader) (fs : list bytes) : Prop :=
  exists delivered dropped,
    items (view (ir_frames st')) = items (view (ir_frames st)) ++ delivered /\
    delivered `sublist_of` fs /\ length fs = (length delivered + dropped)%nat /\
    advanced (ipc_rx_frames (ir_stats st)) (ipc_rx_frames (ir_stats st')) (length fs) /\
    advanced (ipc_rx_dropped (ir_stats st)) (ipc_rx_dropped (ir_stats st')) dropped /\
    ((length (items (view (ir_frames st))) + length fs <= cap (view (ir_frames st)))%nat ->
     dropped = 0%nat).

Lemma frames_post_nil st st' :
  ir_frames st' = ir_frames st -> ir_stats st' = ir_stats st -> frames_post st st' [].
Proof.
  intros E1 E2. exists [], 0%nat. rewrite E1, E2, app_nil_r.
  split_and!; auto using advanced_0.
Qed.

Lemma frames_post_cons f st st1 st' fs :
  cap (view (ir_frames st1)) = cap (view (ir_frames st)) ->
  (items (view (ir_frames st1)) = items (view (ir_frames st)) ++ [f] /\
   ir_stats st1 = add_ipc_rx (ir_stats st) \/
   (cap (view (ir_frames st1)) <= length (items (view (ir_frames st1))))%nat /\
   items (view (ir_frames st1)) = items (view (ir_frames st)) /\
   ir_stats st1 = add_ipc_rx_dropped (add_ipc_rx (ir_stats st))) ->
  frames_post st1 st' fs -> frames_post st st' (f :: fs).
Proof.
  intros Hc Hcase (dl & dr & H1 & H2 & H3 & H4 & H5 & H6).
  destruct Hcase as [[Hi Hs]|(Hfull & Hi & Hs)]; rewrite Hi, Hs in *.
  - exists (f :: dl), dr. rewrite H1, <- app_assoc. rewrite length_app, Hc in H6.
    split_and!; try done; try (by constructor); try (cbn; lia); [by apply advanced_bump|].
    cbn in *. intros. apply H6. lia.
  - exists dl, (S dr). rewrite Hc in *.
    split_and!; try done; try (by constructor); try (cbn; lia); by apply advanced_bump.
Qed.

Lemma waiters_post_resp p st st1 st' rs :
  ir_pending st1 = (match ir_pending st !! resp_id p with
                    | Some _ => delete (resp_id p) (ir_pending st) | None => ir_pending st end) ->
  ir_answers st1 = (match ir_pending st !! resp_id p with
                    | Some t => ir_answers st ++ [(t, p)] | None => ir_answers st end) ->
  waiters_post st1 st' rs -> ir_pending st' ⊆ ir_pending st1 -> waiters_post st st' (p :: rs).
Proof.
  intros Hp Ha [[l Hl] Hw] Hsub. split.
  { rewrite Hl, Ha. destruct (ir_pending st !! resp_id p); [|eauto]. rewrite <- app_assoc. eauto. }
  intros id t Hid. unfold response_to. cbn [List.find]. case_bool_decide as E.
  - subst id. rewrite Hid in Hp, Ha. split.
    + apply (lookup_weaken_None _ _ _ (lookup_delete_eq (ir_pending st) (resp_id p))). by rewrite <- Hp.
    + rewrite Hl, Ha. set_solver.
  - apply Hw. rewrite Hp. destruct (ir_pending st !! resp_id p); [|done].
    by rewrite lookup_delete_ne.
Qed.

(** The whole run: every message is dispatched, then the end of the stream, which may come
    inside a message. *)
Lemma reader_run_cut ws bs part fuel st :
  Forall2 encodes ws bs -> rest (ir_in st) = frame_msgs bs ++ part -> incomplete part ->
  rx_alive (view (ir_frames st)) = true -> (length bs < fuel)%nat ->
  exists st', ipc_reader_run fuel st = (true, st') /\ ir_dead st' = true /\
    frames_post st st' (frames_of ws) /\ waiters_post st st' (resps_of ws) /\
    ir_pending st' ⊆ ir_pending st.
Proof.
  intros Henc. revert st fuel. induction Henc as [|w b ws bs [Hlen Hw] _ IH];
    intros st fuel Hin Hcut Halive Hfuel; (destruct fuel as [|fuel]; [lia|]); cbn [ipc_reader_run].
  - destruct (iter_cut st) as (r & ->); [by rewrite Hin|]. eexists. split; [reflexivity|]. split; [done|].
    split_and!; [by apply frames_post_nil| |done].
    split; [exists []; by rewrite app_nil_r|done].
  - rewrite frame_msgs_cons, <- app_assoc in Hin. destruct (iter_msg b _ st Hlen Hin) as (r & Hr & ->).
    cbn in Hfuel. destruct w as [f|p].
    + subst b. destruct (dispatch_frame f r st Halive) as (c & stats & -> & Hc & Ha & Hcase).
      destruct (IH (MkReader r c (ir_pending st) stats (ir_dead st) (ir_answers st)) fuel Hr Hcut Ha)
        as (st' & E & Hd & Hf & Hwt & Hs); [lia|].
      exists st'. split_and!; try done. eapply frames_post_cons; [..|exact Hf]; done.
    + rewrite (dispatch_resp p b r st Hw). set (st1 := MkReader _ _ _ _ _ _).
      destruct (IH st1 fuel Hr Hcut Halive) as (st' & E & Hd & Hf & Hwt & Hs); [lia|].
      exists st'. split_and!; try done.
      * eapply waiters_post_resp; [..|exact Hwt|exact Hs]; done.
      * etransitivity; [exact Hs|]. subst st1. cbn. destruct (ir_pending st !! resp_id p); [apply delete_subseteq|done].
Qed.

Lemma reader_run_msgs ws bs fuel st :
  Forall2 encodes ws bs -> rest (ir_in st) = frame_msgs bs ->
  rx_alive (view (ir_frames st)) = true -> (length bs < fuel)%nat ->
  exists st', ipc_reader_run fuel st = (true, st') /\ ir_dead st' = true /\
    frames_post st st' (frames_of ws) /\ waiters_post st st' (resps_of ws) /\
    ir_pending st' ⊆ ir_pending st.
Proof. intros Henc Hin. apply (reader_run_cut ws bs []); [done|by rewrite app_nil_r|apply incomplete_nil]. Qed.

(** ** Writer *)

Lemma drain_frames_spec fuel st :
  (length (items (view (iw_frames st))) < fuel)%nat ->
  let st' := drain_frames fuel st in
  (iw_dead st' = false -> iw_dead st = false) /\
  (iw_dead st' = false ->
     items (view (iw_frames st')) = [] /\ iw_control st' = iw_control st /\
     taken (iw_out st') = taken (iw_out st) ++ frame_msgs (encode_frame <$> items (view (iw_frames st))) /\
     advanced (ipc_tx_frames (iw_stats st)) (ipc_tx_frames (iw_stats st'))
       (length (items (view (iw_frames st))))).
Proof.
  revert st. induction fuel as [|fuel IH]; intros st Hf; [lia|]. cbn [drain_frames].
  destruct (try_recv (iw_frames st)) as [[frame| |] c] eqn:E; chan_facts; destruct_and?; cbn.
  - destruct (write_msg (encode_frame frame) (iw_out st)) as [[] w] eqn:Ew; [|done].
    apply write_msg_ok in Ew. rewrite H in Hf |- *. cbn in Hf.
    destruct (IH (MkWriter c (iw_control st) w (add_ipc_tx (iw_stats st)) (iw_dead st))) as [I1 I2];
      [cbn; lia|]. cbn in I1, I2. split; [done|]. intros Hd. destruct (I2 Hd) as (J1 & J2 & J3 & J4).
    split_and!; [done|done| |by apply advanced_bump].
    rewrite J3, Ew, fmap_cons, frame_msgs_cons. by rewrite <- app_assoc.
  - split; [done|]. intros _. rewrite H1, H, app_nil_r. split_and!; auto using advanced_0.
  - split; [done|]. intros _. rewrite H1, H, app_nil_r. split_and!; auto using advanced_0.
Qed.

Lemma drain_control_spec fuel st :
  (length (items (view (iw_control st))) < fuel)%nat ->
  let st' := drain_control fuel st in
  (iw_dead st' = false -> iw_dead st = false) /\
  (iw_dead st' = false ->
     items (view (iw_control st')) = [] /\ iw_frames st' = iw_frames st /\ iw_stats st' = iw_stats st /\
     taken (iw_out st') = taken (iw_out st) ++ frame_msgs (items (view (iw_control st)))).
Proof.
  revert st. induction fuel as [|fuel IH]; intros st Hf; [lia|]. cbn [drain_control].
  destruct (try_recv (iw_control st)) as [[msg| |] c] eqn:E; chan_facts; destruct_and?; cbn.
  - destruct (write_msg msg (iw_out st)) as [[] w] eqn:Ew; [|done].
    apply write_msg_ok in Ew. rewrite H in Hf |- *. cbn in Hf.
    destruct (IH (MkWriter (iw_frames st) c w (iw_stats st) (iw_dead st))) as [I1 I2];
      [cbn; lia|]. cbn in I1, I2. split; [done|]. intros Hd. destruct (I2 Hd) as (J1 & J2 & J3 & J4).
    split_and!; [done..|]. rewrite J4, Ew, frame_msgs_cons. by rewrite <- app_assoc.
  - split; [done|]. intros _. by rewrite H1, H, app_nil_r.
  - split; [done|]. intros _. by rewrite H1, H, app_nil_r.
Qed.

Lemma writer_batch_spec st st' :
  writer_batch st = (true, st') -> iw_dead st' = false ->
  items (view (iw_frames st')) = [] /\ items (view (iw_control st')) = [] /\
  taken (iw_out st') = taken (iw_out st) ++
    frame_msgs ((encode_frame <$> items (view (iw_frames st))) ++ items (view (iw_control st))) /\
  advanced (ipc_tx_frames (iw_stats st)) (ipc_tx_frames (iw_stats st'))
    (length (items (view (iw_frames st)))).
Proof.
  unfold writer_batch. set (st1 := drain_frames _ st). set (st2 := drain_control _ st1).
  pose proof (drain_frames_spec (write_fuel (iw_frames st)) st (Nat.lt_succ_diag_r _)) as [_ A2].
  pose proof (drain_control_spec (write_fuel (iw_control st1)) st1 (Nat.lt_succ_diag_r _)) as [B1 B2].
  fold st2 in B1, B2. fold st1 in A2. clearbody st2 st1.
  pose proof (aflush_spec (iw_out st2)) as Hf. destruct (aflush (iw_out st2)) as [[[]|] w]; [|done].
  intros [= <-]. cbn in *. intros Hd.
  destruct (B2 Hd) as (H1 & H2 & H3 & H4). destruct (A2 (B1 Hd)) as (G1 & G2 & G3 & G4).
  rewrite H2, H3, Hf, H4, G3, G2, frame_msgs_app, <- app_assoc. done.
Qed.

(** A turn of the writer that goes on. *)
Lemma ipc_writer_iter_ok (b : select_branch) (st st' : ipc_writer)
  (Hrun : ipc_writer_iter b st = (true, st')) (Hdead : iw_dead st' = false)
  (Hready : match b with
            | FrameBranch => items (view (iw_frames st)) <> []
            | ControlBranch => items (view (iw_control st)) <> []
            end) :
  items (view (iw_frames st')) = [] /\ items (view (iw_control st')) = [] /\
  taken (iw_out st') = taken (iw_out st) ++ frame_msgs
    match b with
    | FrameBranch => (encode_frame <$> items (view (iw_frames st))) ++ items (view (iw_control st))
    | ControlBranch => take 1 (items (view (iw_control st))) ++
        (encode_frame <$> items (view (iw_frames st))) ++ drop 1 (items (view (iw_control st)))
    end /\
  advanced (ipc_tx_frames (iw_stats st)) (ipc_tx_frames (iw_stats st'))
    (length (items (view (iw_frames st)))).
Proof.
  destruct b; cbn [ipc_writer_iter] in Hrun.
  - destruct (try_recv (iw_frames st)) as [[frame| |] c] eqn:E; chan_facts; destruct_and?; try done.
    destruct (write_msg (encode_frame frame) (iw_out st)) as [[] w] eqn:Ew; [|done].
    apply write_msg_ok in Ew. destruct (writer_batch_spec _ _ Hrun Hdead) as (H1 & H2 & H3 & H4).
    cbn in *. rewrite H. split_and!; [done|done| |by apply advanced_bump].
    rewrite H3, Ew, fmap_cons, <- app_comm_cons, frame_msgs_cons. by rewrite <- app_assoc.
  - destruct (try_recv (iw_control st)) as [[msg| |] c] eqn:E; chan_facts; destruct_and?; try done.
    destruct (write_msg msg (iw_out st)) as [[] w] eqn:Ew; [|done].
    apply write_msg_ok in Ew. destruct (writer_batch_spec _ _ Hrun Hdead) as (H1 & H2 & H3 & H4).
    cbn [iw_frames iw_control iw_out iw_stats] in *. rewrite H. split_and!; [done|done| |done].
    change (take 1 (msg :: ?l)) with [msg]. change (drop 1 (msg :: ?l)) with l.
    rewrite H3, Ew, <- app_assoc, <- frame_msgs_cons. done.
Qed.

(** ** Properties *)

(** C17: The IPC reader is correct on any stream of well-formed messages, however
    it is cut into reads: the loop ends (at the end of the stream, with the
    [ipc_dead] flag set); every frame is counted, and is queued for the device in
    order unless the queue was full, in which case it is counted as dropped, and
    none is dropped when there is room; every waiter whose request was answered got
    the first response with its id, and all other waiters are still registered,
    unanswered, although the proxy is gone. *)
Theorem ipc_reader_delivers (ws : list wire) (bs : list bytes) (fuel : nat) (st : ipc_reader)
  (Henc : Forall2 encodes ws bs) (Hin : rest (ir_in st) = frame_msgs bs)
  (Halive : rx_alive (view (ir_frames st)) = true) (Hfuel : (length bs < fuel)%nat) :
  exists st', ipc_reader_run fuel st = (true, st') /\ ir_dead st' = true /\
    frames_post st st' (frames_of ws) /\ waiters_post st st' (resps_of ws).
Proof.
  destruct (reader_run_msgs ws bs fuel st Henc Hin Halive Hfuel) as (st' & E & H1 & H2 & H3 & _).
  by exists st'.
Qed.

(** A turn of the IPC writer that does not lose the proxy empties both queues
    onto the wire: first the awaited message, then all queued frames, then all
    queued control messages, each length-prefixed and in order; the frames, and
    nothing else, are counted. *)
Theorem ipc_writer_batches (b : select_branch) (st st' : ipc_writer)
  (Hrun : ipc_writer_iter b st = (true, st')) (Hdead : iw_dead st' = false)
  (Hready : match b with
            | FrameBranch => items (view (iw_frames st)) <> []
            | ControlBranch => items (view (iw_control st)) <> []
            end) :
  items (view (iw_frames st')) = [] /\ items (view (iw_control st')) = [] /\
  taken (iw_out st') = taken (iw_out st) ++ frame_msgs
    match b with
    | FrameBranch => (encode_frame <$> items (view (iw_frames st))) ++ items (view (iw_control st))
    | ControlBranch => take 1 (items (view (iw_control st))) ++
        (encode_frame <$> items (view (iw_frames st))) ++ drop 1 (items (view (iw_control st)))
    end /\
  advanced (ipc_tx_frames (iw_stats st)) (ipc_tx_frames (iw_stats st'))
    (length (items (view (iw_frames st)))).
Proof. by apply ipc_writer_iter_ok. Qed.

End IpcSpec.

(** ** Witnesses: the properties at concrete inputs, on the reference instances *)

#[local] Existing Instances Reference.mpsc Reference.mpsc_laws ReferenceIo.io ReferenceIo.io_laws
  response_serde response_serde_ok command_serde.

Definition demo_queue (l : list bytes) : chan bytes := ChanView l 8 true true.

(** The encoding of a response of the reference serializer. *)
Definition demo_resp : bytes :=
  match encode_control (RespOk 1) with Ok b => b | Err _ => [] end.

Definition demo_reader : ipc_reader :=
  MkReader (frame_msgs [encode_frame [xaa]; demo_resp] : AReader) (demo_queue [])
    {[1 := 7%nat; 2 := 8%nat]} stats_zero false [].

Lemma ipc_reader_delivers_witness :
  exists st', ipc_reader_run 3 demo_reader = (true, st') /\ ir_dead st' = true /\
    frames_post demo_reader st' [[xaa]] /\ waiters_post demo_reader st' [RespOk 1].
Proof.
  apply (ipc_reader_delivers [WFrame [xaa]; WResp (RespOk 1)] [encode_frame [xaa]; demo_resp] 3
    demo_reader); [|reflexivity|reflexivity|cbn; lia].
  constructor; [split; reflexivity|]. constructor; [|constructor]. split; [|reflexivity].
  vm_compute. reflexivity.
Defined.

Definition demo_writer : ipc_writer :=
  MkWriter (demo_queue [[xaa]; [xbb]]) (demo_queue [[x00; x11]]) ([] : AWriter) stats_zero false.

Lemma ipc_writer_batches_witness :
  exists st', ipc_writer_iter FrameBranch demo_writer = (true, st') /\
    taken (iw_out st') = frame_msgs [[x01; xaa]; [x01; xbb]; [x00; x11]].
Proof.
  destruct (ipc_writer_iter FrameBranch demo_writer) as [go st'] eqn:E.
  assert (go = true /\ iw_dead st' = false) as [-> Hd]
    by (vm_compute in E; by injection E as <- <-).
  exists st'. split; [done|].
  destruct (ipc_writer_batches FrameBranch demo_writer st' E Hd ltac:(done)) as (_ & _ & H & _).
  exact H.
Defined.
