(* ===== verification/ProcNet.v ===== *)
(** * Interface statistics ([read_proc_net_dev] of [proxy/src/main.rs])

    The parser of [/proc/net/dev], and that it recovers the statistics from a file
    in the kernel's format. *)

From Stdlib Require Import Ascii.
From S2P Require Import Prelude Net Stream Protocol Text.
#[local] Open Scope Z_scope.

(** [parts[i].parse().unwrap_or(0)], for an index below [parts.len()]. *)
Definition field (parts : list text) (i : nat) : Z :=
  default 0 (parts !! i ≫= parse_uint 64).

Definition add_line (stats : gmap string InterfaceStats) (line : text)
  : gmap string InterfaceStats :=
  let parts := split_whitespace line in
  if decide (13 <= length parts)%nat then
    let iface := trim_end_matches ":"%char (default [] (parts !! 0%nat)) in
    <[String.string_of_list_ascii iface := {|
        rx_bytes := field parts 1; rx_packets := field parts 2;
        rx_errors := field parts 3; rx_dropped := field parts 4;
        tx_bytes := field parts 9; tx_packets := field parts 10;
        tx_errors := field parts 11; tx_dropped := field parts 12 |}]> stats
  else stats.

(** The argument is the outcome of [read_to_string("/proc/net/dev")]. *)
Definition read_proc_net_dev (content : result text) : result (gmap string InterfaceStats) :=
  match content with
  | Err e => Err e
  | Ok content => Ok (foldl add_line ∅ (drop 2 (lines content)))
  end.

(** ** The kernel's format

    Two header lines, then per interface a line that the kernel prints with
    ["%6s: %7llu %7llu %4llu %4llu %4llu %5llu %10llu %9llu "] and
    ["%8llu %7llu %4llu %4llu %4llu %5llu %7llu %10llu\n"]: the name, a colon and sixteen
    counters, each padded on the left to the width of its column. *)

Record dev_line := {
  dl_name : text; dl_stats : InterfaceStats;
  dl_rx_other : list Z;  (* fifo, frame, compressed, multicast *)
  dl_tx_other : list Z;  (* fifo, colls, carrier, compressed *)
}.

Definition space : ascii := " "%char.

Definition counters (d : dev_line) : list Z :=
  [rx_bytes (dl_stats d); rx_packets (dl_stats d); rx_errors (dl_stats d); rx_dropped (dl_stats d)]
  ++ dl_rx_other d ++
  [tx_bytes (dl_stats d); tx_packets (dl_stats d); tx_errors (dl_stats d); tx_dropped (dl_stats d)]
  ++ dl_tx_other d.

Definition pad_left (width : nat) (s : text) : text := replicate (width - length s) space ++ s.

Definition column_widths : list nat := [7; 7; 4; 4; 4; 5; 10; 9; 8; 7; 4; 4; 4; 5; 7; 10]%nat.

Definition column (width : nat) (n : Z) : text := space :: pad_left width (print_uint n).

Definition render_line (d : dev_line) : text :=
  pad_left 6 (dl_name d) ++ [":"%char] ++ concat (zip_with column column_widths (counters d)).

Definition render (h1 h2 : text) (ds : list dev_line) : text :=
  concat ((fun l => l ++ [newline]) <$> ([h1; h2] ++ (render_line <$> ds))).

Definition plain (s : text) : Prop := Forall (fun c => is_whitespace c = false) s.

(** A line of text: blanks are spaces. *)
Definition printable (s : text) : Prop :=
  Forall (fun c => is_whitespace c = false \/ c = space) s.

Definition dev_line_ok (d : dev_line) : Prop :=
  plain (dl_name d) /\ (exists n c, dl_name d = n ++ [c] /\ c <> ":"%char) /\
  length (dl_rx_other d) = 4%nat /\ length (dl_tx_other d) = 4%nat /\
  Forall (fits 64) (counters d).

Definition key (d : dev_line) : string := String.string_of_list_ascii (dl_name d).

(** ** Lemmas *)

Lemma words_plain cur s tl :
  plain s -> words cur (s ++ tl) = words (reverse s ++ cur) tl.
Proof.
  revert cur. induction s as [|c s IH]; intros cur Hs; [done|].
  apply Forall_cons_1 in Hs as [Hc Hs]. cbn [app words]. rewrite Hc, IH by done.
  by rewrite reverse_cons, <- app_assoc.
Qed.

Lemma words_space cur tl :
  words cur (space :: tl) = (if decide (cur = []) then [] else [reverse cur]) ++ words [] tl.
Proof. cbn. by case_decide. Qed.

Lemma words_spaces n tl : words [] (replicate n space ++ tl) = words [] tl.
Proof. induction n as [|n IH]; [done|]. cbn [replicate app]. by rewrite words_space. Qed.

Lemma print_plain n : 0 <= n -> plain (print_uint n).
Proof.
  intros Hn. apply print_chars; [lia|done|]. intros d Hd. apply digit_char_plain.
  unfold in_radix in *. lia.
Qed.

Lemma print_nonempty n : 0 <= n -> print_uint n <> [].
Proof. by apply print_radix_nonempty. Qed.

Lemma words_columns cur ws cs :
  cur <> [] -> length ws = length cs -> Forall (fits 64) cs ->
  words cur (concat (zip_with column ws cs)) = reverse cur :: (print_uint <$> cs).
Proof.
  revert cur ws. induction cs as [|n cs IH]; intros cur [|w ws] Hc Hl Hcs; try done.
  { cbn. by rewrite decide_False. }
  apply Forall_cons_1 in Hcs as [[Hn _] Hcs]. injection Hl as Hl. cbn [zip_with concat].
  unfold column at 1, pad_left. rewrite <- app_comm_cons, words_space.
  rewrite decide_False by done. cbn [app]. f_equal. rewrite <- app_assoc, words_spaces.
  rewrite words_plain by by apply print_plain. rewrite app_nil_r, IH; [|..|done|done].
  - by rewrite reverse_involutive.
  - intros E. apply (f_equal reverse) in E. rewrite reverse_involutive in E.
    by apply (print_nonempty n Hn).
Qed.

Lemma length_counters d : dev_line_ok d -> length (counters d) = 16%nat.
Proof. intros (_ & _ & H4 & H4' & _). unfold counters. by rewrite !length_app, H4, H4'. Qed.

Lemma render_words d :
  dev_line_ok d ->
  split_whitespace (render_line d) = (dl_name d ++ [":"%char]) :: (print_uint <$> counters d).
Proof.
  intros Hd. pose proof (length_counters d Hd) as Hl. destruct Hd as (Hp & _ & _ & _ & Hc).
  unfold split_whitespace, render_line, pad_left. rewrite <- app_assoc, words_spaces.
  rewrite app_assoc, words_plain by (apply Forall_app; split; [done|repeat constructor]).
  rewrite app_nil_r, words_columns; [by rewrite reverse_involutive| |by rewrite Hl|done].
  rewrite reverse_app. done.
Qed.

Lemma trim_name d :
  dev_line_ok d -> trim_end_matches ":"%char (dl_name d ++ [":"%char]) = dl_name d.
Proof.
  intros (_ & (n & c & -> & Hc) & _). unfold trim_end_matches.
  rewrite (reverse_snoc (n ++ [c])), (reverse_snoc n). cbn [drop_char].
  rewrite decide_True, decide_False by done. by rewrite reverse_cons, reverse_involutive.
Qed.

Lemma field_print cs i n name :
  Forall (fits 64) cs -> cs !! i = Some n -> field (name :: (print_uint <$> cs)) (S i) = n.
Proof.
  intros Hcs Hi. unfold field. change ((name :: ?l) !! S i) with (l !! i).
  rewrite list_lookup_fmap, Hi. cbn [fmap option_fmap option_map mbind option_bind].
  rewrite parse_print_uint; [done| |done]. rewrite Forall_lookup in Hcs. by apply (Hcs i).
Qed.

Lemma add_line_render stats d :
  dev_line_ok d -> add_line stats (render_line d) = <[key d := dl_stats d]> stats.
Proof.
  intros Hd. unfold add_line. rewrite render_words by done.
  pose proof Hd as (_ & _ & H4 & H4' & Hc).
  pose proof (length_counters d Hd) as Hl.
  rewrite decide_True by (cbn [length]; rewrite length_fmap, Hl; lia). cbn [lookup list_lookup default from_option id].
  change (default [] (((dl_name d ++ [":"%char]) :: (print_uint <$> counters d)) !! 0%nat))
    with (dl_name d ++ [":"%char]).
  rewrite trim_name by done. unfold key. f_equal.
  pose proof (fun i n => field_print (counters d) i n (dl_name d ++ [":"%char]) Hc) as Hfield.
  set (parts := (dl_name d ++ [":"%char]) :: (print_uint <$> counters d)) in *. clearbody parts.
  destruct d as [name [a b c e f g h i] ro to]. cbn in H4.
  destruct ro as [|r1 [|r2 [|r3 [|r4 [|]]]]]; try discriminate H4.
  cbn [dl_stats]. f_equal; apply Hfield; reflexivity.
Qed.

Lemma lines_from_line cur l tl :
  Forall (fun c => c <> newline) l ->
  lines_from cur (l ++ newline :: tl) = strip_cr (reverse cur ++ l) :: lines_from [] tl.
Proof.
  revert cur. induction l as [|c l IH]; intros cur Hl; cbn [app lines_from].
  - by rewrite decide_True, app_nil_r.
  - apply Forall_cons_1 in Hl as [Hc Hl]. rewrite decide_False, IH by done.
    by rewrite reverse_cons, <- app_assoc.
Qed.

Lemma lines_render ls :
  Forall (fun l => Forall (fun c => c <> newline) l /\ strip_cr l = l) ls ->
  lines (concat ((fun l => l ++ [newline]) <$> ls)) = ls.
Proof.
  unfold lines. induction ls as [|l ls IH]; intros H; [done|].
  apply Forall_cons_1 in H as [[H1 H2] H]. rewrite fmap_cons, concat_cons, <- app_assoc. cbn [app].
  rewrite lines_from_line, IH by done. cbn. by rewrite H2.
Qed.

Lemma plain_no_newline l :
  printable l -> Forall (fun c => c <> newline) l.
Proof. apply Forall_impl. intros c [H| ->]; [|done]. intros ->. done. Qed.

Lemma plain_strip_cr l :
  printable l -> strip_cr l = l.
Proof.
  intros H. unfold strip_cr. destruct (reverse l) as [|c r] eqn:E; [done|].
  rewrite decide_False; [done|]. intros ->.
  unfold printable in H. rewrite Forall_elem_of in H. destruct (H carriage_return) as [Hc|Hc]; [|discriminate Hc..].
  apply elem_of_reverse. rewrite E. by left.
Qed.

Lemma render_line_chars d :
  dev_line_ok d -> printable (render_line d).
Proof.
  intros (Hp & _ & _ & _ & Hc). unfold render_line, pad_left.
  assert (Hpad : forall n, printable (replicate n space)) by (intros n; apply Forall_replicate; by right).
  unfold printable in *. rewrite !Forall_app. split_and!; [done|..].
  - eapply Forall_impl; [|exact Hp]. auto.
  - repeat constructor.
  - generalize column_widths. induction Hc as [|n cs [Hn _] _ IH]; intros [|w ws]; cbn [zip_with concat]; try constructor.
    { by right. }
    unfold pad_left. rewrite !Forall_app. split_and!; [done| |apply IH].
    eapply Forall_impl; [|by apply print_plain]. auto.
Qed.

Lemma fold_lines stats ds :
  Forall dev_line_ok ds ->
  foldl add_line stats (render_line <$> ds)
  = foldl (fun m d => <[key d := dl_stats d]> m) stats ds.
Proof.
  intros H. revert stats. induction H as [|d ds Hd _ IH]; intros stats; [done|].
  cbn. rewrite add_line_render by done. apply IH.
Qed.

Lemma fold_insert_lookup (ds : list dev_line) (m : gmap string InterfaceStats) d :
  NoDup (key <$> ds) -> d ∈ ds ->
  foldl (fun m d => <[key d := dl_stats d]> m) m ds !! key d = Some (dl_stats d).
Proof.
  assert (Hkeep : forall ds (m : gmap string InterfaceStats) k, k ∉ key <$> ds ->
    foldl (fun m d => <[key d := dl_stats d]> m) m ds !! k = m !! k).
  { clear. induction ds as [|d ds IH]; intros m k Hk; [done|]. cbn in Hk |- *.
    rewrite IH by set_solver. rewrite lookup_insert_ne; [done|]. set_solver. }
  revert m. induction ds as [|x ds IH]; intros m Hnd Hin; [by apply elem_of_nil in Hin|].
  cbn in Hnd |- *. apply list.NoDup_cons in Hnd as [Hx Hnd].
  apply elem_of_cons in Hin as [->|Hin]; [|by apply IH].
  rewrite Hkeep by done. apply lookup_insert_eq.
Qed.

(** ** Properties *)

(** C39: Interface statistics: from a file that the kernel prints for [/proc/net/dev] (two
    header lines; per interface its name padded to six characters, a colon and sixteen
    64-bit counters, each padded to the width of its column), the parser recovers for
    every interface exactly its receive and transmit counters, and finds no other
    interface. *)
Theorem proc_net_dev_parsed (h1 h2 : text) (ds : list dev_line)
  (Hh1 : printable h1) (Hh2 : printable h2) (Hds : Forall dev_line_ok ds) (Hnames : NoDup (key <$> ds)) :
  exists m, read_proc_net_dev (Ok (render h1 h2 ds)) = Ok m /\
    (forall d, d ∈ ds -> m !! key d = Some (dl_stats d)) /\
    (forall k, is_Some (m !! k) -> k ∈ key <$> ds).
Proof.
  eexists. split; [reflexivity|]. unfold render.
  assert (Hl : lines (concat ((fun l => l ++ [newline]) <$> ([h1; h2] ++ (render_line <$> ds))))
    = [h1; h2] ++ (render_line <$> ds)).
  { apply lines_render. repeat (constructor; [split; [apply plain_no_newline|apply plain_strip_cr]; auto|]).
    apply Forall_fmap. eapply Forall_impl; [|exact Hds]. intros d Hd. apply render_line_chars in Hd.
    split; [by apply plain_no_newline|by apply plain_strip_cr]. }
  rewrite Hl. change (drop 2 ([h1; h2] ++ ?l)) with l. rewrite fold_lines by done. split.
  - intros d Hd. by apply fold_insert_lookup.
  - clear. assert (H : forall (m : gmap string InterfaceStats) k, is_Some (foldl (fun m d => <[key d := dl_stats d]> m) m ds !! k) ->
      is_Some (m !! k) \/ k ∈ key <$> ds).
    { induction ds as [|d ds IH]; intros m k Hk; [by left|]. cbn in Hk |- *.
      apply IH in Hk as [Hk|Hk]; [|set_solver]. rewrite lookup_insert in Hk.
      case_decide; [set_solver|by left]. }
    intros k [[x Hx]|]%H; [by rewrite lookup_empty in Hx|done].
Qed.

(** ** Witness *)

Definition demo_line : dev_line := {|
  dl_name := ["e"; "t"; "h"; "0"]%char;
  dl_stats := Build_InterfaceStats 1500 12 0 1 900 8 0 0;
  dl_rx_other := [0; 0; 0; 3]; dl_tx_other := [0; 0; 0; 0]
|}.

(** The line as the kernel prints it. *)
Example demo_line_text : String.string_of_list_ascii (render_line demo_line) =
  "  eth0:    1500      12    0    1    0     0          0         3      900       8    0    0    0     0       0          0"%string.
Proof. vm_compute. reflexivity. Qed.

Lemma proc_net_dev_parsed_witness :
  exists m, read_proc_net_dev (Ok (render [] ["|"; " "; "b"]%char [demo_line])) = Ok m /\
    m !! "eth0"%string = Some (Build_InterfaceStats 1500 12 0 1 900 8 0 0).
Proof.
  destruct (proc_net_dev_parsed [] ["|"; " "; "b"]%char [demo_line]) as (m & E & H & _).
  - constructor.
  - repeat (constructor; [by (left + right)|]). constructor.
  - constructor; [|constructor]. split_and!; try done.
    + repeat constructor.
    + exists ["e"; "t"; "h"]%char, "0"%char. done.
    + repeat (constructor; [done|]). constructor.
  - cbn. apply NoDup_singleton.
  - exists m. split; [exact E|]. apply (H demo_line). by left.
Defined.
