(* ===== verification/Relay.v ===== *)
(** * The proxy ([proxy/src/main.rs], [proxy/src/route.rs])

    Route management, proxy commands, the gratuitous ARP frame, and the three tasks
    of [run_frame_relay]: TAP to channel, channel to IPC, IPC to TAP. *)

From S2P Require Import Prelude Net Stream Protocol AsyncIo Externals Stack StackPoll StackData.
From S2P Require Import Socket Text ProcNet.
#[local] Open Scope Z_scope.

(** ** rtnetlink

    The crate and the kernel behind it are parameters: looking up a link (the
    first answer, if any), adding and deleting a route. *)

Record RouteMessage := { rm_destination : IpAddr; rm_prefix_len : Z; rm_output_interface : Z }.

Class Rtnetlink := {
  Kernel : Type;
  link_get : string -> Kernel -> string + option Z;
  route_add : RouteMessage -> Kernel -> option string * Kernel;
  route_del : RouteMessage -> Kernel -> option string * Kernel;
}.

(** The TAP character device: each [write_all] is one frame; one of an empty buffer
    writes nothing, and neither does one that fails ([AsyncFd] proves this of the
    wrapper that the relay writes through). *)
Class TapDevice := {
  Tap : Type;
  tap_frames : Tap -> list bytes;
  tap_write_all : bytes -> Tap -> result unit * Tap;
}.

Definition written_frames (fs : list bytes) : list bytes := filter (fun f => f <> []) fs.

Class TapLaws `{TapDevice} : Prop :=
  tap_write_spec : forall f t,
    match tap_write_all f t with
    | (Ok _, t') => tap_frames t' = tap_frames t ++ written_frames [f]
    | (Err _, t') => tap_frames t' = tap_frames t
    end.

(** A kernel with one link, and a device that takes every frame. *)
Module ReferenceProxy.

#[local] Instance route_eq_dec : EqDecision RouteMessage.
Proof. solve_decision. Defined.

#[export] Instance rtnetlink : Rtnetlink := {|
  Kernel := list RouteMessage;
  link_get := fun name _ => inr (if decide (name = "tap0"%string) then Some 5 else None);
  route_add := fun m k => if decide (m ∈ k) then (Some "File exists"%string, k) else (None, k ++ [m]);
  route_del := fun m k =>
    if decide (m ∈ k) then (None, filter (fun x => x <> m) k) else (Some "No such process"%string, k);
|}.

#[export] Instance tap : TapDevice := {|
  Tap := list bytes;
  tap_frames := fun t => t;
  tap_write_all := fun f t => (Ok (), t ++ written_frames [f]);
|}.

#[export] Instance tap_laws : TapLaws.
Proof. done. Qed.

End ReferenceProxy.

Section Relay.
Context {M : Mpsc} {A : AsyncIo} {RT : Rtnetlink} {TD : TapDevice}
  {SR : Serde ProxyResponse} {SC : Serde ProxyCommand}.

(** ** Routes *)

Definition get_link_index (iface_name : string) (k : Kernel) : result Z :=
  match link_get iface_name k with
  | inl e => Err (IoError OtherError ("failed to query link " +:+ iface_name +:+ ": " +:+ e)%string)
  | inr None => Err (IoError NotFound ("interface " +:+ iface_name +:+ " not found")%string)
  | inr (Some index) => Ok index
  end.

Definition add_route (iface_name : string) (dest : IpAddr) (prefix_len : Z) (k : Kernel)
  : result unit * Kernel :=
  match get_link_index iface_name k with
  | Err e => (Err e, k)
  | Ok index =>
      match route_add {| rm_destination := dest; rm_prefix_len := prefix_len;
                         rm_output_interface := index |} k with
      | (None, k') => (Ok (), k')
      | (Some e, k') => (Err (IoError OtherError ("failed to add route: " +:+ e)%string), k')
      end
  end.

Definition remove_route (iface_name : string) (dest : IpAddr) (prefix_len : Z) (k : Kernel)
  : result unit * Kernel :=
  match get_link_index iface_name k with
  | Err e => (Err e, k)
  | Ok index =>
      match route_del {| rm_destination := dest; rm_prefix_len := prefix_len;
                         rm_output_interface := index |} k with
      | (None, k') => (Ok (), k')
      | (Some e, k') => (Err (IoError OtherError ("failed to delete route: " +:+ e)%string), k')
      end
  end.

(** ** Commands; [proc] is the outcome of reading [/proc/net/dev] *)

Definition handle_proxy_command (proc : result text) (cmd : ProxyCommand) (iface_name : string)
    (k : Kernel) : ProxyResponse * Kernel :=
  match cmd with
  | AddRoute id destination prefix_len =>
      match add_route iface_name destination prefix_len k with
      | (Ok _, k') => (resp_ok id, k')
      | (Err e, k') => (resp_error id (emsg e), k')
      end
  | RemoveRoute id destination prefix_len =>
      match remove_route iface_name destination prefix_len k with
      | (Ok _, k') => (resp_ok id, k')
      | (Err e, k') => (resp_error id (emsg e), k')
      end
  | GetIfaceStats id =>
      match read_proc_net_dev proc with
      | Ok interfaces => (RespIfaceStats id interfaces, k)
      | Err e => (resp_error id (emsg e), k)
      end
  end.

(** ** Gratuitous ARP *)

Definition build_gratuitous_arp (sender_mac : array 6) (sender_ip : array 4) (target_mac : array 6)
  : bytes :=
  vec_to_list target_mac ++ vec_to_list sender_mac ++ [x08; x06] ++
  [x00; x01] ++ [x08; x00] ++ [x06] ++ [x04] ++ [x00; x02] ++
  vec_to_list sender_mac ++ vec_to_list sender_ip ++ vec_to_list target_mac ++
  vec_to_list sender_ip.

Definition broadcast_mac : array 6 := [# xff; xff; xff; xff; xff; xff].

(** ** Task 1: TAP reader *)

Definition PROXY_FRAME_CHANNEL_CAPACITY : nat := 4096.

Inductive task_step (St : Type) :=
| Go (st : St)
| Done (r : result unit) (st : St)
| Blocked (st : St).
#[global] Arguments Go {St} st.
#[global] Arguments Done {St} r st.
#[global] Arguments Blocked {St} st.

(** One turn: [got] is the outcome of [tap_reader.read]; the state is the channel
    and the number of dropped frames. *)
Definition tap_reader_iter (p : profile) (got : result bytes) (st : chan bytes * Z)
  : outcome (task_step (chan bytes * Z)) :=
  let '(c, dropped) := st in
  match got with
  | Ok [] => Ret (Done (Ok ()) st)
  | Err e => Ret (Done (Err e) st)
  | Ok frame =>
      match try_send (encode_frame frame) c with
      | (SendOk, c') => Ret (Go (c', dropped))
      | (SendFull, c') => dropped' ← uadd p 64 dropped 1; Ret (Go (c', dropped'))
      | (SendClosed, c') => Ret (Done (Ok ()) (c', dropped))
      end
  end.

(** ** Task 2: IPC writer; any failed write ends the task with its error *)

Definition write_framed (msg : bytes) (w : AWriter) : result unit * AWriter :=
  match awrite_all (len_prefix msg) w with
  | (Err e, w1) => (Err e, w1)
  | (Ok _, w1) =>
      match awrite_all msg w1 with
      | (Err e, w2) => (Err e, w2)
      | (Ok _, w2) => (Ok (), w2)
      end
  end.

Fixpoint drain_queue (fuel : nat) (c : chan bytes) (w : AWriter)
  : result unit * chan bytes * AWriter :=
  match fuel with
  | O => (Ok (), c, w)
  | S fuel' =>
      match try_recv c with
      | (RecvOk msg, c') =>
          match write_framed msg w with
          | (Ok _, w') => drain_queue fuel' c' w'
          | (Err e, w') => (Err e, c', w')
          end
      | (_, c') => (Ok (), c', w)
      end
  end.

Record relay_writer := MkRelayWriter { rw_frames : chan bytes; rw_responses : chan bytes; rw_out : AWriter }.

Inductive relay_branch := TapBranch | ResponseBranch.

Definition relay_writer_batch (st : relay_writer) : task_step relay_writer :=
  match drain_queue (write_fuel (rw_frames st)) (rw_frames st) (rw_out st) with
  | (Err e, f, w) => Done (Err e) (MkRelayWriter f (rw_responses st) w)
  | (Ok _, f, w) =>
      match drain_queue (write_fuel (rw_responses st)) (rw_responses st) w with
      | (Err e, r, w') => Done (Err e) (MkRelayWriter f r w')
      | (Ok _, r, w') =>
          match aflush w' with
          | (Ok _, w'') => Go (MkRelayWriter f r w'')
          | (Err e, w'') => Done (Err e) (MkRelayWriter f r w'')
          end
      end
  end.

Definition relay_writer_iter (b : relay_branch) (st : relay_writer) : task_step relay_writer :=
  match b with
  | TapBranch =>
      match try_recv (rw_frames st) with
      | (RecvOk msg, c) =>
          match write_framed msg (rw_out st) with
          | (Ok _, w) => relay_writer_batch (MkRelayWriter c (rw_responses st) w)
          | (Err e, w) => Done (Err e) (MkRelayWriter c (rw_responses st) w)
          end
      | (RecvEmpty, c) => Blocked (MkRelayWriter c (rw_responses st) (rw_out st))
      | (RecvDisconnected, c) =>
          match aflush (rw_out st) with
          | (r, w) => Done r (MkRelayWriter c (rw_responses st) w)
          end
      end
  | ResponseBranch =>
      match try_recv (rw_responses st) with
      | (RecvOk msg, c) =>
          match write_framed msg (rw_out st) with
          | (Ok _, w) => relay_writer_batch (MkRelayWriter (rw_frames st) c w)
          | (Err e, w) => Done (Err e) (MkRelayWriter (rw_frames st) c w)
          end
      | (_, c) => Blocked (MkRelayWriter (rw_frames st) c (rw_out st))
      end
  end.

(** ** Task 3: IPC reader to TAP *)

Record relay_reader := MkRelayReader {
  rr_in : AReader; rr_tap : Tap; rr_kernel : Kernel; rr_responses : chan bytes
}.

(** What one message does. *)
Definition relay_dispatch (proc : result text) (iface_name : string) (body : bytes)
    (st : relay_reader) : outcome (task_step relay_reader) :=
  match decode_message body with
  | Ok (Frame frame) =>
      match tap_write_all frame (rr_tap st) with
      | (Ok _, t) => Ret (Go (MkRelayReader (rr_in st) t (rr_kernel st) (rr_responses st)))
      | (Err e, t) => Ret (Done (Err e) (MkRelayReader (rr_in st) t (rr_kernel st) (rr_responses st)))
      end
  | Ok (Control payload) =>
      match decode_control (T:=ProxyCommand) payload with
      | Ok cmd =>
          let '(response, k) := handle_proxy_command proc cmd iface_name (rr_kernel st) in
          match encode_control response with
          | Err _ => Panic
          | Ok response_msg =>
              match try_send response_msg (rr_responses st) with
              | (SendFull, c) => Ret (Blocked (MkRelayReader (rr_in st) (rr_tap st) k c))
              | (_, c) => Ret (Go (MkRelayReader (rr_in st) (rr_tap st) k c))
              end
          end
      | Err _ => Ret (Go st)
      end
  | Err _ => Ret (Go st)
  end.

Definition relay_reader_iter (proc : result text) (iface_name : string) (max_frame_size : nat)
    (st : relay_reader) : outcome (task_step relay_reader) :=
  let with_in r := MkRelayReader r (rr_tap st) (rr_kernel st) (rr_responses st) in
  match aread_exact 4 (rr_in st) with
  | (Err _, r1) => Ret (Done (Ok ()) (with_in r1))
  | (Ok len_buf, r1) =>
      let msg_len := Z.to_nat (be_val len_buf) in
      if decide (msg_len = 0 \/ max_frame_size + 16 < msg_len)%nat then Ret (Go (with_in r1))
      else
        match aread_exact msg_len r1 with
        | (Err _, r2) => Ret (Done (Ok ()) (with_in r2))
        | (Ok body, r2) => relay_dispatch proc iface_name body (with_in r2)
        end
  end.

(** The loop; [None] when it did not end within the fuel. *)
Fixpoint relay_reader_run (fuel : nat) (proc : result text) (iface_name : string)
    (max_frame_size : nat) (st : relay_reader) : outcome (option (task_step relay_reader)) :=
  match fuel with
  | O => Ret None
  | S fuel' =>
      x ← relay_reader_iter proc iface_name max_frame_size st;
      match x with
      | Go st' => relay_reader_run fuel' proc iface_name max_frame_size st'
      | y => Ret (Some y)
      end
  end.

(** ** Startup ([run_proxy] before the relay) *)

Definition max_frame_size (mtu : Z) : nat := Z.to_nat (mtu + 14).

(** The gratuitous ARP message for an IPv4 TAP address. *)
Definition announce (tap_mac : array 6) (peer_addr : option (IpAddr * Z)) (w : AWriter)
  : result unit * AWriter :=
  match peer_addr with
  | Some (V4 ipv4, _) =>
      write_framed (encode_frame (build_gratuitous_arp tap_mac ipv4 broadcast_mac)) w
  | _ => (Ok (), w)
  end.

(** The initial routes; a failure is only logged. *)
Fixpoint add_initial_routes (iface_name : string) (routes : list (IpAddr * Z)) (k : Kernel) : Kernel :=
  match routes with
  | [] => k
  | (dest, prefix_len) :: r =>
      add_initial_routes iface_name r (snd (add_route iface_name dest prefix_len k))
  end.

End Relay.
