(* ===== verification/AsyncFd.v ===== *)
(** * The asynchronous wrapper of the TAP descriptor ([AsyncFdIo] in [proxy/src/main.rs])

    [AsyncFdIo] drives a non-blocking descriptor by tokio's readiness: poll for
    readiness, try the system call, and when it would block clear the readiness and poll
    again.  The descriptor and the reactor are a type class; [ReactorLaws] states what
    tokio documents of readiness and what the kernel documents of a TAP descriptor (each
    read takes one frame, cut to the buffer; each write is one frame).  The wrapper is
    shown to end every poll and to implement the [TapDevice] that the relay is verified
    against. *)

From S2P Require Import Prelude Net Stream Protocol Text Sys SysFrame AsyncIo Externals Stack.
From S2P Require Import StackPoll StackData Socket ProcNet Relay.
#[local] Open Scope Z_scope.

(** ** Creation *)

Definition async_fd_new (fd : Z) : prog (result Z) :=
  let? flags := checked (SysFcntl fd F_GETFL 0) owning [fd] in
  let? _ := checked (SysFcntl fd F_SETFL (Z.lor flags O_NONBLOCK)) owning [fd] in
  let? _ := perform (SysRegister fd) owning [fd] in
  Return (Ok fd).

Definition dup_fd (fd : Z) : prog (result Z) := checked (SysDup fd).

(** ** The reactor and the descriptor *)

Class Reactor := {
  Afd : Type;
  (* AsyncFd::poll_read_ready, poll_write_ready; clearing the readiness of a guard *)
  poll_read_ready : Afd -> poll (result unit) * Afd;
  clear_read_ready : Afd -> Afd;
  poll_write_ready : Afd -> poll (result unit) * Afd;
  clear_write_ready : Afd -> Afd;
  (* read(fd, buf, n) with the octets it stored, write(fd, buf, n) *)
  fd_read : nat -> Afd -> result bytes * Afd;
  fd_write : bytes -> Afd -> result nat * Afd;
  (* until the task is polled again after Pending *)
  park : Afd -> Afd;
  (* the frames waiting at the device, the frames written to it *)
  afd_incoming : Afd -> list bytes;
  afd_outgoing : Afd -> list bytes;
  (* readiness events the driver still has for this poll; wake-ups before the device
     takes a frame *)
  read_events : Afd -> nat;
  write_events : Afd -> nat;
  write_waits : Afd -> nat;
}.

Definition would_block (e : io_error) : bool := bool_decide (ekind e = WouldBlock).

Section AsyncFd.
Context {R : Reactor}.

(** ** [AsyncRead::poll_read]

    [None]: the loop has not ended within the fuel.  The octets that [read] stored in the
    unfilled part are appended by [buf.advance(n)]. *)
Fixpoint afd_poll_read (fuel : nat) (buf : ReadBuf) (s : Afd)
  : option (outcome (poll (result unit) * ReadBuf * Afd)) :=
  match fuel with
  | O => None
  | S fuel' =>
      match poll_read_ready s with
      | (Ready (Err e), s1) => Some (Ret (Ready (Err e), buf, s1))
      | (Pending, s1) => Some (Ret (Pending, buf, s1))
      | (Ready (Ok _), s1) =>
          match fd_read (remaining buf) s1 with
          | (Ok d, s2) => Some (buf' ← put_slice d buf; Ret (Ready (Ok ()), buf', s2))
          | (Err e, s2) =>
              if would_block e then afd_poll_read fuel' buf (clear_read_ready s2)
              else Some (Ret (Ready (Err e), buf, s2))
          end
      end
  end.

(** ** [AsyncWrite] *)

Fixpoint afd_poll_write (fuel : nat) (buf : bytes) (s : Afd) : option (poll (result nat) * Afd) :=
  match fuel with
  | O => None
  | S fuel' =>
      match poll_write_ready s with
      | (Ready (Err e), s1) => Some (Ready (Err e), s1)
      | (Pending, s1) => Some (Pending, s1)
      | (Ready (Ok _), s1) =>
          match fd_write buf s1 with
          | (Ok n, s2) => Some (Ready (Ok n), s2)
          | (Err e, s2) =>
              if would_block e then afd_poll_write fuel' buf (clear_write_ready s2)
              else Some (Ready (Err e), s2)
          end
      end
  end.

Definition afd_poll_flush : poll (result unit) := Ready (Ok ()).
Definition afd_poll_shutdown : poll (result unit) := Ready (Ok ()).

(** ** tokio's [read] and [write_all] on the wrapper *)

(** One poll of [tap_reader.read(&mut buf)] with a buffer of [n] octets. *)
Definition tap_poll_read (n : nat) (s : Afd) : option (outcome (poll (result bytes) * Afd)) :=
  r ← afd_poll_read (S (read_events s)) {| filled := []; rb_cap := n |} s;
  Some (x ← r;
        match x with
        | (Ready (Ok _), buf, s') => Ret (Ready (Ok (filled buf)), s')
        | (Ready (Err e), _, s') => Ret (Ready (Err e), s')
        | (Pending, _, s') => Ret (Pending, s')
        end).

(** One poll of [tap_writer.write_all(buf)]: what is left to write when it is pending. *)
Fixpoint write_all_poll (fuel : nat) (buf : bytes) (s : Afd) : option (poll (result unit) * bytes * Afd) :=
  match buf with
  | [] => Some (Ready (Ok ()), [], s)
  | _ =>
      match fuel with
      | O => None
      | S fuel' =>
          match afd_poll_write (S (write_events s)) buf s with
          | None => None
          | Some (Pending, s') => Some (Pending, buf, s')
          | Some (Ready (Err e), s') => Some (Ready (Err e), buf, s')
          | Some (Ready (Ok n), s') =>
              if decide (n = 0%nat) then
                Some (Ready (Err (IoError WriteZero "write zero byte into writer")), buf, s')
              else write_all_poll fuel' (drop n buf) s'
          end
      end
  end.

(** Awaiting it: polled again at each wake-up. *)
Fixpoint write_all_await (wakeups : nat) (buf : bytes) (s : Afd) : result unit * Afd :=
  match write_all_poll (length buf) buf s with
  | None => (Err (IoError OtherError "out of fuel"), s)
  | Some (Ready r, _, s') => (r, s')
  | Some (Pending, buf', s') =>
      match wakeups with
      | O => (Err (IoError OtherError "out of fuel"), s')
      | S w => write_all_await w buf' (park s')
      end
  end.

(** The device the relay writes to. *)
#[export] Instance async_tap : TapDevice := {|
  Tap := Afd;
  tap_frames := afd_outgoing;
  tap_write_all := fun f s => write_all_await (write_waits s) f s;
|}.

End AsyncFd.

Class ReactorLaws `{Reactor} : Prop := {
  (* polling for readiness and clearing it move no data; readiness comes from an event,
     and clearing it needs another one *)
  poll_read_ready_spec : forall s,
    afd_incoming (snd (poll_read_ready s)) = afd_incoming s /\
    (read_events (snd (poll_read_ready s)) <= read_events s)%nat /\
    (fst (poll_read_ready s) = Ready (Ok ()) -> (0 < read_events (snd (poll_read_ready s)))%nat);
  clear_read_ready_spec : forall s,
    afd_incoming (clear_read_ready s) = afd_incoming s /\
    (read_events (clear_read_ready s) <= pred (read_events s))%nat;
  poll_write_ready_spec : forall s,
    afd_outgoing (snd (poll_write_ready s)) = afd_outgoing s /\
    (write_events (snd (poll_write_ready s)) <= write_events s)%nat /\
    (write_waits (snd (poll_write_ready s)) <= write_waits s)%nat /\
    (fst (poll_write_ready s) = Ready (Ok ()) -> (0 < write_events (snd (poll_write_ready s)))%nat) /\
    (fst (poll_write_ready s) = Pending -> (0 < write_waits (snd (poll_write_ready s)))%nat);
  clear_write_ready_spec : forall s,
    afd_outgoing (clear_write_ready s) = afd_outgoing s /\
    (write_waits (clear_write_ready s) <= write_waits s)%nat /\
    (write_events (clear_write_ready s) <= pred (write_events s))%nat;
  (* a TAP descriptor: one frame per read, cut to the buffer; one frame per write *)
  fd_read_spec : forall n s,
    match fd_read n s with
    | (Ok d, s') => exists f r, afd_incoming s = f :: r /\ d = take n f /\ afd_incoming s' = r
    | (Err _, s') => afd_incoming s' = afd_incoming s /\ (read_events s' <= read_events s)%nat
    end;
  fd_write_spec : forall f s,
    match fd_write f s with
    | (Ok n, s') => n = length f /\ afd_outgoing s' = afd_outgoing s ++ [f]
    | (Err _, s') => afd_outgoing s' = afd_outgoing s /\ (write_events s' <= write_events s)%nat /\
                     (write_waits s' <= write_waits s)%nat
    end;
  park_spec : forall s, afd_outgoing (park s) = afd_outgoing s /\
    (write_waits (park s) <= pred (write_waits s))%nat;
}.

(** A descriptor of which the reactor reports [re] read and [we] write events, that makes
    the writer wait [ww] times, and takes every frame. *)
Module ReferenceReactor.

Record afd := MkAfd { inc : list bytes; out : list bytes; re : nat; we : nat; ww : nat }.

Definition eagain : io_error := IoError WouldBlock "Resource temporarily unavailable".

#[export] Instance reactor : Reactor := {|
  Afd := afd;
  poll_read_ready := fun s => (match re s with O => Pending | _ => Ready (Ok ()) end, s);
  clear_read_ready := fun s => MkAfd (inc s) (out s) (pred (re s)) (we s) (ww s);
  poll_write_ready := fun s =>
    match ww s, we s with
    | O, O => (Ready (Err (IoError BrokenPipe "reactor gone")), s)
    | S _, O => (Pending, s)
    | _, _ => (Ready (Ok ()), s)
    end;
  clear_write_ready := fun s => MkAfd (inc s) (out s) (re s) (pred (we s)) (ww s);
  fd_read := fun n s =>
    match inc s with
    | [] => (Err eagain, s)
    | f :: r => (Ok (take n f), MkAfd r (out s) (re s) (we s) (ww s))
    end;
  fd_write := fun f s =>
    match ww s with
    | O => (Ok (length f), MkAfd (inc s) (out s ++ [f]) (re s) (we s) (ww s))
    | S _ => (Err eagain, s)
    end;
  park := fun s => MkAfd (inc s) (out s) (re s) 1 (pred (ww s));
  afd_incoming := inc; afd_outgoing := out;
  read_events := re; write_events := we; write_waits := ww;
|}.

#[export] Instance reactor_laws : ReactorLaws.
Proof.
  constructor; cbn.
  - intros [i o r w ww']; cbn. destruct r; cbn; split_and!; intros; try done; lia.
  - intros [i o r w ww']; cbn. split_and!; intros; try done; lia.
  - intros [i o r [|w] [|ww']]; cbn; split_and!; intros; try done; lia.
  - intros [i o r w ww']; cbn. split_and!; intros; try done; lia.
  - intros n [[|f i] o r w ww']; cbn; [done|]. eauto.
  - intros f [i o r w [|ww']]; cbn; done.
  - intros [i o r w ww']; cbn. split; [done|lia].
Qed.

End ReferenceReactor.

Section AsyncFdSpec.
Context {R : Reactor} {RL : ReactorLaws}.

(** ** The poll loops end *)

(** What a finished read loop has done. *)
Definition read_done (buf : ReadBuf) (s : Afd) (x : poll (result unit) * ReadBuf * Afd) : Prop :=
  match x with
  | (Ready (Ok _), buf', s') => exists f, afd_incoming s = f :: afd_incoming s' /\
      filled buf' = filled buf ++ take (remaining buf) f /\ rb_cap buf' = rb_cap buf
  | (_, buf', s') => buf' = buf /\ afd_incoming s' = afd_incoming s
  end.

Lemma afd_poll_read_ends fuel buf s : (read_events s < fuel)%nat ->
  exists x, afd_poll_read fuel buf s = Some (Ret x) /\ read_done buf s x.
Proof.
  revert s. induction fuel as [|fuel IH]; intros s Hf; [lia|]. cbn [afd_poll_read].
  pose proof (poll_read_ready_spec s) as (P1 & P2 & P3).
  destruct (poll_read_ready s) as [[[[]|e]|] s1]; cbn [fst snd] in *; [|by eexists..].
  pose proof (fd_read_spec (remaining buf) s1) as Hr.
  destruct (fd_read (remaining buf) s1) as [[d|e] s2].
  - destruct Hr as (f & r & E1 & -> & E2). unfold put_slice. rewrite length_take, decide_True by lia.
    eexists. split; [reflexivity|]. exists f. cbn. by rewrite <- P1, E1, E2.
  - destruct Hr as [E1 E2]. destruct (would_block e).
    + pose proof (clear_read_ready_spec s2) as [C1 C2]. specialize (P3 eq_refl).
      destruct (IH (clear_read_ready s2)) as (x & E & Hx).
      { lia. }
      exists x. split; [done|]. unfold read_done in *. by rewrite C1, E1, P1 in Hx.
    + eexists. split; [reflexivity|]. cbn. by rewrite E1, P1.
Qed.

Lemma afd_poll_read_fuel fuel k buf s : (read_events s < fuel)%nat ->
  afd_poll_read (fuel + k) buf s = afd_poll_read fuel buf s.
Proof.
  revert s. induction fuel as [|fuel IH]; intros s Hf; [lia|]. cbn [afd_poll_read Nat.add].
  pose proof (poll_read_ready_spec s) as (_ & P2 & P3).
  destruct (poll_read_ready s) as [[[[]|e]|] s1]; cbn [fst snd] in *; [|done..].
  pose proof (fd_read_spec (remaining buf) s1) as Hr. specialize (P3 eq_refl).
  destruct (fd_read (remaining buf) s1) as [[d|e] s2]; [done|]. destruct (would_block e); [|done].
  pose proof (clear_read_ready_spec s2) as [_ C2]. apply IH. lia.
Qed.

(** What a finished write loop has done. *)
Definition write_done (buf : bytes) (s : Afd) (x : poll (result nat) * Afd) : Prop :=
  match x with
  | (Ready (Ok n), s') => n = length buf /\ afd_outgoing s' = afd_outgoing s ++ [buf]
  | (Ready (Err _), s') => afd_outgoing s' = afd_outgoing s
  | (Pending, s') => afd_outgoing s' = afd_outgoing s /\ (0 < write_waits s' <= write_waits s)%nat
  end.

Lemma afd_poll_write_ends fuel buf s : (write_events s < fuel)%nat ->
  exists x, afd_poll_write fuel buf s = Some x /\ write_done buf s x.
Proof.
  revert s. induction fuel as [|fuel IH]; intros s Hf; [lia|]. cbn [afd_poll_write].
  pose proof (poll_write_ready_spec s) as (P1 & P2 & P3 & P4 & P5).
  destruct (poll_write_ready s) as [[[[]|e]|] s1]; cbn [fst snd] in *.
  - pose proof (fd_write_spec buf s1) as Hw. specialize (P4 eq_refl).
    destruct (fd_write buf s1) as [[n|e] s2].
    + destruct Hw as [-> Hw]. eexists. split; [reflexivity|]. cbn. by rewrite Hw, P1.
    + destruct Hw as (W1 & W2 & W3). destruct (would_block e).
      * pose proof (clear_write_ready_spec s2) as (C1 & C2 & C3).
        destruct (IH (clear_write_ready s2)) as (x & E & Hx); [lia|]. exists x. split; [done|].
        unfold write_done in *. rewrite C1, W1, P1 in Hx. destruct x as [[[]|] s3]; [done|done|].
        destruct Hx as [Hx1 Hx2]. split; [done|lia].
      * eexists. split; [reflexivity|]. cbn. by rewrite W1, P1.
  - by eexists.
  - eexists. split; [reflexivity|]. cbn. split; [done|]. specialize (P5 eq_refl). lia.
Qed.

(** A poll of [write_all] with a frame: one write, or none yet. *)
Lemma write_all_poll_frame buf s :
  exists x, write_all_poll (length buf) buf s = Some x /\
    match x with
    | (Ready (Ok _), _, s') => afd_outgoing s' = afd_outgoing s ++ written_frames [buf]
    | (Ready (Err _), _, s') => afd_outgoing s' = afd_outgoing s
    | (Pending, buf', s') => buf' = buf /\ afd_outgoing s' = afd_outgoing s /\
                             (0 < write_waits s' <= write_waits s)%nat
    end.
Proof.
  destruct buf as [|b buf]; [eexists; split; [reflexivity|]; by rewrite app_nil_r|].
  set (m := b :: buf). cbn [length write_all_poll].
  destruct (afd_poll_write_ends (S (write_events s)) m s) as (x & E & Hx); [lia|].
  assert (Hm : write_all_poll (S (length buf)) m s =
    match afd_poll_write (S (write_events s)) m s with
    | None => None
    | Some (Pending, s') => Some (Pending, m, s')
    | Some (Ready (Err e), s') => Some (Ready (Err e), m, s')
    | Some (Ready (Ok n), s') =>
        if decide (n = 0%nat) then
          Some (Ready (Err (IoError WriteZero "write zero byte into writer")), m, s')
        else write_all_poll (length buf) (drop n m) s'
    end) by done.
  change (length m) with (S (length buf)). rewrite Hm, E. destruct x as [[[n|e]|] s']; [|by eexists..].
  destruct Hx as [-> Hx]. rewrite decide_False by done. rewrite drop_all.
  exists (Ready (Ok ()), [], s'). split; [by destruct (length buf)|]. by rewrite Hx.
Qed.

(** Awaiting [write_all]: as many wake-ups as the device needs are enough, and the frame
    is written once, or not at all and the error reported. *)
Lemma write_all_await_spec k buf s : (write_waits s <= k)%nat ->
  write_all_await k buf s = write_all_await (write_waits s) buf s /\
  match write_all_await k buf s with
  | (Ok _, s') => afd_outgoing s' = afd_outgoing s ++ written_frames [buf]
  | (Err _, s') => afd_outgoing s' = afd_outgoing s
  end.
Proof.
  revert s. induction k as [k IH] using lt_wf_ind. intros s Hk.
  destruct (write_all_poll_frame buf s) as (x & E & Hx).
  destruct k as [|k].
  - assert (write_waits s = 0)%nat as -> by lia. split; [done|]. cbn. rewrite E.
    destruct x as [[[r|] buf'] s']; [by destruct r|]. destruct Hx as (_ & _ & Hx). lia.
  - cbn [write_all_await]. rewrite E. destruct (write_waits s) as [|n] eqn:En; cbn [write_all_await]; rewrite E.
    + destruct x as [[[r|] buf'] s']; [by split; [|destruct r]|]. destruct Hx as (_ & _ & Hx). lia.
    + destruct x as [[[r|] buf'] s']; [by split; [|destruct r]|]. destruct Hx as (-> & Ho & Hw).
      pose proof (park_spec s') as [P1 P2].
      destruct (IH k (Nat.lt_succ_diag_r k) (park s')) as [I1 I2]; [lia|].
      destruct (IH n ltac:(lia) (park s')) as [I3 _]; [lia|].
      split; [by rewrite I1, I3|]. destruct (write_all_await k buf (park s')) as [[[]|e] s2]; congruence.
Qed.

(** The wrapper is the device that the relay was verified against. *)
#[export] Instance async_tap_laws : TapLaws.
Proof.
  intros f t. cbn. destruct (write_all_await_spec (write_waits t) f t) as [_ H]; [done|].
  by destruct (write_all_await _ _ _) as [[] ?].
Qed.

(** ** Properties *)

(** C25: Every poll of the wrapper ends, after at most one more iteration than the reactor
    has readiness events, without a panic; a completed read has taken exactly one frame
    off the device, cut to the buffer, and any other outcome has taken nothing and left
    the buffer as it was. *)
Theorem poll_read_ends (n fuel : nat) (s : Afd) (Hfuel : (read_events s < fuel)%nat) :
  (forall k, afd_poll_read (fuel + k) {| filled := []; rb_cap := n |} s =
             afd_poll_read fuel {| filled := []; rb_cap := n |} s) /\
  exists r s', tap_poll_read n s = Some (Ret (r, s')) /\
    match r with
    | Ready (Ok d) => exists f, afd_incoming s = f :: afd_incoming s' /\ d = take n f
    | _ => afd_incoming s' = afd_incoming s
    end.
Proof.
  split; [intros k; by apply afd_poll_read_fuel|]. unfold tap_poll_read.
  destruct (afd_poll_read_ends (S (read_events s)) {| filled := []; rb_cap := n |} s)
    as ([[r buf'] s'] & -> & Hx); [lia|]. cbn.
  destruct r as [[[]|e]|]; cbn in Hx.
  - destruct Hx as (f & H1 & H2 & _). unfold remaining in H2. cbn in H2. rewrite Nat.sub_0_r in H2.
    exists (Ready (Ok (filled buf'))), s'. split; [done|]. eauto.
  - exists (Ready (Err e)), s'. split; [done|]. apply Hx.
  - exists Pending, s'. split; [done|]. apply Hx.
Qed.

(** C24: The wrapper implements the relay's device: awaiting [write_all] ends after at most
    as many wake-ups as the device asks for (more change nothing), a successful one has
    written the frame to the device exactly once, as one frame, after those before (an
    empty one not at all), and a failed one has written nothing. *)
Theorem async_tap_refines (f : bytes) (s : Afd) (k : nat) :
  write_all_await (write_waits s + k) f s = tap_write_all f s /\
  match tap_write_all f s with
  | (Ok _, s') => tap_frames s' = tap_frames s ++ written_frames [f]
  | (Err _, s') => tap_frames s' = tap_frames s
  end.
Proof.
  cbn. split; [apply write_all_await_spec; lia|].
  destruct (write_all_await_spec (write_waits s) f s) as [_ H]; [done|]. done.
Qed.

End AsyncFdSpec.

(** ** Creation *)

Lemma async_fd_new_wp o v0 fd v :
  frame o v0 v -> fd ∈ o ->
  wp (async_fd_new fd) v (fun r v' => calm v v' /\
    match r with
    | Ok fd' => fd' = fd /\ frame o v0 v' /\ fds v' = fds v /\
                exists c f, fds v' !! fd = Some (c, f) /\ f ∈ nonblock v'
    | Err _ => frame (o ∖ {[fd]}) v0 v'
    end).
Proof.
  intros F Hin.
  assert (D : forall v1, frame o v0 v1 -> calm v v1 ->
    wp (drop_fds [fd]) v1 (fun _ v' => calm v v' /\ frame (o ∖ {[fd]}) v0 v')).
  { intros v1 F1 C1. eapply wp_drop_owned; [exact F1|apply NoDup_singleton|owned_set|].
    intros v2 F2 C2 _. split; [by etrans|]. eapply frame_eq; [done|owned_set]. }
  apply wp_try, wp_checked; [usable_fd|]. intros x v1 H. cbn [allowed] in H. unfold fcntl_allowed in H.
  destruct (check x) as [flags|e]; [rewrite !decide_False in H by done|]; subst v1; [|by apply D].
  apply wp_try, wp_checked; [usable_fd|]. intros y v1 H. cbn [allowed] in H. unfold fcntl_allowed in H.
  destruct (check y) as [n|e]; [|subst v1; by apply D].
  rewrite !decide_False, decide_True in H by done.
  assert (Hbit : Z.testbit (Z.lor flags O_NONBLOCK) 11 = true) by (rewrite Z.lor_spec; apply orb_true_r).
  rewrite Hbit in H. destruct (frame_owned _ _ _ F fd Hin) as (_ & c & f & Efd & _).
  assert (F1 : frame o v0 v1) by (subst v1; by apply frame_nonblock).
  assert (S1 : calm v v1 /\ fds v1 = fds v /\ f ∈ nonblock v1).
  { subst v1. unfold set_nonblock. rewrite Efd. cbn. split_and!; try done. set_solver. }
  clear H. destruct S1 as (C1 & D1 & N1).
  sys_call z v2 H; subst v2; [|by apply D]. cbn. split_and!; try done. exists c, f. by rewrite D1.
Qed.

Lemma dup_fd_wp o v0 fd v :
  frame o v0 v -> fd ∈ o ->
  wp (dup_fd fd) v (fun r v' => calm v v' /\
    match r with
    | Ok fd' => (fd' ∉ o) /\ frame ({[fd']} ∪ o) v0 v'
    | Err _ => frame o v0 v'
    end).
Proof.
  intros F Hin. apply wp_checked; [usable_fd|]. intros x v' H. cbn [allowed] in H.
  destruct (check x) as [fd'|e]; [|by subst v'].
  destruct H as [Hn H]. destruct (frame_owned _ _ _ F fd Hin) as (_ & c & f & Efd & _).
  rewrite (H c f Efd). split_and!; [done..|by eapply frame_fresh|]. by eapply frame_dup.
Qed.

(** ** Witnesses: the properties at concrete inputs, on the reference instances *)

#[local] Existing Instances ReferenceReactor.reactor ReferenceReactor.reactor_laws.

(** Two spurious read events before the poll is pending; a writer that has to wait twice. *)
Definition demo_afd : Afd := ReferenceReactor.MkAfd [] [[x01]] 2 1 2.

Lemma poll_read_ends_witness :
  (exists s', tap_poll_read 4 demo_afd = Some (Ret (Pending, s'))) /\
  (forall k, afd_poll_read (3 + k) {| filled := []; rb_cap := 4 |} demo_afd =
             afd_poll_read 3 {| filled := []; rb_cap := 4 |} demo_afd).
Proof.
  destruct (poll_read_ends 4 3 demo_afd) as [H1 (r & s' & E & _)]; [cbn; lia|]. split; [|exact H1].
  exists s'. rewrite E. vm_compute in E. injection E as <- <-. reflexivity.
Defined.

Lemma async_tap_refines_witness :
  exists s', tap_write_all [xaa; xbb] demo_afd = (Ok (), s') /\ tap_frames s' = [[x01]; [xaa; xbb]].
Proof.
  destruct (async_tap_refines [xaa; xbb] demo_afd 0) as [_ H].
  destruct (@tap_write_all async_tap [xaa; xbb] demo_afd) as [[[]|e] s'] eqn:E; [|vm_compute in E; discriminate E].
  exists s'. split; [done|exact H].
Defined.
