(* ===== verification/RelaySpec.v ===== *)
(** * Correctness of the proxy

    The relay writes to the TAP device exactly the frames it is sent and answers
    every command; together with the library's writer this makes a path from the
    device's queue to the TAP interface.  Messages longer than the relay's buffer
    are the exception: they desynchronise the stream. *)

From S2P Require Import Prelude Net Stream Protocol AsyncIo Externals Stack StackPoll StackData.
From S2P Require Import Socket Text ProcNet Ipc IpcSpec Relay SerdeRef.
#[local] Open Scope Z_scope.

Section RelaySpec.
Context {M : Mpsc} {ML : MpscLaws} {A : AsyncIo} {AL : AsyncIoLaws} {RT : Rtnetlink}
  {TD : TapDevice} {TL : TapLaws} {SR : Serde ProxyResponse} {SRok : SerdeOk ProxyResponse}
  {SC : Serde ProxyCommand} {SCok : SerdeOk ProxyCommand}.

(** What the library sends, and its encoding. *)
Inductive inbound := InFrame (f : bytes) | InCommand (c : ProxyCommand).

Definition inbound_encodes (max : nat) (q : inbound) (b : bytes) : Prop :=
  (length b <= max + 16)%nat /\ Z.of_nat (length b) < 2 ^ 32 /\
  match q with
  | InFrame f => b = encode_frame f
  | InCommand c => encode_control c = Ok b
  end.

Definition in_frames (qs : list inbound) : list bytes :=
  omap (fun q => match q with InFrame f => Some f | _ => None end) qs.
Definition in_commands (qs : list inbound) : list ProxyCommand :=
  omap (fun q => match q with InCommand c => Some c | _ => None end) qs.

(** The responses to a sequence of commands, each served in the kernel state the
    previous ones left. *)
Fixpoint serve (proc : result text) (iface : string) (cs : list ProxyCommand) (k : Kernel)
  : list ProxyResponse * Kernel :=
  match cs with
  | [] => ([], k)
  | c :: r =>
      let '(resp, k1) := handle_proxy_command proc c iface k in
      let '(resps, k2) := serve proc iface r k1 in (resp :: resps, k2)
  end.

Lemma handle_proxy_command_id proc c iface k :
  resp_id (fst (handle_proxy_command proc c iface k)) = cmd_id c.
Proof.
  destruct c; cbn.
  - by destruct (add_route _ _ _ _) as [[]].
  - by destruct (remove_route _ _ _ _) as [[]].
  - by destruct (read_proc_net_dev proc).
Qed.

Lemma serve_ids proc iface cs k : resp_id <$> fst (serve proc iface cs k) = cmd_id <$> cs.
Proof.
  revert k. induction cs as [|c cs IH]; intros k; cbn; [done|].
  pose proof (handle_proxy_command_id proc c iface k) as Hid.
  destruct (handle_proxy_command proc c iface k) as [resp k1]. specialize (IH k1).
  destruct (serve proc iface cs k1) as [resps k2]. cbn in *. by rewrite Hid, IH.
Qed.

Lemma relay_iter_msg proc iface max b tl st :
  (0 < length b <= max + 16)%nat -> Z.of_nat (length b) < 2 ^ 32 ->
  rest (rr_in st) = frame_msg b ++ tl ->
  exists r, rest r = tl /\ relay_reader_iter proc iface max st
    = relay_dispatch proc iface b (MkRelayReader r (rr_tap st) (rr_kernel st) (rr_responses st)).
Proof.
  intros Hb Hb' Hr. destruct (read_msg b tl (rr_in st) Hb' Hr) as (r1 & E1 & En & r2 & E2 & Ht).
  exists r2. split; [done|]. unfold relay_reader_iter. rewrite E1, En, decide_False by lia.
  by rewrite E2.
Qed.

(** Queueing a response when there is room. *)
Lemma dispatch_command proc iface c b st :
  encode_control c = Ok b -> rx_alive (view (rr_responses st)) = true ->
  (length (items (view (rr_responses st))) < cap (view (rr_responses st)))%nat ->
  exists m ch, relay_dispatch proc iface b st =
    Ret (Go (MkRelayReader (rr_in st) (rr_tap st)
               (snd (handle_proxy_command proc c iface (rr_kernel st))) ch)) /\
    encode_control (fst (handle_proxy_command proc c iface (rr_kernel st))) = Ok m /\
    items (view ch) = items (view (rr_responses st)) ++ [m] /\
    cap (view ch) = cap (view (rr_responses st)) /\ rx_alive (view ch) = true.
Proof.
  destruct (decode_encode_control c) as (payload & E1 & E2 & E3). rewrite E1. intros [= <-] Ha Hroom.
  unfold relay_dispatch. rewrite E2, E3.
  destruct (handle_proxy_command proc c iface (rr_kernel st)) as [resp k].
  destruct (decode_encode_control resp) as (p' & F1 & _). cbn [fst snd]. rewrite F1.
  pose proof (try_send_cases (MSG_TYPE_CONTROL :: p') (rr_responses st)) as T.
  unfold ChanSpec.reserve, ChanSpec.has_room in T. rewrite Ha in T. cbn in T.
  rewrite bool_decide_eq_true_2 in T by done.
  destruct (try_send _ _) as [[] ch]; destruct T as [Hv Hr]; try done.
  do 2 eexists. split; [reflexivity|]. rewrite Hv. cbn. done.
Qed.

Lemma relay_iter_cut proc iface max st :
  incomplete (rest (rr_in st)) ->
  ((4 <= length (rest (rr_in st)))%nat -> (Z.to_nat (be_val (take 4 (rest (rr_in st)))) <= max + 16)%nat) ->
  exists r, relay_reader_iter proc iface max st =
    Ret (Done (Ok ()) (MkRelayReader r (rr_tap st) (rr_kernel st) (rr_responses st))).
Proof.
  intros Hcut Hfit. destruct (read_cut _ Hcut) as [(e & r & E)|(H4 & r1 & e & r & E1 & E2)]; exists r;
    unfold relay_reader_iter; [by rewrite E|]. specialize (Hcut H4). rewrite E1, decide_False by lia. by rewrite E2.
Qed.

(** The stream may end inside a message that fits the buffer. *)
Lemma relay_run_cut proc iface max qs bs part fuel st :
  (forall f t, exists t', tap_write_all f t = (Ok (), t')) ->
  Forall2 (inbound_encodes max) qs bs -> rest (rr_in st) = frame_msgs bs ++ part ->
  incomplete part -> ((4 <= length part)%nat -> (Z.to_nat (be_val (take 4 part)) <= max + 16)%nat) ->
  rx_alive (view (rr_responses st)) = true ->
  (length (items (view (rr_responses st))) + length (in_commands qs)
     <= cap (view (rr_responses st)))%nat ->
  (length bs < fuel)%nat ->
  exists st' ms, relay_reader_run fuel proc iface max st = Ret (Some (Done (Ok ()) st')) /\
    tap_frames (rr_tap st') = tap_frames (rr_tap st) ++ written_frames (in_frames qs) /\
    items (view (rr_responses st')) = items (view (rr_responses st)) ++ ms /\
    rr_kernel st' = snd (serve proc iface (in_commands qs) (rr_kernel st)) /\
    Forall2 (fun r m => encode_control r = Ok m)
      (fst (serve proc iface (in_commands qs) (rr_kernel st))) ms.
Proof.
  intros Htap Henc. revert st fuel. induction Henc as [|q b qs bs (Hmax & Hlen & Hq) _ IH];
    intros st fuel Hin Hcut Hfit Ha Hroom Hfuel; (destruct fuel as [|fuel]; [lia|]); cbn [relay_reader_run].
  - destruct (relay_iter_cut proc iface max st) as (r & ->); [by rewrite Hin..|].
    exists (MkRelayReader r (rr_tap st) (rr_kernel st) (rr_responses st)), [].
    split; [reflexivity|]. cbn. rewrite !app_nil_r. done.
  - rewrite frame_msgs_cons, <- app_assoc in Hin. cbn in Hfuel.
    assert (Hb : (0 < length b)%nat).
    { destruct q as [f|c]; [by subst; cbn; lia|]. unfold encode_control in Hq.
      destruct (to_vec c); [done|]. injection Hq as <-. cbn. lia. }
    destruct (relay_iter_msg proc iface max b _ st ltac:(lia) Hlen Hin) as (r & Hr & ->).
    destruct q as [f|c].
    + subst b. unfold relay_dispatch. change (decode_message (encode_frame f)) with (Ok (Frame f)).
      cbv beta iota zeta. cbn [rr_tap rr_in rr_kernel rr_responses].
      pose proof (tap_write_spec f (rr_tap st)) as Hw.
      destruct (Htap f (rr_tap st)) as (t & Et). rewrite Et in *. cbn [mbind outcome_bind].
      destruct (IH (MkRelayReader r t (rr_kernel st) (rr_responses st)) fuel) as (st' & ms & E & H1 & H2 & H3 & H4);
        [done..|lia|].
      exists st', ms. split_and!; try done. rewrite H1. cbn [rr_tap]. rewrite Hw, <- app_assoc. f_equal.
      change (in_frames (InFrame f :: qs)) with ([f] ++ in_frames qs). unfold written_frames. by rewrite list.filter_app.
    + change (in_commands (InCommand c :: qs)) with (c :: in_commands qs) in *.
      cbn [length] in Hroom.
      destruct (dispatch_command proc iface c b (MkRelayReader r (rr_tap st) (rr_kernel st) (rr_responses st))
        Hq Ha) as (m & ch & -> & Em & Hi & Hc & Ha'); [cbn; lia|]. cbn [mbind outcome_bind].
      cbn [rr_tap rr_in rr_kernel rr_responses] in *.
      destruct (handle_proxy_command proc c iface (rr_kernel st)) as [resp k1] eqn:Ehc. cbn [fst snd] in *.
      destruct (IH (MkRelayReader r (rr_tap st) k1 ch) fuel) as (st' & ms & E & H1 & H2 & H3 & H4);
        [done..|cbn; rewrite Hi, length_app, Hc; cbn; lia|lia|].
      exists st', (m :: ms). cbn. rewrite Ehc. cbn in H3, H4.
      destruct (serve proc iface (in_commands qs) k1) as [rs k2]. cbn in *.
      split_and!; try done; [by rewrite H2, Hi, <- app_assoc|by constructor].
Qed.

Lemma relay_run_msgs proc iface max qs bs fuel st :
  (forall f t, exists t', tap_write_all f t = (Ok (), t')) ->
  Forall2 (inbound_encodes max) qs bs -> rest (rr_in st) = frame_msgs bs ->
  rx_alive (view (rr_responses st)) = true ->
  (length (items (view (rr_responses st))) + length (in_commands qs)
     <= cap (view (rr_responses st)))%nat ->
  (length bs < fuel)%nat ->
  exists st' ms, relay_reader_run fuel proc iface max st = Ret (Some (Done (Ok ()) st')) /\
    tap_frames (rr_tap st') = tap_frames (rr_tap st) ++ written_frames (in_frames qs) /\
    items (view (rr_responses st')) = items (view (rr_responses st)) ++ ms /\
    rr_kernel st' = snd (serve proc iface (in_commands qs) (rr_kernel st)) /\
    Forall2 (fun r m => encode_control r = Ok m)
      (fst (serve proc iface (in_commands qs) (rr_kernel st))) ms.
Proof.
  intros Htap Henc Hin. apply (relay_run_cut proc iface max qs bs []); try done; [by rewrite app_nil_r|apply incomplete_nil|].
  cbn. lia.
Qed.

(** ** The proxy's writer *)

Lemma write_framed_ok msg w w' :
  write_framed msg w = (Ok (), w') -> taken w' = taken w ++ frame_msg msg.
Proof.
  unfold write_framed. pose proof (awrite_all_spec (len_prefix msg) w) as H1.
  destruct (awrite_all (len_prefix msg) w) as [[[]|] w1]; [|done].
  pose proof (awrite_all_spec msg w1) as H2.
  destruct (awrite_all msg w1) as [[[]|] w2]; [|done].
  intros [= <-]. unfold frame_msg. by rewrite H2, H1, <- app_assoc.
Qed.

Lemma drain_queue_ok fuel c w c' w' :
  (length (items (view c)) < fuel)%nat -> drain_queue fuel c w = (Ok (), c', w') ->
  items (view c') = [] /\ taken w' = taken w ++ frame_msgs (items (view c)).
Proof.
  revert c w. induction fuel as [|fuel IH]; intros c w Hf; [lia|]. cbn [drain_queue].
  destruct (try_recv c) as [[msg| |] c1] eqn:E; chan_facts; destruct_and?.
  - destruct (write_framed msg w) as [[[]|] w1] eqn:Ew; [|done]. apply write_framed_ok in Ew.
    rewrite H in Hf |- *. cbn in Hf. intros Hr. destruct (IH c1 w1) as [H1 H2]; [lia|done|].
    split; [done|]. by rewrite H2, Ew, frame_msgs_cons, <- app_assoc.
  - intros [= <- <-]. by rewrite H1, H, app_nil_r.
  - intros [= <- <-]. by rewrite H1, H, app_nil_r.
Qed.

Lemma relay_batch_ok st st' :
  relay_writer_batch st = Go st' ->
  items (view (rw_frames st')) = [] /\ items (view (rw_responses st')) = [] /\
  taken (rw_out st') = taken (rw_out st) ++
    frame_msgs (items (view (rw_frames st)) ++ items (view (rw_responses st))).
Proof.
  unfold relay_writer_batch.
  destruct (drain_queue _ (rw_frames st) _) as [[[[]|] f] w] eqn:E1; [|done].
  destruct (drain_queue _ (rw_responses st) _) as [[[[]|] r] w'] eqn:E2; [|done].
  pose proof (aflush_spec w') as Hf. destruct (aflush w') as [[[]|] w'']; [|done]. intros [= <-].
  apply drain_queue_ok in E1 as [H1 H2]; [|apply Nat.lt_succ_diag_r].
  apply drain_queue_ok in E2 as [H3 H4]; [|apply Nat.lt_succ_diag_r].
  cbn in *. by rewrite Hf, H4, H2, frame_msgs_app, <- app_assoc.
Qed.

Lemma relay_writer_iter_ok (b : relay_branch) (st st' : relay_writer)
  (Hrun : relay_writer_iter b st = Go st') :
  items (view (rw_frames st')) = [] /\ items (view (rw_responses st')) = [] /\
  taken (rw_out st') = taken (rw_out st) ++ frame_msgs
    match b with
    | TapBranch => items (view (rw_frames st)) ++ items (view (rw_responses st))
    | ResponseBranch => take 1 (items (view (rw_responses st))) ++
        items (view (rw_frames st)) ++ drop 1 (items (view (rw_responses st)))
    end.
Proof.
  destruct b; cbn [relay_writer_iter] in Hrun.
  - destruct (try_recv (rw_frames st)) as [[msg| |] c] eqn:E; chan_facts; destruct_and?; [|done|].
    2:{ by destruct (aflush (rw_out st)). }
    destruct (write_framed msg (rw_out st)) as [[[]|] w] eqn:Ew; [|done].
    apply write_framed_ok in Ew. destruct (relay_batch_ok _ _ Hrun) as (H1 & H2 & H3).
    cbn [rw_frames rw_responses rw_out] in *. rewrite H. split_and!; [done..|].
    by rewrite H3, Ew, <- app_comm_cons, frame_msgs_cons, <- app_assoc.
  - destruct (try_recv (rw_responses st)) as [[msg| |] c] eqn:E; chan_facts; destruct_and?; try done.
    destruct (write_framed msg (rw_out st)) as [[[]|] w] eqn:Ew; [|done].
    apply write_framed_ok in Ew. destruct (relay_batch_ok _ _ Hrun) as (H1 & H2 & H3).
    cbn [rw_frames rw_responses rw_out] in *. rewrite H. split_and!; [done..|].
    change (take 1 (msg :: ?l)) with [msg]. change (drop 1 (msg :: ?l)) with l.
    by rewrite H3, Ew, <- app_assoc, <- frame_msgs_cons.
Qed.

(** ** Properties *)

(** The proxy's relay is correct on a stream of messages that fit its buffer:
    the task neither panics nor blocks while the response queue has room, ends with
    the stream, has written to the TAP device exactly the frames (but empty ones), in order, and has
    queued one response per command, in order, computed by [handle_proxy_command]
    in the kernel state left by the previous command and carrying the command's id. *)
Theorem relay_delivers (proc : result text) (iface : string) (max : nat) (qs : list inbound)
  (bs : list bytes) (fuel : nat) (st : relay_reader)
  (Htap : forall f t, exists t', tap_write_all f t = (Ok (), t'))
  (Henc : Forall2 (inbound_encodes max) qs bs) (Hin : rest (rr_in st) = frame_msgs bs)
  (Halive : rx_alive (view (rr_responses st)) = true)
  (Hroom : (length (items (view (rr_responses st))) + length (in_commands qs)
              <= cap (view (rr_responses st)))%nat)
  (Hfuel : (length bs < fuel)%nat) :
  exists st' rs ms, relay_reader_run fuel proc iface max st = Ret (Some (Done (Ok ()) st')) /\
    tap_frames (rr_tap st') = tap_frames (rr_tap st) ++ written_frames (in_frames qs) /\
    items (view (rr_responses st')) = items (view (rr_responses st)) ++ ms /\
    Forall2 (fun r m => encode_control r = Ok m) rs ms /\
    resp_id <$> rs = cmd_id <$> in_commands qs /\
    (rs, rr_kernel st') = serve proc iface (in_commands qs) (rr_kernel st).
Proof.
  destruct (relay_run_msgs proc iface max qs bs fuel st Htap Henc Hin Halive Hroom Hfuel)
    as (st' & ms & E & H1 & H2 & H3 & H4).
  exists st', (fst (serve proc iface (in_commands qs) (rr_kernel st))), ms.
  split_and!; try done; [apply serve_ids|rewrite H3; by destruct (serve _ _ _ _)].
Qed.

(** A message longer than the relay's buffer is not skipped: only its length
    prefix is consumed, and the relay goes on reading its body as if it were the
    next length prefix and message. *)
Theorem relay_oversize_desync (proc : result text) (iface : string) (max : nat) (m tl : bytes)
  (st : relay_reader) (Hbig : (max + 16 < length m)%nat) (Hlen : Z.of_nat (length m) < 2 ^ 32)
  (Hin : rest (rr_in st) = frame_msg m ++ tl) :
  exists st', relay_reader_iter proc iface max st = Ret (Go st') /\ rest (rr_in st') = m ++ tl /\
    rr_tap st' = rr_tap st /\ rr_responses st' = rr_responses st.
Proof.
  destruct (frame_msg_take m tl) as [Ht Hd]. unfold relay_reader_iter.
  pose proof (aread_exact_spec 4 (rr_in st)) as H1.
  rewrite decide_True in H1
    by (rewrite Hin; unfold frame_msg; rewrite !length_app, length_len_prefix; lia).
  destruct H1 as (r1 & -> & R1). rewrite Hin, Ht, len_prefix_val, Nat2Z.id by lia.
  rewrite decide_True by lia. eexists. split; [reflexivity|]. cbn. by rewrite R1, Hin, Hd.
Qed.

(** A turn of the proxy's writer that goes on has put the awaited message, then
    every queued TAP frame, then every queued response on the wire, each
    length-prefixed and in order, and left both queues empty. *)
Theorem relay_writer_batches (b : relay_branch) (st st' : relay_writer)
  (Hrun : relay_writer_iter b st = Go st') :
  items (view (rw_frames st')) = [] /\ items (view (rw_responses st')) = [] /\
  taken (rw_out st') = taken (rw_out st) ++ frame_msgs
    match b with
    | TapBranch => items (view (rw_frames st)) ++ items (view (rw_responses st))
    | ResponseBranch => take 1 (items (view (rw_responses st))) ++
        items (view (rw_frames st)) ++ drop 1 (items (view (rw_responses st)))
    end.
Proof. by apply relay_writer_iter_ok. Qed.

End RelaySpec.

(** ** Witnesses: the properties at concrete inputs, on the reference instances *)

#[local] Existing Instances Reference.mpsc Reference.mpsc_laws ReferenceIo.io ReferenceIo.io_laws
  ReferenceProxy.rtnetlink ReferenceProxy.tap ReferenceProxy.tap_laws
  response_serde response_serde_ok command_serde command_serde_ok.

(** The encoding of a command of the reference serializer. *)
Definition demo_cmd : ProxyCommand := AddRoute 3 (V4 [# x0a; x01; x00; x00]) 16.
Definition demo_cmd_msg : bytes :=
  match encode_control demo_cmd with Ok b => b | Err _ => [] end.

Definition demo_relay (input : bytes) : relay_reader :=
  MkRelayReader (input : AReader) ([] : Tap) ([] : Kernel) (IpcSpec.demo_queue []).

Lemma relay_delivers_witness :
  exists st' rs ms, relay_reader_run 3 (Ok []) "tap0" 1514
      (demo_relay (frame_msgs [encode_frame [xaa]; demo_cmd_msg])) = Ret (Some (Done (Ok ()) st')) /\
    tap_frames (rr_tap st') = [[xaa]] /\
    items (view (rr_responses st')) = ms /\
    Forall2 (fun r m => encode_control r = Ok m) rs ms /\ resp_id <$> rs = [3] /\
    (rs, rr_kernel st') = serve (Ok []) "tap0" [demo_cmd] [].
Proof.
  apply (relay_delivers (Ok []) "tap0" 1514 [InFrame [xaa]; InCommand demo_cmd]
    [encode_frame [xaa]; demo_cmd_msg] 3 (demo_relay _)); [| |reflexivity|reflexivity|cbn; lia|cbn; lia].
  - intros f t. by eexists.
  - constructor; [split_and!; [cbn; lia|reflexivity|reflexivity]|].
    constructor; [|constructor]. split_and!; [|vm_compute; reflexivity|vm_compute; reflexivity].
    apply Nat.leb_le. vm_compute. reflexivity.
Defined.

Lemma relay_oversize_desync_witness :
  exists st', relay_reader_iter (Ok []) "tap0" 0 (demo_relay (frame_msg (replicate 17 x00) ++ [x01]))
      = Ret (Go st') /\
    rest (rr_in st') = replicate 17 x00 ++ [x01] /\
    rr_tap st' = rr_tap (demo_relay []) /\ rr_responses st' = rr_responses (demo_relay []).
Proof.
  apply (relay_oversize_desync (Ok []) "tap0" 0 (replicate 17 x00) [x01]
    (demo_relay (frame_msg (replicate 17 x00) ++ [x01]))); [cbn; lia|cbn; lia|reflexivity].
Defined.

Definition demo_relay_writer : relay_writer :=
  MkRelayWriter (IpcSpec.demo_queue [[x01; xaa]]) (IpcSpec.demo_queue [[x00; x11]; [x00; x12]])
    ([] : AWriter).

Lemma relay_writer_batches_witness :
  exists st', relay_writer_iter ResponseBranch demo_relay_writer = Go st' /\
    taken (rw_out st') = frame_msgs [[x00; x11]; [x01; xaa]; [x00; x12]].
Proof.
  destruct (relay_writer_iter ResponseBranch demo_relay_writer) as [st'|? ?|?] eqn:E;
    [|vm_compute in E; discriminate E..].
  exists st'. split; [done|].
  destruct (relay_writer_batches ResponseBranch demo_relay_writer st' E) as (_ & _ & H). exact H.
Defined.
