(* ===== verification/Path.v ===== *)
(** * Paths through both processes

    The library's IPC tasks and the proxy's relay composed: a frame that smoltcp
    transmits reaches the TAP device, and a proxy command comes back as the answer
    to the caller that sent it. *)

From S2P Require Import Prelude Net Stream Protocol AsyncIo Externals Stack StackPoll StackData.
From S2P Require Import Socket Text ProcNet Ipc IpcSpec Relay RelaySpec SerdeRef.
#[local] Open Scope Z_scope.

Section Path.
Context {M : Mpsc} {ML : MpscLaws} {A : AsyncIo} {AL : AsyncIoLaws} {RT : Rtnetlink}
  {TD : TapDevice} {TL : TapLaws} {SR : Serde ProxyResponse} {SRok : SerdeOk ProxyResponse}
  {SC : Serde ProxyCommand} {SCok : SerdeOk ProxyCommand}.

(** The messages of the library's queues, as the proxy sees them. *)
Definition inbounds (fs : list bytes) (cs : list ProxyCommand) : list inbound :=
  (InFrame <$> fs) ++ (InCommand <$> cs).

Lemma inbounds_frames fs cs : in_frames (inbounds fs cs) = fs.
Proof.
  unfold in_frames, inbounds. rewrite omap_app.
  assert (H1 : omap (fun q => match q with InFrame f => Some f | _ => None end) (InFrame <$> fs) = fs)
    by (induction fs as [|f fs IH]; cbn; [done|by f_equal]).
  assert (H2 : omap (fun q => match q with InFrame f => Some f | _ => None end)
    (InCommand <$> cs) = []) by (induction cs; done).
  by rewrite H1, H2, app_nil_r.
Qed.

Lemma inbounds_commands fs cs : in_commands (inbounds fs cs) = cs.
Proof.
  unfold in_commands, inbounds. rewrite omap_app.
  assert (H1 : omap (fun q => match q with InCommand c => Some c | _ => None end) (InFrame <$> fs) = [])
    by (induction fs; done).
  assert (H2 : omap (fun q => match q with InCommand c => Some c | _ => None end)
    (InCommand <$> cs) = cs) by (induction cs as [|c cs IH]; cbn; [done|by f_equal]).
  by rewrite H1, H2.
Qed.

(** A message that fits the relay's buffer and the length prefix. *)
Definition fits_relay (max : nat) (b : bytes) : Prop :=
  (length b <= max + 16)%nat /\ Z.of_nat (length b) < 2 ^ 32.

Lemma inbounds_encode max fs cs ms :
  Forall (fun f => fits_relay max (encode_frame f)) fs ->
  Forall2 (fun c m => encode_control c = Ok m) cs ms -> Forall (fits_relay max) ms ->
  Forall2 (inbound_encodes max) (inbounds fs cs) ((encode_frame <$> fs) ++ ms).
Proof.
  intros Hf Hc Hm. apply Forall2_app.
  - induction Hf as [|f fs [H1 H2] _ IH]; constructor; [by split_and!|done].
  - induction Hc as [|c m cs ms Hcm _ IH]; [constructor|].
    apply Forall_cons_1 in Hm as [[H1 H2] Hm]. constructor; [by split_and!|auto].
Qed.

(** ** Properties *)

(** From the device's queue to the TAP interface.  When a turn of the library's
    writer succeeds and the proxy's relay reads what it wrote, the TAP device gets
    exactly the frames that were queued (but empty ones), in order, and every queued command is
    answered with its id, provided the frames fit the interface's MTU. *)
Theorem frames_reach_tap (proc : result text) (iface : string) (max fuel : nat)
  (w w' : ipc_writer) (cs : list ProxyCommand) (r : relay_reader)
  (Hrun : ipc_writer_iter FrameBranch w = (true, w')) (Hdead : iw_dead w' = false)
  (Hready : items (view (iw_frames w)) <> []) (Hstart : taken (iw_out w) = [])
  (Hfits : Forall (fun f => fits_relay max (encode_frame f)) (items (view (iw_frames w))))
  (Hcmds : Forall2 (fun c m => encode_control c = Ok m) cs (items (view (iw_control w))))
  (Hcfits : Forall (fits_relay max) (items (view (iw_control w))))
  (Hwire : rest (rr_in r) = taken (iw_out w'))
  (Htap : forall f t, exists t', tap_write_all f t = (Ok (), t'))
  (Halive : rx_alive (view (rr_responses r)) = true)
  (Hroom : (length (items (view (rr_responses r))) + length cs <= cap (view (rr_responses r)))%nat)
  (Hfuel : (length (items (view (iw_frames w))) + length cs < fuel)%nat) :
  exists r' ms rs, relay_reader_run fuel proc iface max r = Ret (Some (Done (Ok ()) r')) /\
    tap_frames (rr_tap r') = tap_frames (rr_tap r) ++ written_frames (items (view (iw_frames w))) /\
    items (view (rr_responses r')) = items (view (rr_responses r)) ++ ms /\
    Forall2 (fun x m => encode_control x = Ok m) rs ms /\ resp_id <$> rs = cmd_id <$> cs.
Proof.
  destruct (ipc_writer_iter_ok FrameBranch w w' Hrun Hdead Hready) as (_ & _ & Ht & _).
  rewrite Hstart in Ht. cbn [app] in Ht. rewrite Ht in Hwire.
  pose proof (inbounds_encode max _ _ _ Hfits Hcmds Hcfits) as Henc.
  destruct (relay_run_msgs proc iface max _ _ fuel r Htap Henc Hwire Halive) as (r' & ms & E & H1 & H2 & _ & H4).
  - by rewrite inbounds_commands.
  - apply Forall2_length in Hcmds. rewrite length_app, length_fmap. lia.
  - rewrite inbounds_frames in H1. rewrite inbounds_commands in H4.
    exists r', ms, (fst (serve proc iface cs (rr_kernel r))). split_and!; try done. apply serve_ids.
Qed.

(** A proxy command comes back to its caller.  The message that
    [send_proxy_command] builds is decoded by the proxy as the command with the
    fresh id, served, and answered; and when the library's reader gets that answer
    it hands exactly this response to exactly this caller and forgets the request. *)
Theorem proxy_command_roundtrip (proc : result text) (iface : string) (cmd : ProxyCommand)
  (t : token) (rq rq' : requests) (msg : bytes) (p : relay_reader) (rd : ipc_reader) (i : AReader)
  (Hreg : register_command cmd t rq = (Ok msg, rq'))
  (Halive : rx_alive (view (rr_responses p)) = true)
  (Hroom : (length (items (view (rr_responses p))) < cap (view (rr_responses p)))%nat)
  (Hshared : ir_pending rd = pending_responses rq') :
  let resp := fst (handle_proxy_command proc (set_cmd_id cmd (next_request_id rq)) iface
                     (rr_kernel p)) in
  exists m p', relay_dispatch proc iface msg p = Ret (Go p') /\
    items (view (rr_responses p')) = items (view (rr_responses p)) ++ [m] /\
    reader_dispatch m i rd =
      (true, MkReader i (ir_frames rd) (delete (next_request_id rq) (pending_responses rq))
               (ir_stats rd) (ir_dead rd) (ir_answers rd ++ [(t, resp)])).
Proof.
  intros resp. unfold register_command, fetch_add in Hreg. injection Hreg as Hmsg Hrq.
  destruct (dispatch_command proc iface (set_cmd_id cmd (next_request_id rq)) msg p Hmsg Halive Hroom)
    as (m & ch & E & Em & Hi & _).
  exists m. eexists. split; [exact E|]. split; [exact Hi|].
  rewrite (dispatch_resp _ m i rd Em), handle_proxy_command_id.
  assert (Hid : cmd_id (set_cmd_id cmd (next_request_id rq)) = next_request_id rq) by by destruct cmd.
  rewrite Hid, Hshared, <- Hrq. cbn. by rewrite lookup_insert_eq, delete_insert_eq.
Qed.

(** Request ids are fresh: fewer than 2^64 commands register under distinct
    ids, so none takes the place of another in the map of waiters. *)
Theorem request_ids_fresh (cmds : list (ProxyCommand * token)) (rq : requests)
  (Hid : fits 64 (next_request_id rq)) (Hempty : pending_responses rq = ∅)
  (Hmany : Z.of_nat (length cmds) < 2 ^ 64) :
  let rq' := foldl (fun r '(c, t) => snd (register_command c t r)) rq cmds in
  forall i c t, cmds !! i = Some (c, t) ->
    pending_responses rq' !! wrap 64 (next_request_id rq + Z.of_nat i) = Some t.
Proof.
  intros rq'.
  assert (H : forall n, let r := foldl (fun r '(c, t) => snd (register_command c t r)) rq (take n cmds) in
    (n <= length cmds)%nat -> next_request_id r = wrap 64 (next_request_id rq + Z.of_nat n) /\
    forall i c t, (i < n)%nat -> cmds !! i = Some (c, t) ->
      pending_responses r !! wrap 64 (next_request_id rq + Z.of_nat i) = Some t).
  { induction n as [|n IH]; cbn zeta.
    - intros _. cbn. rewrite Z.add_0_r, wrap_small by done. split; [done|]. lia.
    - intros Hn. destruct (IH ltac:(lia)) as [I1 I2]. clear IH.
      destruct (cmds !! n) as [[c t]|] eqn:Ec.
      2:{ apply lookup_ge_None_1 in Ec. lia. }
      rewrite (take_S_r _ _ _ Ec), foldl_snoc.
      set (r := foldl _ rq (take n cmds)) in *. unfold register_command, fetch_add. cbn. split.
      + rewrite I1. unfold wrap. rewrite Zplus_mod_idemp_l. f_equal. lia.
      + intros i c' t' Hi Hc'. rewrite I1. destruct (decide (i = n)) as [->|Hne].
        * rewrite lookup_insert_eq. congruence.
        * rewrite lookup_insert_ne; [apply (I2 i c'); [lia|done]|].
          unfold wrap. intros E. apply (f_equal (fun x => (x - next_request_id rq) mod 2 ^ 64)) in E.
          rewrite !Zminus_mod_idemp_l in E.
          replace (next_request_id rq + Z.of_nat n - next_request_id rq) with (Z.of_nat n) in E by lia.
          replace (next_request_id rq + Z.of_nat i - next_request_id rq) with (Z.of_nat i) in E by lia.
          rewrite !Z.mod_small in E by lia. lia. }
  intros i c t Hi. subst rq'. rewrite <- (firstn_all cmds) at 1.
  apply (H (length cmds) (le_n _)) with c; [|done]. by apply lookup_lt_Some in Hi.
Qed.

End Path.

(** ** Witnesses: the properties at concrete inputs, on the reference instances *)

#[local] Existing Instances Reference.mpsc Reference.mpsc_laws ReferenceIo.io ReferenceIo.io_laws
  ReferenceProxy.rtnetlink ReferenceProxy.tap ReferenceProxy.tap_laws
  response_serde response_serde_ok command_serde command_serde_ok.

Definition demo_path_writer : ipc_writer :=
  MkWriter (IpcSpec.demo_queue [[xaa]; [xbb]]) (IpcSpec.demo_queue [demo_cmd_msg]) ([] : AWriter)
    stats_zero false.

Lemma frames_reach_tap_witness :
  exists w', ipc_writer_iter FrameBranch demo_path_writer = (true, w') /\
  exists r', relay_reader_run 4 (Ok []) "tap0" 1514 (demo_relay (taken (iw_out w')))
      = Ret (Some (Done (Ok ()) r')) /\ tap_frames (rr_tap r') = [[xaa]; [xbb]].
Proof.
  destruct (ipc_writer_iter FrameBranch demo_path_writer) as [go w'] eqn:E.
  assert (go = true /\ iw_dead w' = false) as [-> Hd]
    by (vm_compute in E; by injection E as <- <-).
  exists w'. split; [done|].
  assert (Hc : fits_relay 1514 demo_cmd_msg).
  { split; [apply Nat.leb_le|]; vm_compute; reflexivity. }
  assert (Hf : forall b, fits_relay 1514 (encode_frame [b])) by (intros b; split; [cbn; lia|reflexivity]).
  destruct (frames_reach_tap (Ok []) "tap0" 1514 4 demo_path_writer w' [demo_cmd]
    (demo_relay (taken (iw_out w'))) E Hd) as (r' & ms & rs & H1 & H2 & _); try reflexivity.
  - done.
  - repeat (constructor; [apply Hf|]). constructor.
  - constructor; [vm_compute; reflexivity|constructor].
  - constructor; [exact Hc|constructor].
  - intros f t. by eexists.
  - apply Nat.leb_le. reflexivity.
  - apply Nat.ltb_lt. reflexivity.
  - exists r'. split; [exact H1|exact H2].
Defined.

Definition demo_requests : requests := MkRequests 1 ∅.
Definition demo_waiter : ipc_reader :=
  MkReader ([] : AReader) (IpcSpec.demo_queue []) {[1 := 7%nat]} stats_zero false [].

Lemma proxy_command_roundtrip_witness :
  exists msg rq' m p', register_command (GetIfaceStats 0) 7%nat demo_requests = (Ok msg, rq') /\
    relay_dispatch (Ok []) "tap0" msg (demo_relay []) = Ret (Go p') /\
    items (view (rr_responses p')) = [m] /\
    reader_dispatch m ([] : AReader) demo_waiter =
      (true, MkReader ([] : AReader) (IpcSpec.demo_queue []) ∅ stats_zero false
               [(7%nat, RespIfaceStats 1 ∅)]).
Proof.
  destruct (register_command (GetIfaceStats 0) 7%nat demo_requests) as [[msg|e] rq'] eqn:E;
    [|vm_compute in E; discriminate E].
  assert (Hs : ir_pending demo_waiter = pending_responses rq').
  { unfold register_command in E. injection E as _ <-. reflexivity. }
  destruct (proxy_command_roundtrip (Ok []) "tap0" (GetIfaceStats 0) 7%nat demo_requests rq' msg
    (demo_relay []) demo_waiter [] E eq_refl ltac:(apply Nat.ltb_lt; reflexivity) Hs) as (m & p' & H1 & H2 & H3).
  exists msg, rq', m, p'. split_and!; [done|exact H1|exact H2|exact H3].
Defined.

Lemma request_ids_fresh_witness :
  let rq' := foldl (fun r '(c, t) => snd (register_command c t r)) (MkRequests (2 ^ 64 - 1) ∅)
    [(GetIfaceStats 0, 7%nat); (GetIfaceStats 0, 8%nat)] in
  pending_responses rq' !! 0 = Some 8%nat.
Proof.
  apply (request_ids_fresh [(GetIfaceStats 0, 7%nat); (GetIfaceStats 0, 8%nat)]
    (MkRequests (2 ^ 64 - 1) ∅)) with (i := 1%nat) (c := GetIfaceStats 0).
  - by split.
  - reflexivity.
  - reflexivity.
  - reflexivity.
Defined.
