(* ===== verification/TapPath.v ===== *)
(** * From the TAP device to the library

    The other direction of [Path]: the proxy's TAP reader, its IPC writer and the
    library's IPC reader composed, and the ARP announcement that is the first thing the
    proxy sends. *)

From S2P Require Import Prelude Net Stream Protocol AsyncIo Externals Stack StackPoll StackData.
From S2P Require Import Socket Device Text ProcNet Ipc IpcSpec Relay RelaySpec SerdeRef.
#[local] Open Scope Z_scope.

Section TapPath.
Context {M : Mpsc} {ML : MpscLaws} {A : AsyncIo} {AL : AsyncIoLaws}
  {SR : Serde ProxyResponse} {SRok : SerdeOk ProxyResponse}
  {SC : Serde ProxyCommand}.

(** ** The TAP reader *)

(** The loop of the task, on the results of its successive reads. *)
Fixpoint tap_reader_run (p : profile) (reads : list (result bytes)) (st : chan bytes * Z)
  : outcome (task_step (chan bytes * Z)) :=
  match reads with
  | [] => Ret (Go st)
  | got :: r =>
      x ← tap_reader_iter p got st;
      match x with
      | Go st' => tap_reader_run p r st'
      | y => Ret y
      end
  end.

(** What a send on a queue does, in terms of the room that is left. *)
Lemma try_send_room a (c : chan bytes) :
  match try_send a c with
  | (SendOk, c') => (0 < room c)%nat /\ items (view c') = items (view c) ++ [a] /\ room c' = pred (room c) /\
                    rx_alive (view c') = rx_alive (view c)
  | (SendFull, c') => room c = 0%nat /\ view c' = view c /\ rx_alive (view c) = true
  | (SendClosed, c') => view c' = view c /\ rx_alive (view c) = false
  end.
Proof.
  unfold room. pose proof (try_send_cases a c) as T.
  destruct (try_send a c) as [[] c']; destruct T as [-> Hr];
    unfold ChanSpec.reserve, ChanSpec.has_room in Hr; destruct (rx_alive (view c)) eqn:Ha; cbn in Hr |- *;
    try case_bool_decide; try done; rewrite ?Ha, ?length_app; cbn; split_and!; done || lia.
Qed.

Lemma room_view (c c' : chan bytes) : view c' = view c -> room c' = room c.
Proof. unfold room. by intros ->. Qed.

Lemma tap_reader_run_frames p frames c dropped :
  Forall (fun f => f <> []) frames -> rx_alive (view c) = true ->
  0 <= dropped -> dropped + Z.of_nat (length frames) < 2 ^ 64 ->
  exists c', tap_reader_run p (Ok <$> frames) (c, dropped) =
      Ret (Go (c', dropped + Z.of_nat (length frames - room c))) /\
    items (view c') = items (view c) ++ take (room c) (encode_frame <$> frames) /\
    rx_alive (view c') = true.
Proof.
  intros Hne. revert c dropped. induction Hne as [|f frames Hf _ IH]; intros c dropped Ha Hd Hlt.
  { exists c. cbn. by rewrite Z.add_0_r, take_nil, app_nil_r. }
  cbn [length] in Hlt. rewrite fmap_cons. cbn [tap_reader_run tap_reader_iter].
  destruct f as [|x f]; [done|]. set (ff := x :: f) in *. clearbody ff.
  pose proof (try_send_room (encode_frame ff) c) as T.
  destruct (try_send (encode_frame ff) c) as [[] c1]; cbn [mbind outcome_bind].
  - destruct T as (Hr & Hi & Hr' & Ha'). destruct (IH c1 dropped) as (c' & E & H1 & H2); [congruence|lia|lia|].
    exists c'. rewrite E, H1, Hi, Hr'. destruct (room c) as [|n]; [lia|].
    cbn [pred take fmap list_fmap length]. rewrite <- app_assoc. done.
  - destruct T as (Hr & Hv & _). unfold uadd. rewrite decide_True by lia. cbn [mbind outcome_bind].
    destruct (IH c1 (dropped + 1)) as (c' & E & H1 & H2); [by rewrite Hv|lia|lia|].
    exists c'. rewrite E, H1, (room_view c c1 Hv), Hv, Hr, !take_0, !Nat.sub_0_r. cbn [length].
    split_and!; [|done|done]. do 3 f_equal. lia.
  - destruct T as [_ Hc]. congruence.
Qed.

(** ** The announcement *)

(** An Ethernet frame with an ARP packet for IPv4, field by field. *)
Record arp := MkArp {
  eth_dst : bytes; eth_src : bytes; ethertype : Z; htype : Z; ptype : Z; hlen : Z; plen : Z;
  oper : Z; sha : bytes; spa : bytes; tha : bytes; tpa : bytes
}.

Definition slice (off n : nat) (b : bytes) : bytes := take n (drop off b).

Definition parse_arp (b : bytes) : option arp :=
  if decide (length b = 42%nat) then
    Some (MkArp (slice 0 6 b) (slice 6 6 b) (be_val (slice 12 2 b)) (be_val (slice 14 2 b))
            (be_val (slice 16 2 b)) (be_val (slice 18 1 b)) (be_val (slice 19 1 b))
            (be_val (slice 20 2 b)) (slice 22 6 b) (slice 28 4 b) (slice 32 6 b) (slice 38 4 b))
  else None.

Lemma parse_gratuitous sm si tm :
  parse_arp (build_gratuitous_arp sm si tm) =
    Some (MkArp (vec_to_list tm) (vec_to_list sm) 2054 1 2048 6 4 2
            (vec_to_list sm) (vec_to_list si) (vec_to_list tm) (vec_to_list si)).
Proof.
  inv_vec sm; intros; inv_vec si; intros; inv_vec tm; intros.
  reflexivity.
Qed.

(** ** Messages on the wire *)

Lemma wire_frames fs rs : frames_of ((WFrame <$> fs) ++ (WResp <$> rs)) = fs.
Proof.
  unfold frames_of. rewrite omap_app.
  assert (H2 : omap (fun w => match w with WFrame f => Some f | _ => None end) (WResp <$> rs) = [])
    by (induction rs; done).
  rewrite H2, app_nil_r. induction fs as [|f fs IH]; cbn; [done|by f_equal].
Qed.

Lemma wire_resps fs rs : resps_of ((WFrame <$> fs) ++ (WResp <$> rs)) = rs.
Proof.
  unfold resps_of. rewrite omap_app.
  assert (H1 : omap (fun w => match w with WResp r => Some r | _ => None end) (WFrame <$> fs) = [])
    by (induction fs; done).
  rewrite H1. cbn. induction rs as [|r rs IH]; cbn; [done|by f_equal].
Qed.

Lemma wire_encodes fs rs ms :
  Forall (fun f => Z.of_nat (length (encode_frame f)) < 2 ^ 32) fs ->
  Forall2 (fun r m => encode_control r = Ok m) rs ms ->
  Forall (fun m => Z.of_nat (length m) < 2 ^ 32) ms ->
  Forall2 encodes ((WFrame <$> fs) ++ (WResp <$> rs)) ((encode_frame <$> fs) ++ ms).
Proof.
  intros Hf Hr Hm. apply Forall2_app.
  - induction Hf; constructor; [by split|done].
  - induction Hr as [|r m rs ms Hrm _ IH]; [constructor|].
    apply Forall_cons_1 in Hm as [H1 Hm]. constructor; [by split|auto].
Qed.

Lemma sublist_full {X} (l k : list X) : l `sublist_of` k -> length k = length l -> l = k.
Proof.
  induction 1 as [|x l k Hs IH|x l k Hs IH]; cbn; intros E; [done|by rewrite IH by lia|].
  apply sublist_length in Hs. lia.
Qed.

(** ** Properties *)

(** The proxy's TAP reader never blocks and never panics: of the frames it reads,
    exactly the first ones, as many as the queue to the IPC writer has room for, are
    queued with their type byte, in order; all others are counted as dropped, and the
    loop goes on in every case. *)
Theorem tap_reader_accounting (p : profile) (frames : list bytes) (c : chan bytes) (dropped : Z)
  (Hne : Forall (fun f => f <> []) frames) (Halive : rx_alive (view c) = true) (Hd : 0 <= dropped)
  (Hmax : dropped + Z.of_nat (length frames) < 2 ^ 64) :
  exists c', tap_reader_run p (Ok <$> frames) (c, dropped) =
      Ret (Go (c', dropped + Z.of_nat (length frames - room c))) /\
    items (view c') = items (view c) ++ take (room c) (encode_frame <$> frames).
Proof.
  destruct (tap_reader_run_frames p frames c dropped Hne Halive Hd Hmax) as (c' & E & H & _).
  by exists c'.
Qed.

(** From the TAP device's queue to the library.  When a turn of the proxy's writer
    goes on and the library's reader reads what it wrote, the device's queue gets
    exactly the frames that were queued, in order, while it has room, and every waiter
    whose request was answered gets the first response with its id. *)
Theorem frames_reach_device (fs : list bytes) (rs : list ProxyResponse) (w w' : relay_writer)
  (rd : ipc_reader) (fuel : nat)
  (Hrun : relay_writer_iter TapBranch w = Go w') (Hstart : taken (rw_out w) = [])
  (Hframes : items (view (rw_frames w)) = encode_frame <$> fs)
  (Hresps : Forall2 (fun r m => encode_control r = Ok m) rs (items (view (rw_responses w))))
  (Hflen : Forall (fun f => Z.of_nat (length (encode_frame f)) < 2 ^ 32) fs)
  (Hrlen : Forall (fun m => Z.of_nat (length m) < 2 ^ 32) (items (view (rw_responses w))))
  (Hwire : rest (ir_in rd) = taken (rw_out w')) (Halive : rx_alive (view (ir_frames rd)) = true)
  (Hroom : (length (items (view (ir_frames rd))) + length fs <= cap (view (ir_frames rd)))%nat)
  (Hfuel : (length fs + length rs < fuel)%nat) :
  exists rd', ipc_reader_run fuel rd = (true, rd') /\
    items (view (ir_frames rd')) = items (view (ir_frames rd)) ++ fs /\
    forall id t, ir_pending rd !! id = Some t ->
      match response_to id rs with
      | Some r => ir_pending rd' !! id = None /\ (t, r) ∈ ir_answers rd'
      | None => ir_pending rd' !! id = Some t
      end.
Proof.
  destruct (relay_writer_iter_ok TapBranch w w' Hrun) as (_ & _ & Ht).
  rewrite Hstart, Hframes in Ht. cbn [app] in Ht. rewrite Ht in Hwire.
  destruct (reader_run_msgs _ _ fuel rd (wire_encodes fs rs _ Hflen Hresps Hrlen) Hwire Halive)
    as (rd' & E & _ & (dl & dr & H1 & H2 & H3 & _ & _ & H6) & (_ & Hw) & _).
  { apply Forall2_length in Hresps. rewrite length_app, length_fmap. lia. }
  rewrite wire_frames in *. rewrite wire_resps in Hw. exists rd'. split_and!; [done| |done].
  rewrite H1. f_equal. apply sublist_full; [done|]. rewrite H3, (H6 Hroom). lia.
Qed.

(** The announcement: with an IPv4 address the first message the proxy writes is a
    42-octet broadcast Ethernet frame with an ARP reply that maps the address to the TAP
    device's MAC address, and it is the first frame the library's reader queues for the
    device; without an IPv4 address nothing is written. *)
Theorem arp_announced (mac : array 6) (ip : array 4) (prefix : Z) (peer : option (IpAddr * Z))
  (w w' w2 : AWriter) (rd : ipc_reader) (tl : bytes)
  (Hsend : announce mac (Some (V4 ip, prefix)) w = (Ok (), w')) (Hstart : taken w = [])
  (Hwire : rest (ir_in rd) = taken w' ++ tl)
  (Halive : rx_alive (view (ir_frames rd)) = true) (Hempty : items (view (ir_frames rd)) = [])
  (Hcap : (0 < cap (view (ir_frames rd)))%nat)
  (Hother : forall a p, peer <> Some (V4 a, p)) (Hsend2 : announce mac peer w = (Ok (), w2)) :
  taken w2 = [] /\
  exists f rd', ipc_reader_iter rd = (true, rd') /\ items (view (ir_frames rd')) = [f] /\
    rest (ir_in rd') = tl /\ length f = 42%nat /\
    parse_arp f = Some (MkArp (vec_to_list broadcast_mac) (vec_to_list mac) 2054 1 2048 6 4 2
      (vec_to_list mac) (vec_to_list ip) (vec_to_list broadcast_mac) (vec_to_list ip)).
Proof.
  split.
  { unfold announce in Hsend2. destruct peer as [[[a|a] p]|]; [by destruct (Hother a p)|..];
      by injection Hsend2 as <-. }
  cbn [announce] in Hsend. apply write_framed_ok in Hsend. rewrite Hstart in Hsend. cbn [app] in Hsend.
  pose proof (parse_gratuitous mac ip broadcast_mac) as Hp. set (f := build_gratuitous_arp _ _ _) in *.
  assert (Hl : length f = 42%nat) by (unfold parse_arp in Hp; by case_decide).
  clearbody f. rewrite Hsend in Hwire.
  destruct (iter_msg (encode_frame f) tl rd) as (r & Hr & Ei); [cbn; lia|done|].
  destruct (dispatch_frame f r rd Halive) as (c & st & Ed & Hc & _ & Hcase).
  exists f. eexists. rewrite Ei, Ed. split; [reflexivity|]. cbn [ir_frames ir_in].
  destruct Hcase as [[Hi _]|[Hfull [Hi _]]]; rewrite Hi, Hempty in *; [|cbn in Hfull; lia].
  by split_and!.
Qed.

End TapPath.

(** ** Witnesses: the properties at concrete inputs, on the reference instances *)

#[local] Existing Instances Reference.mpsc Reference.mpsc_laws ReferenceIo.io ReferenceIo.io_laws
  response_serde response_serde_ok command_serde command_serde_ok.

Definition demo_small : chan bytes := ChanView [] 2 true true.

Lemma tap_reader_accounting_witness :
  exists c', tap_reader_run Debug (Ok <$> [[x01]; [x02]; [x03]]) (demo_small, 0) =
      Ret (Go (c', 1)) /\
    items (view c') = [encode_frame [x01]; encode_frame [x02]].
Proof.
  apply (tap_reader_accounting Debug [[x01]; [x02]; [x03]] demo_small 0);
    [by repeat constructor|done..].
Defined.

Definition demo_tap_writer : relay_writer :=
  MkRelayWriter (IpcSpec.demo_queue [encode_frame [xaa]; encode_frame [xbb]]) (IpcSpec.demo_queue [])
    ([] : AWriter).

Definition demo_empty_reader (input : bytes) : ipc_reader :=
  MkReader (input : AReader) (IpcSpec.demo_queue []) ∅ stats_zero false [].

Lemma frames_reach_device_witness :
  exists w' rd', relay_writer_iter TapBranch demo_tap_writer = Go w' /\
    ipc_reader_run 5 (demo_empty_reader (taken (rw_out w'))) = (true, rd') /\
    items (view (ir_frames rd')) = [[xaa]; [xbb]].
Proof.
  destruct (relay_writer_iter TapBranch demo_tap_writer) as [w'|? ?|?] eqn:E;
    [|vm_compute in E; discriminate E..].
  destruct (frames_reach_device [[xaa]; [xbb]] [] demo_tap_writer w'
    (demo_empty_reader (taken (rw_out w'))) 5 E) as (rd' & H1 & H2 & _);
    try done; try (cbn; lia); try (by repeat constructor).
  by exists w', rd'.
Defined.

Definition demo_mac : array 6 := [# x02; x00; x00; x00; x00; x07].
Definition demo_ip : array 4 := [# x0a; x00; x00; x01].
Definition demo_arp : bytes :=
  frame_msg (encode_frame (build_gratuitous_arp demo_mac demo_ip broadcast_mac)).

Definition demo_out : AWriter := ([] : bytes).

Lemma arp_announced_witness :
  exists f rd', ipc_reader_iter (demo_empty_reader demo_arp) = (true, rd') /\
    items (view (ir_frames rd')) = [f] /\ length f = 42%nat.
Proof.
  destruct (arp_announced demo_mac demo_ip 24 None demo_out demo_arp demo_out
    (demo_empty_reader demo_arp) []) as (_ & f & rd' & H1 & H2 & _ & H4 & _); try done.
  - cbn. lia.
  - by exists f, rd'.
Defined.
