(* ===== verification/Handshake.v ===== *)
(** * Configuration and handshake

    [TapConfig] and its builder, the proxy's side of the handshake
    ([perform_handshake] in [proxy/src/main.rs]) and the library's side
    ([connect_to_blocking] and [connect_with_config_blocking] in [src/lib.rs]), and
    the configuration of the stack that results ([setup_stack_from_fd]). *)

From S2P Require Import Prelude Net Stream Protocol Externals Stack.
#[local] Open Scope Z_scope.

Definition DEFAULT_MTU : Z := 1500.
Definition ETHERNET_HEADER_SIZE : Z := 14.

Record TapConfig := MkTapConfig {
  interface_name : string; peer_addr : option (IpAddr * Z); local_addr : option (IpAddr * Z);
  mac : option (array 6); packet_loss_percent : Z; peer_routes : list (IpAddr * Z); mtu : Z
}.

(** [TapConfig::default] and [TapConfig::new] *)
Definition tap_config_default : TapConfig := MkTapConfig "tap0" None None None 0 [] DEFAULT_MTU.

(** The builder methods *)
Definition with_interface_name name (c : TapConfig) : TapConfig :=
  MkTapConfig name (peer_addr c) (local_addr c) (mac c) (packet_loss_percent c) (peer_routes c) (mtu c).
Definition with_peer_addr addr prefix_len (c : TapConfig) : TapConfig :=
  MkTapConfig (interface_name c) (Some (addr, prefix_len)) (local_addr c) (mac c)
    (packet_loss_percent c) (peer_routes c) (mtu c).
Definition with_local_addr addr prefix_len (c : TapConfig) : TapConfig :=
  MkTapConfig (interface_name c) (peer_addr c) (Some (addr, prefix_len)) (mac c)
    (packet_loss_percent c) (peer_routes c) (mtu c).
Definition with_mac m (c : TapConfig) : TapConfig :=
  MkTapConfig (interface_name c) (peer_addr c) (local_addr c) (Some m)
    (packet_loss_percent c) (peer_routes c) (mtu c).
Definition with_packet_loss_percent p (c : TapConfig) : TapConfig :=
  MkTapConfig (interface_name c) (peer_addr c) (local_addr c) (mac c) p (peer_routes c) (mtu c).
Definition with_peer_route dest prefix_len (c : TapConfig) : TapConfig :=
  MkTapConfig (interface_name c) (peer_addr c) (local_addr c) (mac c)
    (packet_loss_percent c) (peer_routes c ++ [(dest, prefix_len)]) (mtu c).
Definition with_mtu m (c : TapConfig) : TapConfig :=
  MkTapConfig (interface_name c) (peer_addr c) (local_addr c) (mac c)
    (packet_loss_percent c) (peer_routes c) m.

Section Handshake.
Context {SH : Serde ClientHello} {SP : Serde ProxyConfig}.

(** ** The proxy's side *)

(** [decode_message(&buf)?] and the match on its result. *)
Definition expect_control {T} `{Serde T} (msg : bytes) (err : io_error) : result T :=
  match decode_message msg with
  | Err e => Err e
  | Ok (Control payload) => decode_control payload
  | Ok (Frame _) => Err err
  end.

Definition perform_handshake (config : TapConfig) (tap_mac : array 6) (s : rstream) (w : wstream)
  : result unit * rstream * wstream :=
  match read_exact_fd 4 s with
  | (Err e, s1) => (Err e, s1, w)
  | (Ok len_buf, s1) =>
      let len := Z.to_nat (be_val len_buf) in
      match read_exact_fd len s1 with
      | (Err e, s2) => (Err e, s2, w)
      | (Ok buf, s2) =>
          match expect_control (T:=ClientHello) buf
                  (IoError InvalidData "expected ClientHello, got frame") with
          | Err e => (Err e, s2, w)
          | Ok _ =>
              match peer_addr config with
              | None => (Err (IoError InvalidInput "tap_addr must be configured"), s2, w)
              | Some (tap_ip, prefix_len) =>
                  let proxy_config := {| pc_tap_ip := tap_ip; pc_tap_mac := tap_mac;
                                         pc_prefix_len := prefix_len; pc_mtu := mtu config |} in
                  match encode_control proxy_config with
                  | Err e => (Err e, s2, w)
                  | Ok config_msg =>
                      match write_all_fd (len_prefix config_msg) w with
                      | (Err e, w1) => (Err e, s2, w1)
                      | (Ok _, w1) =>
                          match write_all_fd config_msg w1 with
                          | (Err e, w2) => (Err e, s2, w2)
                          | (Ok _, w2) => (Ok (), s2, w2)
                          end
                      end
                  end
              end
          end
      end
  end.

(** ** The library's side *)

Definition send_hello (w : wstream) : result unit * wstream :=
  match encode_control MkClientHello with
  | Err e => (Err e, w)
  | Ok hello_msg => write_framed_sync hello_msg w
  end.

(** [connect_to_blocking] after the hello was sent: the proxy's configuration. *)
Definition receive_config (s : rstream) : result ProxyConfig * rstream :=
  match read_framed_sync (replicate 1024 x00) s with
  | (Err e, s1) => (Err e, s1)
  | (Ok (n, buf), s1) =>
      (expect_control (take n buf) (invalid_data "expected ProxyConfig, got frame"), s1)
  end.

(** The configuration the library derives from it. *)
Definition client_config (p : profile) (pc : ProxyConfig) (local_ip : option IpAddr)
    (base : TapConfig) : outcome TapConfig :=
  client_ip ← (match local_ip with Some ip => Ret ip | None => default_client_ip p (pc_tap_ip pc) end);
  Ret (with_mtu (pc_mtu pc)
         (with_local_addr client_ip (pc_prefix_len pc)
            (with_peer_addr (pc_tap_ip pc) (pc_prefix_len pc) base))).

Definition connect_to_config (p : profile) (pc : ProxyConfig) (local_ip : option IpAddr)
  : outcome TapConfig := client_config p pc local_ip tap_config_default.

(** [mac[5] = (id & 0xff) as u8] on the locally administered base address. *)
Definition mac_from_id (id : Z) : array 6 :=
  [# x02; x00; x00; x00; x00; byte_of (Z.land id 255)].

(** [connect_with_config_blocking]: the caller's configuration, with the address it
    asks for and a MAC address derived from the PID by default. *)
Definition connect_pid_config (p : profile) (pc : ProxyConfig) (pid : Z) (config : TapConfig)
  : outcome TapConfig :=
  c ← client_config p pc (fst <$> local_addr config) config;
  Ret (match mac c with Some _ => c | None => with_mac (mac_from_id pid) c end).

(** The 4-byte prefix is read with a timeout of 100 ms.  What one iteration meets:
    whether something (octets, the end or an error) arrived in time, whether the
    deadline has passed, and what [try_wait] says of the child process. *)
Record tick := Tick { arrived : bool; expired : bool; child : result (option string) }.

Definition timeout_kind (e : io_error) : bool :=
  match ekind e with WouldBlock | TimedOut => true | _ => false end.

(** The message, with what [read_child_stderr] returned when it is not empty. *)
Definition with_stderr (msg stderr : string) : string :=
  if decide (stderr = ""%string) then msg else (msg +:+ ": " +:+ stderr)%string.

(** The loop, on the iterations [sched]; [None] when it goes on after them. *)
Fixpoint read_len_loop (stderr : string) (sched : list tick) (acc : bytes) (s : rstream)
  : option (result bytes * rstream) :=
  match sched with
  | [] => None
  | t :: r =>
      match (if arrived t then sys_read (4 - length acc) s
             else (Err (IoError WouldBlock "Resource temporarily unavailable"), s)) with
      | (Ok [], s') =>
          Some (Err (unexpected_eof (with_stderr "proxy closed connection during handshake" stderr)), s')
      | (Ok d, s') =>
          let acc' := acc ++ d in
          if decide (4 <= length acc')%nat then Some (Ok acc', s')
          else read_len_loop stderr r acc' s'
      | (Err e, s') =>
          if timeout_kind e then
            if expired t then Some (Err (IoError TimedOut "timed out waiting for proxy handshake"), s')
            else
              match child t with
              | Err e' => Some (Err e', s')
              | Ok (Some status) =>
                  Some (Err (IoError OtherError
                    (with_stderr ("proxy exited with " +:+ status)%string stderr)), s')
              | Ok None => read_len_loop stderr r acc s'
              end
          else Some (Err e, s')
      end
  end.

(** [connect_with_config_blocking] after the hello was sent. *)
Definition receive_config_timed (stderr : string) (sched : list tick) (s : rstream)
  : option (result ProxyConfig * rstream) :=
  match read_len_loop stderr sched [] s with
  | None => None
  | Some (Err e, s1) => Some (Err e, s1)
  | Some (Ok len_buf, s1) =>
      let msg_len := Z.to_nat (be_val len_buf) in
      match read_exact msg_len s1 with
      | (Err e, s2) => Some (Err e, s2)
      | (Ok buf, s2) =>
          Some (expect_control buf (invalid_data "expected ProxyConfig, got frame"), s2)
      end
  end.

(** ** The stack's configuration ([setup_stack_from_fd]) *)

Definition stack_config (process_id : Z) (config : TapConfig) : result StackConfig :=
  let m := match mac config with Some m => m | None => mac_from_id process_id end in
  match local_addr config with
  | None => Err (invalid_input "local_addr must be configured")
  | Some (local_ip, local_prefix) =>
      match peer_addr config with
      | None => Err (invalid_input "peer_addr missing")
      | Some (gateway_ip, _) =>
          Ok {| cfg_mac := m; cfg_ip := local_ip; cfg_prefix_len := local_prefix;
                cfg_gateway := gateway_ip |}
      end
  end.

Definition ethernet_frame_size (config : TapConfig) : Z := mtu config + ETHERNET_HEADER_SIZE.

End Handshake.
