(* ===== verification/HandshakeSpec.v ===== *)
(** * Correctness of the handshake

    Both sides agree on the proxy's configuration whatever the reads and writes are
    cut into, and the resulting stack configuration is valid when the addresses are
    of one family. *)

From S2P Require Import Prelude Net Stream Protocol Externals Stack StackPoll Handshake SerdeRef.
#[local] Open Scope Z_scope.

Section HandshakeSpec.
Context {SH : Serde ClientHello} {SHok : SerdeOk ClientHello}
  {SP : Serde ProxyConfig} {SPok : SerdeOk ProxyConfig}.

(** Reading exactly [n] octets that are there. *)
Lemma read_exact_there eof b tl s :
  rs_wf s -> rbytes s = b ++ tl ->
  exists s', read_exact_loop eof (length b) (length b) [] s = (Ok b, s') /\
    rbytes s' = tl /\ rs_wf s' /\ ends s' = ends s.
Proof.
  intros Hw Hb. destruct (read_exact_with_spec eof (length b) s Hw) as (He & Hw' & H).
  destruct (read_exact_loop _ _ _ _ _) as [r s']; cbn [fst snd] in *.
  rewrite Hb, decide_True, take_app_length, drop_app_length in H by (rewrite length_app; lia).
  destruct H as [-> H]. by exists s'.
Qed.

(** The two reads that take one framed message off the stream. *)
Lemma read_exact_msg eof b tl s :
  rs_wf s -> Z.of_nat (length b) < 2 ^ 32 -> rbytes s = frame_msg b ++ tl ->
  exists s1 s2, read_exact_loop eof 4 4 [] s = (Ok (len_prefix b), s1) /\
    Z.to_nat (be_val (len_prefix b)) = length b /\
    rbytes s1 = b ++ tl /\ rs_wf s1 /\
    read_exact_loop eof (length b) (length b) [] s1 = (Ok b, s2) /\ rbytes s2 = tl /\ rs_wf s2.
Proof.
  intros Hw Hl Hb. unfold frame_msg in Hb. rewrite <- app_assoc in Hb.
  destruct (read_exact_there eof _ _ s Hw Hb) as (s1 & E1 & R1 & W1 & _).
  rewrite length_len_prefix in E1.
  destruct (read_exact_there eof _ _ s1 W1 R1) as (s2 & E2 & R2 & W2 & _).
  exists s1, s2. split_and!; try done. by rewrite len_prefix_val, Nat2Z.id.
Qed.

Lemma write_all_fd_ok b w :
  Forall (fun x => match x with WrFails _ => False | _ => True end) (script w) ->
  exists w', write_all_fd b w = (Ok (), w') /\ written w' = written w ++ b /\
    Forall (fun x => match x with WrFails _ => False | _ => True end) (script w').
Proof.
  unfold write_all_fd. generalize (written w), (script w). intros acc sc Hsc. revert b acc.
  induction Hsc as [|x sc Hx Hsc IH]; intros [|y b] acc; cbn [write_all_fd_loop].
  - eexists. by rewrite app_nil_r.
  - eexists. done.
  - eexists. rewrite app_nil_r. split_and!; try done. by constructor.
  - destruct x as [k|e]; [|done]. destruct (IH (drop k (y :: b)) (acc ++ take k (y :: b))) as (w' & E & H & Hs).
    exists w'. split_and!; try done. by rewrite H, <- app_assoc, take_drop.
Qed.

Lemma expect_control_ok {T} `{SerdeOk T} (t : T) (m : bytes) e :
  encode_control t = Ok m -> expect_control m e = Ok t.
Proof.
  destruct (decode_encode_control t) as (payload & E1 & E2 & E3). rewrite E1. intros [= <-].
  unfold expect_control. by rewrite E2, E3.
Qed.

(** The prefix loop: an iteration that times out finds the child alive, one that does
    not brings at least one octet. *)
Definition alive (t : tick) : Prop := arrived t \/ expired t = false /\ child t = Ok None.
Definition deliveries (sched : list tick) : nat := length (filter (fun t => arrived t) sched).

Lemma read_len_ok stderr sched acc b s :
  Forall alive sched -> rs_wf s -> (length acc < 4)%nat -> (4 - length acc <= deliveries sched)%nat ->
  (4 <= length acc + length (rbytes s))%nat -> acc ++ rbytes s = b ->
  exists s', read_len_loop stderr sched acc s = Some (Ok (take 4 b), s') /\
    rbytes s' = drop 4 b /\ rs_wf s'.
Proof.
  intros Hal. unfold deliveries.
  revert acc s. induction Hal as [|t sched Ht _ IH]; intros acc s Hw Ha Hd Hb Hbs.
  { change (4 - length acc <= 0)%nat in Hd. lia. }
  rewrite filter_cons in Hd. cbn [read_len_loop].
  destruct t as [[] ex ch]; cbn [arrived] in *.
  2:{ destruct Ht as [[]|[E1 E2]]. cbn in E1, E2. subst. cbn. by apply IH. }
  rewrite decide_True in Hd by done. cbn [length] in Hd.
  assert (Hne : chunks s <> []).
  { intros E. unfold rbytes in Hb. rewrite E in Hb. cbn in Hb. lia. }
  destruct (sys_read (4 - length acc) s) as [[d|e] s1] eqn:E.
  2:{ unfold sys_read in E. by destruct (chunks s). }
  pose proof (sys_read_wf (4 - length acc) s Hw ltac:(lia)) as Hw1. rewrite E in Hw1. cbn [snd] in Hw1.
  destruct (sys_read_data (4 - length acc) s d s1 Hw ltac:(lia) Hne E) as (Hdn & Hdl & Hdb & _).
  destruct d as [|x d]; [done|].
  set (dd := x :: d) in *. assert (Hdd : (0 < length dd)%nat) by (subst dd; cbn; lia). clearbody dd. clear Hdn x d.
  rewrite Hdb, app_assoc in Hbs. case_decide as H4; rewrite length_app in H4.
  - exists s1. assert (E4 : length (acc ++ dd) = 4%nat) by (rewrite length_app; lia).
    rewrite <- Hbs, <- E4, take_app_length, drop_app_length. done.
  - apply IH; rewrite ?length_app; try done; [lia|lia|].
    rewrite Hdb, length_app in Hb. lia.
Qed.

Lemma perform_handshake_ok config tap_mac tap_ip prefix hello cmsg tl s w :
  peer_addr config = Some (tap_ip, prefix) -> encode_control MkClientHello = Ok hello ->
  Z.of_nat (length hello) < 2 ^ 32 -> rs_wf s -> rbytes s = frame_msg hello ++ tl ->
  encode_control {| pc_tap_ip := tap_ip; pc_tap_mac := tap_mac; pc_prefix_len := prefix;
                    pc_mtu := mtu config |} = Ok cmsg ->
  Forall (fun x => match x with WrFails _ => False | _ => True end) (script w) ->
  exists s' w', perform_handshake config tap_mac s w = (Ok (), s', w') /\
    rbytes s' = tl /\ written w' = written w ++ frame_msg cmsg.
Proof.
  intros Hp Hh Hl Hw Hs Hc Hsc. unfold perform_handshake, read_exact_fd.
  destruct (read_exact_msg (IoError UnexpectedEof "connection closed") hello tl s Hw Hl Hs)
    as (s1 & s2 & -> & -> & _ & _ & -> & Hr & _).
  rewrite (expect_control_ok MkClientHello hello _ Hh), Hp, Hc.
  destruct (write_all_fd_ok (len_prefix cmsg) w Hsc) as (w1 & -> & E1 & S1).
  destruct (write_all_fd_ok cmsg w1 S1) as (w2 & -> & E2 & _).
  exists s2, w2. split_and!; try done. unfold frame_msg. by rewrite E2, E1, app_assoc.
Qed.

Lemma receive_config_ok pc cmsg tl s :
  encode_control pc = Ok cmsg -> Z.of_nat (length cmsg) < 2 ^ 32 -> rs_wf s ->
  rbytes s = frame_msg cmsg ++ tl ->
  exists s', receive_config s = (Ok pc, s') /\ rbytes s' = tl.
Proof.
  intros Hc Hl Hw Hs. unfold receive_config.
  assert (Hpos : 0 < Z.of_nat (length cmsg)).
  { destruct (decode_encode_control pc) as (pl & E & _). rewrite E in Hc. injection Hc as <-. cbn. lia. }
  destruct (read_framed_frame (replicate 1024 x00) cmsg tl s Hw (conj Hpos Hl) Hs)
    as (buf & s' & -> & Ht & _ & Hr & _).
  rewrite Ht, (expect_control_ok pc cmsg _ Hc). by exists s'.
Qed.

Lemma receive_config_timed_ok stderr sched pc cmsg tl s :
  encode_control pc = Ok cmsg -> Z.of_nat (length cmsg) < 2 ^ 32 -> rs_wf s ->
  rbytes s = frame_msg cmsg ++ tl -> Forall alive sched -> (4 <= deliveries sched)%nat ->
  exists s', receive_config_timed stderr sched s = Some (Ok pc, s') /\ rbytes s' = tl.
Proof.
  intros Hc Hl Hw Hs Hal Hd. unfold receive_config_timed.
  destruct (frame_msg_take cmsg tl) as [Ht Hdr].
  destruct (read_len_ok stderr sched [] (frame_msg cmsg ++ tl) s) as (s1 & E & R1 & W1); try done.
  { cbn. lia. }
  { rewrite Hs. unfold frame_msg. rewrite !length_app, length_len_prefix. lia. }
  rewrite E, Ht, len_prefix_val, Nat2Z.id by lia. rewrite Hdr in R1.
  destruct (read_exact_there (IoError UnexpectedEof "failed to fill whole buffer") cmsg tl s1 W1 R1)
    as (s2 & E2 & R2 & _). unfold read_exact. rewrite E2.
  exists s2. by rewrite (expect_control_ok pc cmsg _ Hc).
Qed.

(** ** Properties *)

(** C18: The handshake agrees.  When the proxy, with an address configured, reads the
    library's hello (cut in any way) and its writes do not fail (whatever each of
    them accepts), its side succeeds, and a library that then reads what the proxy
    wrote (cut in any way, and even when reads time out repeatedly while the child
    is alive) gets exactly the proxy's address, MAC, prefix and MTU, and is left at
    the first octet after it. *)
Theorem handshake_agrees (config : TapConfig) (tap_mac : array 6) (tap_ip : IpAddr) (prefix : Z)
  (hello tl ctl : bytes) (stderr : string) (sched : list tick) (s c : rstream) (w : wstream)
  (Hpeer : peer_addr config = Some (tap_ip, prefix))
  (Hhello : encode_control MkClientHello = Ok hello) (Hhl : Z.of_nat (length hello) < 2 ^ 32)
  (Hws : rs_wf s) (Hs : rbytes s = frame_msg hello ++ tl)
  (Hscript : Forall (fun x => match x with WrFails _ => False | _ => True end) (script w))
  (Hsched : Forall alive sched) (Hdel : (4 <= deliveries sched)%nat) :
  let pc := {| pc_tap_ip := tap_ip; pc_tap_mac := tap_mac; pc_prefix_len := prefix;
               pc_mtu := mtu config |} in
  exists cmsg s' w', perform_handshake config tap_mac s w = (Ok (), s', w') /\
    rbytes s' = tl /\ written w' = written w ++ frame_msg cmsg /\
    (Z.of_nat (length cmsg) < 2 ^ 32 -> rs_wf c -> rbytes c = frame_msg cmsg ++ ctl ->
     (exists c', receive_config c = (Ok pc, c') /\ rbytes c' = ctl) /\
     (exists c', receive_config_timed stderr sched c = Some (Ok pc, c') /\ rbytes c' = ctl)).
Proof.
  intros pc. destruct (decode_encode_control pc) as (pl & Hc & _).
  destruct (perform_handshake_ok config tap_mac tap_ip prefix hello _ tl s w Hpeer Hhello Hhl Hws Hs Hc
    Hscript) as (s' & w' & E & H1 & H2).
  eexists _, s', w'. split_and!; try done. intros Hl Hw Hr. split.
  - by eapply receive_config_ok.
  - by eapply receive_config_timed_ok.
Qed.

(** The derived configuration is valid: when the proxy's prefix is valid for its
    address and the library's address is of the same family (or left to the
    default, and the proxy's address is not the last one of its family), the stack
    gets that address, with a prefix valid for it, and the proxy as its gateway. *)
Theorem derived_config_valid (p : profile) (pc : ProxyConfig) (local_ip : option IpAddr) (id : Z)
  (Hprefix : pc_prefix_len pc <= ip_width (pc_tap_ip pc))
  (Hlocal : match local_ip with
            | Some ip => same_family ip (pc_tap_ip pc)
            | None => ip_val (pc_tap_ip pc) + 1 < 2 ^ ip_width (pc_tap_ip pc)
            end) :
  exists config cfg, connect_to_config p pc local_ip = Ret config /\
    stack_config id config = Ok cfg /\ mtu config = pc_mtu pc /\
    cfg_gateway cfg = pc_tap_ip pc /\ cfg_prefix_len cfg <= ip_width (cfg_ip cfg) /\
    match local_ip with
    | Some ip => cfg_ip cfg = ip
    | None => ip_val (cfg_ip cfg) = ip_val (pc_tap_ip pc) + 1
    end.
Proof.
  unfold connect_to_config, client_config. destruct local_ip as [ip|].
  - cbn [mbind outcome_bind]. do 2 eexists. split; [reflexivity|]. split; [reflexivity|].
    cbn. unfold same_family in Hlocal. rewrite Hlocal. done.
  - destruct (default_client_ip_ret p (pc_tap_ip pc) Hlocal) as (ip & -> & Hf & Hv).
    cbn [mbind outcome_bind]. do 2 eexists. split; [reflexivity|]. split; [reflexivity|].
    cbn. unfold same_family in Hf. rewrite Hf. done.
Qed.

(** An IPv4 address requested from a proxy whose IPv6 prefix is longer than 32 is
    accepted by the library, and panics the stack task when it starts. *)
Theorem family_mismatch_panics {M : Mpsc} {N : Smoltcp} {NL : SmoltcpLaws} (p : profile) (pc : ProxyConfig)
  (a : array 4) (id port : Z) (Hprefix : 32 < pc_prefix_len pc) :
  exists config cfg, connect_to_config p pc (Some (V4 a)) = Ret config /\
    stack_config id config = Ok cfg /\ stack_init cfg port = Panic.
Proof.
  unfold connect_to_config, client_config. cbn [mbind outcome_bind].
  do 2 eexists. split; [reflexivity|]. split; [reflexivity|].
  unfold stack_init. cbn [cfg_ip cfg_prefix_len]. rewrite ip_cidr_new_spec, decide_False; [done|].
  cbn. lia.
Qed.

End HandshakeSpec.

(** ** Witnesses: the properties at concrete inputs, on the reference instances *)

#[local] Existing Instances hello_serde hello_serde_ok config_serde config_serde_ok
  Reference.mpsc Reference.smoltcp Reference.smoltcp_laws.

Definition demo_tap : IpAddr := V4 [# x0a; x00; x00; x01].
Definition demo_hello : bytes := match encode_control MkClientHello with Ok b => b | Err _ => [] end.
Definition demo_proxy : TapConfig := with_peer_addr demo_tap 24 tap_config_default.
Definition demo_pc : ProxyConfig :=
  {| pc_tap_ip := demo_tap; pc_tap_mac := [# x02; x00; x00; x00; x00; x07]; pc_prefix_len := 24;
     pc_mtu := 1500 |}.
Definition demo_cmsg : bytes := match encode_control demo_pc with Ok b => b | Err _ => [] end.

Lemma handshake_agrees_witness :
  exists cmsg s' w', perform_handshake demo_proxy (pc_tap_mac demo_pc)
      (RStream [frame_msg demo_hello] Eof) (WStream [] [WrMax 3]) = (Ok (), s', w') /\
    written w' = frame_msg cmsg /\
    exists c', receive_config (RStream [frame_msg demo_cmsg] Eof) = (Ok demo_pc, c').
Proof.
  destruct (handshake_agrees demo_proxy (pc_tap_mac demo_pc) demo_tap 24 demo_hello [] [] ""
    (Tick false false (Ok None) :: replicate 4 (Tick true false (Ok None)))
    (RStream [frame_msg demo_hello] Eof) (RStream [frame_msg demo_cmsg] Eof) (WStream [] [WrMax 3]))
    as (cmsg & s' & w' & H1 & H2 & H3 & H4).
  - reflexivity.
  - reflexivity.
  - vm_compute. reflexivity.
  - by repeat constructor.
  - cbn. by rewrite !app_nil_r.
  - repeat constructor.
  - constructor; [by right|]. by repeat (constructor; [by left|]).
  - vm_compute. lia.
  - assert (Ec : cmsg = demo_cmsg).
    { vm_compute in H1. injection H1 as _ <-. cbn [written] in H3.
      assert (E : frame_msg demo_cmsg = frame_msg cmsg) by (etransitivity; [vm_compute; reflexivity|exact H3]).
      unfold frame_msg in E. apply app_inj_1 in E as [_ E]; [done|by rewrite !length_len_prefix]. }
    subst cmsg. exists demo_cmsg, s', w'. split_and!; [done|done|].
    destruct H4 as [(c' & Hc' & _) _].
    + vm_compute. reflexivity.
    + by repeat constructor.
    + reflexivity.
    + exists c'. exact Hc'.
Defined.

Lemma derived_config_valid_witness :
  exists config cfg, connect_to_config Debug demo_pc None = Ret config /\
    stack_config 7 config = Ok cfg /\ cfg_gateway cfg = demo_tap /\
    ip_val (cfg_ip cfg) = ip_val demo_tap + 1.
Proof.
  destruct (derived_config_valid Debug demo_pc None 7) as (config & cfg & H1 & H2 & _ & H4 & _ & H6);
    [by vm_compute|by vm_compute|]. by exists config, cfg.
Defined.

Lemma family_mismatch_panics_witness :
  exists config cfg,
    connect_to_config Debug
      {| pc_tap_ip := V6 (array_of 16 []); pc_tap_mac := pc_tap_mac demo_pc; pc_prefix_len := 64;
         pc_mtu := 1500 |} (Some (V4 [# x0a; x00; x00; x02])) = Ret config /\
    stack_config 7 config = Ok cfg /\ stack_init cfg 49152 = Panic.
Proof.
  apply (family_mismatch_panics Debug
    {| pc_tap_ip := V6 (array_of 16 []); pc_tap_mac := pc_tap_mac demo_pc; pc_prefix_len := 64;
       pc_mtu := 1500 |} [# x0a; x00; x00; x02] 7 49152). reflexivity.
Defined.
