(* ===== verification/IpText.v ===== *)
(** * IP addresses as text

    [Display] and [FromStr] of [IpAddr] in Rust's standard library, which the library
    uses to pass addresses on the proxy's command line, and their round trip.  The
    parser backtracks: a parser that fails leaves its input where it was. *)

From Stdlib Require Import Ascii.
From S2P Require Import Prelude Net Text.
#[local] Open Scope Z_scope.

(** ** Printing *)

Fixpoint join (sep : ascii) (l : list text) : text :=
  match l with
  | [] => []
  | [s] => s
  | s :: r => s ++ sep :: join sep r
  end.

Definition print_v4 (a : bytes) : text := join "." ((fun b => print_uint (byte_val b)) <$> a).

(** The eight 16-bit groups of an IPv6 address, and back. *)
Fixpoint groups_of (b : bytes) : list Z :=
  match b with
  | x :: y :: r => be_val [x; y] :: groups_of r
  | _ => []
  end.
Definition bytes_of_groups (gs : list Z) : bytes := concat (be_bytes 2 <$> gs).

(** The longest run of zero groups, the first of them: start and length.  [cur] is the
    run being read and [i] the index. *)
Fixpoint zero_run (gs : list Z) (i : nat) (cur longest : nat * nat) : nat * nat :=
  match gs with
  | [] => longest
  | g :: r =>
      if decide (g = 0) then
        let start := if decide (snd cur = 0%nat) then i else fst cur in
        let cur' := (start, S (snd cur)) in
        zero_run r (S i) cur' (if decide (snd longest < snd cur')%nat then cur' else longest)
      else zero_run r (S i) (0, 0)%nat longest
  end.

Definition print_groups (gs : list Z) : text := join ":" (print_radix 16 <$> gs).

(** [to_ipv4_mapped]: the addresses [::ffff:a.b.c.d]. *)
Definition v4_mapped (b : bytes) : option bytes :=
  if decide (take 12 b = replicate 10 x00 ++ [xff; xff]) then Some (drop 12 b) else None.

Definition print_v6 (b : bytes) : text :=
  match v4_mapped b with
  | Some v4 => String.list_ascii_of_string "::ffff:" ++ print_v4 v4
  | None =>
      let gs := groups_of b in
      let '(start, len) := zero_run gs 0 (0, 0)%nat (0, 0)%nat in
      if decide (1 < len)%nat
      then print_groups (take start gs) ++ [":"; ":"]%char ++ print_groups (drop (start + len) gs)
      else print_groups gs
  end.

Definition print_ip (ip : IpAddr) : text :=
  match ip with V4 a => print_v4 (vec_to_list a) | V6 a => print_v6 (vec_to_list a) end.

(** ** Parsing *)

(** [char::to_digit] *)
Definition digit_value (c : ascii) : Z :=
  let n := Z.of_nat (nat_of_ascii c) in
  if (48 <=? n) && (n <=? 57) then n - 48
  else if (97 <=? n) && (n <=? 122) then n - 87
  else if (65 <=? n) && (n <=? 90) then n - 55 else 36.
Definition to_digit (radix : Z) (c : ascii) : option Z :=
  if decide (digit_value c < radix) then Some (digit_value c) else None.

(** The digits, as many as there are; more than [max] is a failure. *)
Fixpoint read_digits (radix : Z) (max count : nat) (acc : Z) (s : text) : option (nat * Z * text) :=
  match s with
  | c :: r =>
      match to_digit radix c with
      | Some d => if decide (max < S count)%nat then None
                  else read_digits radix max (S count) (acc * radix + d) r
      | None => Some (count, acc, s)
      end
  | [] => Some (count, acc, [])
  end.

(** [read_number] for a [w]-bit result. *)
Definition read_number (radix : Z) (max : nat) (allow_zero_prefix : bool) (w : Z) (s : text)
  : option (Z * text) :=
  match read_digits radix max 0 0 s with
  | None => None
  | Some (count, v, r) =>
      if decide (count = 0%nat) then None
      else if negb allow_zero_prefix && bool_decide (head s = Some "0"%char) && (1 <? count)%nat then None
      else if decide (v < 2 ^ w) then Some (v, r) else None
  end.

Definition read_given_char (c : ascii) (s : text) : option text :=
  match s with x :: r => if decide (x = c) then Some r else None | [] => None end.

Definition read_separator {T} (sep : ascii) (index : nat) (p : text -> option (T * text)) (s : text)
  : option (T * text) :=
  if decide (index = 0%nat) then p s else read_given_char sep s ≫= p.

Fixpoint read_octets (n index : nat) (s : text) : option (bytes * text) :=
  match n with
  | O => Some ([], s)
  | S n' =>
      match read_separator "." index (read_number 10 3 false 8) s with
      | None => None
      | Some (v, r) =>
          match read_octets n' (S index) r with
          | None => None
          | Some (bs, r') => Some (byte_of v :: bs, r')
          end
      end
  end.

Definition read_ipv4_addr (s : text) : option (bytes * text) := read_octets 4 0 s.

(** [read_groups] of at most [n] groups: the groups, whether the last two of them were
    an embedded IPv4 address, and the rest. *)
Fixpoint read_groups (n index : nat) (s : text) : list Z * bool * text :=
  match n with
  | O => ([], false, s)
  | S n' =>
      match (if decide (n' = 0%nat) then None else read_separator ":" index read_ipv4_addr s) with
      | Some (v4, r) => (groups_of v4, true, r)
      | None =>
          match read_separator ":" index (read_number 16 4 true 16) s with
          | Some (g, r) => let '(gs, v4, r') := read_groups n' (S index) r in (g :: gs, v4, r')
          | None => ([], false, s)
          end
      end
  end.

Definition read_ipv6_addr (s : text) : option (bytes * text) :=
  let '(hd, v4, r) := read_groups 8 0 s in
  if decide (length hd = 8%nat) then Some (bytes_of_groups hd, r)
  else if (v4 : bool) then None
  else
    r1 ← read_given_char ":" r;
    r2 ← read_given_char ":" r1;
    let '(tl, _, r3) := read_groups (8 - (length hd + 1)) 0 r2 in
    Some (bytes_of_groups (hd ++ replicate (8 - length hd - length tl) 0 ++ tl), r3).

(** [s.parse::<IpAddr>().ok()]: the whole text must be read. *)
Definition parse_ip (s : text) : option IpAddr :=
  let res := match read_ipv4_addr s with
             | Some (b, r) => Some (V4 (array_of 4 b), r)
             | None => match read_ipv6_addr s with
                       | Some (b, r) => Some (V6 (array_of 16 b), r)
                       | None => None
                       end
             end in
  match res with Some (ip, []) => Some ip | _ => None end.

Example parse_examples :
  parse_ip (String.list_ascii_of_string "10.0.0.1") = Some (V4 [# x0a; x00; x00; x01]) /\
  parse_ip (String.list_ascii_of_string "::1") = Some (V6 (array_of 16 (replicate 15 x00 ++ [x01]))) /\
  parse_ip (String.list_ascii_of_string "10.0.0.01") = None /\
  print_ip (V6 (array_of 16 ([xfe; x80] ++ replicate 13 x00 ++ [x01]))) = String.list_ascii_of_string "fe80::1".
Proof. by vm_compute. Qed.

(** ** Lemmas: numbers *)

Lemma digit_value_char d : in_radix 16 d -> digit_value (digit_char d) = d.
Proof. intros Hd. by_digit d. Qed.

Lemma to_digit_char radix d : radix <= 16 -> in_radix radix d -> to_digit radix (digit_char d) = Some d.
Proof.
  intros Hr Hd. unfold to_digit. rewrite digit_value_char by (unfold in_radix in *; lia).
  by rewrite decide_True by apply Hd.
Qed.

(** A text that does not go on with a digit. *)
Definition stops (radix : Z) (s : text) : Prop :=
  match s with [] => True | c :: _ => to_digit radix c = None end.

Lemma read_digits_print radix max count acc ds rest :
  radix <= 16 -> Forall (in_radix radix) ds -> (count + length ds <= max)%nat -> stops radix rest ->
  read_digits radix max count acc ((digit_char <$> ds) ++ rest) =
    Some ((count + length ds)%nat, horner radix acc ds, rest).
Proof.
  intros Hr Hds. revert count acc. induction Hds as [|d ds Hd _ IH]; intros count acc Hc Hs; cbn in *.
  - rewrite Nat.add_0_r. destruct rest as [|c r]; cbn in *; [done|]. by rewrite Hs.
  - rewrite to_digit_char, decide_False by (done || lia). rewrite IH by (done || lia).
    by replace (S count + length ds)%nat with (count + S (length ds))%nat by lia.
Qed.

Lemma read_number_print radix max zp w n rest :
  2 <= radix <= 16 -> fits w n -> (0 < max)%nat -> n < radix ^ Z.of_nat max -> stops radix rest ->
  read_number radix max zp w (print_radix radix n ++ rest) = Some (n, rest).
Proof.
  intros Hr [Hn Hw] Hm Hlt Hs.
  destruct (print_radix_spec radix n ltac:(lia) Hn) as (ds & -> & H1 & H2 & H3 & H4 & H5).
  unfold read_number. rewrite read_digits_print by (done || lia || (apply H4; done)).
  rewrite H2. destruct ds as [|d ds]; [done|]. rewrite decide_False by (cbn; lia).
  assert (negb zp && bool_decide (head ((digit_char <$> d :: ds) ++ rest) = Some "0"%char) &&
    (1 <? 0 + length (d :: ds))%nat = false) as ->; [|by rewrite decide_True].
  destruct (negb zp); [|done]. cbn [andb]. case_bool_decide as Hh; [|done].
  cbn in Hh. injection Hh as Hh. apply Forall_cons_1 in H1 as [Hd _].
  assert (d = 0) as ->.
  { rewrite <- (digit_value_char d) by (unfold in_radix in *; lia). by rewrite Hh. }
  specialize (H5 eq_refl). by injection H5 as ->.
Qed.

Lemma read_number_stops radix max zp w s : stops radix s -> read_number radix max zp w s = None.
Proof. unfold read_number. destruct s as [|c r]; cbn; [done|]. by intros ->. Qed.

Lemma read_separator_here {T} sep (p : text -> option (T * text)) s : read_separator sep 0 p s = p s.
Proof. done. Qed.

Lemma read_separator_cons {T} sep i (p : text -> option (T * text)) s :
  i <> 0%nat -> read_separator sep i p (sep :: s) = p s.
Proof. intros Hi. unfold read_separator. rewrite decide_False by done. cbn. by rewrite decide_True. Qed.

(** ** Lemmas: IPv4 *)

Lemma no_dot_after_digits max count acc h rest k v r :
  Forall (fun c => c <> "."%char) h -> stops 10 rest -> head rest <> Some "."%char ->
  read_digits 10 max count acc (h ++ rest) = Some (k, v, r) -> head r <> Some "."%char.
Proof.
  intros Hh Hs Hd. revert count acc. induction Hh as [|c h Hc _ IH]; intros count acc; cbn.
  - destruct rest as [|c rest]; cbn in *; [by intros [= _ _ <-]|]. rewrite Hs. by intros [= _ _ <-].
  - destruct (to_digit 10 c); [case_decide; [done|apply IH]|]. intros [= _ _ <-]. cbn. congruence.
Qed.

(** No dot follows the first number: not an IPv4 address. *)
Lemma read_ipv4_none h rest :
  Forall (fun c => c <> "."%char) h -> stops 10 rest -> head rest <> Some "."%char ->
  read_ipv4_addr (h ++ rest) = None.
Proof.
  intros Hh Hs Hd. unfold read_ipv4_addr. cbn [read_octets]. unfold read_separator at 1. cbn [decide].
  rewrite decide_True by done. unfold read_number at 1.
  destruct (read_digits 10 3 0 0 (h ++ rest)) as [[[k v] r]|] eqn:E; [|done].
  apply no_dot_after_digits in E; [|done..]. case_decide; [done|].
  destruct (_ && _); [done|]. case_decide; [|done].
  unfold read_separator at 1. rewrite decide_False by done.
  destruct r as [|c r]; [done|]. cbn. rewrite decide_False; [done|]. intros ->. done.
Qed.

Definition dotted (bs : bytes) : text := concat ((fun b => "."%char :: print_uint (byte_val b)) <$> bs).

Lemma print_v4_dotted b bs : print_v4 (b :: bs) = print_uint (byte_val b) ++ dotted bs.
Proof.
  revert b. induction bs as [|c bs IH]; intros b; [cbn; by rewrite app_nil_r|].
  change (print_v4 (b :: c :: bs)) with (print_uint (byte_val b) ++ "."%char :: print_v4 (c :: bs)).
  by rewrite IH.
Qed.

Lemma dotted_stops bs rest : stops 10 rest -> stops 10 (dotted bs ++ rest).
Proof. by destruct bs. Qed.

Lemma read_octet_print b rest :
  stops 10 rest -> read_number 10 3 false 8 (print_uint (byte_val b) ++ rest) = Some (byte_val b, rest).
Proof.
  intros Hs. pose proof (byte_val_range b). apply read_number_print; done || lia.
Qed.

Lemma read_octets_dotted bs i rest :
  stops 10 rest -> i <> 0%nat -> read_octets (length bs) i (dotted bs ++ rest) = Some (bs, rest).
Proof.
  intros Hs. revert i. induction bs as [|b bs IH]; intros i Hi; [done|].
  change (dotted (b :: bs) ++ rest) with ("."%char :: (print_uint (byte_val b) ++ dotted bs) ++ rest).
  cbn [length read_octets]. rewrite read_separator_cons by done.
  rewrite <- app_assoc, read_octet_print by (apply dotted_stops; done).
  rewrite IH by lia. by rewrite byte_of_val.
Qed.

Lemma read_ipv4_print bs rest :
  length bs = 4%nat -> stops 10 rest -> read_ipv4_addr (print_v4 bs ++ rest) = Some (bs, rest).
Proof.
  intros Hl Hs. destruct bs as [|b bs]; [done|]. injection Hl as Hl.
  rewrite print_v4_dotted, <- app_assoc. unfold read_ipv4_addr. cbn [read_octets].
  rewrite read_separator_here, read_octet_print by (apply dotted_stops; done).
  pose proof (read_octets_dotted bs 1 rest Hs ltac:(done)) as E. rewrite Hl in E.
  cbn [read_octets] in E. rewrite E. by rewrite byte_of_val.
Qed.

(** ** Lemmas: IPv6 *)

Definition fits16 (g : Z) : Prop := fits 16 g.

Definition coloned (gs : list Z) : text := concat ((fun g => ":"%char :: print_radix 16 g) <$> gs).

Lemma print_groups_coloned g gs : print_groups (g :: gs) = print_radix 16 g ++ coloned gs.
Proof.
  revert g. induction gs as [|h gs IH]; intros g; [cbn; by rewrite app_nil_r|].
  change (print_groups (g :: h :: gs)) with (print_radix 16 g ++ ":"%char :: print_groups (h :: gs)).
  by rewrite IH.
Qed.

(** What may follow a list of groups: nothing, or [::]. *)
Definition ends_groups (s : text) : Prop := s = [] \/ exists r, s = ":"%char :: ":"%char :: r.

Lemma coloned_head gs rest :
  ends_groups rest -> coloned gs ++ rest = [] \/ exists r, coloned gs ++ rest = ":"%char :: r.
Proof. intros [->|[r ->]]; destruct gs; cbn; eauto. Qed.

Lemma head_stops radix s :
  radix <= 36 -> s = [] \/ (exists r, s = ":"%char :: r) -> stops radix s /\ head s <> Some "."%char.
Proof.
  intros Hr [->|[r ->]]; [done|]. split; [|done]. cbn. unfold to_digit. rewrite decide_False; [done|].
  change (digit_value ":") with 36. lia.
Qed.

Lemma read_group_print g s :
  fits16 g -> stops 16 s -> read_number 16 4 true 16 (print_radix 16 g ++ s) = Some (g, s).
Proof. intros [H1 H2] Hs. apply read_number_print; done || lia. Qed.

Lemma group_not_v4 g s :
  fits16 g -> s = [] \/ (exists r, s = ":"%char :: r) -> read_ipv4_addr (print_radix 16 g ++ s) = None.
Proof.
  intros [Hg _] Hs. destruct (head_stops 10 s ltac:(lia) Hs) as [H1 H2]. apply read_ipv4_none; [|done..].
  apply print_chars; [lia|done|]. intros d Hd. by_digit d; done.
Qed.

Lemma read_groups_end n i rest :
  ends_groups rest -> read_groups n i rest = ([], false, rest).
Proof.
  intros Hr. destruct n as [|n]; [done|]. cbn [read_groups].
  destruct Hr as [->|[r ->]]; unfold read_separator; by repeat case_decide.
Qed.

Lemma read_groups_coloned gs n i rest :
  Forall fits16 gs -> (length gs <= n)%nat -> i <> 0%nat -> ends_groups rest ->
  read_groups n i (coloned gs ++ rest) = (gs, false, rest).
Proof.
  intros Hgs. revert n i. induction Hgs as [|g gs Hg _ IH]; intros n i Hn Hi Hr.
  { by apply read_groups_end. }
  destruct n as [|n]; [cbn in Hn; lia|].
  change (coloned (g :: gs) ++ rest) with (":"%char :: (print_radix 16 g ++ coloned gs) ++ rest).
  cbn [read_groups].
  pose proof (coloned_head gs rest Hr) as Hh. destruct (head_stops 16 _ ltac:(lia) Hh) as [Hs _].
  rewrite !read_separator_cons by done. rewrite <- app_assoc, group_not_v4, read_group_print by done.
  rewrite IH by (cbn in Hn; done || lia). by case_decide.
Qed.

Lemma read_groups_print gs n rest :
  Forall fits16 gs -> (length gs <= n)%nat -> ends_groups rest ->
  read_groups n 0 (print_groups gs ++ rest) = (gs, false, rest).
Proof.
  intros Hgs Hn Hr. destruct gs as [|g gs]; [by apply read_groups_end|].
  apply Forall_cons_1 in Hgs as [Hg Hgs]. destruct n as [|n]; [cbn in Hn; lia|].
  rewrite print_groups_coloned, <- app_assoc. cbn [read_groups].
  pose proof (coloned_head gs rest Hr) as Hh. destruct (head_stops 16 _ ltac:(lia) Hh) as [Hs _].
  rewrite !read_separator_here, group_not_v4, read_group_print by done.
  rewrite read_groups_coloned by (cbn in Hn; done || lia). by case_decide.
Qed.

(** Groups and octets. *)
Lemma groups_of_bytes b n :
  length b = (2 * n)%nat ->
  bytes_of_groups (groups_of b) = b /\ length (groups_of b) = n /\ Forall fits16 (groups_of b).
Proof.
  revert b. induction n as [|n IH]; intros b Hb.
  { by destruct b. }
  destruct b as [|x [|y b]]; cbn in Hb; try lia. destruct (IH b ltac:(lia)) as (H1 & H2 & H3).
  cbn [groups_of bytes_of_groups fmap list_fmap concat length]. split_and!; [|by rewrite H2|].
  - change (concat (be_bytes 2 <$> groups_of b)) with (bytes_of_groups (groups_of b)).
    rewrite H1. by change 2%nat with (length [x; y]); rewrite be_bytes_be_val.
  - constructor; [|done]. exact (be_val_range [x; y]).
Qed.

Lemma bytes_of_groups_app g1 g2 : bytes_of_groups (g1 ++ g2) = bytes_of_groups g1 ++ bytes_of_groups g2.
Proof. unfold bytes_of_groups. by rewrite fmap_app, concat_app. Qed.

(** The run that is found consists of zero groups. *)
Definition zeros (gs : list Z) (r : nat * nat) : Prop :=
  forall j, (fst r <= j < fst r + snd r)%nat -> gs !! j = Some 0.

Lemma zero_run_zeros full gs i cur longest :
  drop i full = gs -> snd cur = 0%nat \/ (fst cur + snd cur)%nat = i ->
  zeros full cur -> zeros full longest -> zeros full (zero_run gs i cur longest).
Proof.
  revert i cur longest. induction gs as [|g gs IH]; intros i [s l] longest Hd Hc Hz Hl; cbn [zero_run fst snd] in *.
  { done. }
  assert (Hg : full !! i = Some g) by (by rewrite <- (Nat.add_0_r i), <- lookup_drop, Hd).
  assert (Hd' : drop (S i) full = gs).
  { rewrite <- Nat.add_1_r, <- drop_drop, Hd. done. }
  case_decide as Hg0; [subst g|by apply IH; [|left|intros j Hj; cbn in Hj; lia|]].
  assert (Hz' : zeros full (if decide (l = 0%nat) then i else s, S l)).
  { intros j Hj. unfold zeros in Hz. cbn in *. case_decide.
    - assert (j = i) as -> by lia. done.
    - destruct (decide (j = i)) as [->|]; [done|]. apply Hz. lia. }
  apply IH; try done; [right; cbn; case_decide; lia|].
  by destruct (decide (snd longest < S l)%nat).
Qed.

Lemma zeros_split gs start len :
  zeros gs (start, len) -> (0 < len)%nat ->
  take start gs ++ replicate len 0 ++ drop (start + len) gs = gs /\ (start + len <= length gs)%nat.
Proof.
  intros Hz Hl. assert (Hle : (start + len <= length gs)%nat).
  { specialize (Hz (start + len - 1)%nat ltac:(cbn; lia)). apply lookup_lt_Some in Hz. lia. }
  split; [|done]. rewrite <- (take_drop start gs) at 3. f_equal.
  rewrite <- (take_drop len (drop start gs)), drop_drop. f_equal.
  apply replicate_as_Forall. split; [rewrite length_take, length_drop; lia|].
  apply Forall_lookup. intros j x Hj. apply lookup_take_Some in Hj as [Hj Hlt]. rewrite lookup_drop in Hj.
  specialize (Hz (start + j)%nat ltac:(cbn; lia)). congruence.
Qed.

Lemma read_ipv6_full gs :
  length gs = 8%nat -> Forall fits16 gs -> read_ipv6_addr (print_groups gs) = Some (bytes_of_groups gs, []).
Proof.
  intros Hl Hg. unfold read_ipv6_addr. rewrite <- (app_nil_r (print_groups gs)).
  rewrite read_groups_print by (done || lia || by left). by rewrite decide_True.
Qed.

Lemma read_colons {B} (f : text -> option B) r :
  (read_given_char ":" (":" :: ":" :: r)%char ≫= fun r1 => read_given_char ":" r1 ≫= f) = f r.
Proof. done. Qed.

(** Two lists of groups around [::], with room for at least one zero group. *)
Lemma read_ipv6_short hd tl :
  Forall fits16 hd -> Forall fits16 tl -> (length hd + length tl < 8)%nat ->
  read_ipv6_addr (print_groups hd ++ [":"; ":"]%char ++ print_groups tl) =
    Some (bytes_of_groups (hd ++ replicate (8 - length hd - length tl) 0 ++ tl), []).
Proof.
  intros Hh Ht Hl. unfold read_ipv6_addr.
  rewrite read_groups_print by (done || lia || (right; eauto)).
  rewrite decide_False by lia. cbn [app]. rewrite read_colons.
  rewrite <- (app_nil_r (print_groups tl)).
  by rewrite read_groups_print by (done || lia || by left).
Qed.

Lemma read_ipv6_mapped b :
  length b = 4%nat ->
  read_ipv6_addr (String.list_ascii_of_string "::ffff:" ++ print_v4 b) =
    Some (replicate 10 x00 ++ [xff; xff] ++ b, []).
Proof.
  intros Hb. unfold read_ipv6_addr.
  rewrite read_groups_end by (right; eexists; reflexivity).
  rewrite decide_False by done. cbn [String.list_ascii_of_string app]. rewrite read_colons.
  assert (E : read_groups (8 - (length (@nil Z) + 1)) 0
    ("f" :: "f" :: "f" :: "f" :: ":" :: print_v4 b)%char = (65535 :: groups_of b, true, [])).
  { change (read_groups 7 0 (print_radix 16 65535 ++ ":"%char :: print_v4 b) = (65535 :: groups_of b, true, [])).
    cbn [read_groups]. rewrite !read_separator_here, group_not_v4 by (done || (right; eauto)).
    rewrite read_group_print by done. rewrite read_separator_cons by done.
    rewrite <- (app_nil_r (print_v4 b)), read_ipv4_print by done. done. }
  rewrite E. destruct (groups_of_bytes b 2 Hb) as (H1 & H2 & _). cbn [length]. rewrite H2.
  rewrite !bytes_of_groups_app. cbn [app]. change (65535 :: groups_of b) with ([65535] ++ groups_of b).
  rewrite bytes_of_groups_app, H1. done.
Qed.

(** Reading back an IPv6 address. *)
Lemma read_ipv6_print b :
  length b = 16%nat -> read_ipv6_addr (print_v6 b) = Some (b, []).
Proof.
  intros Hb. unfold print_v6. destruct (v4_mapped b) as [v4|] eqn:E.
  { unfold v4_mapped in E. case_decide as Ht; [|done]. injection E as <-.
    rewrite read_ipv6_mapped by (rewrite length_drop; lia).
    by rewrite app_assoc, <- Ht, take_drop. }
  destruct (groups_of_bytes b 8 Hb) as (H1 & H2 & H3).
  destruct (zero_run (groups_of b) 0 (0, 0)%nat (0, 0)%nat) as [start len] eqn:Er.
  case_decide as Hlen; [|by rewrite read_ipv6_full, H1].
  assert (Hz : zeros (groups_of b) (start, len)).
  { rewrite <- Er. apply zero_run_zeros; try done; [by left|intros j Hj; cbn in Hj; lia..]. }
  destruct (zeros_split _ _ _ Hz ltac:(lia)) as [Hs Hle].
  rewrite read_ipv6_short;
    [|by apply Forall_take|by apply Forall_drop|rewrite length_take, length_drop; lia].
  rewrite length_take, length_drop, H2, Nat.min_l by lia.
  replace (8 - start - (8 - (start + len)))%nat with len by lia. by rewrite Hs, H1.
Qed.

Lemma print_v6_not_v4 b : length b = 16%nat -> read_ipv4_addr (print_v6 b) = None.
Proof.
  intros Hb. unfold print_v6. destruct (v4_mapped b); [done|].
  destruct (groups_of_bytes b 8 Hb) as (_ & H2 & H3).
  destruct (zero_run (groups_of b) 0 (0, 0)%nat (0, 0)%nat) as [start len].
  assert (Hp : forall gs rest, Forall fits16 gs -> ends_groups rest ->
    rest <> [] \/ gs <> [] -> read_ipv4_addr (print_groups gs ++ rest) = None).
  { intros [|g gs] rest Hg Hr Hne.
    - destruct Hr as [->|[r ->]]; [naive_solver|done].
    - apply Forall_cons_1 in Hg as [Hg _]. rewrite print_groups_coloned, <- app_assoc.
      apply group_not_v4; [done|]. by apply coloned_head. }
  case_decide.
  - apply Hp; [by apply Forall_take|right; eauto|by left].
  - rewrite <- (app_nil_r (print_groups _)). apply Hp; [done|by left|]. right. intros E. by rewrite E in H2.
Qed.

(** Printing an address and parsing it back. *)
Lemma parse_print_ip ip : parse_ip (print_ip ip) = Some ip.
Proof.
  unfold parse_ip. destruct ip as [a|a]; cbn [print_ip].
  - rewrite <- (app_nil_r (print_v4 _)), read_ipv4_print by (done || apply length_vec_to_list).
    by rewrite array_of_array.
  - rewrite print_v6_not_v4, read_ipv6_print by apply length_vec_to_list. by rewrite array_of_array.
Qed.
