(* ===== verification/DeviceLog.v ===== *)
(** * The device's frame log ([log_frame] of [src/stack/device.rs])

    What the device writes to the log about a frame it receives or transmits.  smoltcp's
    wire parsers are a parameter, [Wire]; [WireLaws] are the formats it documents
    (Ethernet II, RFC 826). *)

From Stdlib Require Import Ascii.
From S2P Require Import Prelude Net Stream Text IpText Protocol AsyncIo Externals Stack StackPoll StackData.
From S2P Require Import Socket Device ProcNet Relay.
#[local] Open Scope Z_scope.

(** ** smoltcp's wire types *)

Inductive EthernetProtocol := EtherIpv4 | EtherArp | EtherIpv6 | EtherUnknown (id : Z).
Inductive ArpOperation := ArpRequest | ArpReply | ArpUnknown (id : Z).

(** [ArpRepr] has one variant now, and is marked as one that may get more. *)
Inductive ArpRepr :=
| EthernetIpv4 (operation : ArpOperation) (source_hardware_addr : array 6) (source_protocol_addr : array 4)
    (target_hardware_addr : array 6) (target_protocol_addr : array 4)
| OtherArp.

(** [new_checked] of each packet type, the accessors the log uses, and the [Debug] texts. *)
Class Wire := {
  eth_new_checked : bytes -> bool; ethertype : bytes -> EthernetProtocol; eth_payload : bytes -> bytes;
  ipv4_new_checked : bytes -> bool; ipv4_src_addr : bytes -> array 4; ipv4_dst_addr : bytes -> array 4;
  ipv4_next_header : bytes -> Z; arp_new_checked : bytes -> bool; arp_repr_parse : bytes -> option ArpRepr;
  debug_protocol : Z -> text; debug_ethertype : Z -> text
}.

Definition be16 (at_ : nat) (b : bytes) : Z := be_val (take 2 (drop at_ b)).
Definition ethertype_of (id : Z) : EthernetProtocol :=
  if decide (id = 0x0800) then EtherIpv4 else if decide (id = 0x0806) then EtherArp
  else if decide (id = 0x86DD) then EtherIpv6 else EtherUnknown id.
Definition arp_operation_of (id : Z) : ArpOperation :=
  if decide (id = 1) then ArpRequest else if decide (id = 2) then ArpReply else ArpUnknown id.

(** The formats, for frames long enough to hold them. *)
Class WireLaws `{Wire} : Prop := {
  eth_checked_spec f : eth_new_checked f = (14 <=? length f)%nat;
  ethertype_spec f : (14 <= length f)%nat -> ethertype f = ethertype_of (be16 12 f);
  eth_payload_spec f : (14 <= length f)%nat -> eth_payload f = drop 14 f;
  arp_checked_spec p : (28 <= length p)%nat -> take 6 p = [x00; x01; x08; x00; x06; x04] -> arp_new_checked p = true;
  arp_parse_spec p : (28 <= length p)%nat -> take 6 p = [x00; x01; x08; x00; x06; x04] ->
    arp_repr_parse p = Some (EthernetIpv4 (arp_operation_of (be16 6 p)) (array_of 6 (take 6 (drop 8 p)))
      (array_of 4 (take 4 (drop 14 p))) (array_of 6 (take 6 (drop 18 p))) (array_of 4 (take 4 (drop 24 p))))
}.

Section Log.
Context {W : Wire}.

Definition arp_op_str (operation : ArpOperation) : text :=
  match operation with
  | ArpRequest => chars "Request"
  | ArpReply => chars "Reply"
  | _ => chars "Unknown"
  end.

(** What is the same in each message. *)
Definition log_head (direction : text) (frame : bytes) : text :=
  direction ++ chars " " ++ print_uint (Z.of_nat (length frame)) ++ chars " bytes: ".

(** The messages logged; [trace] says whether the trace level is enabled. *)
Definition log_frame (trace : bool) (direction : text) (frame : bytes) : list text :=
  if negb trace then []
  else if eth_new_checked frame then
    match ethertype frame with
    | EtherIpv4 =>
        let ip := eth_payload frame in
        if ipv4_new_checked ip then
          [log_head direction frame ++ chars "IPv4 " ++ print_v4 (vec_to_list (ipv4_src_addr ip)) ++ chars " -> " ++
           print_v4 (vec_to_list (ipv4_dst_addr ip)) ++ chars " proto=" ++ debug_protocol (ipv4_next_header ip)]
        else [log_head direction frame ++ chars "IPv4 (malformed)"]
    | EtherArp =>
        match (if arp_new_checked (eth_payload frame) then arp_repr_parse (eth_payload frame) else None) with
        | Some (EthernetIpv4 operation _ source_protocol_addr _ target_protocol_addr) =>
            [log_head direction frame ++ chars "ARP " ++ print_v4 (vec_to_list source_protocol_addr) ++ chars " -> " ++
             print_v4 (vec_to_list target_protocol_addr) ++ chars " " ++ arp_op_str operation]
        | Some OtherArp => []
        | None => [log_head direction frame ++ chars "ARP (malformed)"]
        end
    | EtherIpv6 => [log_head direction frame ++ chars "IPv6"]
    | EtherUnknown other => [log_head direction frame ++ chars "ethertype=" ++ debug_ethertype other]
    end
  else [log_head direction frame ++ chars "(invalid frame)"].

(** The device with its log: [Device::receive] logs the frame it hands to smoltcp, and
    [TxToken::consume] the frame smoltcp filled in, before it is queued. *)
Definition receive_logged `{Mpsc} (trace : bool) (d : ProxyDevice) : option bytes * ProxyDevice * list text :=
  let '(frame, d') := receive d in
  (frame, d', match frame with Some f => log_frame trace (chars "RX") f | None => [] end).

Definition tx_consume_logged `{Mpsc} {R} (trace : bool) (len : nat) (f : bytes -> R * bytes) (d : ProxyDevice)
  : R * ProxyDevice * list text :=
  (tx_consume len f d, log_frame trace (chars "TX") (snd (f (replicate len x00)))).

Context {WL : WireLaws}.

(** The log never has more than one message for a frame; each says which way the frame
    goes and its length, whatever is in it; and a frame too short for an Ethernet header
    is reported as one. *)
Theorem log_frame_message (trace : bool) (direction : text) (frame : bytes) :
  (length (log_frame trace direction frame) <= 1)%nat /\
  Forall (fun m => log_head direction frame `prefix_of` m) (log_frame trace direction frame) /\
  (log_frame true direction frame = [log_head direction frame ++ chars "(invalid frame)"] <->
   (length frame < 14)%nat).
Proof.
  unfold log_frame. pose proof (eth_checked_spec frame) as E.
  destruct (eth_new_checked frame); symmetry in E; [apply Nat.leb_le in E|apply Nat.leb_gt in E].
  - assert (Hno : forall b, head b <> Some "("%char ->
      [log_head direction frame ++ b] = [log_head direction frame ++ chars "(invalid frame)"] <->
      (length frame < 14)%nat).
    { intros b Hb. split; [|lia]. intros [= Hm]. apply app_inv_head in Hm. by subst b. }
    assert (Hone : forall b, Forall (fun m => log_head direction frame `prefix_of` m) [log_head direction frame ++ b])
      by (intros b; repeat constructor; by eexists).
    destruct trace; cbn [negb]; destruct (ethertype frame); repeat case_match; split_and!; cbn [length];
      try lia; auto; try (by apply Hno); try (split; [done|lia]).
  - destruct trace; cbn [negb]; split_and!; cbn [length]; try lia; try done; repeat constructor; by eexists.
Qed.

(** The announcement the proxy makes of its address is logged as an ARP reply from that
    address to itself. *)
Theorem announcement_logged (direction : text) (mac target : array 6) (ip : array 4) :
  log_frame true direction (build_gratuitous_arp mac ip target) =
  [direction ++ chars " 42 bytes: ARP " ++ print_v4 (vec_to_list ip) ++ chars " -> " ++
   print_v4 (vec_to_list ip) ++ chars " Reply"].
Proof.
  inv_all_vec_fin. set (f := build_gratuitous_arp _ _ _). assert (Hl : (14 <= length f)%nat) by (cbn; lia).
  assert (E : eth_new_checked f = true) by (by rewrite eth_checked_spec).
  assert (Et : ethertype f = EtherArp) by (by rewrite ethertype_spec).
  assert (Ea : arp_new_checked (eth_payload f) = true) by (rewrite eth_payload_spec, arp_checked_spec by (cbn; lia || done); done).
  unfold log_frame. rewrite E, Et, Ea, eth_payload_spec, arp_parse_spec by (cbn; lia || done).
  unfold log_head. by rewrite <- !app_assoc.
Qed.

End Log.

(** ** A wire library that parses Ethernet and ARP, and says nothing of IPv4 *)
Module ReferenceWire.

#[export] Instance wire : Wire := {|
  eth_new_checked f := (14 <=? length f)%nat; ethertype f := ethertype_of (be16 12 f); eth_payload f := drop 14 f;
  ipv4_new_checked _ := false; ipv4_src_addr _ := array_of 4 []; ipv4_dst_addr _ := array_of 4 [];
  ipv4_next_header _ := 0;
  arp_new_checked p := (28 <=? length p)%nat;
  arp_repr_parse p :=
    if decide (take 6 p = [x00; x01; x08; x00; x06; x04]) then
      Some (EthernetIpv4 (arp_operation_of (be16 6 p)) (array_of 6 (take 6 (drop 8 p)))
        (array_of 4 (take 4 (drop 14 p))) (array_of 6 (take 6 (drop 18 p))) (array_of 4 (take 4 (drop 24 p))))
    else None;
  debug_protocol := print_uint; debug_ethertype := print_uint
|}.

#[export] Instance wire_laws : WireLaws.
Proof. split; intros; try done; [by apply Nat.leb_le|]. cbn. by rewrite decide_True. Qed.

End ReferenceWire.

(** An ARP packet that is cut short, and frames of another protocol. *)
Example log_frame_examples :
  let mac := [# x02; x00; x00; x00; x00; x01] in
  let arp := build_gratuitous_arp mac [# x0a; x00; x00; x01] broadcast_mac in
  log_frame (W:=ReferenceWire.wire) true (chars "RX") arp = [chars "RX 42 bytes: ARP 10.0.0.1 -> 10.0.0.1 Reply"] /\
  log_frame (W:=ReferenceWire.wire) false (chars "RX") arp = [] /\
  log_frame (W:=ReferenceWire.wire) true (chars "TX") (take 20 arp) = [chars "TX 20 bytes: ARP (malformed)"] /\
  log_frame (W:=ReferenceWire.wire) true (chars "TX") (replicate 13 x00) = [chars "TX 13 bytes: (invalid frame)"].
Proof. by vm_compute. Qed.
