(* ===== verification/Display.v ===== *)
(** * Statistics and their text ([src/lib.rs], [src/protocol.rs])

    [TunnelStats::snapshot] and the [Display] instances of the snapshot and of
    [ProxyConfig].  What they print can be read back. *)

From Stdlib Require Import Ascii.
From S2P Require Import Prelude Net Text Protocol Externals Stack ProcNet IpText.
#[local] Open Scope Z_scope.

(** ** [TunnelStatsSnapshot] *)

Record TunnelStatsSnapshot := {
  sn_ipc_rx_frames : Z; sn_ipc_rx_dropped : Z; sn_ipc_tx_frames : Z; sn_ipc_tx_errors : Z;
  sn_device_rx_frames : Z; sn_device_tx_frames : Z; sn_device_tx_dropped : Z;
  sn_udp_tx_packets : Z; sn_udp_tx_failed : Z; sn_udp_rx_packets : Z; sn_udp_rx_dropped : Z
}.

(** Each counter is loaded on its own; [at_load i] are the counters when the [i]-th is
    loaded, since the tasks go on counting in between. *)
Definition snapshot (at_load : nat -> TunnelStats) : TunnelStatsSnapshot := {|
  sn_ipc_rx_frames := ipc_rx_frames (at_load 0%nat); sn_ipc_rx_dropped := ipc_rx_dropped (at_load 1%nat);
  sn_ipc_tx_frames := ipc_tx_frames (at_load 2%nat); sn_ipc_tx_errors := ipc_tx_errors (at_load 3%nat);
  sn_device_rx_frames := device_rx_frames (at_load 4%nat); sn_device_tx_frames := device_tx_frames (at_load 5%nat);
  sn_device_tx_dropped := device_tx_dropped (at_load 6%nat); sn_udp_tx_packets := udp_tx_packets (at_load 7%nat);
  sn_udp_tx_failed := udp_tx_failed (at_load 8%nat); sn_udp_rx_packets := udp_rx_packets (at_load 9%nat);
  sn_udp_rx_dropped := udp_rx_dropped (at_load 10%nat)
|}.

Definition print_snapshot (s : TunnelStatsSnapshot) : text :=
  chars "IPC:    rx=" ++ print_uint (sn_ipc_rx_frames s) ++ chars " rx_drop=" ++ print_uint (sn_ipc_rx_dropped s) ++
  chars " tx=" ++ print_uint (sn_ipc_tx_frames s) ++ chars " tx_err=" ++ print_uint (sn_ipc_tx_errors s) ++ [newline] ++
  chars "Device: rx=" ++ print_uint (sn_device_rx_frames s) ++ chars " tx=" ++ print_uint (sn_device_tx_frames s) ++
  chars " tx_drop=" ++ print_uint (sn_device_tx_dropped s) ++ [newline] ++
  chars "UDP:    tx=" ++ print_uint (sn_udp_tx_packets s) ++ chars " tx_fail=" ++ print_uint (sn_udp_tx_failed s) ++
  chars " rx=" ++ print_uint (sn_udp_rx_packets s) ++ chars " rx_drop=" ++ print_uint (sn_udp_rx_dropped s).

(** ** [ProxyConfig] *)

(** [{:<02x}]: the zero flag pads before the digits. *)
Definition print_hex2 (b : byte) : text :=
  let d := print_radix 16 (byte_val b) in replicate (2 - length d) "0"%char ++ d.

Definition print_hwaddr (mac : array 6) : text := join "-"%char (print_hex2 <$> vec_to_list mac).

Definition print_config (c : ProxyConfig) : text :=
  chars "tap_ip=" ++ print_ip (pc_tap_ip c) ++ chars ", tap_mac=" ++ print_hwaddr (pc_tap_mac c) ++
  chars ", prefix_len=" ++ print_uint (pc_prefix_len c) ++ chars ", mtu=" ++ print_uint (pc_mtu c).

(** ** Reading a snapshot back: the number after each equals sign *)

Fixpoint after_eq (s : text) : option text :=
  match s with
  | [] => None
  | c :: r => if decide (c = "="%char) then Some r else after_eq r
  end.

Definition parse_snapshot (t : text) : option TunnelStatsSnapshot :=
  match omap (fun w => after_eq w ≫= parse_uint 64) (split_whitespace t) with
  | [a; b; c; d; e; f; g; h; i; j; k] =>
      Some {| sn_ipc_rx_frames := a; sn_ipc_rx_dropped := b; sn_ipc_tx_frames := c; sn_ipc_tx_errors := d;
              sn_device_rx_frames := e; sn_device_tx_frames := f; sn_device_tx_dropped := g;
              sn_udp_tx_packets := h; sn_udp_tx_failed := i; sn_udp_rx_packets := j; sn_udp_rx_dropped := k |}
  | _ => None
  end.

Definition counters_fit (s : TunnelStatsSnapshot) : Prop :=
  Forall (fits 64) [sn_ipc_rx_frames s; sn_ipc_rx_dropped s; sn_ipc_tx_frames s; sn_ipc_tx_errors s;
    sn_device_rx_frames s; sn_device_tx_frames s; sn_device_tx_dropped s;
    sn_udp_tx_packets s; sn_udp_tx_failed s; sn_udp_rx_packets s; sn_udp_rx_dropped s].

(** One word [name=value]. *)
Definition stat (name : text) (v : Z) : text := name ++ "="%char :: print_uint v.

Definition label (name : text) : Prop := plain name /\ Forall (fun c => c <> "="%char) name.

Lemma stat_value name v : label name -> fits 64 v -> after_eq (stat name v) ≫= parse_uint 64 = Some v.
Proof.
  intros [_ Hn] Hv. assert (E : after_eq (stat name v) = Some (print_uint v)).
  { unfold stat. induction Hn as [|c name Hc _ IH]; cbn; [by rewrite decide_True|]. by rewrite decide_False. }
  rewrite E. cbn. by apply parse_print_uint.
Qed.

Lemma stat_plain name v : label name -> fits 64 v -> plain (stat name v) /\ stat name v <> [].
Proof.
  intros [Hn _] Hv. unfold stat. split; [|by destruct name]. apply Forall_app_2; [done|].
  constructor; [done|]. apply print_plain, Hv.
Qed.

Lemma words_word (w tl : text) (c : ascii) :
  plain w -> w <> [] -> is_whitespace c = true -> words [] (w ++ c :: tl) = w :: words [] tl.
Proof.
  intros Hw Hne Hc. rewrite words_plain, app_nil_r by done. cbn. rewrite Hc.
  rewrite decide_False by (intros E; by apply (f_equal reverse) in E; rewrite reverse_involutive in E).
  by rewrite reverse_involutive.
Qed.

Lemma words_last (w : text) : plain w -> w <> [] -> words [] w = [w].
Proof.
  intros Hw Hne. rewrite <- (app_nil_r w) at 1. rewrite words_plain, app_nil_r by done. cbn.
  rewrite decide_False by (intros E; by apply (f_equal reverse) in E; rewrite reverse_involutive in E).
  by rewrite reverse_involutive.
Qed.

(** The text, word by word. *)
Lemma print_snapshot_stats s :
  print_snapshot s =
  chars "IPC:" ++ space :: replicate 3 space ++ stat (chars "rx") (sn_ipc_rx_frames s) ++ space ::
    stat (chars "rx_drop") (sn_ipc_rx_dropped s) ++ space :: stat (chars "tx") (sn_ipc_tx_frames s) ++ space ::
    stat (chars "tx_err") (sn_ipc_tx_errors s) ++ newline ::
  chars "Device:" ++ space :: stat (chars "rx") (sn_device_rx_frames s) ++ space ::
    stat (chars "tx") (sn_device_tx_frames s) ++ space :: stat (chars "tx_drop") (sn_device_tx_dropped s) ++ newline ::
  chars "UDP:" ++ space :: replicate 3 space ++ stat (chars "tx") (sn_udp_tx_packets s) ++ space ::
    stat (chars "tx_fail") (sn_udp_tx_failed s) ++ space :: stat (chars "rx") (sn_udp_rx_packets s) ++ space ::
    stat (chars "rx_drop") (sn_udp_rx_dropped s).
Proof. reflexivity. Qed.

Lemma label_chars (name : string) :
  forallb (fun c => negb (is_whitespace c) && negb (bool_decide (c = "="%char))) (chars name) = true -> label (chars name).
Proof.
  intros H. rewrite forallb_forall in H. split; apply Forall_elem_of; intros c Hc;
    apply list_elem_of_In, H, andb_true_iff in Hc as [H1 H2].
  - by apply negb_true_iff.
  - by apply negb_true_iff, bool_decide_eq_false in H2.
Qed.

(** What a snapshot prints is faithful: every one of the eleven 64-bit counters can be
    read back from the text, in its place. *)
Theorem snapshot_roundtrip (s : TunnelStatsSnapshot) (Hfit : counters_fit s) :
  parse_snapshot (print_snapshot s) = Some s.
Proof.
  unfold counters_fit in Hfit.
  repeat match goal with H : Forall _ (_ :: _) |- _ => apply Forall_cons_1 in H as [? H] end.
  assert (L : forall name v, label (chars name) -> fits 64 v -> forall c tl, is_whitespace c = true ->
    words [] (stat (chars name) v ++ c :: tl) = stat (chars name) v :: words [] tl).
  { intros name v Hl Hv c tl Hc. destruct (stat_plain (chars name) v Hl Hv). by apply words_word. }
  unfold parse_snapshot, split_whitespace. rewrite print_snapshot_stats.
  rewrite (words_word (chars "IPC:")), words_spaces by (done || by repeat constructor).
  rewrite !L by (done || by apply label_chars). cbn [omap list_omap].
  rewrite (words_word (chars "Device:")) by (done || by repeat constructor).
  rewrite !L by (done || by apply label_chars).
  rewrite (words_word (chars "UDP:")), words_spaces by (done || by repeat constructor).
  rewrite !L by (done || by apply label_chars).
  rewrite words_last by (apply stat_plain; (done || by apply label_chars)).
  cbn [omap list_omap]. rewrite !stat_value by (done || by apply label_chars). by destruct s.
Qed.

(** ** Hardware addresses *)

Lemma print_hex2_digits b :
  print_hex2 b = [digit_char (byte_val b / 16); digit_char (byte_val b mod 16)].
Proof. by destruct b. Qed.

Definition hex2_val (t : text) : option byte :=
  match t with
  | [a; b] => Some (byte_of (digit_value a * 16 + digit_value b))
  | _ => None
  end.

Lemma hex2_val_print b : hex2_val (print_hex2 b) = Some b.
Proof. by destruct b. Qed.

(** Different hardware addresses print differently. *)
Theorem print_hwaddr_injective (m1 m2 : array 6) : print_hwaddr m1 = print_hwaddr m2 -> m1 = m2.
Proof.
  inv_vec m1; intros; inv_vec m2; intros. unfold print_hwaddr in *. cbn [vec_to_list fmap list_fmap] in *.
  rewrite !print_hex2_digits in *. cbn in *. simplify_eq.
  repeat match goal with
  | H : digit_char (byte_val ?x / 16) = digit_char (byte_val ?y / 16),
    H' : digit_char (byte_val ?x mod 16) = digit_char (byte_val ?y mod 16) |- _ =>
      assert (x = y) by (pose proof (hex2_val_print x) as E1; pose proof (hex2_val_print y) as E2;
        rewrite print_hex2_digits in E1, E2; rewrite H, H', E2 in E1; by injection E1);
      clear H H'; subst x
  end. done.
Qed.

(** ** Witness *)

Definition demo_snapshot : TunnelStatsSnapshot := snapshot (fun _ => Build_TunnelStats 1 0 18446744073709551615 2 3 4 5 60 7 8 9).

Lemma snapshot_roundtrip_witness : parse_snapshot (print_snapshot demo_snapshot) = Some demo_snapshot.
Proof. apply (snapshot_roundtrip demo_snapshot). by repeat (apply Forall_cons_2; [split; done|]). Defined.
