(* ===== verification/Cli.v ===== *)
(** * The proxy's command line

    [spawn_proxy] ([src/lib.rs]) passes the configuration to the proxy as arguments;
    [build_tap_config] and [parse_ip_prefix] ([proxy/src/main.rs]) rebuild it there.
    The argument parser is clap, generated from the declaration of [Args]: a parameter,
    with its documented behaviour on long options as a law. *)

From Stdlib Require Import Ascii.
From S2P Require Import Prelude Net Stream Protocol Text IpText Externals Stack Handshake.
#[local] Open Scope Z_scope.

(** ** The arguments ([struct Args]) *)

Record Args := MkArgs {
  a_pid : option Z; a_frame_fd : option Z; a_socket_path : option text; a_tap_name : text;
  a_tap_addr : option text; a_packet_loss : Z; a_tap_route : list text; a_mtu : Z
}.

(** [s.split(c)] *)
Fixpoint split_from (c : ascii) (cur s : text) : list text :=
  match s with
  | [] => [reverse cur]
  | x :: r => if decide (x = c) then reverse cur :: split_from c [] r else split_from c (x :: cur) r
  end.
Definition split (c : ascii) (s : text) : list text := split_from c [] s.

Definition parse_ip_prefix (s : text) : option (IpAddr * Z) :=
  match split "/" s with
  | [a; b] =>
      ip ← parse_ip a;
      prefix ← parse_uint 8 b;
      let max_prefix := match ip with V4 _ => 32 | V6 _ => 128 end in
      if decide (max_prefix < prefix) then None else Some (ip, prefix)
  | _ => None
  end.

Definition build_tap_config (args : Args) : TapConfig :=
  let config := with_mtu (a_mtu args)
    (with_packet_loss_percent (a_packet_loss args)
       (with_interface_name (String.string_of_list_ascii (a_tap_name args)) tap_config_default)) in
  let config := match a_tap_addr args with
                | Some s => match parse_ip_prefix s with
                            | Some (ip, prefix) => with_peer_addr ip prefix config
                            | None => config
                            end
                | None => config
                end in
  foldl (fun config s => match parse_ip_prefix s with
                         | Some (ip, prefix) => with_peer_route ip prefix config
                         | None => config
                         end) config (a_tap_route args).

(** The mode [main] chooses; [None] is an exit with an error. *)
Inductive proxy_mode := FrameFd (fd : Z) | SocketPath (path : text).

Definition main_mode (args : Args) : option proxy_mode :=
  match a_frame_fd args, a_socket_path args with
  | Some fd, _ => Some (FrameFd fd)
  | None, Some path => Some (SocketPath path)
  | None, None => None
  end.

(** ** The library's side *)

(** [format!("{}/{}", ip, prefix)] *)
Definition print_ip_prefix (p : IpAddr * Z) : text := print_ip (fst p) ++ "/"%char :: print_uint (snd p).

(** The arguments [spawn_proxy] adds, as pairs of an option and its value, in order. *)
Definition spawn_options (pid fd : Z) (config : TapConfig) : list (text * text) :=
  [(chars "--pid", print_uint pid); (chars "--frame-fd", print_uint fd);
   (chars "--tap-name", chars (interface_name config))] ++
  match peer_addr config with
  | Some p => [(chars "--tap-addr", print_ip_prefix p)]
  | None => []
  end ++
  [(chars "--mtu", print_uint (mtu config))] ++
  ((fun r => (chars "--tap-route", print_ip_prefix r)) <$> peer_routes config).

Definition spawn_args (pid fd : Z) (config : TapConfig) : list text :=
  concat ((fun p => [fst p; snd p]) <$> spawn_options pid fd config).

(** ** clap *)

Class Clap := { clap_parse : list text -> option Args }.

(** The values given to an option, in order. *)
Definition values (name : text) (opts : list (text * text)) : list text :=
  snd <$> filter (fun p => fst p = name) opts.

(** A single-valued option: absent, or given once with a value that its type parses. *)
Definition once {T} (default : T) (parse : text -> option T) (vs : list text) : option T :=
  match vs with [] => Some default | [v] => parse v | _ => None end.

Definition option_names : list text :=
  [chars "--pid"; chars "--frame-fd"; chars "--socket-path"; chars "--tap-name"; chars "--tap-addr"; chars "--packet-loss";
   chars "--tap-route"; chars "--mtu"].

(** What [Args] declares: types, defaults, repeatable options and the conflict. *)
Definition declared (opts : list (text * text)) : option Args :=
  pid ← once None (fun v => Some <$> parse_uint 32 v) (values (chars "--pid") opts);
  fd ← once None (fun v => Some <$> parse_uint 31 v) (values (chars "--frame-fd") opts);
  path ← once None (fun v => Some (Some v)) (values (chars "--socket-path") opts);
  name ← once (chars "tap0") Some (values (chars "--tap-name") opts);
  addr ← once None (fun v => Some (Some v)) (values (chars "--tap-addr") opts);
  loss ← once 0 (parse_uint 8) (values (chars "--packet-loss") opts);
  m ← once 1500 (parse_uint 16) (values (chars "--mtu") opts);
  match fd, path with
  | Some _, Some _ => None
  | _, _ => Some (MkArgs pid fd path name addr loss (values (chars "--tap-route") opts) m)
  end.

(** A value that cannot be taken for an option. *)
Definition plain_value (v : text) : Prop := head v <> Some "-"%char.

Class ClapLaws `{Clap} : Prop := {
  clap_long_options : forall opts,
    Forall (fun p => fst p ∈ option_names /\ plain_value (snd p)) opts ->
    clap_parse (concat ((fun p => [fst p; snd p]) <$> opts)) = declared opts
}.

(** A parser with this behaviour. *)
Module ReferenceClap.

Fixpoint pairs (l : list text) : option (list (text * text)) :=
  match l with
  | [] => Some []
  | o :: v :: r => if decide (o ∈ option_names) then cons (o, v) <$> pairs r else None
  | _ => None
  end.

#[export] Instance clap : Clap := {| clap_parse l := pairs l ≫= declared |}.

#[export] Instance clap_laws : ClapLaws.
Proof.
  constructor. intros opts Ho. cbn.
  enough (pairs (concat ((fun p => [fst p; snd p]) <$> opts)) = Some opts) as -> by done.
  induction Ho as [|[o v] opts [Hn _] _ IH]; [done|]. cbn [fmap list_fmap concat app pairs fst snd] in *.
  by rewrite decide_True, IH.
Qed.

End ReferenceClap.

(** ** Lemmas *)

(** The characters of a printed address. *)
Definition ip_char (c : ascii) : Prop := c <> "/"%char /\ c <> "-"%char.

Lemma digit_ip_char d : in_radix 16 d -> ip_char (digit_char d).
Proof. intros Hd. split; by_digit d; done. Qed.

Lemma join_chars (P : ascii -> Prop) sep l : P sep -> Forall (Forall P) l -> Forall P (join sep l).
Proof.
  intros Hs Hl. induction Hl as [|s l Hx Hl IH]; [constructor|]. destruct l as [|t l]; [done|].
  change (Forall P (s ++ sep :: join sep (t :: l))). apply Forall_app. split; [done|]. by constructor.
Qed.

Lemma print_number_chars radix n : 2 <= radix <= 16 -> 0 <= n -> Forall ip_char (print_radix radix n).
Proof.
  intros Hr Hn. apply print_chars; [lia|done|]. intros d Hd. apply digit_ip_char.
  unfold in_radix in *. lia.
Qed.

Lemma print_v4_chars b : Forall ip_char (print_v4 b).
Proof.
  apply join_chars; [done|]. apply Forall_fmap, Forall_forall. intros x _.
  apply print_number_chars; [lia|]. pose proof (byte_val_range x). lia.
Qed.

Lemma print_groups_chars gs : Forall fits16 gs -> Forall ip_char (print_groups gs).
Proof.
  intros Hg. apply join_chars; [done|]. apply Forall_fmap. eapply Forall_impl; [|exact Hg].
  intros g [H _]. apply print_number_chars; [lia|done].
Qed.

Lemma print_ip_chars ip : Forall ip_char (print_ip ip).
Proof.
  destruct ip as [a|a]; [apply print_v4_chars|]. cbn. unfold print_v6.
  destruct (v4_mapped a).
  { apply Forall_app. split; [by repeat constructor|apply print_v4_chars]. }
  destruct (groups_of_bytes a 8 (length_vec_to_list a)) as (_ & _ & H3).
  destruct (zero_run _ _ _ _) as [start len]. case_decide; [|by apply print_groups_chars].
  rewrite !Forall_app. split_and!; [by apply print_groups_chars, Forall_take|by repeat constructor|].
  by apply print_groups_chars, Forall_drop.
Qed.

Lemma split_from_plain c cur s :
  Forall (fun x => x <> c) s -> split_from c cur s = [reverse cur ++ s].
Proof.
  intros Hs. revert cur. induction Hs as [|x s Hx _ IH]; intros cur; cbn; [by rewrite app_nil_r|].
  rewrite decide_False by done. rewrite IH, reverse_cons. by rewrite <- app_assoc.
Qed.

Lemma split_from_sep c cur s t :
  Forall (fun x => x <> c) s -> split_from c cur (s ++ c :: t) = (reverse cur ++ s) :: split_from c [] t.
Proof.
  intros Hs. revert cur. induction Hs as [|x s Hx _ IH]; intros cur; cbn.
  - by rewrite decide_True, app_nil_r.
  - rewrite decide_False by done. rewrite IH, reverse_cons. by rewrite <- app_assoc.
Qed.

Lemma no_slash s : Forall ip_char s -> Forall (fun x => x <> "/"%char) s.
Proof. apply Forall_impl. by intros c [Hc _]. Qed.

(** What the proxy makes of a printed address and prefix. *)
Definition valid_prefix (p : IpAddr * Z) : Prop := snd p <= ip_width (fst p).
#[global] Instance valid_prefix_dec p : Decision (valid_prefix p).
Proof. unfold valid_prefix. apply _. Defined.

Lemma parse_print_prefix p :
  fits 8 (snd p) -> parse_ip_prefix (print_ip_prefix p) = if decide (valid_prefix p) then Some p else None.
Proof.
  intros Hf. destruct p as [ip prefix]. unfold parse_ip_prefix, print_ip_prefix, split, valid_prefix in *.
  cbn [fst snd] in *.
  rewrite split_from_sep, split_from_plain by (apply no_slash; first [apply print_ip_chars|
    apply (print_number_chars 10); [lia|apply Hf]]).
  cbn [reverse rev_append app]. change (reverse (@nil ascii)) with (@nil ascii). cbn [app].
  rewrite parse_print_ip. cbn [mbind option_bind]. rewrite parse_print_uint by done. cbn [mbind option_bind].
  destruct ip; cbn; repeat case_decide; done || lia.
Qed.
