(* ===== verification/CliSpec.v ===== *)
(** * Correctness of the proxy's command line

    The proxy rebuilds the configuration the library spawned it with, less what does
    not concern it; and what follows for a configuration without an address. *)

From S2P Require Import Prelude Net Stream Protocol Text IpText Externals Stack Handshake.
From S2P Require Import HandshakeSpec SerdeRef Cli.
#[local] Open Scope Z_scope.

Lemma values_app n l1 l2 : values n (l1 ++ l2) = values n l1 ++ values n l2.
Proof. unfold values. by rewrite list.filter_app, fmap_app. Qed.

Lemma values_const {X} n o (f : X -> text) (l : list X) :
  values n ((fun x => (o, f x)) <$> l) = if decide (o = n) then f <$> l else [].
Proof.
  unfold values. induction l as [|x l IH]; [by case_decide|].
  change ((fun x => (o, f x)) <$> x :: l) with ((o, f x) :: ((fun x => (o, f x)) <$> l)).
  rewrite list.filter_cons. cbn [fst]. case_decide; [|done]. rewrite fmap_cons. by rewrite IH.
Qed.

Lemma plain_chars s : Forall ip_char s -> plain_value s.
Proof. intros Hs. destruct Hs as [|c s [_ Hc] _]; [done|]. intros [= ->]. done. Qed.

Lemma print_prefix_plain p : fits 8 (snd p) -> plain_value (print_ip_prefix p).
Proof.
  intros _. unfold print_ip_prefix, plain_value. pose proof (plain_chars _ (print_ip_chars (fst p))) as H.
  by destruct (print_ip (fst p)).
Qed.

Lemma print_uint_plain n : 0 <= n -> plain_value (print_uint n).
Proof. intros Hn. by apply plain_chars, print_number_chars. Qed.

(** A configuration of the Rust types: integers of their widths, and a name that is not
    an option. *)
Record representable (config : TapConfig) : Prop := {
  rep_mtu : fits 16 (mtu config);
  rep_name : plain_value (chars (interface_name config));
  rep_peer : forall p, peer_addr config = Some p -> fits 8 (snd p);
  rep_routes : Forall (fun r => fits 8 (snd r)) (peer_routes config);
}.

Lemma spawn_options_plain pid fd config :
  fits 32 pid -> fits 31 fd -> representable config ->
  Forall (fun p => fst p ∈ option_names /\ plain_value (snd p)) (spawn_options pid fd config).
Proof.
  intros [Hpid _] [Hfd _] [[Hm _] Hn Hp Hr]. unfold spawn_options. rewrite !Forall_app. split_and!.
  - apply Forall_cons; [|apply Forall_cons; [|apply list.Forall_singleton]];
      (split; [by apply (bool_decide_unpack _)|]); [by apply print_uint_plain..|done].
  - destruct (peer_addr config) as [p|]; [|constructor]. apply list.Forall_singleton.
    split; [by apply (bool_decide_unpack _)|]. by apply print_prefix_plain, Hp.
  - apply list.Forall_singleton. split; [by apply (bool_decide_unpack _)|by apply print_uint_plain].
  - apply Forall_fmap. eapply Forall_impl; [|exact Hr]. intros r Hf. cbn.
    split; [by apply (bool_decide_unpack _)|by apply print_prefix_plain].
Qed.

Definition when (b : bool) (vs : list text) : list text := if b then vs else [].

(** The values of an option among those that [spawn_proxy] gives. *)
Lemma spawn_values pid fd config n :
  let given o := bool_decide (chars o = n) in
  values n (spawn_options pid fd config) =
    when (given "--pid") [print_uint pid] ++ when (given "--frame-fd") [print_uint fd] ++
    when (given "--tap-name") [chars (interface_name config)] ++
    when (given "--tap-addr") (option_list (print_ip_prefix <$> peer_addr config)) ++
    when (given "--mtu") [print_uint (mtu config)] ++
    when (given "--tap-route") (print_ip_prefix <$> peer_routes config).
Proof.
  intros given. subst given.
  assert (Hc : forall {X} o (f : X -> text) l, values n ((fun x => (chars o, f x)) <$> l) =
    when (bool_decide (chars o = n)) (f <$> l)).
  { intros X o f l. rewrite values_const. by case_decide; case_bool_decide. }
  unfold spawn_options. rewrite !values_app, Hc.
  pose proof (fun o v => Hc unit o (fun _ => v) [()]) as H1. cbn [fmap list_fmap] in H1.
  change [(chars "--pid", print_uint pid); (chars "--frame-fd", print_uint fd);
    (chars "--tap-name", chars (interface_name config))]
    with ([(chars "--pid", print_uint pid)] ++ [(chars "--frame-fd", print_uint fd)] ++
      [(chars "--tap-name", chars (interface_name config))]).
  rewrite !values_app, !H1, <- !app_assoc. do 3 f_equal. f_equal.
  destruct (peer_addr config) as [p|]; [apply H1|]. unfold when. by case_bool_decide.
Qed.

Lemma declared_spawn pid fd config :
  fits 32 pid -> fits 31 fd -> fits 16 (mtu config) ->
  declared (spawn_options pid fd config) =
    Some (MkArgs (Some pid) (Some fd) None (chars (interface_name config))
            (print_ip_prefix <$> peer_addr config) 0 (print_ip_prefix <$> peer_routes config) (mtu config)).
Proof.
  intros Hpid Hfd Hm. unfold declared. rewrite !spawn_values.
  repeat match goal with |- context [bool_decide (chars ?a = chars ?b)] =>
    let r := eval vm_compute in (bool_decide (chars a = chars b)) in
    change (bool_decide (chars a = chars b)) with r end.
  cbn [when app once mbind option_bind]. rewrite !parse_print_uint by done.
  by destruct (peer_addr config).
Qed.

Lemma foldl_routes config rs :
  Forall (fun r => fits 8 (snd r)) rs ->
  foldl (fun config s => match parse_ip_prefix s with
                         | Some (ip, prefix) => with_peer_route ip prefix config
                         | None => config
                         end) config (print_ip_prefix <$> rs) =
  MkTapConfig (interface_name config) (peer_addr config) (local_addr config) (mac config)
    (packet_loss_percent config) (peer_routes config ++ filter valid_prefix rs) (mtu config).
Proof.
  intros Hr. revert config. induction Hr as [|r rs Hf _ IH]; intros config.
  { rewrite app_nil_r. by destruct config. }
  rewrite fmap_cons. cbn [foldl]. rewrite parse_print_prefix, list.filter_cons by done.
  destruct r as [ip prefix]. case_decide; rewrite IH; [|done].
  destruct config. cbn. by rewrite <- app_assoc.
Qed.

(** ** Properties *)

(** C19: The proxy gets the configuration it was spawned with.  The arguments that
    [spawn_proxy] builds are parsed by the proxy into the target PID, the descriptor of
    the socket (so that it runs in frame-fd mode) and a configuration with the same
    interface name and MTU, the same peer address if its prefix is valid for it, and
    exactly the routes whose prefixes are valid, in order; an invalid one is silently
    left out. *)
Theorem spawn_config_roundtrip `{ClapLaws} (pid fd : Z) (config : TapConfig)
  (Hpid : fits 32 pid) (Hfd : fits 31 fd) (Hrep : representable config) :
  exists args, clap_parse (spawn_args pid fd config) = Some args /\
    a_pid args = Some pid /\ main_mode args = Some (FrameFd fd) /\
    build_tap_config args =
      {| interface_name := interface_name config;
         peer_addr := p ← peer_addr config; if decide (valid_prefix p) then Some p else None;
         local_addr := None; mac := None; packet_loss_percent := 0;
         peer_routes := filter valid_prefix (peer_routes config); mtu := mtu config |}.
Proof.
  eexists. unfold spawn_args. rewrite clap_long_options by by apply spawn_options_plain.
  rewrite declared_spawn by (done || apply Hrep). split_and!; [done..|].
  unfold build_tap_config. cbn [a_tap_addr a_tap_route a_mtu a_packet_loss a_tap_name].
  rewrite foldl_routes by apply Hrep. unfold chars.
  rewrite String.string_of_list_ascii_of_string.
  destruct (peer_addr config) as [[ip prefix]|] eqn:E; [|done].
  cbn [fmap option_fmap option_map mbind option_bind].
  rewrite parse_print_prefix by by apply Hrep. by case_decide.
Qed.

Section NoAddress.
Context {SH : Serde ClientHello} {SHok : SerdeOk ClientHello} {SP : Serde ProxyConfig}.

Lemma handshake_refuses config tap_mac hello tl s w :
  peer_addr config = None -> encode_control MkClientHello = Ok hello ->
  Z.of_nat (length hello) < 2 ^ 32 -> rs_wf s -> rbytes s = frame_msg hello ++ tl ->
  exists s', perform_handshake config tap_mac s w =
    (Err (IoError InvalidInput "tap_addr must be configured"), s', w).
Proof.
  intros Hp Hh Hl Hw Hs. unfold perform_handshake, read_exact_fd.
  destruct (read_exact_msg (IoError UnexpectedEof "connection closed") hello tl s Hw Hl Hs)
    as (s1 & s2 & -> & -> & _ & _ & -> & _).
  rewrite (expect_control_ok MkClientHello hello _ Hh), Hp. by exists s2.
Qed.

(** Without a peer address there is no tunnel: a library that spawns the proxy with a
    configuration that has none, or one with an invalid prefix ([Tunnel::connect] always
    uses such a configuration), gets no configuration back.  The proxy rejects the
    library's hello without writing anything, and the library, which then reads the end
    of the stream, reports [UnexpectedEof]. *)
Theorem connect_needs_peer_addr `{ClapLaws} (pid fd : Z) (config : TapConfig) (tap_mac : array 6)
  (hello tl : bytes) (s : rstream) (w : wstream) (stderr : string) (t : tick) (sched : list tick)
  (Hpid : fits 32 pid) (Hfd : fits 31 fd) (Hrep : representable config)
  (Hpeer : forall p, peer_addr config = Some p -> ~ valid_prefix p)
  (Hhello : encode_control MkClientHello = Ok hello) (Hlen : Z.of_nat (length hello) < 2 ^ 32)
  (Hws : rs_wf s) (Hs : rbytes s = frame_msg hello ++ tl) (Ht : arrived t) :
  exists args s', clap_parse (spawn_args pid fd config) = Some args /\
    perform_handshake (build_tap_config args) tap_mac s w =
      (Err (IoError InvalidInput "tap_addr must be configured"), s', w) /\
    exists e, receive_config_timed stderr (t :: sched) (RStream [] Eof) = Some (Err e, RStream [] Eof) /\
      ekind e = UnexpectedEof.
Proof.
  unfold spawn_args. rewrite clap_long_options by by apply spawn_options_plain.
  rewrite declared_spawn by (done || apply Hrep).
  edestruct (handshake_refuses (build_tap_config (MkArgs (Some pid) (Some fd) None
    (chars (interface_name config)) (print_ip_prefix <$> peer_addr config) 0
    (print_ip_prefix <$> peer_routes config) (mtu config))) tap_mac hello tl s w) as [s' E]; try done.
  { unfold build_tap_config. cbn [a_tap_addr a_tap_route]. rewrite foldl_routes by apply Hrep.
    destruct (peer_addr config) as [p|] eqn:E; [|done]. cbn [fmap option_fmap option_map].
    rewrite parse_print_prefix by by apply Hrep. rewrite decide_False by by apply Hpeer. done. }
  eexists _, s'. split_and!; [done|exact E|].
  unfold receive_config_timed. cbn [read_len_loop]. apply Is_true_true in Ht. rewrite Ht.
  eexists. split; [reflexivity|done].
Qed.

End NoAddress.

(** ** Witnesses: the properties at concrete inputs, on the reference instances *)

#[local] Existing Instances hello_serde hello_serde_ok config_serde config_serde_ok
  ReferenceClap.clap ReferenceClap.clap_laws.

Definition demo_spawn : TapConfig :=
  with_peer_route (V4 [# x0a; x01; x00; x00]) 40
    (with_peer_route (V6 (array_of 16 [xfd; x00])) 8
       (with_peer_addr (V4 [# x0a; x00; x00; x01]) 24 tap_config_default)).

Lemma demo_representable : representable demo_spawn /\ representable tap_config_default.
Proof.
  split; constructor; try done.
  - by intros p [= <-].
  - by repeat (apply Forall_cons; [done|]).
Qed.

Lemma spawn_config_roundtrip_witness :
  exists args, clap_parse (spawn_args 4711 5 demo_spawn) = Some args /\
    build_tap_config args =
      with_peer_route (V6 (array_of 16 [xfd; x00])) 8
        (with_peer_addr (V4 [# x0a; x00; x00; x01]) 24 tap_config_default).
Proof.
  destruct (spawn_config_roundtrip 4711 5 demo_spawn) as (args & H1 & _ & _ & H4);
    [done|done|apply demo_representable|].
  exists args. split; [exact H1|]. rewrite H4. reflexivity.
Defined.

Lemma connect_needs_peer_addr_witness :
  exists args s', clap_parse (spawn_args 4711 5 tap_config_default) = Some args /\
    perform_handshake (build_tap_config args) [# x02; x00; x00; x00; x00; x07]
      (RStream [frame_msg demo_hello] Eof) (WStream [] []) =
      (Err (IoError InvalidInput "tap_addr must be configured"), s', WStream [] []).
Proof.
  destruct (connect_needs_peer_addr 4711 5 tap_config_default [# x02; x00; x00; x00; x00; x07]
    demo_hello [] (RStream [frame_msg demo_hello] Eof) (WStream [] []) "" (Tick true false (Ok None)) [])
    as (args & s' & H1 & H2 & _).
  - done.
  - done.
  - apply demo_representable.
  - done.
  - reflexivity.
  - by vm_compute.
  - by repeat constructor.
  - reflexivity.
  - done.
  - by exists args, s'.
Defined.
