(* ===== verification/Connect.v ===== *)
(** * Starting and connecting to a proxy ([src/lib.rs])

    The search for the proxy's binary, spawning it with its end of the socket pair, and
    the two ways a [Tunnel] comes about ([connect_with_config_blocking] and
    [connect_to_blocking]) as sequences of system calls, with the handshake of
    [Handshake] on the connected stream. *)

From Stdlib Require Import Ascii.
From S2P Require Import Prelude Net Stream Text Sys SysFrame SysIpc Protocol Externals Stack Handshake.
From S2P Require Import IpText Cli Tunnel.
#[local] Open Scope Z_scope.

(** ** Paths

    A path is the text it was made from ([PathBuf::from] keeps it as it is). *)

Definition path : Type := text.

(** What the iterator over the components of a path skips at its end, the path being
    reversed: separators after the root and components [.] after a separator. *)
Fixpoint trim_back (r : text) : text :=
  match r with
  | c :: tl =>
      if decide (c = "/"%char /\ tl <> []) then trim_back tl
      else if decide (c = "."%char /\ head tl = Some "/"%char) then trim_back tl
      else r
  | [] => []
  end.

Fixpoint drop_component (r : text) : text :=
  match r with
  | c :: tl => if decide (c = "/"%char) then r else drop_component tl
  | [] => []
  end.

(** [Path::parent]: without its last component, and what then ends it; the root and the
    empty path have none. *)
Definition parent (p : path) : option path :=
  let r := trim_back (reverse p) in
  if decide (r = [] \/ r = ["/"%char]) then None else Some (reverse (trim_back (drop_component r))).

(** [Path::join] with a relative name *)
Definition join_path (p : path) (name : text) : path :=
  match reverse p with
  | [] | "/"%char :: _ => p ++ name
  | _ => p ++ "/"%char :: name
  end.

(** ** [find_proxy_binary] *)

Definition PROXY_NAME : text := chars "tap-tunnel-proxy".

(** [if path.try_exists()? { return Ok(path); }] *)
Definition return_if_exists (p : path) (k : prog (result path)) : prog (result path) :=
  let? found := perform (SysTryExists p) in
  if (found : bool) then Return (Ok p) else k.

(** [str::trim] *)
Fixpoint drop_space (s : text) : text :=
  match s with
  | x :: r => if is_whitespace x then drop_space r else s
  | [] => []
  end.
Definition trim (s : text) : text := reverse (drop_space (reverse (drop_space s))).

(** 4. The system's PATH, by [which]. *)
Definition find_in_path : prog (result path) :=
  output ← perform (SysOutput (chars "which") [PROXY_NAME]);
  let not_found := Return (Err (IoError NotFound
    "proxy binary 'tap-tunnel-proxy' not found. Ensure it's in the same directory as the executable, set TAP_TUNNEL_PROXY environment variable, or install it in PATH")) in
  match output with
  | Ok (true, stdout) => return_if_exists (trim stdout) not_found
  | _ => not_found
  end.

(** 3. [CARGO_MANIFEST_DIR], the debug build first. *)
Definition find_in_cargo : prog (result path) :=
  manifest_dir ← perform (SysVar (chars "CARGO_MANIFEST_DIR"));
  match manifest_dir with
  | Some dir =>
      let target := join_path dir (chars "target") in
      return_if_exists (join_path (join_path target (chars "debug")) PROXY_NAME)
        (return_if_exists (join_path (join_path target (chars "release")) PROXY_NAME) find_in_path)
  | None => find_in_path
  end.

(** 2. [TAP_TUNNEL_PROXY]. *)
Definition find_in_env : prog (result path) :=
  proxy_path ← perform (SysVar (chars "TAP_TUNNEL_PROXY"));
  match proxy_path with
  | Some s => return_if_exists s find_in_cargo
  | None => find_in_cargo
  end.

(** 1. The directory of the executable, and its parent. *)
Definition find_proxy_binary : prog (result path) :=
  exe ← perform SysCurrentExe;
  match exe with
  | Ok exe_path =>
      match parent exe_path with
      | Some exe_dir =>
          return_if_exists (join_path exe_dir PROXY_NAME)
            match parent exe_dir with
            | Some p => return_if_exists (join_path p PROXY_NAME) find_in_env
            | None => find_in_env
            end
      | None => find_in_env
      end
  | Err _ => find_in_env
  end.

(** ** Spawning *)

Definition remove_cloexec (fd : Z) : prog (result unit) :=
  let? flags := checked (SysFcntl fd F_GETFD 0) in
  let new_flags := Z.land flags (Z.lnot FD_CLOEXEC) in
  let? _ := checked (SysFcntl fd F_SETFD new_flags) in
  Return (Ok ()).

(** [cmd.spawn().map_err(..)] *)
Definition spawn_command (proxy_path : path) (args : list text) : prog (result Z) :=
  r ← perform (SysSpawn proxy_path args);
  Return (match r with
          | Ok child => Ok child
          | Err e => Err (IoError (ekind e) ("failed to spawn proxy binary '" +:+
              String.string_of_list_ascii proxy_path +:+ "': " +:+ emsg e)%string)
          end).

(** The function owns [frame_fd] and drops it on every path. *)
Definition spawn_proxy (pid frame_fd : Z) (config : TapConfig) : prog (result Z) :=
  let? _ := remove_cloexec frame_fd owning [frame_fd] in
  let? proxy_path := find_proxy_binary owning [frame_fd] in
  let? child := spawn_command proxy_path (spawn_args pid frame_fd config) owning [frame_fd] in
  _ ← drop_fds [frame_fd];
  Return (Ok child).

(** [read_child_stderr]: [child.stderr] and the outcome of reading it to its end. *)
Definition read_child_stderr (stderr : option (result text)) : text :=
  trim (match stderr with Some (Ok s) => s | _ => [] end).

(** [spawn_proxy] leaves the child's standard error as it is: there is no pipe. *)
Definition child_stderr : string := String.string_of_list_ascii (read_child_stderr None).

(** ** The tunnel *)

(** The device of the stack task: smoltcp's [FaultInjector], with a seed from the clock,
    is put around it only when packet loss is configured. *)
Inductive stack_device := PlainDevice | FaultInjected (drop_chance : Z).

Definition choose_device (packet_loss : Z) : stack_device :=
  if decide (packet_loss > 0) then FaultInjected packet_loss else PlainDevice.

(** What [setup_stack_from_fd] hands to the tasks and keeps. *)
Record Tunnel := MkTunnel {
  t_stream : Z; t_stack_config : StackConfig; t_frame_size : Z; t_device : stack_device;
  t_gateway : IpAddr * array 6; t_local_addr : IpAddr * Z; t_inner : Closing.tunnel
}.

(** The system calls of [setup_stack_from_fd]; it owns the stream.  The tasks are numbered
    in the order of [task_handles]: IPC reader, IPC writer, stack. *)
Definition setup_stack_from_fd (process_id frame_stream : Z) (config : TapConfig)
    (proxy_child : option Z) (gateway : IpAddr * array 6) : prog (result Tunnel) :=
  let? cfg := Return (stack_config process_id config) owning [frame_stream] in
  let? _ := perform (SysNonblocking frame_stream) owning [frame_stream] in
  let? _ := perform (SysRegister frame_stream) owning [frame_stream] in
  Return (Ok (MkTunnel frame_stream cfg (ethernet_frame_size config)
                (choose_device (packet_loss_percent config)) gateway
                (cfg_ip cfg, cfg_prefix_len cfg) (Closing.tunnel_new proxy_child [0; 1; 2]%nat))).

(** The methods of [Tunnel] that only read its fields. *)
Definition local_addr_of (t : Tunnel) : IpAddr * Z := t_local_addr t.
Definition gateway_of (t : Tunnel) : IpAddr * array 6 := t_gateway t.

Section Connect.
Context {SH : Serde ClientHello} {SP : Serde ProxyConfig}.

(** The outcome of connecting: still waiting in the loop that reads the length prefix
    (after the iterations that are given), a panic, or a result. *)
Inductive connecting := StillWaiting | Panicked | Connected (r : result Tunnel).

(** Blocking I/O on one direction of the stream. *)
Definition reading {B} (f : rstream -> B * rstream) : rstream * wstream -> B * (rstream * wstream) :=
  fun '(s, w) => let '(b, s') := f s in (b, (s', w)).
Definition writing {B} (f : wstream -> B * wstream) : rstream * wstream -> B * (rstream * wstream) :=
  fun '(s, w) => let '(b, w') := f w in (b, (s, w')).

(** [connect_with_config_blocking] up to the loop that reads the length prefix. *)
Definition start_proxy (pid : Z) (config : TapConfig) : prog (result (Z * Z)) :=
  let? (parent_fd, child_fd) := create_socketpair in
  let? proxy_child := spawn_proxy pid child_fd config owning [parent_fd] in
  let? _ := perform (SysStream parent_fd (writing send_hello)) owning [parent_fd] in
  let? _ := perform (SysReadTimeout parent_fd (Some 100)) owning [parent_fd] in
  Return (Ok (parent_fd, proxy_child)).

(** The loop, on the iterations [sched]. *)
Definition read_prefix (sched : list tick) (s : rstream) : option (result bytes) * rstream :=
  match read_len_loop child_stderr sched [] s with
  | Some (r, s') => (Some r, s')
  | None => (None, s)
  end.

(** From the length prefix to the proxy's configuration. *)
Definition read_config (stream : Z) (len_buf : bytes) : prog (result ProxyConfig) :=
  let? _ := perform (SysReadTimeout stream None) owning [stream] in
  let msg_len := Z.to_nat (be_val len_buf) in
  let? buf := perform (SysStream stream (reading (read_exact msg_len))) owning [stream] in
  let? pc := Return (expect_control buf (invalid_data "expected ProxyConfig, got frame"))
    owning [stream] in
  Return (Ok pc).

Definition connect_with_config_blocking (p : profile) (process_id pid : Z) (config : TapConfig)
    (sched : list tick) : prog connecting :=
  started ← start_proxy pid config;
  match started with
  | Err e => Return (Connected (Err e))
  | Ok (stream, proxy_child) =>
      prefix ← perform (SysStream stream (reading (read_prefix sched)));
      match prefix with
      | None => Return StillWaiting
      | Some (Err e) => _ ← drop_fds [stream]; Return (Connected (Err e))
      | Some (Ok len_buf) =>
          received ← read_config stream len_buf;
          match received with
          | Err e => Return (Connected (Err e))
          | Ok pc =>
              match connect_pid_config p pc pid config with
              | Panic => _ ← drop_fds [stream]; Return Panicked
              | Ret config' =>
                  r ← setup_stack_from_fd process_id stream config' (Some proxy_child)
                        (pc_tap_ip pc, pc_tap_mac pc);
                  Return (Connected r)
              end
          end
      end
  end.

(** [connect_to_blocking] up to the proxy's configuration. *)
Definition greet_proxy (socket_path : text) : prog (result (Z * ProxyConfig)) :=
  let? stream := connect_stream socket_path in
  let? _ := perform (SysStream stream (writing send_hello)) owning [stream] in
  let? _ := perform (SysReadTimeout stream (Some 5000)) owning [stream] in
  let? (n, buf) := perform (SysStream stream (reading (read_framed_sync (replicate 1024 x00))))
    owning [stream] in
  let? _ := perform (SysReadTimeout stream None) owning [stream] in
  let? pc := Return (expect_control (take n buf) (invalid_data "expected ProxyConfig, got frame"))
    owning [stream] in
  Return (Ok (stream, pc)).

Definition connect_to_blocking (p : profile) (process_id : Z) (socket_path : text)
    (local_ip : option IpAddr) : prog connecting :=
  greeted ← greet_proxy socket_path;
  match greeted with
  | Err e => Return (Connected (Err e))
  | Ok (stream, pc) =>
      match connect_to_config p pc local_ip with
      | Panic => _ ← drop_fds [stream]; Return Panicked
      | Ret config =>
          r ← setup_stack_from_fd process_id stream config None (pc_tap_ip pc, pc_tap_mac pc);
          Return (Connected r)
      end
  end.

(** [Tunnel::connect] and [Tunnel::connect_with_config] *)
Definition connect_with_config := connect_with_config_blocking.
Definition connect (p : profile) (process_id pid : Z) (sched : list tick) : prog connecting :=
  connect_with_config p process_id pid tap_config_default sched.
Definition connect_to := connect_to_blocking.

End Connect.
