(* ===== verification/ConnectSpec.v ===== *)
(** * Properties of connecting

    Which descriptors and children a call of [Tunnel::connect*] leaves behind, on every
    path and against every kernel that obeys the law of [Sys]; and which binary
    [find_proxy_binary] chooses. *)

From Stdlib Require Import Ascii.
From S2P Require Import Prelude Net Stream Text Sys SysFrame SysIpc Protocol Externals Stack Handshake.
From S2P Require Import IpText Cli Tunnel Connect SerdeRef.
#[local] Open Scope Z_scope.

(** The descriptors a child would inherit. *)
Definition inheritable (v : pview) : gset Z := dom (filter (fun p => p.2.1 = false) (fds v)).

Lemma elem_of_inheritable fd v : fd ∈ inheritable v <-> exists f, fds v !! fd = Some (false, f).
Proof.
  unfold inheritable. rewrite elem_of_dom. split.
  - intros [[c f] H]. apply map_lookup_filter_Some in H as [H1 H2]. cbn in H2. subst. eauto.
  - intros [f H]. exists (false, f). by apply map_lookup_filter_Some.
Qed.

(** ** Parts that leave the process as it is *)

Definition idle {A} (p : prog A) : Prop := forall v, wp p v (fun _ v' => v' = v).

Lemma idle_bind {A B} (p : prog A) (k : A -> prog B) : idle p -> (forall a, idle (k a)) -> idle (p ≫= k).
Proof. intros Hp Hk v. eapply wp_use; [apply Hp|]. intros a v' ->. apply Hk. Qed.

Lemma idle_perform {X} (e : sysE X) :
  (forall v, usable e v) -> (forall v x v', allowed e v x v' -> v' = v) -> idle (perform e).
Proof. intros Hu Ha v. apply wp_perform; [done|]. apply Ha. Qed.

Lemma idle_exists p k : idle k -> idle (return_if_exists p k).
Proof.
  intros Hk. apply idle_bind; [by apply idle_perform|]. intros [[]|e]; [done|exact Hk|]. by intros v.
Qed.

Lemma find_proxy_binary_idle : idle find_proxy_binary.
Proof.
  assert (P : idle find_in_path).
  { apply idle_bind; [by apply idle_perform|]. intros [[[] out]|e]; [|done..]. by apply idle_exists. }
  assert (C : idle find_in_cargo).
  { apply idle_bind; [by apply idle_perform|]. intros [dir|]; [|exact P]. by repeat apply idle_exists. }
  assert (E : idle find_in_env).
  { apply idle_bind; [by apply idle_perform|]. intros [s|]; [|exact C]. by apply idle_exists. }
  apply idle_bind; [by apply idle_perform|]. intros [exe|e]; [|exact E].
  destruct (parent _) as [dir|]; [|exact E]. apply idle_exists.
  destruct (parent dir); [by apply idle_exists|exact E].
Qed.

(** ** Spawning *)

Section Spawn.
Context (o : gset Z) (v0 : pview) (fd : Z) (Hin : fd ∈ o).

Lemma remove_cloexec_wp v :
  frame o v0 v ->
  wp (remove_cloexec fd) v (fun r v' =>
    match r with
    | Ok _ => v' = set_fds (alter (fun p => (false, p.2)) fd (fds v)) v
    | Err _ => v' = v
    end).
Proof.
  intros F. apply wp_try, wp_checked; [usable_fd|]. intros x v1 H. cbn [allowed] in H. unfold fcntl_allowed in H.
  destruct (check x) as [flags|e]; [|by subst]. rewrite decide_True in H by done. destruct H as [-> _].
  apply wp_try, wp_checked; [usable_fd|]. intros y v1 H. cbn [allowed] in H. unfold fcntl_allowed in H.
  destruct (check y) as [n|e]; [|by subst]. rewrite decide_False, decide_True in H by done.
  rewrite Z.land_spec in H. cbn [Z.lnot FD_CLOEXEC] in H. by rewrite andb_false_r in H.
Qed.

(** What a successful spawn leaves: the child runs with the arguments for [fd], inherited
    [fd] and what was inheritable before. *)
Definition spawned (pid : Z) (config : TapConfig) (v : pview) (child : Z) (v' : pview) : Prop :=
  kids v !! child = None /\ exists path,
  kids v' = <[child := Kid path (spawn_args pid fd config) ({[fd]} ∪ inheritable v)]> (kids v).

Lemma spawn_proxy_wp pid config v :
  frame o v0 v ->
  wp (spawn_proxy pid fd config) v (fun r v' =>
    frame (o ∖ {[fd]}) v0 v' /\ joined v' = joined v /\
    (forall fd', fd' <> fd -> fds v' !! fd' = fds v !! fd') /\
    match r with
    | Ok child => spawned pid config v child v'
    | Err _ => kids v' = kids v
    end).
Proof.
  intros F.
  assert (D : forall v1 (Q : pview -> Prop), frame o v0 v1 ->
    Q (set_fds (delete fd (fds v1)) v1) -> wp (drop_fds [fd]) v1 (fun _ => Q)).
  { intros v1 Q F1 HQ. apply wp_drop_fds; [apply NoDup_singleton| |done].
    constructor; [by eapply frame_open|constructor]. }
  apply wp_try. eapply wp_mono; [|by apply remove_cloexec_wp]. intros [_|e] v1 H1; subst v1.
  2:{ apply D; [done|]. split_and!; [by apply frame_close|done| |done].
      intros fd' Hne. cbn. by rewrite lookup_delete_ne. }
  set (v1 := set_fds _ v). assert (F1 : frame o v0 v1) by by apply frame_cloexec.
  assert (O1 : forall fd', fd' <> fd -> fds v1 !! fd' = fds v !! fd')
    by (intros fd' Hne; unfold v1; cbn; by rewrite lookup_alter_ne).
  assert (I1 : inheritable v1 = {[fd]} ∪ inheritable v).
  { apply set_eq. intros x. rewrite elem_of_union, elem_of_singleton, !elem_of_inheritable.
    destruct (decide (x = fd)) as [->|Hne].
    - destruct (frame_open _ _ _ fd F Hin) as [[c f] Hc]. unfold v1. cbn. rewrite lookup_alter_eq, Hc.
      split; [by left|]. intros _. by exists f.
    - rewrite O1 by done. naive_solver. }
  assert (J1 : joined v1 = joined v) by done. assert (K1 : kids v1 = kids v) by done. clearbody v1.
  assert (E : forall v2 (r : result Z), frame o v0 v2 -> fds v2 = fds v1 -> joined v2 = joined v1 ->
    match r with Ok child => spawned pid config v child v2 | Err _ => kids v2 = kids v end ->
    wp (drop_fds [fd]) v2 (fun _ v' => frame (o ∖ {[fd]}) v0 v' /\ joined v' = joined v /\
      (forall fd', fd' <> fd -> fds v' !! fd' = fds v !! fd') /\
      match r with Ok child => spawned pid config v child v' | Err _ => kids v' = kids v end)).
  { intros v2 r F2 E2 J2 Hr. apply D; [done|]. split_and!; [by apply frame_close|cbn; congruence| |by destruct r].
    intros fd' Hne. cbn. rewrite lookup_delete_ne, E2 by done. by apply O1. }
  apply wp_try. eapply wp_mono; [|apply find_proxy_binary_idle]. intros [proxy|e] v2 ->; [|by apply (E v1 (Err e))].
  apply wp_try, wp_bind, wp_perform; [done|]. intros [child|e] v2 H; cbn [allowed] in H.
  - destruct H as [Hfr ->]. apply wp_bind, (E _ (Ok child)); [by apply frame_kid|done|done|].
    split; [congruence|]. exists proxy. cbn. fold (inheritable v1). by rewrite I1, K1.
  - subst v2. by apply (E v1 (Err e)).
Qed.

End Spawn.

(** ** Connecting *)

Section Connect.
Context {SH : Serde ClientHello} {SP : Serde ProxyConfig}.

(** The stream that a scope owns, or nothing after it was dropped. *)
Definition holds (stream : Z) (v v' : pview) : Prop :=
  frame {[stream]} v v' /\ fst <$> fds v' !! stream = Some true.

Lemma drop_stream stream v v1 (Q : unit -> pview -> Prop) :
  holds stream v v1 -> (forall v', frame ∅ v v' -> calm v1 v' -> Q () v') -> wp (drop_fds [stream]) v1 Q.
Proof.
  intros [F _] HQ. eapply wp_drop_owned; [exact F|apply NoDup_singleton|owned_set|].
  intros v2 F2 C2 _. apply HQ; [|done]. eapply frame_eq; [done|owned_set].
Qed.

(** A step on the stream that changes nothing about descriptors. *)
Lemma stream_step {A B} stream v v1 (p : prog (result A)) (k : A -> prog (result B)) Q :
  holds stream v v1 -> (forall R : result A -> pview -> Prop, (forall r, R r v1) -> wp p v1 R) ->
  (forall a, wp (k a) v1 Q) -> (forall e v', frame ∅ v v' -> calm v1 v' -> Q (Err e) v') ->
  wp (try_owning [stream] p k) v1 Q.
Proof.
  intros Hh Hp Hk HQ. apply wp_try, Hp. intros [a|e]; [apply Hk|]. eapply drop_stream; [done|eauto].
Qed.

Lemma stream_wp {B} stream v v1 (f : rstream * wstream -> B * (rstream * wstream)) (R : B -> pview -> Prop) :
  holds stream v v1 -> (forall b, R b v1) -> wp (perform (SysStream stream f)) v1 R.
Proof.
  intros [F _] HR. apply wp_perform; [eapply frame_open; [done|set_solver]|]. intros b v' [-> _]. apply HR.
Qed.

Lemma timeout_wp stream v v1 ms (R : result unit -> pview -> Prop) :
  holds stream v v1 -> (forall r, R r v1) -> wp (perform (SysReadTimeout stream ms)) v1 R.
Proof.
  intros [F _] HR. apply wp_perform; [eapply frame_open; [done|set_solver]|]. intros r v' ->. apply HR.
Qed.

(** What is left of the children when connecting failed: nothing was started, or the
    proxy was, and nobody killed it. *)
Definition started (pid : Z) (config : TapConfig) (v v' : pview) (stream child : Z) : Prop :=
  exists fd, fds v !! fd = None /\ fd <> stream /\ spawned fd pid config v child v'.

Lemma start_proxy_wp pid config v :
  wp (start_proxy pid config) v (fun r v' => joined v' = joined v /\
    match r with
    | Ok (stream, child) => holds stream v v' /\ started pid config v v' stream child
    | Err _ => frame ∅ v v' /\ (kids v' = kids v \/ exists stream child, started pid config v v' stream child)
    end).
Proof.
  apply wp_try. eapply wp_mono; [|apply create_socketpair_wp].
  intros [[a b]|e] v1 [(K1 & J1 & _) H]; [|cbn; auto]. destruct H as (Hab & F1 & Ha & Hb).
  assert (Hbv : fds v !! b = None) by (apply (frame_owned _ _ _ F1); set_solver).
  assert (I1 : inheritable v1 = inheritable v).
  { apply set_eq. intros x. rewrite !elem_of_inheritable. destruct (decide (x ∈ ({[a; b]} : gset Z))) as [Hx|Hx].
    - destruct (frame_owned _ _ _ F1 x Hx) as (Hn & _). rewrite Hn. split; [|by intros [f Hf]].
      intros [f Hf]. assert (x = a \/ x = b) as [-> | ->] by set_solver; [rewrite Hf in Ha|rewrite Hf in Hb]; done.
    - by rewrite (frame_other _ _ _ F1 x Hx). }
  apply wp_try. eapply wp_mono; [|apply (spawn_proxy_wp {[a; b]} v b); [set_solver|done]].
  intros r v2 (F2 & J2 & O2 & H2).
  assert (Hh : holds a v v2).
  { split; [eapply frame_eq; [done|set_solver]|]. by rewrite O2. }
  assert (S2 : forall child, spawned b pid config v1 child v2 -> started pid config v v2 a child).
  { intros child [Hk (path & Hk')]. exists b. split_and!; [done|done|]. split; [congruence|].
    exists path. by rewrite Hk', I1, K1. }
  destruct r as [child|e].
  2:{ eapply drop_stream; [done|]. intros v3 F3 (K3 & J3 & _). split; [congruence|]. split; [done|left; congruence]. }
  specialize (S2 child H2).
  assert (X : forall (e : io_error) v', frame ∅ v v' -> calm v2 v' -> joined v' = joined v /\ frame ∅ v v' /\
    (kids v' = kids v \/ exists stream child, started pid config v v' stream child)).
  { intros e v' Fe (Ke & Je & _). split_and!; [congruence|done|right]. exists a, child.
    destruct S2 as (fd & H3 & H4 & H5 & p & H6). exists fd. split_and!; [done..|]. split; [done|].
    exists p. congruence. }
  eapply stream_step; [done|intros R HR; by eapply stream_wp| |done]. intros _.
  eapply stream_step; [done|intros R HR; by eapply timeout_wp| |done]. intros _. cbn.
  split; [congruence|done].
Qed.

Lemma read_config_wp stream len_buf v v1 (Q : result ProxyConfig -> pview -> Prop) :
  holds stream v v1 -> (forall pc, Q (Ok pc) v1) ->
  (forall e v', frame ∅ v v' -> calm v1 v' -> Q (Err e) v') -> wp (read_config stream len_buf) v1 Q.
Proof.
  intros Hh HQ HE. eapply stream_step; [done|intros R HR; by eapply timeout_wp| |done]. intros _.
  eapply stream_step; [done|intros R HR; by eapply stream_wp| |done]. intros buf.
  eapply stream_step; [done|intros R HR; apply HR| |done]. intros pc. apply HQ.
Qed.

Lemma setup_wp process_id stream config child gateway v v1 (Q : result Tunnel -> pview -> Prop) :
  holds stream v v1 ->
  (forall t v', holds stream v v' -> calm v1 v' -> t_stream t = stream -> t_gateway t = gateway ->
     Closing.proxy_child (t_inner t) = child -> (exists c f, fds v' !! stream = Some (c, f) /\ f ∈ nonblock v') ->
     Q (Ok t) v') ->
  (forall e v', frame ∅ v v' -> calm v1 v' -> Q (Err e) v') ->
  wp (setup_stack_from_fd process_id stream config child gateway) v1 Q.
Proof.
  intros Hh HQ HE. eapply stream_step; [done|intros R HR; apply HR| |done]. intros cfg.
  destruct Hh as [F Hc]. destruct (frame_owned _ _ _ F stream) as (_ & c & f & Ef & _); [set_solver|].
  apply wp_try, wp_perform; [usable_fd|]. intros r v2 H. cbn in H. unfold effect, set_nonblock in H. rewrite Ef in H.
  destruct r as [u|e]; cbn in H.
  2:{ subst v2. eapply drop_stream; [by split|auto]. }
  assert (Hh2 : holds stream v v2).
  { subst v2. split; [|done]. by destruct F. }
  assert (C2 : calm v1 v2) by (by subst v2).
  assert (N2 : exists c f, fds v2 !! stream = Some (c, f) /\ f ∈ nonblock v2).
  { subst v2. exists c, f. cbn. split; [done|set_solver]. }
  eapply stream_step; [done| | |].
  - intros R HR. apply wp_perform; [eapply frame_open; [apply Hh2|set_solver]|]. intros x v3 ->. apply HR.
  - intros _. by apply HQ.
  - intros e v' F' C'. apply HE; [done|by etrans].
Qed.

(** What a call leaves behind, by its outcome. *)
Definition connect_leaves (pid : Z) (config : TapConfig) (v : pview) (r : connecting) (v' : pview) : Prop :=
  joined v' = joined v /\
  match r with
  | Connected (Ok t) => holds (t_stream t) v v' /\
      (exists c f, fds v' !! t_stream t = Some (c, f) /\ f ∈ nonblock v') /\
      exists child, Closing.proxy_child (t_inner t) = Some child /\
        started pid config v v' (t_stream t) child
  | StillWaiting => exists stream child, holds stream v v' /\ started pid config v v' stream child
  | Panicked => fds v' = fds v /\ exists stream child, started pid config v v' stream child
  | Connected (Err _) => fds v' = fds v /\
      (kids v' = kids v \/ exists stream child, started pid config v v' stream child)
  end.

Lemma connect_wp p process_id pid config sched v :
  wp (connect_with_config_blocking p process_id pid config sched) v (connect_leaves pid config v).
Proof.
  apply wp_bind. eapply wp_mono; [|apply start_proxy_wp]. intros [[stream child]|e] v1 [J1 H].
  2:{ destruct H as [F H]. split; [done|]. split; [by apply frame_fds|done]. }
  destruct H as [Hh S1].
  assert (S : forall v', calm v1 v' -> joined v' = joined v /\ started pid config v v' stream child).
  { intros v' (K & J & _). split; [congruence|]. destruct S1 as (fd & H3 & H4 & H5 & path & H6).
    exists fd. split_and!; [done..|]. split; [done|]. exists path. congruence. }
  assert (X : forall e v', frame ∅ v v' -> calm v1 v' -> connect_leaves pid config v (Connected (Err e)) v').
  { intros e v' F C. destruct (S v' C). split; [done|]. split; [by apply frame_fds|]. right. eauto. }
  apply wp_bind. eapply stream_wp; [done|]. intros [[len_buf|e]|].
  - apply wp_bind. eapply read_config_wp; [done| |by intros e v' F C; apply X]. intros pc. cbn [wp].
    destruct (connect_pid_config p pc pid config) as [config'|].
    + apply wp_bind. eapply setup_wp; [done| |by intros e v' F C; apply X].
      intros t v' Hh' C <- _ Et N. destruct (S v' C). split; [done|]. split_and!; [done..|]. eauto.
    + apply wp_bind. eapply drop_stream; [done|]. intros v' F C. destruct (S v' C).
      split; [done|]. split; [by apply frame_fds|]. eauto.
  - apply wp_bind. eapply drop_stream; [done|]. intros v' F C. by apply X.
  - destruct (S v1 (calm_refl v1)). split; [done|]. eauto.
Qed.

Lemma connect_to_wp p process_id path local_ip v :
  wp (connect_to_blocking p process_id path local_ip) v (fun r v' => calm v v' /\
    match r with
    | Connected (Ok t) => holds (t_stream t) v v' /\ Closing.proxy_child (t_inner t) = None
    | StillWaiting => False
    | _ => fds v' = fds v
    end).
Proof.
  apply wp_bind, wp_try. eapply wp_mono; [|apply connect_stream_wp].
  intros [stream|e] v1 [C1 H1]; [|by split; [|apply frame_fds]].
  set (Q := fun (r : result (Z * ProxyConfig)) v' => wp _ v' _).
  assert (X : forall e v', frame ∅ v v' -> calm v1 v' -> Q (Err e) v').
  { intros e v' F C. split; [by etrans|by apply frame_fds]. }
  eapply stream_step; [done|intros R HR; by eapply stream_wp| |done]. intros _.
  eapply stream_step; [done|intros R HR; by eapply timeout_wp| |done]. intros _.
  eapply stream_step; [done|intros R HR; by eapply stream_wp| |done]. intros [n buf].
  eapply stream_step; [done|intros R HR; by eapply timeout_wp| |done]. intros _.
  eapply stream_step; [done|intros R HR; apply HR| |done]. intros pc. unfold Q. cbn [wp].
  destruct (connect_to_config p pc local_ip) as [config|].
  - apply wp_bind. eapply setup_wp; [done| |].
    + intros t v' Hh C <- _ Et _. by split; [etrans|].
    + intros e v' F C. split; [by etrans|by apply frame_fds].
  - apply wp_bind. eapply drop_stream; [done|]. intros v' F C. split; [by etrans|by apply frame_fds].
Qed.

End Connect.

(** ** The choice of the binary *)

(** What the process's environment answers. *)
Record environment := MkEnv {
  env_exe : result text; env_var : text -> option text; env_exists : text -> result bool;
  env_which : result (bool * text)
}.

Definition serves `{Posix} (env : environment) : Prop :=
  forall w, fst (answer SysCurrentExe w) = env_exe env /\
    (forall n, fst (answer (SysVar n) w) = env_var env n) /\
    (forall p, fst (answer (SysTryExists p) w) = env_exists env p) /\
    (forall c a, fst (answer (SysOutput c a) w) = env_which env).

(** The places to look at, in order: beside the executable, one directory up, the
    variable, the debug and the release build of the crate, the search path. *)
Definition candidates (env : environment) : list path :=
  match env_exe env with
  | Ok exe =>
      match parent exe with
      | Some d => join_path d PROXY_NAME :: match parent d with Some d' => [join_path d' PROXY_NAME] | None => [] end
      | None => []
      end
  | Err _ => []
  end ++
  match env_var env (chars "TAP_TUNNEL_PROXY") with Some s => [s] | None => [] end ++
  match env_var env (chars "CARGO_MANIFEST_DIR") with
  | Some d => (fun b => join_path (join_path (join_path d (chars "target")) (chars b)) PROXY_NAME)
                <$> ["debug"%string; "release"%string]
  | None => []
  end ++
  match env_which env with Ok (true, out) => [trim out] | _ => [] end.

(** The first that exists; a test that fails ends the search. *)
Fixpoint first_existing (env : environment) (none : result path) (l : list path) : result path :=
  match l with
  | [] => none
  | p :: r =>
      match env_exists env p with
      | Err e => Err e
      | Ok true => Ok p
      | Ok false => first_existing env none r
      end
  end.

Section Find.
Context {OS : Posix} (env : environment) (Henv : serves env).

(** Running a search that continues as [k]. *)
Definition finds (k : prog (result path)) (none : result path) (l : list path) : Prop :=
  forall w, fst (run k w) = first_existing env none l.

Lemma finds_exists p k none l : finds k none l -> finds (return_if_exists p k) none (p :: l).
Proof.
  intros Hk w. cbn. destruct (Henv w) as (_ & _ & He & _). specialize (He p).
  destruct (answer (SysTryExists p) w) as [x w']. cbn in He. rewrite <- He.
  destruct x as [[]|e]; [done|apply Hk|done].
Qed.

(** A step that asks the environment. *)
Lemma finds_ask {X} (e : sysE X) (a : X) k none l :
  (forall w, fst (answer e w) = a) -> finds (k a) none l -> finds (perform e ≫= k) none l.
Proof.
  intros Ha Hk w. cbn. specialize (Ha w). destruct (answer e w) as [x w']. cbn in Ha. subst. apply Hk.
Qed.

Definition not_found : io_error := IoError NotFound
  "proxy binary 'tap-tunnel-proxy' not found. Ensure it's in the same directory as the executable, set TAP_TUNNEL_PROXY environment variable, or install it in PATH".

(** C27: [find_proxy_binary] returns the first of its candidates that exists: beside the
    executable, one directory up, [TAP_TUNNEL_PROXY], the debug and the release build
    under [CARGO_MANIFEST_DIR], what [which] prints.  A candidate whose existence cannot
    be determined ends the search with that error, and when there is none the error is
    [NotFound]. *)
Theorem find_proxy_binary_first (w : World) :
  fst (run find_proxy_binary w) = first_existing env (Err not_found) (candidates env).
Proof.
  revert w. change (finds find_proxy_binary (Err not_found) (candidates env)).
  assert (P : finds find_in_path (Err not_found)
    (match env_which env with Ok (true, out) => [trim out] | _ => [] end)).
  { eapply finds_ask; [intros w; apply (Henv w)|].
    destruct (env_which env) as [[[] out]|e]; [by apply finds_exists|done..]. }
  unfold candidates. eapply finds_ask; [intros w; apply (Henv w)|].
  assert (E : finds find_in_env (Err not_found) (
    match env_var env (chars "TAP_TUNNEL_PROXY") with Some s => [s] | None => [] end ++
    match env_var env (chars "CARGO_MANIFEST_DIR") with
    | Some d => (fun b => join_path (join_path (join_path d (chars "target")) (chars b)) PROXY_NAME)
                  <$> ["debug"%string; "release"%string]
    | None => []
    end ++ match env_which env with Ok (true, out) => [trim out] | _ => [] end)).
  { eapply finds_ask; [intros w; apply (Henv w)|].
    assert (C : finds find_in_cargo (Err not_found) (match env_var env (chars "CARGO_MANIFEST_DIR") with
      | Some d => (fun b => join_path (join_path (join_path d (chars "target")) (chars b)) PROXY_NAME)
                    <$> ["debug"%string; "release"%string]
      | None => [] end ++ match env_which env with Ok (true, out) => [trim out] | _ => [] end)).
    { eapply finds_ask; [intros w; apply (Henv w)|]. destruct (env_var env _); [|exact P].
      by do 2 apply finds_exists. }
    destruct (env_var env (chars "TAP_TUNNEL_PROXY")); [by apply finds_exists|exact C]. }
  destruct (env_exe env) as [exe|e]; [|exact E].
  destruct (parent exe) as [d|]; [|exact E]. apply finds_exists.
  destruct (parent d); [by apply finds_exists|exact E].
Qed.

End Find.

(** ** Properties *)

(** C21: Connecting keeps its descriptors.  Against every kernel, no call is made on a
    closed descriptor; when the tunnel is up the process has gained exactly one
    descriptor, its end of the socket pair, closed on exec and non-blocking, and the proxy
    runs with the number of the other end among its arguments, having inherited that
    descriptor and what was inheritable before, not the library's end.  After an error or
    a panic the descriptors are those before the call; a proxy that was started is then
    still there, neither killed nor handed to anyone. *)
Theorem connect_descriptors `{PosixLaws} {SH : Serde ClientHello} {SP : Serde ProxyConfig}
  (p : profile) (process_id pid : Z) (config : TapConfig) (sched : list tick) (w : World) :
  let r := run (connect_with_config_blocking p process_id pid config sched) w in
  safe (connect_with_config_blocking p process_id pid config sched) w /\
  connect_leaves pid config (pv w) (fst r) (pv (snd r)).
Proof. intros r. subst r. apply run_wp, connect_wp. Qed.

(** Connecting to a listening proxy: no call on a closed descriptor, one descriptor
    gained (closed on exec) when the tunnel is up and none otherwise, no child. *)
Theorem connect_to_descriptors `{PosixLaws} {SH : Serde ClientHello} {SP : Serde ProxyConfig}
  (p : profile) (process_id : Z) (path : text) (local_ip : option IpAddr) (w : World) :
  let r := run (connect_to_blocking p process_id path local_ip) w in
  safe (connect_to_blocking p process_id path local_ip) w /\ kids (pv (snd r)) = kids (pv w) /\
  match fst r with
  | Connected (Ok t) => holds (t_stream t) (pv w) (pv (snd r))
  | StillWaiting => False
  | _ => fds (pv (snd r)) = fds (pv w)
  end.
Proof.
  intros r. subst r. destruct (run_wp _ w _ (connect_to_wp p process_id path local_ip (pv w))) as (H1 & [H2 _] & H3).
  split_and!; [done..|]. destruct (fst (run _ w)) as [| |[t|e]]; try done. apply H3.
Qed.

(** [Path::parent] and [Path::join] on the cases that differ. *)
Example parent_ex :
  parent (chars "/opt/app/bin/app") = Some (chars "/opt/app/bin") /\
  parent (chars "/opt//bin/./app/") = Some (chars "/opt//bin") /\
  parent (chars "/app") = Some (chars "/") /\ parent (chars "/") = None /\ parent (chars "//") = None /\
  parent (chars "app") = Some [] /\ parent (chars "./app") = Some (chars ".") /\ parent [] = None /\
  join_path (chars "/") (chars "app") = chars "/app" /\ join_path [] (chars "app") = chars "app" /\
  join_path (chars "/opt") (chars "app") = chars "/opt/app".
Proof. vm_compute. auto 20. Qed.

(** ** Witnesses: the properties at concrete inputs, on the reference instances *)

#[local] Existing Instances hello_serde config_serde ReferenceOs.os ReferenceOs.os_laws.

Definition empty_view : pview :=
  PView {[0 := (false, 0%nat); 1 := (false, 1%nat); 2 := (false, 2%nat)]} 3 ∅ ∅ ∅ ∅ [] [].

(** A world in which the binary is beside the executable and the proxy hangs up at once. *)
Definition hangup_world : World :=
  ReferenceOs.MkWorld empty_view [] (RStream [] Eof, WStream [] [])
    [chars "/opt/app/bin/tap-tunnel-proxy"].

Definition one_tick : list tick := [Tick true false (Ok None)].

Lemma connect_descriptors_witness :
  let r := run (connect_with_config_blocking Debug 77 1234 tap_config_default one_tick) hangup_world in
  fst r = Connected (Err (unexpected_eof "proxy closed connection during handshake")) /\
  fds (pv (snd r)) = fds empty_view /\
  exists stream child, started 1234 tap_config_default empty_view (pv (snd r)) stream child.
Proof.
  intros r. destruct (connect_descriptors Debug 77 1234 tap_config_default one_tick hangup_world) as [_ [_ H]].
  fold r in H. assert (E : fst r = Connected (Err (unexpected_eof "proxy closed connection during handshake")))
    by (vm_compute; reflexivity).
  rewrite E in H. destruct H as [H1 [H2|H2]]; [vm_compute in H2; discriminate H2|]. done.
Defined.

(** The proxy's answer to the hello, for a TAP interface at 10.0.0.1/24. *)
Definition demo_proxy_config : ProxyConfig :=
  {| pc_tap_ip := V4 [# x0a; x00; x00; x01]; pc_tap_mac := [# x02; x00; x00; x00; x00; x07];
     pc_prefix_len := 24; pc_mtu := 1500 |}.
Definition demo_answer : bytes :=
  match encode_control demo_proxy_config with Ok m => frame_msg m | Err _ => [] end.
Definition answering_world : World :=
  ReferenceOs.MkWorld empty_view [] (RStream [demo_answer] Eof, WStream [] []) [].

Lemma connect_to_descriptors_witness :
  let r := run (connect_to_blocking Debug 77 (chars "/run/tap.sock") None) answering_world in
  exists t, fst r = Connected (Ok t) /\ t_local_addr t = (V4 [# x0a; x00; x00; x02], 24) /\
    holds (t_stream t) empty_view (pv (snd r)).
Proof.
  intros r.
  destruct (connect_to_descriptors Debug 77 (chars "/run/tap.sock") None answering_world) as (_ & _ & H).
  fold r in H. destruct (fst r) as [| |[t|e]] eqn:E; try (vm_compute in E; discriminate E).
  exists t. split_and!; [done| |exact H]. vm_compute in E. injection E as <-. reflexivity.
Defined.

(** An environment that answers from a table. *)
Definition demo_env : environment := MkEnv (Ok (chars "/opt/app/bin/app")) (fun _ => None)
  (fun p => Ok (bool_decide (p = chars "/opt/app/tap-tunnel-proxy"))) (Ok (false, [])).

Definition env_answer {X} (e : sysE X) (v : pview) : X * pview :=
  match e in sysE X return X * pview -> X * pview with
  | SysCurrentExe => fun _ => (env_exe demo_env, v)
  | SysVar n => fun _ => (env_var demo_env n, v)
  | SysTryExists p => fun _ => (env_exists demo_env p, v)
  | SysOutput _ _ => fun _ => (env_which demo_env, v)
  | _ => fun d => d
  end (let '(x, w) := ReferenceOs.ref_answer e (ReferenceOs.MkWorld v [] (RStream [] Eof, WStream [] []) [])
       in (x, ReferenceOs.rv w)).

Definition env_os : Posix := {| World := pview; pv := fun v => v; answer := @env_answer |}.

Lemma find_proxy_binary_first_witness :
  fst (@run env_os _ find_proxy_binary empty_view) =
    Ok (chars "/opt/app/tap-tunnel-proxy").
Proof.
  rewrite (@find_proxy_binary_first env_os demo_env); [vm_compute; reflexivity|].
  intros w. split_and!; reflexivity.
Defined.
