(* ===== verification/Examples.v ===== *)
(** * The example programs ([examples/tcp_echo.rs], [examples/udp_echo.rs])

    Two clients of the tunnel: each connects to the namespace of a process, opens a socket,
    and then sends the lines of its standard input and shows what the other side sends,
    whichever comes first ([tokio::select!]).  tokio's [BufReader] over the standard input
    is modelled as its source: what each of its reads finds. *)

From Stdlib Require Import Ascii.
From S2P Require Import Prelude Net Stream Text IpText Utf8 Protocol Sys Externals Stack StackPoll StackData.
From S2P Require Import Socket Tunnel Handshake Cli Connect.
#[local] Open Scope Z_scope.

(** ** Arguments *)

(** [read_socket_addr] of the standard library's parser, and [str::parse::<SocketAddr>]. *)
Definition read_port (s : text) : option (Z * text) :=
  r ← read_given_char ":" s; read_number 10 (length r) true 16 r.

Definition read_socket_addr_v4 (s : text) : option (SocketAddr * text) :=
  match read_ipv4_addr s with
  | None => None
  | Some (ip, r) =>
      match read_port r with
      | None => None
      | Some (port, r') => Some (SockV4 (array_of 4 ip) port, r')
      end
  end.

Definition read_scope_id (s : text) : option (Z * text) :=
  r ← read_given_char "%" s; read_number 10 (length r) true 32 r.

Definition read_socket_addr_v6 (s : text) : option (SocketAddr * text) :=
  match (r ← read_given_char "[" s; read_ipv6_addr r) with
  | None => None
  | Some (ip, r) =>
      let '(scope_id, r1) := default (0, r) (read_scope_id r) in
      match (r2 ← read_given_char "]" r1; read_port r2) with
      | None => None
      | Some (port, r3) => Some (SockV6 (array_of 16 ip) port 0 scope_id, r3)
      end
  end.

Definition parse_socket_addr (s : text) : option SocketAddr :=
  match (match read_socket_addr_v4 s with Some x => Some x | None => read_socket_addr_v6 s end) with
  | Some (a, []) => Some a
  | _ => None
  end.

(** [Display] of socket addresses. *)
Definition print_socket_addr (a : SocketAddr) : text :=
  match a with
  | SockV4 ip port => print_v4 (vec_to_list ip) ++ chars ":" ++ print_uint port
  | SockV6 ip port _ scope_id =>
      chars "[" ++ print_v6 (vec_to_list ip) ++
      (if decide (scope_id = 0) then [] else chars "%" ++ print_uint scope_id) ++ chars "]:" ++ print_uint port
  end.

(** What [main] makes of its arguments; [args\[0\]] is out of range when there are none. *)
Inductive arguments :=
| Usage (message : text)
| Refused (message : text)
| Start (pid : Z) (target_addr : SocketAddr).

Definition parse_args (default_addr : text) (args : list text) : outcome arguments :=
  if decide (length args < 2 \/ 3 < length args)%nat then
    match args with
    | [] => Panic
    | program :: _ => Ret (Usage (chars "Usage: " ++ program ++ chars " <PID> [host:port]"))
    end
  else
    match parse_uint 32 (default [] (args !! 1%nat)) with
    | None => Ret (Refused (chars "Invalid PID"))
    | Some pid =>
        match parse_socket_addr (default default_addr (args !! 2%nat)) with
        | None => Ret (Refused (chars "invalid socket address syntax"))
        | Some target_addr => Ret (Start pid target_addr)
        end
    end.

(** The configuration both use. *)
Definition example_config : TapConfig :=
  with_local_addr (V4 [# x0a; x00; x00; x02]) 24
    (with_peer_addr (V4 [# x0a; x00; x00; x01]) 24 (with_interface_name "tap0" tap_config_default)).

(** ** Up to the loop *)

Section Startup.
Context `{!Smoltcp, !Serde ClientHello, !Serde ProxyConfig}.

Inductive startup :=
| Exits (code : Z) (stderr : text)
| Fails (message : text)
| FailsIo (e : io_error)
| StartPanics
| StartWaits
| Opens (tunnel : Connect.Tunnel) (c : call) (target_addr : SocketAddr).

(** [opening] is the call that opens the socket, on the target address. *)
Definition example_startup (default_addr : text) (opening : SocketAddr -> call) (p : profile) (process_id : Z)
    (args : list text) (sched : list tick) : prog startup :=
  match parse_args default_addr args with
  | Panic => Return StartPanics
  | Ret (Usage message) => Return (Exits 1 message)
  | Ret (Refused message) => Return (Fails message)
  | Ret (Start pid target_addr) =>
      connected ← connect_with_config p process_id pid example_config sched;
      Return match connected with
             | StillWaiting => StartWaits
             | Panicked => StartPanics
             | Connected (Err e) => FailsIo e
             | Connected (Ok tunnel) => Opens tunnel (opening target_addr) target_addr
             end
  end.

Definition tcp_echo_startup := example_startup (chars "10.0.0.1:8080") CallTcpConnect.

Definition local_bind : SocketAddr := SockV4 [# x0a; x00; x00; x02] 0.
Definition udp_echo_startup := example_startup (chars "10.0.0.1:5000") (fun _ => CallUdpBind local_bind).

End Startup.

(** ** Standard input *)

(** What a read of the source finds: octets, nothing yet, or an error; after the last of
    them, the end of the input (as does a read of no octets). *)
Inductive read_event := Chunk (b : bytes) | NotYet | ReadFailed (e : io_error).

Record buf_reader := MkBufReader { br_buf : bytes; br_source : list read_event }.

(** Up to and including the first newline, and the rest. *)
Fixpoint split_line (b : bytes) : option (bytes * bytes) :=
  match b with
  | [] => None
  | x :: r =>
      if decide (x = x0a) then Some ([x], r)
      else match split_line r with Some (l, r') => Some (x :: l, r') | None => None end
  end.

(** [read_until] when the buffer is empty; [line] is what it has read before. *)
Fixpoint read_until_newline (line : bytes) (source : list read_event)
  : poll (result bytes) * bytes * buf_reader :=
  match source with
  | [] => (Ready (Ok line), [], MkBufReader [] [])
  | NotYet :: source' => (Pending, line, MkBufReader [] source')
  | ReadFailed e :: source' => (Ready (Err e), line, MkBufReader [] source')
  | Chunk [] :: source' => (Ready (Ok line), [], MkBufReader [] source')
  | Chunk b :: source' =>
      match split_line b with
      | Some (l, r) => (Ready (Ok (line ++ l)), [], MkBufReader r source')
      | None => read_until_newline (line ++ b) source'
      end
  end.

(** A poll of the future of [stdin.read_line], which holds what it has read in [line]: the
    octets of the line, or what it holds on. *)
Definition poll_read_line (line : bytes) (s : buf_reader) : poll (result bytes) * bytes * buf_reader :=
  match br_buf s with
  | [] => read_until_newline line (br_source s)
  | b =>
      match split_line b with
      | Some (l, r) => (Ready (Ok (line ++ l)), [], MkBufReader r (br_source s))
      | None => read_until_newline (line ++ b) (br_source s)
      end
  end.

(** ** The loop *)

Definition octets_of (t : text) : bytes := byte_of_ascii <$> t.

(** What happens in the loop: a line was read and is to be sent, was sent, octets read from
    the input were given up, and something was printed. *)
Inductive echo_event := Typed (line : bytes) | Delivered (line : bytes) | Lost (octets : bytes) | Shown (out : bytes).

Inductive echo_status := Running | Finished (r : result unit).

(** The branch that [select!] polls first, which it chooses at random. *)
Inductive first_branch := StdinFirst | PeerFirst.

(** [poll_send] sends a line; [poll_recv] gives what to print, or [None] to leave the loop. *)
Section Loop.
Context {St : Type} (poll_send : bytes -> St -> poll (result unit) * St)
  (poll_recv : St -> poll (option bytes) * St).

(** [e_line] is what the future of [read_line] holds while it waits; [e_writing] is the line
    that is being sent. *)
Record echo := MkEcho { e_stdin : buf_reader; e_line : bytes; e_peer : St; e_writing : option bytes }.

Definition poll_write_line (line : bytes) (e : echo) : echo_status * list echo_event * echo :=
  match poll_send line (e_peer e) with
  | (Ready (Ok _), st) => (Running, [Delivered line], MkEcho (e_stdin e) [] st None)
  | (Ready (Err x), st) => (Finished (Err x), [], MkEcho (e_stdin e) [] st None)
  | (Pending, st) => (Running, [], MkEcho (e_stdin e) [] st (Some line))
  end.

(** The two branches, [None] when they are not ready. *)
Definition stdin_branch (e : echo) : option (echo_status * list echo_event) * echo :=
  match poll_read_line (e_line e) (e_stdin e) with
  | (Pending, line, s) => (None, MkEcho s line (e_peer e) None)
  | (Ready (Ok []), _, s) => (Some (Finished (Ok ()), []), MkEcho s [] (e_peer e) None)
  | (Ready (Ok line), _, s) =>
      if valid_utf8 line then
        let '(status, events, e') := poll_write_line line (MkEcho s [] (e_peer e) None) in
        (Some (status, Typed line :: events), e')
      else (Some (Finished (Ok ()), [Lost line]), MkEcho s [] (e_peer e) None)
  | (Ready (Err _), line, s) => (Some (Finished (Ok ()), [Lost line]), MkEcho s [] (e_peer e) None)
  end.

(** When the other branch is taken the future of [read_line] is dropped with what it holds,
    and the next turn starts a new one. *)
Definition peer_branch (e : echo) : option (echo_status * list echo_event) * echo :=
  match poll_recv (e_peer e) with
  | (Pending, st) => (None, MkEcho (e_stdin e) (e_line e) st None)
  | (Ready (Some out), st) => (Some (Running, [Lost (e_line e); Shown out]), MkEcho (e_stdin e) [] st None)
  | (Ready None, st) => (Some (Finished (Ok ()), [Lost (e_line e)]), MkEcho (e_stdin e) [] st None)
  end.

Definition either_branch (b1 b2 : echo -> option (echo_status * list echo_event) * echo) (e : echo)
  : echo_status * list echo_event * echo :=
  match b1 e with
  | (Some x, e1) => (x, e1)
  | (None, e1) => match b2 e1 with (Some x, e2) => (x, e2) | (None, e2) => (Running, [], e2) end
  end.

(** A poll of [main] in its loop. *)
Definition echo_poll (first : first_branch) (e : echo) : echo_status * list echo_event * echo :=
  match e_writing e with
  | Some line => poll_write_line line e
  | None =>
      match first with
      | StdinFirst => either_branch stdin_branch peer_branch e
      | PeerFirst => either_branch peer_branch stdin_branch e
      end
  end.

(** Polls, until the loop is left; between them the stack task changes the channels. *)
Fixpoint echo_run (turns : list (first_branch * (St -> St))) (e : echo)
  : echo_status * list echo_event * echo :=
  match turns with
  | [] => (Running, [], e)
  | (first, env) :: turns' =>
      match echo_poll first (MkEcho (e_stdin e) (e_line e) (env (e_peer e)) (e_writing e)) with
      | (Running, events, e') => let '(status, events', e'') := echo_run turns' e' in (status, events ++ events', e'')
      | (Finished r, events, e') => (Finished r, events, e')
      end
  end.

End Loop.
Arguments echo St : clear implicits.

Section Programs.
Context {M : Mpsc}.

(** [tcp_echo]: the write channel, the stream's buffer and its read channel. *)
Definition tcp_peer : Type := chan bytes * (bytes * chan bytes).

Definition tcp_poll_send (line : bytes) (st : tcp_peer) : poll (result unit) * tcp_peer :=
  let '(r, _, tx) := stream_write_all line (fst st) in (r, (tx, snd st)).

Definition tcp_poll_recv (st : tcp_peer) : poll (option bytes) * tcp_peer :=
  let '(tx, (buf, rx)) := st in
  match stream_read 4096 buf rx with
  | (Pending, buf', rx') => (Pending, (tx, (buf', rx')))
  | (Ready (Ok []), buf', rx') => (Ready None, (tx, (buf', rx')))
  | (Ready (Ok d), buf', rx') =>
      (Ready (Some (octets_of (chars "Received: ") ++ from_utf8_lossy d)), (tx, (buf', rx')))
  | (Ready (Err _), buf', rx') => (Ready None, (tx, (buf', rx')))
  end.

Definition tcp_echo_run := echo_run tcp_poll_send tcp_poll_recv.

(** [udp_echo]: lines are sent to the target address without the white space at their end. *)
Definition udp_peer : Type := chan (bytes * SocketAddr) * chan (bytes * SocketAddr).

Definition udp_poll_send (target_addr : SocketAddr) (line : bytes) (st : udp_peer)
  : poll (result unit) * udp_peer :=
  let '(r, _, tx) := send_to (trim_end line) target_addr (fst st) in
  (match r with
   | Ready (Ok _) => Ready (Ok ())
   | Ready (Err e) => Ready (Err e)
   | Pending => Pending
   end, (tx, snd st)).

Definition udp_poll_recv (st : udp_peer) : poll (option bytes) * udp_peer :=
  match recv_from (Z.to_nat 65535) (snd st) with
  | (Pending, rx) => (Pending, (fst st, rx))
  | (Ready (Ok (d, from)), rx) =>
      (Ready (Some (octets_of (chars "Received from ") ++ octets_of (print_socket_addr from) ++
         octets_of (chars ": ") ++ from_utf8_lossy d ++ [x0a])), (fst st, rx))
  | (Ready (Err _), rx) => (Ready None, (fst st, rx))
  end.

Definition udp_echo_run (target_addr : SocketAddr) := echo_run (udp_poll_send target_addr) udp_poll_recv.

End Programs.
