(* ===== verification/ExamplesSpec.v ===== *)
(** * Correctness of the example programs

    Of what is typed, and of what is lost when the other side sends in the middle of a line. *)

From Stdlib Require Import Ascii.
From S2P Require Import Prelude Net Stream Text IpText Utf8 Protocol Sys Externals Stack StackPoll StackData.
From S2P Require Import Socket Tunnel Handshake Cli Connect Examples.
#[local] Open Scope Z_scope.

(** ** Arguments *)

(** A number is below the power of its radix that its digits count. *)
Lemma horner_bound radix ds :
  0 < radix -> Forall (in_radix radix) ds -> 0 <= horner radix 0 ds < radix ^ Z.of_nat (length ds).
Proof.
  intros Hr. induction ds as [|d ds IH] using rev_ind; [cbn; lia|].
  intros [H1 [H2 _]%Forall_cons_1]%Forall_app. unfold in_radix in H2. specialize (IH H1).
  rewrite horner_app, length_app, Nat.add_1_r, Nat2Z.inj_succ, Z.pow_succ_r by lia.
  unfold horner in *. cbn [foldl]. nia.
Qed.

Lemma read_number_all w n :
  fits w n -> read_number 10 (length (print_uint n)) true w (print_uint n) = Some (n, []).
Proof.
  intros Hn. rewrite <- (app_nil_r (print_uint n)) at 2. unfold print_uint.
  destruct (print_radix_spec 10 n ltac:(lia) ltac:(apply Hn)) as (ds & E & H1 & H2 & H3 & _).
  assert (Hl : length (print_radix 10 n) = length ds) by (by rewrite E, length_fmap).
  apply read_number_print; try done; rewrite Hl; [destruct ds; [done|cbn; lia]|].
  rewrite <- H2 at 1. by apply horner_bound.
Qed.

(** A socket address can be given the way it is printed. *)
Lemma parse_print_socket_addr ip port :
  fits 16 port -> parse_socket_addr (print_socket_addr (SockV4 ip port)) = Some (SockV4 ip port).
Proof.
  intros Hp. unfold parse_socket_addr, read_socket_addr_v4, print_socket_addr.
  rewrite read_ipv4_print by (rewrite ?length_vec_to_list; done).
  assert (E : read_port (chars ":" ++ print_uint port) = Some (port, [])).
  { unfold read_port. change (chars ":" ++ print_uint port) with (":"%char :: print_uint port).
    cbn [read_given_char]. rewrite decide_True by done. by apply read_number_all. }
  rewrite E. by rewrite array_of_array.
Qed.

(** The arguments of the examples: a PID and an IPv4 address are understood, the address may
    be left out, and with any other number of arguments the usage is shown. *)
Theorem parse_args_understood (program : text) (pid port : Z) (ip : array 4) (d : text) (default_addr : SocketAddr)
  (Hpid : fits 32 pid) (Hport : fits 16 port) (Hd : parse_socket_addr d = Some default_addr) :
  parse_args d [program; print_uint pid; print_socket_addr (SockV4 ip port)] = Ret (Start pid (SockV4 ip port)) /\
  parse_args d [program; print_uint pid] = Ret (Start pid default_addr) /\
  (forall args, (exists m, parse_args d args = Ret (Usage m)) <-> (length args = 1 \/ 3 < length args)%nat).
Proof.
  assert (Hp : parse_uint 32 (print_uint pid) = Some pid) by (by apply parse_print_uint).
  split_and!.
  - unfold parse_args. rewrite decide_False by (cbn; lia). cbn -[print_socket_addr parse_socket_addr print_uint parse_uint]. by rewrite Hp, parse_print_socket_addr.
  - unfold parse_args. rewrite decide_False by (cbn; lia). cbn -[print_socket_addr parse_socket_addr print_uint parse_uint]. by rewrite Hp, Hd.
  - intros args. unfold parse_args. case_decide as Hl.
    + destruct args as [|a args]; cbn in *; split; [by intros [m Hm]|lia|lia|eauto].
    + split; [|lia]. intros [m Hm]. by repeat case_match.
Qed.

(** The configuration of the examples gives the stack the address 10.0.0.2/24 with the
    namespace's side as its gateway, once the proxy answers with that configuration. *)
Theorem example_config_accepted (p : profile) (process_id pid mtu : Z) (tap_mac : array 6) :
  exists config, connect_pid_config p
      {| pc_tap_ip := V4 [# x0a; x00; x00; x01]; pc_tap_mac := tap_mac; pc_prefix_len := 24; pc_mtu := mtu |}
      pid example_config = Ret config /\
    stack_config process_id config = Ok {| cfg_mac := mac_from_id pid; cfg_ip := V4 [# x0a; x00; x00; x02];
      cfg_prefix_len := 24; cfg_gateway := V4 [# x0a; x00; x00; x01] |} /\
    validate_ip_in_subnet p (V4 [# x0a; x00; x00; x02]) (V4 [# x0a; x00; x00; x01]) 24 = Ret true.
Proof. eexists. split; [reflexivity|]. split; [reflexivity|]. by destruct p. Qed.

(** ** What is read of the input *)

Definition chunks (source : list read_event) : list bytes :=
  omap (fun r => match r with Chunk b => Some b | _ => None end) source.

(** All that is still to be read. *)
Definition input (s : buf_reader) : bytes := br_buf s ++ concat (chunks (br_source s)).

(** The input comes in whole lines, as from a terminal. *)
Definition ends_line (b : bytes) : Prop := b = [] \/ exists l, b = l ++ [x0a].
Definition whole_lines (s : buf_reader) : Prop := Forall ends_line (br_buf s :: chunks (br_source s)).

Lemma split_line_app b l r : split_line b = Some (l, r) -> b = l ++ r /\ l <> [].
Proof.
  revert l r. induction b as [|x b IH]; intros l r; cbn; [done|]. case_decide as E.
  - by intros [= <- <-].
  - destruct (split_line b) as [[l1 r1]|]; [|done]. intros [= <- <-]. by destruct (IH l1 r1 eq_refl) as [-> _].
Qed.

Lemma split_line_none b : split_line b = None -> x0a ∉ b.
Proof.
  induction b as [|x b IH]; cbn; [intros _; apply not_elem_of_nil|]. case_decide as E; [done|].
  destruct (split_line b) as [[]|]; [done|]. intros _. rewrite not_elem_of_cons. split; [congruence|auto].
Qed.

Lemma ends_line_split b l r : split_line b = Some (l, r) -> ends_line b -> ends_line r.
Proof.
  intros [-> _]%split_line_app [H|[l' H]]; [apply app_nil in H as [_ ->]; by left|].
  destruct r as [|x r _] using rev_ind; [by left|right]. rewrite app_assoc in H. apply app_inj_tail in H as [_ ->]. by exists r.
Qed.

Lemma ends_line_none b : split_line b = None -> ends_line b -> b = [].
Proof.
  intros Hs%split_line_none [->|[l ->]]; [done|]. exfalso. apply Hs, elem_of_app. right. constructor.
Qed.

(** Reading takes octets off the input, in order; of whole lines, whole lines. *)
Definition reads (line : bytes) (s : buf_reader) (x : poll (result bytes) * bytes * buf_reader) : Prop :=
  let '(r, held, s') := x in
  let got := match r with Ready (Ok l) => l | _ => held end in
  line ++ input s = got ++ input s' /\
  (whole_lines s -> line = [] -> whole_lines s' /\ match r with Ready (Ok _) => True | _ => held = [] end).

Lemma read_until_newline_reads line source : reads line (MkBufReader [] source) (read_until_newline line source).
Proof.
  revert line. induction source as [|ev source IH]; intros line; cbn [read_until_newline].
  { split; [done|]. by intros Hw _. }
  destruct ev as [b| |e].
  - destruct b as [|x b].
    { split; [done|]. intros Hw _. split; [|done]. apply Forall_cons_1 in Hw as [H1 [_ H2]%Forall_cons_1]. by constructor. }
    set (c := x :: b). assert (Hc : c <> []) by done. clearbody c. clear x b.
    destruct (split_line c) as [[l r]|] eqn:E.
    + pose proof (split_line_app _ _ _ E) as [Hb _]. split.
      * unfold input. cbn. rewrite Hb, <- !app_assoc. done.
      * intros Hw _. split; [|done]. apply Forall_cons_1 in Hw as [_ [H1 H2]%Forall_cons_1].
        constructor; [by eapply ends_line_split|done].
    + specialize (IH (line ++ c)). destruct (read_until_newline (line ++ c) source) as [[r held] s'].
      destruct IH as [H1 H2]. split.
      * rewrite <- H1. unfold input. cbn. by rewrite <- app_assoc.
      * intros Hw _. apply Forall_cons_1 in Hw as [_ [Hb _]%Forall_cons_1].
        by apply ends_line_none in Hb.
  - split; [done|]. by intros Hw ->.
  - split; [done|]. by intros Hw ->.
Qed.

Lemma poll_read_line_reads line s : reads line s (poll_read_line line s).
Proof.
  destruct s as [b source]. unfold poll_read_line. cbn [br_buf br_source].
  destruct b as [|x b]; [apply read_until_newline_reads|].
  set (c := x :: b). assert (Hc : c <> []) by done. clearbody c. clear x b.
  destruct (split_line c) as [[l r]|] eqn:E.
  - pose proof (split_line_app _ _ _ E) as [Hb _]. split.
    + unfold input. cbn. rewrite Hb, <- !app_assoc. done.
    + intros Hw _. split; [|done]. apply Forall_cons_1 in Hw as [H1 H2].
      constructor; [by eapply ends_line_split|done].
  - pose proof (read_until_newline_reads (line ++ c) source) as IH.
    destruct (read_until_newline (line ++ c) source) as [[r held] s']. destruct IH as [H1 H2]. split.
    + rewrite <- H1. unfold input. cbn. by rewrite <- app_assoc.
    + intros Hw _. apply Forall_cons_1 in Hw as [Hb _]. by apply ends_line_none in Hb.
Qed.

(** ** The loop *)

Definition typed (h : list echo_event) := omap (fun e => match e with Typed l => Some l | _ => None end) h.
Definition delivered (h : list echo_event) := omap (fun e => match e with Delivered l => Some l | _ => None end) h.
Definition lost (h : list echo_event) := omap (fun e => match e with Lost l => Some l | _ => None end) h.
(** What was taken off the input. *)
Definition taken_off (h : list echo_event) :=
  omap (fun e => match e with Typed l | Lost l => Some l | _ => None end) h.

Section LoopSpec.
Context {St : Type} (poll_send : bytes -> St -> poll (result unit) * St)
  (poll_recv : St -> poll (option bytes) * St).
(** What the socket has been given to send, which only sending changes. *)
Context {X : Type} (queue : St -> list X) (payload : bytes -> X).
Context (Hsend : forall line st, let '(r, st') := poll_send line st in
    queue st' = queue st ++ match r with Ready (Ok _) => [payload line] | _ => [] end)
  (Hrecv : forall st, queue (snd (poll_recv st)) = queue st).

(** The line that is being sent: in the loop the one that waits; when sending fails, that
    one is lost. *)
Definition unsent_ok (status : echo_status) (unsent : list bytes) (e : echo St) : Prop :=
  match status with
  | Running => unsent = option_list (e_writing e)
  | Finished (Ok _) => unsent = []
  | Finished (Err _) => exists l, unsent = [l]
  end.

Definition accounts (e : echo St) (x : echo_status * list echo_event * echo St) : Prop :=
  let '(status, ev, e') := x in
  (e_writing e' <> None -> e_line e' = []) /\
  e_line e ++ input (e_stdin e) = concat (taken_off ev) ++ e_line e' ++ input (e_stdin e') /\
  (exists unsent, option_list (e_writing e) ++ typed ev = delivered ev ++ unsent /\ unsent_ok status unsent e') /\
  (whole_lines (e_stdin e) -> e_line e = [] ->
   whole_lines (e_stdin e') /\ e_line e' = [] /\ (status = Running -> concat (lost ev) = [])).

Definition sends (e : echo St) (x : echo_status * list echo_event * echo St) : Prop :=
  let '(status, ev, e') := x in queue (e_peer e') = queue (e_peer e) ++ (payload <$> delivered ev).

Lemma accounts_trans e ev1 e1 st ev2 e2 :
  accounts e (Running, ev1, e1) -> accounts e1 (st, ev2, e2) -> accounts e (st, ev1 ++ ev2, e2).
Proof.
  intros (_ & A2 & (u1 & A3 & A3') & A4) (B1 & B2 & (u2 & B3 & B3') & B4). cbn in A3'. subst u1.
  unfold accounts, taken_off, typed, delivered, lost in *. rewrite !omap_app, !concat_app. split_and!; try done.
  - by rewrite A2, B2, <- app_assoc.
  - exists u2. by rewrite app_assoc, A3, <- !app_assoc, B3.
  - intros Hw Hl. destruct (A4 Hw Hl) as (W1 & L1 & N1). destruct (B4 W1 L1) as (W2 & L2 & N2).
    split_and!; try done. intros ->. by rewrite N1, N2.
Qed.

Lemma sends_trans e ev1 e1 st ev2 e2 :
  sends e (Running, ev1, e1) -> sends e1 (st, ev2, e2) -> sends e (st, ev1 ++ ev2, e2).
Proof. cbn. intros E1 E2. unfold delivered in *. by rewrite omap_app, fmap_app, E2, E1, app_assoc. Qed.

Lemma poll_write_line_ok line e :
  e_line e = [] ->
  let '(st, ev, e') := poll_write_line poll_send line e in
  accounts (MkEcho (e_stdin e) [] (e_peer e) (Some line)) (st, ev, e') /\ sends e (st, ev, e').
Proof.
  intros Hl. unfold poll_write_line. pose proof (Hsend line (e_peer e)) as Hq.
  destruct (poll_send line (e_peer e)) as [[[[]|x]|] st]; cbn; split; try exact Hq; split_and!; try done;
    eexists; (split; [reflexivity|]); cbn; eauto.
Qed.

(** A branch keeps the accounts, taken or not. *)
Definition branch_ok (b : echo St -> option (echo_status * list echo_event) * echo St) : Prop :=
  forall e, e_writing e = None ->
  match b e with
  | (Some x, e') => accounts e (x, e') /\ sends e (x, e')
  | (None, e') => accounts e (Running, [], e') /\ sends e (Running, [], e') /\ e_writing e' = None
  end.

Lemma stdin_branch_ok : branch_ok (stdin_branch poll_send).
Proof.
  intros e Hw. unfold stdin_branch. pose proof (poll_read_line_reads (e_line e) (e_stdin e)) as Hr.
  destruct (poll_read_line (e_line e) (e_stdin e)) as [[[[line|x]|] held] s]; destruct Hr as [H1 H2].
  - destruct line as [|b line].
    { cbn in *. rewrite Hw. split; [split_and!; try done; [by exists []|naive_solver]|by rewrite app_nil_r]. }
    set (l := b :: line) in *. clearbody l.
    destruct (valid_utf8 l).
    + pose proof (poll_write_line_ok l (MkEcho s [] (e_peer e) None) eq_refl) as Hp.
      destruct (poll_write_line poll_send l (MkEcho s [] (e_peer e) None)) as [[st ev] e'].
      destruct Hp as [(P1 & P2 & (u & P3 & P3') & P4) Pq]. split; [|exact Pq]. cbn in *. rewrite Hw. split_and!; try done.
      * by rewrite H1, <- app_assoc, P2.
      * by exists u.
      * naive_solver.
    + cbn. rewrite Hw, !app_nil_r. split; [|done]. split_and!; try done; [by exists []|naive_solver].
  - cbn. rewrite Hw, !app_nil_r. split; [|done]. split_and!; try done; [by exists []|naive_solver].
  - cbn. rewrite Hw, !app_nil_r. split_and!; try done; [by exists []|naive_solver].
Qed.

Lemma peer_branch_ok : branch_ok (peer_branch poll_recv).
Proof.
  intros e Hw. unfold peer_branch. pose proof (Hrecv (e_peer e)) as Hq.
  destruct (poll_recv (e_peer e)) as [[[out|]|] st]; cbn in *; rewrite Hw, Hq, ?app_nil_r; split_and!; try done;
    try (by exists []); naive_solver.
Qed.

Lemma either_branch_ok b1 b2 e :
  branch_ok b1 -> branch_ok b2 -> e_writing e = None ->
  accounts e (either_branch b1 b2 e) /\ sends e (either_branch b1 b2 e).
Proof.
  intros B1 B2 Hw. unfold either_branch. specialize (B1 e Hw). destruct (b1 e) as [[[st ev]|] e1]; [done|].
  destruct B1 as (A1 & S1 & W1). specialize (B2 e1 W1). destruct (b2 e1) as [[[st ev]|] e2].
  - destruct B2 as [A2 S2]. split; [by eapply (accounts_trans e [])|by eapply (sends_trans e [])].
  - destruct B2 as (A2 & S2 & _). split; [by eapply (accounts_trans e [])|by eapply (sends_trans e [])].
Qed.

Lemma echo_poll_ok first e :
  (e_writing e <> None -> e_line e = []) ->
  accounts e (echo_poll poll_send poll_recv first e) /\ sends e (echo_poll poll_send poll_recv first e).
Proof.
  intros Hok. unfold echo_poll. destruct e as [s line peer [w|]].
  - cbn in Hok. specialize (Hok ltac:(done)). subst line. cbn [e_writing].
    pose proof (poll_write_line_ok w (MkEcho s [] peer (Some w)) eq_refl) as H.
    by destruct (poll_write_line poll_send w (MkEcho s [] peer (Some w))) as [[st ev] e'].
  - cbn [e_writing]. destruct first; apply either_branch_ok; auto using stdin_branch_ok, peer_branch_ok.
Qed.

Lemma echo_run_ok turns e :
  (e_writing e <> None -> e_line e = []) ->
  accounts e (echo_run poll_send poll_recv turns e) /\
  (Forall (fun t => forall st, queue (t.2 st) = queue st) turns -> sends e (echo_run poll_send poll_recv turns e)).
Proof.
  revert e. induction turns as [|[first env] turns IH]; intros e Hok; cbn [echo_run].
  { split; [|intros _; cbn; by rewrite app_nil_r]. split_and!; try done. exists (option_list (e_writing e)).
    by rewrite app_nil_r. }
  set (e0 := MkEcho (e_stdin e) (e_line e) (env (e_peer e)) (e_writing e)).
  destruct (echo_poll_ok first e0 Hok) as [Ha Hs].
  destruct (echo_poll poll_send poll_recv first e0) as [[[|r] ev] e1].
  - destruct (IH e1 ltac:(apply Ha)) as [IH1 IH2].
    destruct (echo_run poll_send poll_recv turns e1) as [[st ev'] e2]. split.
    + apply (accounts_trans e ev e1 st ev' e2); [exact Ha|exact IH1].
    + intros [Henv Hall]%Forall_cons_1. cbn in Henv. specialize (IH2 Hall).
      pose proof (sends_trans _ _ _ _ _ _ Hs IH2) as Ht. cbn in Ht. rewrite Henv in Ht. exact Ht.
  - split; [exact Ha|]. intros [Henv _]%Forall_cons_1. cbn in Henv, Hs. rewrite Henv in Hs. exact Hs.
Qed.

End LoopSpec.

Section Programs.
Context {M : Mpsc} {ML : MpscLaws}.

Lemma tcp_poll_send_queue line (st : tcp_peer) :
  let '(r, st') := tcp_poll_send line st in
  items (view (fst st')) = items (view (fst st)) ++ match r with Ready (Ok _) => [line] | _ => [] end.
Proof.
  unfold tcp_poll_send, stream_write_all, stream_write. pose proof (try_send_cases line (fst st)) as T.
  destruct (try_send line (fst st)) as [[] tx]; destruct T as [Hv _]; cbn; rewrite Hv, ?app_nil_r; done.
Qed.

Lemma tcp_poll_recv_queue (st : tcp_peer) : fst (snd (tcp_poll_recv st)) = fst st.
Proof. destruct st as [tx [buf rx]]. unfold tcp_poll_recv. by destruct (stream_read _ _ _) as [[[[[]|]|] ?] ?]. Qed.

Lemma udp_poll_send_queue target line (st : udp_peer) :
  let '(r, st') := udp_poll_send target line st in
  items (view (fst st')) = items (view (fst st)) ++
    match r with Ready (Ok _) => [(trim_end line, target)] | _ => [] end.
Proof.
  unfold udp_poll_send, send_to. pose proof (try_send_cases (trim_end line, target) (fst st)) as T.
  destruct (try_send (trim_end line, target) (fst st)) as [[] tx]; destruct T as [Hv _]; cbn; rewrite Hv, ?app_nil_r; done.
Qed.

Lemma udp_poll_recv_queue (st : udp_peer) : fst (snd (udp_poll_recv st)) = fst st.
Proof. unfold udp_poll_recv. by destruct (recv_from _ _) as [[[[? ?]|]|] ?]. Qed.

Lemma taken_off_typed ev : concat (lost ev) = [] -> concat (taken_off ev) = concat (typed ev).
Proof.
  induction ev as [|[l|l|l|l] ev IH]; intros Hl; try done; cbn in *; try (by apply IH).
  - f_equal. by apply IH.
  - apply app_nil in Hl as [-> Hl]. by apply IH.
Qed.

(** Both programs, on what one of their loops does. *)
Lemma echo_accounts {St} (s : buf_reader) (peer : St) status ev e :
  accounts (MkEcho s [] peer None) (status, ev, e) ->
  input s = concat (taken_off ev) ++ e_line e ++ input (e_stdin e) /\
  (exists unsent, typed ev = delivered ev ++ unsent /\ unsent_ok status unsent e) /\
  (whole_lines s -> status = Running -> input s = concat (typed ev) ++ input (e_stdin e)).
Proof.
  intros (_ & A2 & A3 & A4). cbn in *. split_and!; try done.
  intros Hw ->. destruct (A4 Hw eq_refl) as (_ & Hl & Hn). by rewrite A2, Hl, taken_off_typed by auto.
Qed.

(** ** Properties *)

(** C28: The TCP example, whatever its input comes as, whichever branch of the loop is polled
    first and whatever the stack does in between.  What it has read of its input is, in
    order, the lines it took to send and the octets it gave up, and what it holds of a line;
    the lines taken are sent in order and unchanged, but for one that waits for room or
    whose sending failed.  When the input comes in whole lines nothing is given up while the
    loop runs. *)
Theorem tcp_echo_accounting (turns : list (first_branch * (tcp_peer -> tcp_peer))) (s : buf_reader)
  (peer : tcp_peer) :
  let '(status, ev, e) := tcp_echo_run turns (MkEcho s [] peer None) in
  input s = concat (taken_off ev) ++ e_line e ++ input (e_stdin e) /\
  (exists unsent, typed ev = delivered ev ++ unsent /\ unsent_ok status unsent e) /\
  (whole_lines s -> status = Running -> input s = concat (typed ev) ++ input (e_stdin e)) /\
  (Forall (fun t => forall st, fst (t.2 st) = fst st) turns ->
   items (view (fst (e_peer e))) = items (view (fst peer)) ++ delivered ev).
Proof.
  destruct (echo_run_ok tcp_poll_send tcp_poll_recv (fun st => items (view (fst st))) id
    tcp_poll_send_queue (fun st => f_equal (fun c => items (view c)) (tcp_poll_recv_queue st)) turns
    (MkEcho s [] peer None) ltac:(done)) as [Ha Hs].
  unfold tcp_echo_run. destruct (echo_run _ _ _ _) as [[status ev] e].
  destruct (echo_accounts s peer status ev e Ha) as (H1 & H2 & H3). split_and!; try done.
  intros Henv. rewrite <- (list_fmap_id (delivered ev)). apply Hs.
  eapply Forall_impl; [|exact Henv]. intros t Ht st. cbn. by rewrite Ht.
Qed.

(** The UDP example keeps the same accounts; a line is sent as a datagram to the target
    address, without the white space at its end. *)
Theorem udp_echo_accounting (target : SocketAddr) (turns : list (first_branch * (udp_peer -> udp_peer)))
  (s : buf_reader) (peer : udp_peer) :
  let '(status, ev, e) := udp_echo_run target turns (MkEcho s [] peer None) in
  input s = concat (taken_off ev) ++ e_line e ++ input (e_stdin e) /\
  (exists unsent, typed ev = delivered ev ++ unsent /\ unsent_ok status unsent e) /\
  (whole_lines s -> status = Running -> input s = concat (typed ev) ++ input (e_stdin e)) /\
  (Forall (fun t => forall st, fst (t.2 st) = fst st) turns ->
   items (view (fst (e_peer e))) =
   items (view (fst peer)) ++ ((fun l => (trim_end l, target)) <$> delivered ev)).
Proof.
  destruct (echo_run_ok (udp_poll_send target) udp_poll_recv (fun st => items (view (fst st)))
    (fun l => (trim_end l, target)) (udp_poll_send_queue target)
    (fun st => f_equal (fun c => items (view c)) (udp_poll_recv_queue st)) turns
    (MkEcho s [] peer None) ltac:(done)) as [Ha Hs].
  unfold udp_echo_run. destruct (echo_run _ _ _ _) as [[status ev] e].
  destruct (echo_accounts s peer status ev e Ha) as (H1 & H2 & H3). split_and!; try done.
  intros Henv. apply Hs. eapply Forall_impl; [|exact Henv]. intros t Ht st. cbn. by rewrite Ht.
Qed.

End Programs.

(** ** The input that is lost *)

#[local] Existing Instances Reference.mpsc Reference.mpsc_laws.

Definition demo_chan (l : list bytes) : chan bytes := ChanView l 8 true true.
Definition server_sends (d : bytes) (st : tcp_peer) : tcp_peer :=
  (fst st, (fst (snd st), demo_chan (items (view (snd (snd st))) ++ [d]))).

(** The beginning of a line has been read from a pipe when the server's answer arrives: it
    is given up, and the rest of the line is sent alone. *)
Example tcp_echo_loses_input :
  let he := octets_of (chars "he") in
  let llo := octets_of (chars "llo") ++ [x0a] in
  let '(status, ev, e) := tcp_echo_run
    [(StdinFirst, fun st => st); (PeerFirst, server_sends (octets_of (chars "hi"))); (StdinFirst, fun st => st)]
    (MkEcho (MkBufReader [] [Chunk he; NotYet; Chunk llo; NotYet]) [] (demo_chan [], ([], demo_chan [])) None) in
  status = Running /\ ev = [Lost he; Shown (octets_of (chars "Received: hi")); Typed llo; Delivered llo] /\
  items (view (fst (e_peer e))) = [llo].
Proof. by vm_compute. Qed.

(** The same input from a terminal, in one piece: nothing is lost. *)
Definition demo_stdin : buf_reader := MkBufReader [] [Chunk (octets_of (chars "hello") ++ [x0a]); NotYet].
Definition demo_turns : list (first_branch * (tcp_peer -> tcp_peer)) :=
  [(StdinFirst, fun st => st); (PeerFirst, server_sends (octets_of (chars "hi")))].
Definition demo_tcp : tcp_peer := (demo_chan [], ([], demo_chan [])).

Lemma tcp_echo_accounting_witness :
  let e := snd (tcp_echo_run demo_turns (MkEcho demo_stdin [] demo_tcp None)) in
  input demo_stdin = octets_of (chars "hello") ++ [x0a] /\
  items (view (fst (e_peer e))) = [octets_of (chars "hello") ++ [x0a]] /\ e_line e = [].
Proof.
  pose proof (tcp_echo_accounting demo_turns demo_stdin demo_tcp) as H.
  assert (E : fst (tcp_echo_run demo_turns (MkEcho demo_stdin [] demo_tcp None)) =
    (Running, [Typed (octets_of (chars "hello") ++ [x0a]); Delivered (octets_of (chars "hello") ++ [x0a]);
       Lost []; Shown (octets_of (chars "Received: hi"))])) by (vm_compute; reflexivity).
  destruct (tcp_echo_run demo_turns (MkEcho demo_stdin [] demo_tcp None)) as [x e]. cbn [fst snd] in *. subst x.
  destruct H as (H1 & _ & H2 & H3). split; [reflexivity|]. split.
  - apply H3. repeat constructor.
  - assert (W : whole_lines demo_stdin).
    { constructor; [left; reflexivity|]. constructor; [|constructor]. right. exists (octets_of (chars "hello")). reflexivity. }
    specialize (H2 W eq_refl). rewrite H1 in H2. cbn in H2. repeat (injection H2 as H2).
    apply (f_equal length) in H2. rewrite length_app in H2. destruct (e_line e); [reflexivity|]. cbn in H2. lia.
Defined.
