(* ===== verification/ProxyMain.v ===== *)
(** * The proxy process ([proxy/src/main.rs])

    [main], [run], [run_socket_path_mode] and [run_proxy] as sequences of system calls: the
    namespaces are joined, the TAP interface created and configured, the handshake done,
    and the three relay tasks started on their descriptors.  What the tasks do is modelled
    in [Relay]; here the [select!] over their handles takes the outcome of the first. *)

From Stdlib Require Import Ascii.
From S2P Require Import Prelude Net Stream Text Sys SysFrame SysIpc TapSetup Protocol AsyncIo Externals Stack.
From S2P Require Import StackPoll StackData Socket ProcNet Relay AsyncFd Handshake IpText Cli SerdeRef.
#[local] Open Scope Z_scope.

Section Proxy.
Context {IN : Ipnet} {RT : Rtnetlink} {SH : Serde ClientHello} {SP : Serde ProxyConfig}.

(** ** [run_frame_relay] *)

(** Up to the tasks: the descriptors they hold. *)
Definition start_relay (tap ipc : Z) : prog (result (list Z)) :=
  let? tap_write_fd := dup_fd tap owning [ipc; tap] in
  let? tap_writer := async_fd_new tap_write_fd owning [tap; ipc] in
  Return (Ok [tap; tap_writer; ipc]).

(** [select!] over the handles: the one that completes first, with what its task returned
    or the error of joining it (a panic). *)
Definition relay_join (r : string + result unit) : result unit :=
  match r with inl e => Err (other e) | inr r => r end.

(** ** [run_proxy] *)

(** The gratuitous ARP message, length-prefixed, for an IPv4 address. *)
Definition write_announcement (tap_mac : array 6) (peer_addr : option (IpAddr * Z)) (w : wstream)
  : result unit * wstream :=
  match peer_addr with
  | Some (V4 ipv4, _) =>
      let msg := encode_frame (build_gratuitous_arp tap_mac ipv4 broadcast_mac) in
      match write_all (len_prefix msg) w with
      | (Err e, w1) => (Err e, w1)
      | (Ok _, w1) => write_all msg w1
      end
  | _ => (Ok (), w)
  end.

(** Up to the connection to rtnetlink, whose socket is returned. *)
Definition open_proxy (frame_fd tap_fd : Z) (tap_mac : array 6) (config : TapConfig) : prog (result Z) :=
  let? _ := perform (SysNonblocking frame_fd) owning [frame_fd; tap_fd] in
  let? _ := perform (SysRegister frame_fd) owning [frame_fd; tap_fd] in
  let? _ := perform (SysStream frame_fd (fun '(s, w) =>
      let '(r, w') := write_announcement tap_mac (peer_addr config) w in (r, (s, w'))))
    owning [frame_fd; tap_fd] in
  let? rt_conn := (r ← perform SysRtnetlink;
                   Return (map_err (fun e => other ("failed to create rtnetlink connection: " +:+ e)%string) r))
    owning [frame_fd; tap_fd] in
  Return (Ok rt_conn).

(** From the asynchronous TAP descriptor to the tasks. *)
Definition start_tap (frame_fd tap_fd : Z) : prog (result (list Z)) :=
  let? tap := async_fd_new tap_fd owning [frame_fd] in
  start_relay tap frame_fd.

(** The descriptors the relay tasks hold, and those of the task spawned for rtnetlink, which
    the runtime holds even after an error.  The routing tables [k] are threaded: the initial
    routes are added between the two. *)
Definition run_proxy (frame_fd tap_fd : Z) (tap_mac : array 6) (config : TapConfig) (k : Kernel)
  : prog (result (list Z) * list Z * Kernel) :=
  opened ← open_proxy frame_fd tap_fd tap_mac config;
  match opened with
  | Err e => Return (Err e, [], k)
  | Ok rt_conn =>
      let k' := add_initial_routes (interface_name config) (peer_routes config) k in
      started ← start_tap frame_fd tap_fd;
      Return (started, [rt_conn], k')
  end.

(** ** [run] *)

Definition handshake_io (config : TapConfig) (tap_mac : array 6)
  : rstream * wstream -> result unit * (rstream * wstream) :=
  fun '(s, w) => let '(r, s', w') := perform_handshake config tap_mac s w in (r, (s', w')).

(** Up to the runtime: the TAP descriptor, its MAC address, and the runtime's descriptors. *)
Definition prepare (frame_fd : Z) (config : TapConfig) : prog (result (Z * array 6 * list Z)) :=
  let? tap_fd := create_tap (interface_name config) owning [frame_fd] in
  let mtu_opt := if decide (mtu config <> 1500) then Some (mtu config) else None in
  let? tap_mac := configure_interface (interface_name config) (peer_addr config) mtu_opt
    owning [tap_fd; frame_fd] in
  let? _ := perform (SysStream frame_fd (handshake_io config tap_mac)) owning [tap_fd; frame_fd] in
  let? runtime := perform SysRuntime owning [tap_fd; frame_fd] in
  Return (Ok (tap_fd, tap_mac, runtime)).

(** [tasks] is what the first task to end returned.  At the end, and after an error, the
    runtime is dropped: its tasks go with what they hold, and its own descriptors. *)
Definition run_mode (tasks : string + result unit) (frame_fd : Z) (config : TapConfig) (k : Kernel)
  : prog (result unit * Kernel) :=
  prepared ← prepare frame_fd config;
  match prepared with
  | Err e => Return (Err e, k)
  | Ok (tap_fd, tap_mac, runtime) =>
      r ← run_proxy frame_fd tap_fd tap_mac config k;
      match r with
      | (Err e, spawned, k') => _ ← drop_fds (spawned ++ runtime); Return (Err e, k')
      | (Ok held, spawned, k') =>
          _ ← drop_fds (held ++ spawned ++ runtime); Return (relay_join tasks, k')
      end
  end.

Definition run_socket_path_mode (tasks : string + result unit) (socket_path : text) (config : TapConfig)
    (k : Kernel) : prog (result unit * Kernel) :=
  accepted ← (let? listener := create_stream_listener socket_path in
              let? frame_fd := accept_stream listener owning [listener] in
              _ ← drop_fds [listener];
              Return (Ok frame_fd));
  match accepted with
  | Err e => Return (Err e, k)
  | Ok frame_fd => run_mode tasks frame_fd config k
  end.

(** ** [main]: the exit status *)

Definition exit_status (r : result unit) : Z := match r with Ok _ => 0 | Err _ => 1 end.

Definition run_main (tasks : string + result unit) (args : Args) (k : Kernel) : prog (Z * Kernel) :=
  match main_mode args with
  | None => Return (1, k)
  | Some mode =>
      joined ← (match a_pid args with Some pid => join_namespace pid | None => Return (Ok ()) end);
      match joined with
      | Err _ => Return (1, k)
      | Ok _ =>
          let config := build_tap_config args in
          r ← (match mode with
               | FrameFd fd => run_mode tasks fd config k
               | SocketPath path => run_socket_path_mode tasks path config k
               end);
          let '(res, k') := r in Return (exit_status res, k')
      end
  end.

End Proxy.
