(* ===== verification/ProxySpec.v ===== *)
(** * Properties of the proxy process

    What the proxy leaves behind on every path: descriptors, the TAP interface and the
    namespaces it was created in. *)

From Stdlib Require Import Ascii.
From S2P Require Import Prelude Net Stream Text Sys SysFrame SysIpc TapSetup Protocol AsyncIo Externals Stack.
From S2P Require Import StackPoll StackData Socket ProcNet Relay AsyncFd Handshake IpText Cli SerdeRef ProxyMain.
#[local] Open Scope Z_scope.

(** Closing a list of descriptors. *)
Definition close_all (l : list Z) (v : pview) : pview :=
  foldl (fun v fd => set_fds (delete fd (fds v)) v) v l.

Lemma close_all_fds l v x : fds (close_all l v) !! x = if decide (x ∈ l) then None else fds v !! x.
Proof.
  unfold close_all. revert v. induction l as [|fd l IH]; intros v; cbn [foldl]; [done|].
  rewrite IH. cbn [fds set_fds]. destruct (decide (x = fd)) as [->|Hne].
  - rewrite lookup_delete_eq. rewrite (decide_True (P := fd ∈ fd :: l)) by set_solver. by case_decide.
  - rewrite lookup_delete_ne by done.
    destruct (decide (x ∈ l)); [rewrite decide_True by set_solver|rewrite decide_False by set_solver]; done.
Qed.

Lemma close_all_calm l v : calm v (close_all l v).
Proof.
  unfold close_all. revert v. induction l as [|fd l IH]; intros v; cbn [foldl]; [done|].
  etrans; [|apply IH]. done.
Qed.

Lemma close_all_next l v : next_file (close_all l v) = next_file v.
Proof. unfold close_all. revert v. induction l as [|fd l IH]; intros v; cbn [foldl]; [done|]. by rewrite IH. Qed.

Section Base.
Context (name : string) (fr : Z) (v : pview) (Hfr : is_Some (fds v !! fr)).

(** The process has gained the descriptors [o]; every TAP interface it created has the
    configured name and lies in the namespaces joined at the start. *)
Definition gained (o : gset Z) (v' : pview) : Prop :=
  frame o v v' /\ kids v' = kids v /\ joined v' = joined v /\ taps_from (tap_ifreq name) (joined v) v v'.

(** The connection is closed with all that was gained but [b]. *)
Definition left_with (b : gset Z) (v' : pview) : Prop :=
  frame b (set_fds (delete fr (fds v)) v) v' /\ kids v' = kids v /\ joined v' = joined v /\
  taps_from (tap_ifreq name) (joined v) v v'.

(** The end: everything that was gained and the connection itself are closed. *)
Definition ended (v' : pview) : Prop :=
  fds v' = delete fr (fds v) /\ kids v' = kids v /\ joined v' = joined v /\
  taps_from (tap_ifreq name) (joined v) v v'.

Lemma left_ended v' : left_with ∅ v' -> ended v'.
Proof. intros [F H]. split; [exact (frame_fds _ _ F)|done]. Qed.

Lemma gained_calm o o' v1 v2 : gained o v1 -> calm v1 v2 -> frame o' v v2 -> gained o' v2.
Proof.
  intros (_ & K & J & T) (K2 & J2 & T2) F2. split_and!; [done|congruence|congruence|].
  eapply taps_from_trans; [done|by apply taps_from_same].
Qed.

Lemma gained_open o v1 fd : gained o v1 -> fd = fr \/ fd ∈ o -> is_Some (fds v1 !! fd).
Proof. intros [F _] [->|Hin]; [by eapply frame_kept|by eapply frame_open]. Qed.

(** Dropping the connection and what was gained, but [b]. *)
Lemma drop_but b o l v1 (Q : unit -> pview -> Prop) :
  gained o v1 -> NoDup l -> b ⊆ o -> (forall x, x ∈ l <-> x = fr \/ x ∈ o ∖ b) ->
  (forall v', left_with b v' -> Q () v') -> wp (drop_fds l) v1 Q.
Proof.
  intros G Hn Hb Hl HQ. pose proof G as (F & K & J & T).
  apply wp_drop_fds; [done|apply List.Forall_forall; intros x Hx; eapply gained_open; [done|];
    apply list_elem_of_In, Hl in Hx; set_solver|].
  apply HQ. fold (close_all l v1). destruct (close_all_calm l v1) as (K' & J' & T').
  assert (Hfb : fr ∉ o) by (intros Hin; destruct (frame_owned _ _ _ F fr Hin) as [Hx _]; destruct Hfr; congruence).
  split_and!; [|congruence|congruence|eapply taps_from_trans; [done|by apply taps_from_same]].
  constructor; cbn [set_fds fds next_file tuns].
  - intros x Hx. rewrite close_all_fds. destruct (decide (x = fr)) as [->|Hne].
    + rewrite lookup_delete_eq, decide_True; [done|]. apply Hl. by left.
    + rewrite lookup_delete_ne by done. case_decide as Hin.
      * apply Hl in Hin as [?|Hin]; [done|]. symmetry. apply (frame_owned _ _ _ F). set_solver.
      * apply (frame_other _ _ _ F). intros Ho. apply Hin, Hl. set_solver.
  - intros x Hx. rewrite lookup_delete_ne by set_solver. rewrite close_all_fds, decide_False.
    + apply (frame_owned _ _ _ F). set_solver.
    + intros [->|Hin]%Hl; set_solver.
  - rewrite close_all_next. apply (frame_next _ _ _ F).
  - rewrite T'. apply (frame_tuns _ _ _ F).
Qed.

(** Dropping the connection and all that was gained. *)
Lemma drop_all o l v1 (Q : unit -> pview -> Prop) :
  gained o v1 -> NoDup l -> (forall x, x ∈ l <-> x = fr \/ x ∈ o) ->
  (forall v', ended v' -> Q () v') -> wp (drop_fds l) v1 Q.
Proof.
  intros G Hn Hl HQ. eapply (drop_but ∅ o l); [done|done|set_solver|set_solver|].
  intros v' H'. by apply HQ, left_ended.
Qed.

(** Dropping what was left. *)
Lemma drop_left l v1 (Q : unit -> pview -> Prop) :
  left_with (list_to_set l) v1 -> NoDup l -> (forall v', ended v' -> Q () v') -> wp (drop_fds l) v1 Q.
Proof.
  intros (F & K & J & T) Hn HQ. eapply wp_drop_owned; [exact F|done|done|].
  intros v' F' (K' & J' & T') _. apply HQ, left_ended.
  split_and!; [eapply frame_eq; [done|set_solver]|congruence|congruence|].
  eapply taps_from_trans; [done|by apply taps_from_same].
Qed.

(** A step on an open descriptor that changes nothing the specification speaks of. *)
Lemma gained_step {A B} b o l v1 (p : prog (result A)) (k : A -> prog (result B)) Q :
  gained o v1 -> NoDup l -> b ⊆ o -> (forall x, x ∈ l <-> x = fr \/ x ∈ o ∖ b) ->
  wp p v1 (fun _ v2 => calm v1 v2 /\ frame o v v2) ->
  (forall a v2, gained o v2 -> wp (k a) v2 Q) -> (forall e v', left_with b v' -> Q (Err e) v') ->
  wp (try_owning l p k) v1 Q.
Proof.
  intros G Hn Hb Hl Hp Hk HE. apply wp_try. eapply wp_mono; [|exact Hp]. intros r v2 [C F].
  assert (G2 : gained o v2) by by eapply gained_calm. destruct r as [a|e]; [by apply Hk|].
  eapply drop_but; eauto.
Qed.

Lemma fr_not_owned o v1 : gained o v1 -> fr ∉ o.
Proof. intros [F _] Hin. destruct (frame_owned _ _ _ F fr Hin) as [Hn _]. destruct Hfr. congruence. Qed.

End Base.

Ltac gained_call :=
  apply wp_perform; [cbn [usable]; first [exact I | eapply gained_open; [eassumption|eassumption|set_solver]]|];
  intros x v' H; cbn [allowed] in H.

Section Proxy.
Context {IN : Ipnet} {RT : Rtnetlink} {SH : Serde ClientHello} {SP : Serde ProxyConfig}.

Section Run.
Context (fr : Z) (v : pview) (Hfr : is_Some (fds v !! fr)) (config : TapConfig).
Let name := interface_name config.

Lemma prepare_wp :
  wp (prepare fr config) v (fun r v' =>
    match r with
    | Ok (tap, _, rt) => gained name v ({[tap]} ∪ list_to_set rt) v' /\ NoDup rt /\ tap ∉ rt
    | Err _ => ended name fr v v'
    end).
Proof.
  apply wp_try. eapply wp_mono; [|apply create_tap_wp]. intros [tap|e] v1 (K & J & H).
  2:{ destruct H as [F T].
      eapply (drop_all name fr v Hfr ∅ [fr]); [|apply NoDup_singleton|set_solver|done].
      split_and!; [done..|by apply taps_from_same]. }
  destruct H as (F & T & T'). assert (G : gained name v {[tap]} v1) by done.
  assert (Hne : fr ∉ ({[tap]} : gset Z)) by by eapply fr_not_owned.
  assert (ND : NoDup [tap; fr]) by (repeat constructor; set_solver).
  assert (Hl : forall x, x ∈ [tap; fr] <-> x = fr \/ x ∈ ({[tap]} : gset Z)) by set_solver.
  apply wp_try. eapply wp_mono; [|apply configure_interface_wp]. intros r v2 [C2 F2].
  assert (G2 : gained name v {[tap]} v2).
  { eapply gained_calm; [done|done|]. eapply frame_eq; [by eapply frame_trans|set_solver]. }
  destruct r as [mac|e]; [|by eapply (drop_all name fr v Hfr {[tap]} [tap; fr])].
  clear v1 K J T T' F G C2 F2. apply wp_try. gained_call. destruct H as [-> _].
  destruct x as [_|e]; [|by eapply (drop_all name fr v Hfr {[tap]} [tap; fr])].
  apply wp_try. gained_call.
  destruct x as [rt|e]; [|subst v'; by eapply (drop_all name fr v Hfr {[tap]} [tap; fr])].
  destruct (frame_opened rt {[tap]} v v2 v' (proj1 G2) H) as (F3 & C3 & Hn & Hd). rewrite Forall_forall in Hd. cbn.
  split_and!; [eapply gained_calm; [exact G2|done|]|done|].
  - eapply frame_eq; [exact F3|set_solver].
  - intros Hin%list_elem_of_In. specialize (Hd tap Hin). set_solver.
Qed.

(** From here on the descriptors [rt] of the runtime stay open whatever fails. *)
Section Tap.
Context (tap : Z) (rt : gset Z) (Htap : tap ∉ rt) (v1 : pview) (G1 : gained name v ({[tap]} ∪ rt) v1).

Let Hne : fr ∉ ({[tap]} ∪ rt : gset Z) := fr_not_owned name fr v Hfr _ v1 G1.

Lemma open_proxy_wp mac :
  wp (open_proxy fr tap mac config) v1 (fun r v' =>
    match r with
    | Ok nl => gained name v ({[tap]} ∪ ({[nl]} ∪ rt)) v' /\ nl <> tap /\ nl ∉ rt
    | Err _ => left_with name fr v rt v'
    end).
Proof.
  assert (ND : NoDup [fr; tap]) by (repeat constructor; set_solver).
  assert (Hl : forall x, x ∈ [fr; tap] <-> x = fr \/ x ∈ (({[tap]} ∪ rt) ∖ rt : gset Z)) by set_solver.
  assert (Hb : rt ⊆ {[tap]} ∪ rt) by set_solver.
  eapply (gained_step name fr v Hfr rt ({[tap]} ∪ rt)); [exact G1|done|done|done| | |done].
  { gained_call. unfold effect in H. assert (H' : calm v1 v' /\ frame ({[tap]} ∪ rt) v v'); [|exact H'].
    destruct (res_sum x); subst v'; [by split; [|apply G1]|]. split; [|apply frame_nonblock, G1].
    unfold set_nonblock. by destruct (fds v1 !! fr) as [[]|]. }
  intros _ v2 G2. eapply (gained_step name fr v Hfr rt ({[tap]} ∪ rt)); [exact G2|done|done|done| | |done].
  { gained_call. subst v'. split; [done|apply G2]. }
  intros _ v3 G3. eapply (gained_step name fr v Hfr rt ({[tap]} ∪ rt)); [exact G3|done|done|done| | |done].
  { gained_call. destruct H as [-> _]. split; [done|apply G3]. }
  intros _ v4 G4. apply wp_try, wp_bind. gained_call. destruct x as [e|nl]; cbn [wp map_err].
  { subst v'. by eapply (drop_but name fr v Hfr rt ({[tap]} ∪ rt)). }
  destruct (frame_opened [nl] _ v v4 v' (proj1 G4) H) as (F5 & C5 & _ & Hd). apply Forall_cons_1 in Hd as [Hd _].
  split_and!; [eapply gained_calm; [exact G4|done|]; eapply frame_eq; [exact F5|cbn; set_solver]|set_solver|set_solver].
Qed.

(** The three tasks hold the TAP descriptor, its duplicate and the connection. *)
Lemma start_tap_wp :
  wp (start_tap fr tap) v1 (fun r v' =>
    match r with
    | Ok held => exists o, gained name v (o ∪ rt) v' /\ o ## rt /\ NoDup held /\
                   (forall x, x ∈ held <-> x = fr \/ x ∈ o)
    | Err _ => left_with name fr v rt v'
    end).
Proof.
  apply wp_try. eapply wp_mono; [|apply (async_fd_new_wp ({[tap]} ∪ rt) v tap v1); [apply G1|set_solver]].
  intros r v2 [C2 H]. destruct r as [tap'|e].
  2:{ eapply (drop_but name fr v Hfr rt rt [fr]); [|apply NoDup_singleton|done|set_solver|done].
      eapply gained_calm; [exact G1|done|]. eapply frame_eq; [done|set_solver]. }
  destruct H as (-> & F2 & _). assert (G2 : gained name v ({[tap]} ∪ rt) v2) by by eapply gained_calm.
  apply wp_try. eapply wp_mono; [|apply (dup_fd_wp ({[tap]} ∪ rt) v tap v2); [done|set_solver]].
  intros r v3 [C3 H]. destruct r as [tapw|e].
  2:{ eapply (drop_but name fr v Hfr rt ({[tap]} ∪ rt) [fr; tap]); [by eapply gained_calm| |set_solver|set_solver|done].
      repeat constructor; set_solver. }
  destruct H as [Hw F3].
  assert (G3 : gained name v ({[tapw]} ∪ ({[tap]} ∪ rt)) v3) by by eapply gained_calm.
  pose proof (fr_not_owned name fr v Hfr _ v3 G3) as Hne3.
  apply wp_try. eapply wp_mono; [|apply (async_fd_new_wp ({[tapw]} ∪ ({[tap]} ∪ rt)) v tapw v3); [done|set_solver]].
  intros r v4 [C4 H]. destruct r as [tapw'|e].
  - destruct H as (-> & F4 & _). cbn. exists ({[tapw]} ∪ {[tap]}).
    split_and!; [eapply gained_calm; [exact G3|done|eapply frame_eq; [exact F4|set_solver]]|set_solver| |set_solver].
    repeat constructor; set_solver.
  - eapply (drop_but name fr v Hfr rt ({[tap]} ∪ rt) [tap; fr]);
      [eapply gained_calm; [exact G3|done|]|repeat constructor; set_solver|set_solver|set_solver|done].
    eapply frame_eq; [done|set_solver].
Qed.

End Tap.

(** [run] ends with everything closed, whatever fails and whatever the tasks return. *)
Lemma run_mode_wp tasks k :
  wp (run_mode tasks fr config k) v (fun _ v' => ended name fr v v').
Proof.
  apply wp_bind. eapply wp_mono; [|apply prepare_wp]. intros [[[tap mac] rt]|e] v1 H; [|exact H].
  destruct H as (G & Nrt & Htap). apply wp_bind, wp_bind.
  assert (Hrt : tap ∉ (list_to_set rt : gset Z)) by set_solver.
  eapply wp_mono; [|by apply (open_proxy_wp tap (list_to_set rt) Hrt v1)]. intros [nl|e] v2 H2.
  2:{ cbn [wp app]. apply wp_bind. by eapply (drop_left name fr v Hfr rt). }
  destruct H2 as (G2 & Hnl & Hnr). assert (Nbg : NoDup (nl :: rt)) by (constructor; [set_solver|done]).
  apply wp_bind. eapply wp_mono; [|apply (start_tap_wp tap ({[nl]} ∪ list_to_set rt)); [set_solver|exact G2]].
  intros [held|e] v3 H3; cbn [wp app]; apply wp_bind; [|by eapply (drop_left name fr v Hfr (nl :: rt))].
  destruct H3 as (o & G3 & Hd & ND & Hl). pose proof (fr_not_owned name fr v Hfr _ v3 G3) as Hf.
  eapply (drop_all name fr v Hfr (o ∪ ({[nl]} ∪ list_to_set rt))); [done| |set_solver|done].
  apply list.NoDup_app. split_and!; [done|set_solver|done].
Qed.

End Run.

(** ** Socket-path mode and [main] *)

Lemma frame_delete fd v v' : frame {[fd]} v v' -> delete fd (fds v') = fds v.
Proof.
  intros F. apply map_eq. intros x. destruct (decide (x = fd)) as [->|Hne].
  - rewrite lookup_delete_eq. symmetry. apply (frame_owned _ _ _ F). set_solver.
  - rewrite lookup_delete_ne by done. apply (frame_other _ _ _ F). set_solver.
Qed.

(** The process at its end: no descriptor was gained, and the TAP interfaces are the
    configured one. *)
Definition cleaned (name : string) (m : gmap Z (bool * nat)) (v v' : pview) : Prop :=
  fds v' = m /\ kids v' = kids v /\ joined v' = joined v /\ taps_from (tap_ifreq name) (joined v) v v'.

Lemma run_socket_path_mode_wp tasks path config k v :
  wp (run_socket_path_mode tasks path config k) v
    (fun _ v' => cleaned (interface_name config) (fds v) v v').
Proof.
  assert (X : forall v', calm v v' -> frame ∅ v v' -> cleaned (interface_name config) (fds v) v v').
  { intros v' (K & J & T) F. split_and!; [by apply frame_fds|done|done|by apply taps_from_same]. }
  apply wp_bind, wp_try. eapply wp_mono; [|apply create_stream_listener_wp].
  intros [l|e] v1 [C1 H1]; [|by apply X]. destruct H1 as [F1 _].
  apply wp_try. eapply wp_mono; [|apply accept_stream_wp; eapply frame_open; [exact F1|set_solver]].
  intros [fr|e] v2 [C2 H2].
  2:{ eapply wp_drop_owned; [eapply frame_trans; [exact F1|exact H2]|apply NoDup_singleton|set_solver|].
      intros v3 F3 C3 _. apply X; [by do 2 (etrans; [done|])|]. eapply frame_eq; [done|owned_set]. }
  destruct H2 as [F2 _].
  assert (Hne : l <> fr).
  { intros <-. destruct (frame_owned _ _ _ F2 l) as [Hn _]; [set_solver|].
    destruct (frame_open _ _ _ l F1) as [y Hy]; [set_solver|congruence]. }
  apply wp_bind. eapply wp_drop_owned; [eapply frame_trans; [exact F1|exact F2]|apply NoDup_singleton|set_solver|].
  intros v3 F3 C3 _. cbn [wp].
  assert (F4 : frame {[fr]} v v3) by (eapply frame_eq; [done|owned_set]).
  assert (C4 : calm v v3) by (etrans; [exact C1|etrans; [exact C2|exact C3]]).
  eapply wp_mono; [|apply run_mode_wp; eapply frame_open; [exact F4|set_solver]].
  intros _ v4 (E & K & J & T). destruct C4 as (K4 & J4 & T4). rewrite J4 in T.
  split_and!; [by rewrite E, (frame_delete _ _ _ F4)|congruence|congruence|].
  eapply taps_from_trans; [by apply taps_from_same|done].
Qed.

(** The namespaces [main] joins, and the descriptors that are open at its end. *)
Definition target_ns (args : Args) : list namespace :=
  match a_pid args with Some pid => [user_ns pid; net_ns pid] | None => [] end.
Definition final_fds (mode : proxy_mode) (v : pview) : gmap Z (bool * nat) :=
  match mode with FrameFd fd => delete fd (fds v) | SocketPath _ => fds v end.

(** Either the namespaces were joined, and [run] came to its end; or joining them failed. *)
Lemma run_main_wp tasks args k mode v :
  main_mode args = Some mode -> (forall fd, mode = FrameFd fd -> is_Some (fds v !! fd)) ->
  wp (run_main tasks args k) v (fun '(status, _) v' => kids v' = kids v /\
    if decide (joined v' = joined v ++ target_ns args) then
      fds v' = final_fds mode v /\
      taps_from (tap_ifreq (interface_name (build_tap_config args))) (joined v ++ target_ns args) v v'
    else status = 1 /\ fds v' = fds v /\ tuns v' = tuns v).
Proof.
  intros Hmode Hfd. unfold run_main. rewrite Hmode.
  assert (W : wp (match a_pid args with Some pid => join_namespace pid | None => Return (Ok ()) end) v
    (fun r v' => frame ∅ v v' /\ kids v' = kids v /\ tuns v' = tuns v /\
       match r with
       | Ok _ => joined v' = joined v ++ target_ns args
       | Err _ => joined v' <> joined v ++ target_ns args
       end)).
  { unfold target_ns. destruct (a_pid args) as [pid|].
    - eapply wp_mono; [|apply join_namespace_wp]. intros [] v' (F & K & T & J); split_and!; try done.
      destruct J as [->| ->]; intros E; apply (f_equal length) in E; rewrite !length_app in E; cbn in E; lia.
    - cbn. rewrite app_nil_r. split_and!; [apply frame_refl|done..]. }
  apply wp_bind. eapply wp_mono; [|exact W]. intros [u|e] v1 (F & K & T & J).
  2:{ cbn. split; [done|]. rewrite decide_False by done. split_and!; [done|by apply frame_fds|done]. }
  assert (Hr : forall m v2 status, cleaned (interface_name (build_tap_config args)) m v1 v2 -> m = final_fds mode v ->
    kids v2 = kids v /\ if decide (joined v2 = joined v ++ target_ns args) then
      fds v2 = final_fds mode v /\
      taps_from (tap_ifreq (interface_name (build_tap_config args))) (joined v ++ target_ns args) v v2
    else status = 1 /\ fds v2 = fds v /\ tuns v2 = tuns v).
  { intros m v2 status (E & K2 & J2 & T2) ->. rewrite J in T2. rewrite decide_True by congruence.
    split_and!; [congruence|done|]. eapply taps_from_trans; [by apply taps_from_same|done]. }
  apply wp_bind. destruct mode as [fd|path].
  - eapply wp_mono; [|apply run_mode_wp; eapply frame_kept; [exact F|by apply Hfd]].
    intros [res k'] v2 E. cbn. apply (Hr _ v2 _ E). cbn. by rewrite (frame_fds _ _ F).
  - eapply wp_mono; [|apply run_socket_path_mode_wp].
    intros [res k'] v2 E. cbn. apply (Hr _ v2 _ E). cbn. by rewrite (frame_fds _ _ F).
Qed.

(** ** Properties *)

(** C22: The proxy cleans up.  Against every kernel and on every path through [main], [run]
    and [run_socket_path_mode], no call is made on a descriptor that is not open, and no
    child is left.  Once the target's namespaces are joined (at once, without [--pid]),
    whatever succeeds or fails from there on, every descriptor the process opened is closed
    exactly once at its end (those of the runtime and of its tasks included), and so is the
    connection it inherited.  When joining them fails the process exits with status 1, having
    opened nothing that is not closed again; the inherited connection, which it has not
    taken over yet, is then left to the end of the process. *)
Theorem proxy_cleans_up `{PosixLaws} (tasks : string + result unit) (args : Args) (k : Kernel)
  (mode : proxy_mode) (w : World) (Hmode : main_mode args = Some mode)
  (Hopen : forall fd, mode = FrameFd fd -> is_Some (fds (pv w) !! fd)) :
  let r := run (run_main tasks args k) w in
  safe (run_main tasks args k) w /\ kids (pv (snd r)) = kids (pv w) /\
  if decide (joined (pv (snd r)) = joined (pv w) ++ target_ns args)
  then fds (pv (snd r)) = final_fds mode (pv w)
  else fst (fst r) = 1 /\ fds (pv (snd r)) = fds (pv w).
Proof.
  intros r. subst r.
  destruct (run_wp _ w _ (run_main_wp tasks args k mode (pv w) Hmode Hopen)) as [H1 H2].
  destruct (run (run_main tasks args k) w) as [[status k'] w']. cbn [fst snd] in *.
  destruct H2 as [H2 H3]. split_and!; [done..|]. case_decide; [apply H3|]. by destruct H3 as (? & ? & _).
Qed.

(** C23: The TAP interface lies in the target's namespaces.  When [--pid] is given, every
    TAP interface the proxy creates is requested with the configured name (cut to 15
    octets), as a TAP device without packet information, after the process has joined
    first the user and then the network namespace of that process: the calls that join them
    are given the files [/proc/PID/ns/user] and [/proc/PID/ns/net].  When joining fails no
    interface is created and the exit status is 1. *)
Theorem proxy_tap_in_namespace `{PosixLaws} (tasks : string + result unit) (args : Args) (k : Kernel)
  (pid : Z) (mode : proxy_mode) (w : World) (Hpid : a_pid args = Some pid)
  (Hmode : main_mode args = Some mode)
  (Hopen : forall fd, mode = FrameFd fd -> is_Some (fds (pv w) !! fd)) :
  let r := run (run_main tasks args k) w in
  let ns := joined (pv w) ++
    [(CLONE_NEWUSER, Some (chars "/proc/" ++ print_uint pid ++ chars "/ns/user"));
     (CLONE_NEWNET, Some (chars "/proc/" ++ print_uint pid ++ chars "/ns/net"))] in
  if decide (joined (pv (snd r)) = ns) then
    forall f t, tuns (pv (snd r)) !! f = Some t -> tuns (pv w) !! f = Some t \/
      t = Tun (tap_ifreq (interface_name (build_tap_config args))) ns
  else fst (fst r) = 1 /\ tuns (pv (snd r)) = tuns (pv w).
Proof.
  intros r ns. subst r.
  destruct (run_wp _ w _ (run_main_wp tasks args k mode (pv w) Hmode Hopen)) as [_ H2].
  assert (E : joined (pv w) ++ target_ns args = ns) by (unfold target_ns; by rewrite Hpid).
  destruct (run (run_main tasks args k) w) as [[status k'] w']. cbn [fst snd] in *.
  destruct H2 as [_ H3]. rewrite E in H3. case_decide; [|by destruct H3 as (? & _ & ?)].
  destruct H3 as [_ H4]. intros f t Hf. destruct (H4 f) as [E4|E4]; rewrite E4 in Hf; [by left|right]. by injection Hf.
Qed.

End Proxy.

(** ** Witnesses: the properties at concrete inputs, on the reference instances *)

#[local] Existing Instances hello_serde config_serde ReferenceOs.os ReferenceOs.os_laws
  ReferenceProxy.rtnetlink.

#[local] Instance ref_ipnet : Ipnet := {|
  ipnet_new ip prefix_len := if decide (prefix_len <= ip_width ip) then None else Some "invalid prefix length"%string
|}.

Lemma ref_ipnet_laws : IpnetLaws.
Proof. intros ip prefix_len. cbn. by case_decide. Qed.

(** The proxy was given descriptor 3; the library has said hello. *)
Definition demo_args : Args :=
  MkArgs (Some 1234) (Some 3) None (chars "tap0") (Some (chars "10.0.0.1/24")) 0 [chars "10.99.0.0/24"] 1500.

Definition inherited_view : pview :=
  PView {[0 := (false, 0%nat); 1 := (false, 1%nat); 2 := (false, 2%nat); 3 := (false, 3%nat)]} 4 ∅ ∅ ∅ ∅ [] [].
Definition demo_hello : bytes :=
  match encode_control MkClientHello with Ok m => frame_msg m | Err _ => [] end.
Definition proxy_world (fails : list bool) : World :=
  ReferenceOs.MkWorld inherited_view fails (RStream [demo_hello] Eof, WStream [] []) [].

Definition no_routes : Kernel := ([] : list RouteMessage).

(** A run that succeeds, and one in which the second call, the join, fails. *)
Lemma proxy_cleans_up_witness :
  let r := run (run_main (inr (Ok ())) demo_args no_routes) (proxy_world []) in
  let r' := run (run_main (inr (Ok ())) demo_args no_routes) (proxy_world [false; true]) in
  fst (fst r) = 0 /\ fds (pv (snd r)) = delete 3 (fds inherited_view) /\ length (snd (fst r) : list RouteMessage) = 1%nat /\
  fst (fst r') = 1 /\ fds (pv (snd r')) = fds inherited_view.
Proof.
  intros r r'. pose proof (fun l => proxy_cleans_up (inr (Ok ())) demo_args no_routes (FrameFd 3) (proxy_world l)
    eq_refl ltac:(intros fd [= <-]; by eexists)) as H.
  destruct (H []) as (_ & _ & H1). destruct (H [false; true]) as (_ & _ & H2). fold r in H1. fold r' in H2.
  assert (J1 : joined (pv (snd r)) = joined (pv (proxy_world [])) ++ target_ns demo_args) by (vm_compute; reflexivity).
  assert (J2 : joined (pv (snd r')) = []) by (vm_compute; reflexivity).
  rewrite decide_True in H1 by exact J1. rewrite decide_False in H2 by (rewrite J2; discriminate).
  split_and!; [vm_compute; reflexivity|exact H1|vm_compute; reflexivity|apply H2|apply H2].
Defined.

Lemma demo_joined :
  joined (pv (snd (run (run_main (inr (Ok ())) demo_args no_routes) (proxy_world (replicate 11 false ++ [true])))))
  = [(CLONE_NEWUSER, Some (chars "/proc/1234/ns/user")); (CLONE_NEWNET, Some (chars "/proc/1234/ns/net"))].
Proof. vm_compute. reflexivity. Qed.

(** Bringing the interface up, the twelfth call that can fail, fails. *)
Lemma proxy_tap_in_namespace_witness :
  let r := run (run_main (inr (Ok ())) demo_args no_routes) (proxy_world (replicate 11 false ++ [true])) in
  fst (fst r) = 1 /\
  forall f t, tuns (pv (snd r)) !! f = Some t ->
    t = Tun (tap_ifreq "tap0") [(CLONE_NEWUSER, Some (chars "/proc/1234/ns/user"));
                                (CLONE_NEWNET, Some (chars "/proc/1234/ns/net"))].
Proof.
  intros r.
  pose proof (proxy_tap_in_namespace (inr (Ok ())) demo_args no_routes 1234 (FrameFd 3)
    (proxy_world (replicate 11 false ++ [true])) eq_refl eq_refl ltac:(intros fd [= <-]; by eexists)) as H.
  cbv zeta in H. fold r in H. rewrite decide_True in H by exact demo_joined.
  split; [vm_compute; reflexivity|]. intros f t Hf. destruct (H f t Hf) as [E|E]; [discriminate E|]. exact E.
Defined.
