(* ===== verification/System.v ===== *)
(** * The whole tunnel as one transition system

    [setup_stack_from_fd] ([src/lib.rs]) and [run_frame_relay] ([proxy/src/main.rs]) start
    five tasks in two processes: the library's IPC reader and writer beside the device of
    the stack task, and the proxy's TAP reader, IPC writer and relay.  Here they run
    interleaved, one turn at a time, on shared channels and counters; octets travel
    between the two ends of the connection in pieces of any size.  Each task's turn is the
    definition of its own file, loaded from and stored to the shared state. *)

From S2P Require Import Prelude Net Stream Protocol AsyncIo Externals Stack StackPoll StackData.
From S2P Require Import Socket Device Text ProcNet Ipc IpcSpec Relay RelaySpec Path TapPath SerdeRef.
#[local] Open Scope Z_scope.

(** A connection: octets that arrive become readable. *)
Class Pipe `{AsyncIo} := { feed : bytes -> AReader -> AReader }.
Class PipeLaws `{Pipe} : Prop := feed_rest : forall d r, rest (feed d r) = rest r ++ d.

(** A connection in memory. *)
Module ReferencePipe.

#[export] Instance pipe : @Pipe ReferenceIo.io :=
  @Build_Pipe ReferenceIo.io (fun d r => r ++ d).
#[export] Instance pipe_laws : @PipeLaws ReferenceIo.io pipe.
Proof. done. Qed.

End ReferencePipe.

Definition FRAME_CHANNEL_CAPACITY : nat := 2048.
Definition CONTROL_CHANNEL_CAPACITY : nat := 32.
Definition RESPONSE_CHANNEL_CAPACITY : nat := 8.

Section System.
Context {M : Mpsc} {A : AsyncIo} {P : Pipe} {RT : Rtnetlink} {TD : TapDevice}
  {SR : Serde ProxyResponse} {SC : Serde ProxyCommand}.

(** The state both processes share between their tasks.  [y_calling] are the callers of
    [send_proxy_command] that have registered and not yet queued their message. *)
Record system := MkSystem {
  y_up : chan bytes; y_down : chan bytes; y_control : chan bytes; y_requests : requests;
  y_stats : TunnelStats; y_dead : bool; y_out : AWriter; y_in : AReader;
  y_answers : list (token * ProxyResponse); y_calling : list (token * ProxyCommand * bytes);
  p_in : AReader; p_out : AWriter; p_tap : Tap; p_kernel : Kernel; p_responses : chan bytes;
  p_frames : chan bytes; p_dropped : Z; wire_up : bytes; wire_down : bytes
}.

(** What happens, as seen from outside the tasks: smoltcp transmits a frame, and the device
    queues it; the relay takes a frame for the TAP device, or serves a request; a caller
    registers a request, and queues it; the TAP device offers a frame, and its reader
    queues it; the library's reader takes a frame, or a response; smoltcp receives a
    frame. *)
Inductive event :=
| Transmitted (f : bytes) | Sent (f : bytes) | Relayed (f : bytes)
| Registered (t : token) (c : ProxyCommand) | Called (t : token) (c : ProxyCommand)
| Served (c : ProxyCommand) (r : ProxyResponse) | Offered (f : bytes) | Queued (f : bytes)
| Arrived (f : bytes) | Answered (r : ProxyResponse) | Received (f : bytes).

Definition trace := list event.
Definition transmitted (h : trace) := omap (fun e => match e with Transmitted f => Some f | _ => None end) h.
Definition sent (h : trace) := omap (fun e => match e with Sent f => Some f | _ => None end) h.
Definition relayed (h : trace) := omap (fun e => match e with Relayed f => Some f | _ => None end) h.
Definition registered (h : trace) := omap (fun e => match e with Registered t c => Some (t, c) | _ => None end) h.
Definition called (h : trace) := omap (fun e => match e with Called t c => Some (t, c) | _ => None end) h.
Definition served (h : trace) := omap (fun e => match e with Served c r => Some (c, r) | _ => None end) h.
Definition offered (h : trace) := omap (fun e => match e with Offered f => Some f | _ => None end) h.
Definition queued (h : trace) := omap (fun e => match e with Queued f => Some f | _ => None end) h.
Definition arrived (h : trace) := omap (fun e => match e with Arrived f => Some f | _ => None end) h.
Definition answered (h : trace) := omap (fun e => match e with Answered r => Some r | _ => None end) h.
Definition received (h : trace) := omap (fun e => match e with Received f => Some f | _ => None end) h.

(** The state [setup_stack_from_fd] and [run_frame_relay] start from, with the ends of the
    connection, the TAP device and the routing tables they are given. *)
Definition system_init (o po : AWriter) (i pi : AReader) (tap : Tap) (k : Kernel) : system :=
  MkSystem (mpsc_channel FRAME_CHANNEL_CAPACITY) (mpsc_channel FRAME_CHANNEL_CAPACITY)
    (mpsc_channel CONTROL_CHANNEL_CAPACITY) (MkRequests 1 ∅) stats_zero false o i [] []
    pi po tap k (mpsc_channel RESPONSE_CHANNEL_CAPACITY) (mpsc_channel PROXY_FRAME_CHANNEL_CAPACITY)
    0 [] [].

(** ** Loading and storing the tasks *)

Definition device_of (mtu : nat) (s : system) : ProxyDevice := device_new (y_down s) (y_up s) mtu (y_stats s).
Definition put_device (d : ProxyDevice) (s : system) : system :=
  MkSystem (dev_tx d) (dev_rx d) (y_control s) (y_requests s) (dev_stats d) (y_dead s) (y_out s) (y_in s)
    (y_answers s) (y_calling s) (p_in s) (p_out s) (p_tap s) (p_kernel s) (p_responses s) (p_frames s)
    (p_dropped s) (wire_up s) (wire_down s).

Definition writer_of (s : system) : ipc_writer :=
  MkWriter (y_up s) (y_control s) (y_out s) (y_stats s) (y_dead s).
(** What the writer wrote goes on the wire. *)
Definition put_writer (w : ipc_writer) (s : system) : system :=
  MkSystem (iw_frames w) (y_down s) (iw_control w) (y_requests s) (iw_stats w) (iw_dead w) (iw_out w) (y_in s)
    (y_answers s) (y_calling s) (p_in s) (p_out s) (p_tap s) (p_kernel s) (p_responses s) (p_frames s)
    (p_dropped s) (wire_up s ++ drop (length (taken (y_out s))) (taken (iw_out w))) (wire_down s).

Definition reader_of (s : system) : ipc_reader :=
  MkReader (y_in s) (y_down s) (pending_responses (y_requests s)) (y_stats s) (y_dead s) (y_answers s).
Definition put_reader (r : ipc_reader) (s : system) : system :=
  MkSystem (y_up s) (ir_frames r) (y_control s) (MkRequests (next_request_id (y_requests s)) (ir_pending r))
    (ir_stats r) (ir_dead r) (y_out s) (ir_in r) (ir_answers r) (y_calling s) (p_in s) (p_out s) (p_tap s)
    (p_kernel s) (p_responses s) (p_frames s) (p_dropped s) (wire_up s) (wire_down s).

Definition relay_of (s : system) : relay_reader := MkRelayReader (p_in s) (p_tap s) (p_kernel s) (p_responses s).
Definition put_relay (r : relay_reader) (s : system) : system :=
  MkSystem (y_up s) (y_down s) (y_control s) (y_requests s) (y_stats s) (y_dead s) (y_out s) (y_in s)
    (y_answers s) (y_calling s) (rr_in r) (p_out s) (rr_tap r) (rr_kernel r) (rr_responses r) (p_frames s)
    (p_dropped s) (wire_up s) (wire_down s).

Definition relay_writer_of (s : system) : relay_writer := MkRelayWriter (p_frames s) (p_responses s) (p_out s).
Definition put_relay_writer (w : relay_writer) (s : system) : system :=
  MkSystem (y_up s) (y_down s) (y_control s) (y_requests s) (y_stats s) (y_dead s) (y_out s) (y_in s)
    (y_answers s) (y_calling s) (p_in s) (rw_out w) (p_tap s) (p_kernel s) (rw_responses w) (rw_frames w)
    (p_dropped s) (wire_up s) (wire_down s ++ drop (length (taken (p_out s))) (taken (rw_out w))).

Definition put_tap_reader (c : chan bytes) (dropped : Z) (s : system) : system :=
  MkSystem (y_up s) (y_down s) (y_control s) (y_requests s) (y_stats s) (y_dead s) (y_out s) (y_in s)
    (y_answers s) (y_calling s) (p_in s) (p_out s) (p_tap s) (p_kernel s) (p_responses s) c dropped
    (wire_up s) (wire_down s).

Definition put_requests (rq : requests) (cs : list (token * ProxyCommand * bytes)) (c : chan bytes) (s : system)
  : system :=
  MkSystem (y_up s) (y_down s) c rq (y_stats s) (y_dead s) (y_out s) (y_in s) (y_answers s) cs
    (p_in s) (p_out s) (p_tap s) (p_kernel s) (p_responses s) (p_frames s) (p_dropped s) (wire_up s) (wire_down s).

Definition flow_up (d tl : bytes) (s : system) : system :=
  MkSystem (y_up s) (y_down s) (y_control s) (y_requests s) (y_stats s) (y_dead s) (y_out s) (y_in s)
    (y_answers s) (y_calling s) (feed d (p_in s)) (p_out s) (p_tap s) (p_kernel s) (p_responses s) (p_frames s)
    (p_dropped s) tl (wire_down s).
Definition flow_down (d tl : bytes) (s : system) : system :=
  MkSystem (y_up s) (y_down s) (y_control s) (y_requests s) (y_stats s) (y_dead s) (y_out s) (feed d (y_in s))
    (y_answers s) (y_calling s) (p_in s) (p_out s) (p_tap s) (p_kernel s) (p_responses s) (p_frames s)
    (p_dropped s) (wire_up s) tl.

(** ** Steps *)

(** A whole message can be read: otherwise the task that reads is waiting. *)
Definition message_ready (b : bytes) : Prop :=
  (4 <= length b)%nat /\ (4 + Z.to_nat (be_val (take 4 b)) <= length b)%nat.

(** The message a reader takes next, and what it means to the relay and to the library. *)
Definition next_message (b : bytes) : bytes := take (Z.to_nat (be_val (take 4 b))) (drop 4 b).

Definition relay_event (proc : result text) (iface : string) (k : Kernel) (m : bytes) : trace :=
  match decode_message m with
  | Ok (Frame f) => [Relayed f]
  | Ok (Control p) =>
      match decode_control (T:=ProxyCommand) p with
      | Ok c => [Served c (fst (handle_proxy_command proc c iface k))]
      | Err _ => []
      end
  | Err _ => []
  end.

Definition reader_event (m : bytes) : trace :=
  match decode_message m with
  | Ok (Frame f) => [Arrived f]
  | Ok (Control p) => match decode_control (T:=ProxyResponse) p with Ok r => [Answered r] | Err _ => [] end
  | Err _ => []
  end.

(** [mtu] bounds the frames on the link (the TAP interface's MTU and the Ethernet header);
    [iface] is the interface's name.  A turn that ends its task, or leaves it waiting in
    the middle, is not a step: the steps describe the tunnel while it is up.  Fewer than
    2^64 - 1 requests are made, a command called is no longer than the buffer of the relay's
    reader, and no response is longer than a length prefix can say.  The connection holds
    any number of octets, so a writer's turn is one step. *)
Inductive sys_step (prof : profile) (iface : string) (mtu : nat) (h : trace) (s : system)
  : trace -> system -> Prop :=
| step_transmit f : (length f <= mtu)%nat ->
    sys_step prof iface mtu h s
      (Transmitted f :: if decide (0 < room (y_up s))%nat then [Sent f] else [])
      (put_device (tx_frame (device_of mtu s) f) s)
| step_receive f d : receive (device_of mtu s) = (Some f, d) ->
    sys_step prof iface mtu h s [Received f] (put_device d s)
| step_register cmd t msg rq :
    register_command cmd t (y_requests s) = (Ok msg, rq) -> fits_relay mtu msg ->
    Z.of_nat (length (registered h)) < 2 ^ 64 - 2 ->
    sys_step prof iface mtu h s [Registered t (set_cmd_id cmd (next_request_id (y_requests s)))]
      (put_requests rq (y_calling s ++ [(t, set_cmd_id cmd (next_request_id (y_requests s)), msg)])
         (y_control s) s)
| step_send l1 l2 t cmd msg c : y_calling s = l1 ++ (t, cmd, msg) :: l2 ->
    send_control msg (y_control s) = (Ready (Ok ()), c) ->
    sys_step prof iface mtu h s [Called t cmd] (put_requests (y_requests s) (l1 ++ l2) c s)
| step_writer b w : ipc_writer_iter b (writer_of s) = (true, w) -> iw_dead w = false ->
    match b with
    | FrameBranch => items (view (y_up s)) <> []
    | ControlBranch => items (view (y_control s)) <> []
    end ->
    sys_step prof iface mtu h s [] (put_writer w s)
| step_flow_up d tl : wire_up s = d ++ tl -> sys_step prof iface mtu h s [] (flow_up d tl s)
| step_relay proc r : message_ready (rest (p_in s)) ->
    relay_reader_iter proc iface mtu (relay_of s) = Ret (Go r) ->
    Forall (fun m => Z.of_nat (length m) < 2 ^ 32) (items (view (rr_responses r))) ->
    sys_step prof iface mtu h s (relay_event proc iface (p_kernel s) (next_message (rest (p_in s))))
      (put_relay r s)
| step_tap f c dropped : (0 < length f <= mtu)%nat ->
    tap_reader_iter prof (Ok f) (p_frames s, p_dropped s) = Ret (Go (c, dropped)) ->
    sys_step prof iface mtu h s
      (Offered f :: if decide (0 < room (p_frames s))%nat then [Queued f] else [])
      (put_tap_reader c dropped s)
| step_relay_writer b w : relay_writer_iter b (relay_writer_of s) = Go w ->
    sys_step prof iface mtu h s [] (put_relay_writer w s)
| step_flow_down d tl : wire_down s = d ++ tl -> sys_step prof iface mtu h s [] (flow_down d tl s)
| step_reader r : message_ready (rest (y_in s)) -> ipc_reader_iter (reader_of s) = (true, r) ->
    sys_step prof iface mtu h s (reader_event (next_message (rest (y_in s)))) (put_reader r s).

(** The runs of the tunnel, with what happened in them. *)
Inductive sys_run (prof : profile) (iface : string) (mtu : nat) (s0 : system)
  : trace -> system -> Prop :=
| run_start : sys_run prof iface mtu s0 [] s0
| run_step h s e s' : sys_run prof iface mtu s0 h s -> sys_step prof iface mtu h s e s' ->
    sys_run prof iface mtu s0 (h ++ e) s'.

End System.
