(* ===== verification/SystemSpec.v ===== *)
(** * Correctness of the whole tunnel

    Along every run of [System]: frames cross the tunnel in order, without being changed,
    repeated or made up, and every frame that is lost is counted where it was lost; every
    caller of a proxy command gets the response the proxy gave to its own request, once. *)

From S2P Require Import Prelude Net Stream Protocol AsyncIo Externals Stack StackPoll StackData.
From S2P Require Import Socket Device Text ProcNet Ipc IpcSpec Relay RelaySpec Path TapPath SerdeRef System.
#[local] Open Scope Z_scope.

(** Projections of a trace that grows. *)
Ltac traces :=
  unfold transmitted, sent, relayed, registered, called, served, offered, queued, arrived, answered,
    received in *;
  rewrite ?omap_app; cbn [omap list_omap app]; rewrite ?app_nil_r.

Section SystemSpec.
Context {M : Mpsc} {ML : MpscLaws} {A : AsyncIo} {AL : AsyncIoLaws} {P : Pipe} {PL : PipeLaws}
  {RT : Rtnetlink} {TD : TapDevice} {TL : TapLaws} {SR : Serde ProxyResponse}
  {SRok : SerdeOk ProxyResponse} {SC : Serde ProxyCommand} {SCok : SerdeOk ProxyCommand}.

(** ** Streams *)

(** The first message of a stream of framed messages, of which [r] has been received. *)
Lemma ready_msg bs (r w : bytes) :
  Forall (fun b => Z.of_nat (length b) < 2 ^ 32) bs -> r ++ w = frame_msgs bs -> message_ready r ->
  exists b bs' tl, bs = b :: bs' /\ r = frame_msg b ++ tl /\ tl ++ w = frame_msgs bs' /\ next_message r = b.
Proof.
  intros Hlen E [H4 Hn]. destruct bs as [|b bs'].
  { apply app_nil in E as [-> _]. cbn in H4. lia. }
  apply Forall_cons_1 in Hlen as [Hb _]. rewrite frame_msgs_cons in E.
  assert (Ht : take 4 r = len_prefix b).
  { destruct (frame_msg_take b (frame_msgs bs')) as [Ht _]. rewrite <- Ht, <- E, take_app_le by lia. done. }
  unfold next_message. rewrite Ht, len_prefix_val, Nat2Z.id in * by done.
  assert (Hr : take (4 + length b) r = frame_msg b).
  { rewrite <- (take_app_le r w), E by lia.
    assert (Hl : (4 + length b)%nat = length (frame_msg b))
      by (unfold frame_msg; by rewrite length_app, length_len_prefix).
    by rewrite Hl, take_app_length. }
  exists b, bs', (drop (4 + length b) r). split_and!; [done|by rewrite <- Hr, take_drop| |].
  - apply (app_inv_head (frame_msg b)). by rewrite <- E, app_assoc, <- Hr, take_drop.
  - rewrite take_drop_commute, Hr. unfold frame_msg. rewrite drop_app_ge, length_len_prefix by
      (rewrite length_len_prefix; lia). done.
Qed.

Lemma inbound_short mtu qs bs :
  Forall2 (inbound_encodes mtu) qs bs -> Forall (fun b => Z.of_nat (length b) < 2 ^ 32) bs.
Proof. induction 1 as [|q b qs bs (_ & H & _) _ IH]; by constructor. Qed.

Lemma encodes_short ws bs : Forall2 encodes ws bs -> Forall (fun b => Z.of_nat (length b) < 2 ^ 32) bs.
Proof. induction 1 as [|q b qs bs (H & _) _ IH]; by constructor. Qed.

(** ** Turns of the tasks *)

Lemma relay_frame_turn proc iface mtu f tl st r :
  inbound_encodes mtu (InFrame f) (encode_frame f) -> rest (rr_in st) = frame_msg (encode_frame f) ++ tl ->
  relay_reader_iter proc iface mtu st = Ret (Go r) ->
  rest (rr_in r) = tl /\ tap_frames (rr_tap r) = tap_frames (rr_tap st) ++ written_frames [f] /\
  rr_responses r = rr_responses st /\ rr_kernel r = rr_kernel st.
Proof.
  intros (Hm & Hl & _) Hin. destruct (relay_iter_msg proc iface mtu (encode_frame f) tl st) as (i & Hi & ->);
    [cbn in *; lia|done..|].
  unfold relay_dispatch. change (decode_message (encode_frame f)) with (Ok (Frame f)). cbv beta iota zeta.
  cbn [rr_tap rr_in rr_kernel rr_responses]. pose proof (tap_write_spec f (rr_tap st)) as Hw.
  destruct (tap_write_all f (rr_tap st)) as [[] t]; [|done]. by intros [= <-].
Qed.

Lemma encode_control_nonempty {T} `{Serde T} (t : T) b : encode_control t = Ok b -> (0 < length b)%nat.
Proof. unfold encode_control. destruct (to_vec t); [done|]. intros [= <-]. cbn. lia. Qed.

Lemma relay_command_turn proc iface mtu c b tl st r :
  inbound_encodes mtu (InCommand c) b -> rest (rr_in st) = frame_msg b ++ tl ->
  rx_alive (view (rr_responses st)) = true -> relay_reader_iter proc iface mtu st = Ret (Go r) ->
  rest (rr_in r) = tl /\ rr_tap r = rr_tap st /\ rx_alive (view (rr_responses r)) = true /\
  rr_kernel r = snd (handle_proxy_command proc c iface (rr_kernel st)) /\
  exists m, encode_control (fst (handle_proxy_command proc c iface (rr_kernel st))) = Ok m /\
    items (view (rr_responses r)) = items (view (rr_responses st)) ++ [m].
Proof.
  intros (Hm & Hl & Hq) Hin Ha.
  destruct (relay_iter_msg proc iface mtu b tl st) as (i & Hi & ->);
    [pose proof (encode_control_nonempty _ _ Hq); lia|done..|].
  destruct (decide (length (items (view (rr_responses st))) < cap (view (rr_responses st)))%nat) as [Hr|Hr].
  - destruct (dispatch_command proc iface c b (MkRelayReader i (rr_tap st) (rr_kernel st) (rr_responses st)) Hq Ha Hr)
      as (m & ch & -> & Em & Hit & _ & Ha'). intros [= <-]. cbn in *. eauto 10.
  - destruct (decode_encode_control c) as (payload & E1 & E2 & E3). rewrite E1 in Hq. injection Hq as <-.
    unfold relay_dispatch. rewrite E2, E3. cbn [rr_kernel rr_responses rr_in rr_tap].
    destruct (handle_proxy_command proc c iface (rr_kernel st)) as [resp k].
    destruct (encode_control resp) as [m|]; [|done].
    pose proof (try_send_room m (rr_responses st)) as T. unfold room in T. rewrite Ha in T.
    destruct (try_send m (rr_responses st)) as [[] ch]; [lia|done|]. by destruct T.
Qed.

Lemma relay_event_frame proc iface k f : relay_event proc iface k (encode_frame f) = [Relayed f].
Proof. done. Qed.

Lemma relay_event_command proc iface k c b :
  encode_control c = Ok b ->
  relay_event proc iface k b = [Served c (fst (handle_proxy_command proc c iface k))].
Proof.
  destruct (decode_encode_control c) as (payload & E1 & E2 & E3). rewrite E1. intros [= <-].
  unfold relay_event. by rewrite E2, E3.
Qed.

Lemma relay_event_cases proc iface k m :
  (exists f, relay_event proc iface k m = [Relayed f]) \/
  (exists c, relay_event proc iface k m = [Served c (fst (handle_proxy_command proc c iface k))]) \/
  relay_event proc iface k m = [].
Proof.
  unfold relay_event. destruct (decode_message m) as [[]|]; eauto. destruct (decode_control _); eauto.
Qed.

(** A turn of the library's reader that goes on. *)
Lemma reader_frame_turn f tl st r :
  Z.of_nat (length (encode_frame f)) < 2 ^ 32 -> rest (ir_in st) = frame_msg (encode_frame f) ++ tl ->
  ipc_reader_iter st = (true, r) ->
  rest (ir_in r) = tl /\ ir_pending r = ir_pending st /\ ir_answers r = ir_answers st /\
  (items (view (ir_frames r)) = items (view (ir_frames st)) ++ [f] /\ ir_stats r = add_ipc_rx (ir_stats st) \/
   items (view (ir_frames r)) = items (view (ir_frames st)) /\
   ir_stats r = add_ipc_rx_dropped (add_ipc_rx (ir_stats st))).
Proof.
  intros Hl Hin. destruct (iter_msg (encode_frame f) tl st Hl Hin) as (i & Hi & ->).
  unfold reader_dispatch. change (decode_message (encode_frame f)) with (Ok (Frame f)). cbv beta iota zeta.
  pose proof (try_send_room f (ir_frames st)) as T.
  destruct (try_send f (ir_frames st)) as [[] c]; [..|done]; intros [= <-]; cbn.
  - destruct T as (_ & -> & _). auto 10.
  - destruct T as (_ & -> & _). auto 10.
Qed.

Lemma reader_event_response p b : encode_control p = Ok b -> reader_event b = [Answered p].
Proof.
  destruct (decode_encode_control p) as (payload & E1 & E2 & E3). rewrite E1. intros [= <-].
  unfold reader_event. by rewrite E2, E3.
Qed.

Lemma reader_event_cases m :
  (exists f, reader_event m = [Arrived f]) \/ (exists p, reader_event m = [Answered p]) \/ reader_event m = [].
Proof.
  unfold reader_event. destruct (decode_message m) as [[]|]; eauto. destruct (decode_control _); eauto.
Qed.

(** The writer of the proxy keeps its queues open. *)
Lemma drain_queue_ends fuel c w : same_ends c (snd (fst (drain_queue fuel c w))).
Proof.
  revert c w. induction fuel as [|fuel IH]; intros c w; cbn; [apply same_ends_refl|].
  destruct (try_recv c) as [[msg| |] c1] eqn:E; chan_facts; [|cbn; by apply view_same_ends..].
  destruct (write_framed msg w) as [[] w1]; [|done]. by eapply same_ends_trans.
Qed.

Lemma relay_batch_ends st st' :
  relay_writer_batch st = Go st' -> same_ends (rw_responses st) (rw_responses st').
Proof.
  unfold relay_writer_batch. destruct (drain_queue _ (rw_frames st) _) as [[[] f] w]; [|done].
  pose proof (drain_queue_ends (write_fuel (rw_responses st)) (rw_responses st) w) as H.
  destruct (drain_queue _ (rw_responses st) _) as [[[] c] w']; [|done].
  destruct (aflush w') as [[] w'']; [|done]. by intros [= <-].
Qed.

Lemma relay_writer_ends b st st' :
  relay_writer_iter b st = Go st' -> same_ends (rw_responses st) (rw_responses st').
Proof.
  destruct b; cbn [relay_writer_iter].
  - destruct (try_recv (rw_frames st)) as [[msg| |] c]; [|done|by destruct (aflush _)].
    destruct (write_framed msg (rw_out st)) as [[] w]; [|done]. apply relay_batch_ends.
  - destruct (try_recv (rw_responses st)) as [[msg| |] c] eqn:E; chan_facts; [|done..].
    destruct (write_framed msg (rw_out st)) as [[] w]; [|done]. intros Hs%relay_batch_ends.
    by eapply same_ends_trans.
Qed.

(** ** Batches *)

Lemma in_frames_app qs qs' : in_frames (qs ++ qs') = in_frames qs ++ in_frames qs'.
Proof. apply omap_app. Qed.
Lemma in_commands_app qs qs' : in_commands (qs ++ qs') = in_commands qs ++ in_commands qs'.
Proof. apply omap_app. Qed.
Lemma frames_of_app ws ws' : frames_of (ws ++ ws') = frames_of ws ++ frames_of ws'.
Proof. apply omap_app. Qed.
Lemma resps_of_app ws ws' : resps_of (ws ++ ws') = resps_of ws ++ resps_of ws'.
Proof. apply omap_app. Qed.

(** What a turn of each writer puts on the wire, read as messages. *)
Lemma writer_messages mtu b fs cs ms :
  Forall (fun f => fits_relay mtu (encode_frame f)) fs ->
  Forall2 (fun c m => encode_control c = Ok m) cs ms -> Forall (fits_relay mtu) ms ->
  exists qs, Forall2 (inbound_encodes mtu) qs
      match b with
      | FrameBranch => (encode_frame <$> fs) ++ ms
      | ControlBranch => take 1 ms ++ (encode_frame <$> fs) ++ drop 1 ms
      end /\ in_frames qs = fs /\ in_commands qs = cs.
Proof.
  intros Hf Hc Hm. destruct b.
  - exists (inbounds fs cs). split_and!; [by apply inbounds_encode|apply inbounds_frames|apply inbounds_commands].
  - exists (inbounds [] (take 1 cs) ++ inbounds fs (drop 1 cs)).
    rewrite in_frames_app, in_commands_app, !inbounds_frames, !inbounds_commands, take_drop.
    split_and!; [|done..]. apply Forall2_app.
    + apply (inbounds_encode mtu [] (take 1 cs) (take 1 ms)); [constructor|by apply Forall2_take|by apply Forall_take].
    + apply inbounds_encode; [done|by apply Forall2_drop|by apply Forall_drop].
Qed.

Lemma relay_writer_messages b fs rs ms :
  Forall (fun f => Z.of_nat (length (encode_frame f)) < 2 ^ 32) fs ->
  Forall2 (fun r m => encode_control r = Ok m) rs ms ->
  Forall (fun m => Z.of_nat (length m) < 2 ^ 32) ms ->
  exists ws, Forall2 encodes ws
      match b with
      | TapBranch => (encode_frame <$> fs) ++ ms
      | ResponseBranch => take 1 ms ++ (encode_frame <$> fs) ++ drop 1 ms
      end /\ frames_of ws = fs /\ resps_of ws = rs.
Proof.
  intros Hf Hr Hm. destruct b.
  - exists ((WFrame <$> fs) ++ (WResp <$> rs)).
    split_and!; [by apply wire_encodes|apply wire_frames|apply wire_resps].
  - exists (((WFrame <$> []) ++ (WResp <$> take 1 rs)) ++ ((WFrame <$> fs) ++ (WResp <$> drop 1 rs))).
    rewrite frames_of_app, resps_of_app, !wire_frames, !wire_resps, take_drop.
    split_and!; [|done..]. apply Forall2_app.
    + apply (wire_encodes [] (take 1 rs) (take 1 ms)); [constructor|by apply Forall2_take|by apply Forall_take].
    + apply wire_encodes; [done|by apply Forall2_drop|by apply Forall_drop].
Qed.

(** ** From smoltcp to the TAP device *)

(** The messages on their way are the requests and frames between the queues of the
    library and what the relay has taken. *)
Definition up_ok (mtu : nat) (t0 : Tap) (h : trace) (s : system) : Prop :=
  exists qs bs cs,
    rest (p_in s) ++ wire_up s = frame_msgs bs /\ Forall2 (inbound_encodes mtu) qs bs /\
    sent h = relayed h ++ in_frames qs ++ items (view (y_up s)) /\
    (called h).*2 = (served h).*1 ++ in_commands qs ++ cs /\
    Forall2 (fun c m => encode_control c = Ok m) cs (items (view (y_control s))) /\
    Forall (fits_relay mtu) (items (view (y_control s))) /\
    Forall (fun f => fits_relay mtu (encode_frame f)) (items (view (y_up s))) /\
    Forall (fun x => encode_control x.1.2 = Ok x.2 /\ fits_relay mtu x.2) (y_calling s) /\
    tap_frames (p_tap s) = tap_frames t0 ++ written_frames (relayed h).

Lemma frame_fits mtu f : (length f <= mtu)%nat -> Z.of_nat mtu + 1 < 2 ^ 32 -> fits_relay mtu (encode_frame f).
Proof. intros H1 H2. split; cbn [length encode_frame]; lia. Qed.

Lemma sent_control msg (c c' : chan bytes) :
  send_control msg c = (Ready (Ok ()), c') -> items (view c') = items (view c) ++ [msg].
Proof.
  unfold send_control. pose proof (try_send_room msg c) as T.
  destruct (try_send msg c) as [[] c1]; try done. intros [= <-]. tauto.
Qed.

Lemma wire_grows (o o' : AWriter) w : taken o' = taken o ++ w -> drop (length (taken o)) (taken o') = w.
Proof. intros ->. by rewrite drop_app_length. Qed.

Lemma up_transmit mtu t0 h s f :
  Z.of_nat mtu + 1 < 2 ^ 32 -> (length f <= mtu)%nat -> up_ok mtu t0 h s ->
  up_ok mtu t0 (h ++ Transmitted f :: if decide (0 < room (y_up s))%nat then [Sent f] else [])
    (put_device (tx_frame (device_of mtu s) f) s).
Proof.
  intros Hmtu Hf (qs & bs & cs & H1 & H2 & H3 & H4 & H5 & H6 & H7 & H8 & H9). exists qs, bs, cs.
  destruct (tx_frame_cases (device_of mtu s) f) as [C _]. cbn [dev_tx device_of device_new] in C.
  cbn [p_in wire_up y_up y_control y_calling p_tap put_device].
  case_decide; destruct C as (-> & _); traces; rewrite ?H3; split_and!; try done.
  - by rewrite <- !app_assoc.
  - apply Forall_app_2; [done|]. constructor; [by apply frame_fits|done].
Qed.

Lemma up_writer mtu t0 h s b w :
  ipc_writer_iter b (writer_of s) = (true, w) -> iw_dead w = false ->
  match b with
  | FrameBranch => items (view (y_up s)) <> []
  | ControlBranch => items (view (y_control s)) <> []
  end -> up_ok mtu t0 h s -> up_ok mtu t0 h (put_writer w s).
Proof.
  intros Hrun Hd Hb (qs & bs & cs & H1 & H2 & H3 & H4 & H5 & H6 & H7 & H8 & H9).
  destruct (ipc_writer_iter_ok b (writer_of s) w Hrun Hd Hb) as (E1 & E2 & E3 & _).
  destruct (writer_messages mtu b _ cs _ H7 H5 H6) as (qs' & Hq & Hqf & Hqc).
  cbn [iw_frames iw_control iw_out writer_of] in E3. apply wire_grows in E3.
  exists (qs ++ qs'), (bs ++ match b with
    | FrameBranch => (encode_frame <$> items (view (y_up s))) ++ items (view (y_control s))
    | ControlBranch => take 1 (items (view (y_control s))) ++ (encode_frame <$> items (view (y_up s))) ++
        drop 1 (items (view (y_control s)))
    end), [].
  cbn [p_in wire_up y_up y_control y_calling p_tap put_writer].
  rewrite E1, E2, E3, in_frames_app, in_commands_app, Hqf, Hqc, frame_msgs_app, app_assoc, H1, !app_nil_r.
  split_and!; try done. by apply Forall2_app.
Qed.

Lemma up_relay mtu t0 h s proc iface r :
  message_ready (rest (p_in s)) -> relay_reader_iter proc iface mtu (relay_of s) = Ret (Go r) ->
  rx_alive (view (p_responses s)) = true -> up_ok mtu t0 h s ->
  up_ok mtu t0 (h ++ relay_event proc iface (p_kernel s) (next_message (rest (p_in s)))) (put_relay r s).
Proof.
  intros Hready Hrun Ha (qs & bs & cs & H1 & H2 & H3 & H4 & H5 & H6 & H7 & H8 & H9).
  destruct (ready_msg bs _ _ (inbound_short mtu qs bs H2) H1 Hready) as (b & bs' & tl & -> & Er & Et & ->).
  apply Forall2_cons_inv_r in H2 as (q & qs' & Hq & H2 & ->).
  exists qs', bs', cs. cbn [p_in wire_up y_up y_control y_calling p_tap put_relay].
  destruct q as [f|c].
  - pose proof Hq as (_ & _ & ->).
    destruct (relay_frame_turn proc iface mtu f tl (relay_of s) r Hq Er Hrun) as (-> & -> & _).
    rewrite relay_event_frame. cbn [rr_tap relay_of]. traces. split_and!; try done.
    + rewrite H3. by rewrite <- !app_assoc.
    + rewrite H9, <- app_assoc. unfold written_frames. by rewrite <- list.filter_app.
  - pose proof Hq as (_ & _ & Hc).
    destruct (relay_command_turn proc iface mtu c b tl (relay_of s) r Hq Er Ha Hrun) as (-> & -> & _).
    rewrite (relay_event_command proc iface (p_kernel s) c b Hc). cbn [rr_tap relay_of]. traces.
    split_and!; try done. rewrite H4, fmap_app, <- app_assoc. done.
Qed.

Lemma up_step prof iface mtu t0 h s e s' :
  Z.of_nat mtu + 1 < 2 ^ 32 -> rx_alive (view (p_responses s)) = true ->
  sys_step prof iface mtu h s e s' -> up_ok mtu t0 h s -> up_ok mtu t0 (h ++ e) s'.
Proof.
  intros Hmtu Ha Hstep Hup.
  destruct Hstep as [f Hf|f d Hd|cmd t msg rq Hreg Hfits _|l1 l2 t cmd msg c Hcalling Hsend|b w Hrun Hw Hb
    |d tl Hwire|proc r Hm Hrun _|f c dropped _ _|b w _|d tl _|r _ _].
  { by apply up_transmit. }
  all: try rewrite (app_nil_r h).
  4: by eapply up_writer.
  5: by apply up_relay.
  all: destruct Hup as (qs & bs & cs & H1 & H2 & H3 & H4 & H5 & H6 & H7 & H8 & H9).
  - exists qs, bs, cs. unfold receive in Hd. destruct (try_recv _) as [[] c]; try done. injection Hd as <- <-.
    traces. by split_and!.
  - exists qs, bs, cs. traces. split_and!; try done. apply Forall_app_2; [done|].
    constructor; [|done]. unfold register_command, fetch_add in Hreg. by injection Hreg as ? _.
  - exists qs, bs, (cs ++ [cmd]). apply sent_control in Hsend. rewrite Hcalling in H8.
    apply Forall_app in H8 as [H8 [[H10 H11] H12]%Forall_cons_1]. cbn in H10, H11.
    cbn [p_in wire_up y_up y_control y_calling p_tap put_requests]. traces. rewrite Hsend.
    split_and!; try done.
    + rewrite fmap_app, H4. by rewrite <- !app_assoc.
    + apply Forall2_app; [done|]. by repeat constructor.
    + apply Forall_app_2; [done|]. by constructor.
    + by apply Forall_app_2.
  - exists qs, bs, cs. cbn [p_in wire_up y_up y_control y_calling p_tap flow_up].
    rewrite feed_rest, <- app_assoc, <- Hwire. by split_and!.
  - exists qs, bs, cs. case_decide; traces; by split_and!.
  - by exists qs, bs, cs.
  - by exists qs, bs, cs.
  - exists qs, bs, cs.
    destruct (reader_event_cases (next_message (rest (y_in s)))) as [(f & ->)|[(p & ->)| ->]];
      traces; by split_and!.
Qed.

(** ** From the TAP device to smoltcp; [ann] is what the proxy announced before *)

Definition down_ok (ann : list bytes) (h : trace) (s : system) : Prop :=
  exists ws bs fs rs,
    rest (y_in s) ++ wire_down s = frame_msgs bs /\ Forall2 encodes ws bs /\
    ann ++ queued h = arrived h ++ frames_of ws ++ fs /\ items (view (p_frames s)) = encode_frame <$> fs /\
    Forall (fun f => Z.of_nat (length (encode_frame f)) < 2 ^ 32) fs /\
    (served h).*2 = answered h ++ resps_of ws ++ rs /\
    Forall2 (fun r m => encode_control r = Ok m) rs (items (view (p_responses s))) /\
    Forall (fun m => Z.of_nat (length m) < 2 ^ 32) (items (view (p_responses s))) /\
    rx_alive (view (p_responses s)) = true /\
    received h ++ items (view (y_down s)) `sublist_of` arrived h.

Lemma tap_reader_turn prof f c dropped c' dropped' :
  tap_reader_iter prof (Ok f) (c, dropped) = Ret (Go (c', dropped')) ->
  if decide (0 < room c)%nat
  then items (view c') = items (view c) ++ [encode_frame f] /\ dropped' = dropped
  else items (view c') = items (view c) /\ uadd prof 64 dropped 1 = Ret dropped'.
Proof.
  cbn [tap_reader_iter]. destruct f as [|x f]; [done|]. set (ff := x :: f). clearbody ff.
  pose proof (try_send_room (encode_frame ff) c) as T.
  destruct (try_send (encode_frame ff) c) as [[] c1]; [| |done].
  - intros [= <- <-]. rewrite decide_True; tauto.
  - destruct T as (Hr & Hv & _). rewrite decide_False by lia.
    destruct (uadd prof 64 dropped 1); [|done]. cbn. intros [= <- <-]. by rewrite Hv.
Qed.

Lemma receive_turn d f d' :
  receive d = (Some f, d') ->
  items (view (dev_rx d)) = f :: items (view (dev_rx d')) /\ dev_tx d' = dev_tx d /\
  dev_stats d' = add_device_rx (dev_stats d).
Proof.
  unfold receive. destruct (try_recv (dev_rx d)) as [[a| |] c] eqn:E; try done. intros [= <- <-].
  by apply try_recv_ok in E as [-> _].
Qed.

Lemma down_tap mtu ann h s prof f c dropped :
  Z.of_nat mtu + 1 < 2 ^ 32 -> (0 < length f <= mtu)%nat ->
  tap_reader_iter prof (Ok f) (p_frames s, p_dropped s) = Ret (Go (c, dropped)) -> down_ok ann h s ->
  down_ok ann (h ++ Offered f :: if decide (0 < room (p_frames s))%nat then [Queued f] else [])
    (put_tap_reader c dropped s).
Proof.
  intros Hmtu Hf Hrun (ws & bs & fs & rs & H1 & H2 & H3 & H4 & H5 & H6 & H7 & H8 & H9 & H10).
  apply tap_reader_turn in Hrun.
  exists ws, bs, (fs ++ if decide (0 < room (p_frames s))%nat then [f] else []), rs.
  cbn [y_in wire_down p_frames p_responses y_down put_tap_reader].
  case_decide; destruct Hrun as [Hi _]; rewrite Hi; traces; split_and!; try done.
  - rewrite app_assoc, H3. by rewrite <- !app_assoc.
  - rewrite H4, fmap_app. done.
  - apply Forall_app_2; [done|]. constructor; [|done]. cbn [length encode_frame]. lia.
Qed.

Lemma down_relay_writer ann h s b w :
  relay_writer_iter b (relay_writer_of s) = Go w -> down_ok ann h s -> down_ok ann h (put_relay_writer w s).
Proof.
  intros Hrun (ws & bs & fs & rs & H1 & H2 & H3 & H4 & H5 & H6 & H7 & H8 & H9 & H10).
  destruct (relay_writer_iter_ok b _ w Hrun) as (E1 & E2 & E3).
  destruct (relay_writer_messages b fs rs _ H5 H7 H8) as (ws' & Hw & Hwf & Hwr).
  cbn [rw_frames rw_responses rw_out relay_writer_of] in E3. apply wire_grows in E3. rewrite H4 in E3.
  pose proof (relay_writer_ends b _ w Hrun) as (_ & _ & Hends).
  exists (ws ++ ws'), (bs ++ match b with
    | TapBranch => (encode_frame <$> fs) ++ items (view (p_responses s))
    | ResponseBranch => take 1 (items (view (p_responses s))) ++ (encode_frame <$> fs) ++
        drop 1 (items (view (p_responses s)))
    end), [], [].
  cbn [y_in wire_down p_frames p_responses y_down put_relay_writer].
  rewrite E1, E2, E3, frames_of_app, resps_of_app, Hwf, Hwr, frame_msgs_app, app_assoc, H1, !app_nil_r.
  split_and!; try done; [by apply Forall2_app|]. rewrite <- H9. exact Hends.
Qed.

(** A response that is read answers the request with its id. *)
Lemma reader_response_turn p b tl st r :
  encode_control p = Ok b -> Z.of_nat (length b) < 2 ^ 32 -> rest (ir_in st) = frame_msg b ++ tl ->
  ipc_reader_iter st = (true, r) ->
  rest (ir_in r) = tl /\ ir_frames r = ir_frames st /\ ir_stats r = ir_stats st /\
  ir_pending r = delete (resp_id p) (ir_pending st) /\
  ir_answers r = ir_answers st ++
    match ir_pending st !! resp_id p with Some t => [(t, p)] | None => [] end.
Proof.
  intros Hp Hl Hin. destruct (iter_msg b tl st Hl Hin) as (i & Hi & ->). rewrite (dispatch_resp p b i st Hp).
  intros [= <-]. cbn. destruct (ir_pending st !! resp_id p) eqn:E; split_and!; try done.
  - by rewrite delete_id.
  - by rewrite app_nil_r.
Qed.

Lemma down_reader ann h s r :
  message_ready (rest (y_in s)) -> ipc_reader_iter (reader_of s) = (true, r) -> down_ok ann h s ->
  down_ok ann (h ++ reader_event (next_message (rest (y_in s)))) (put_reader r s).
Proof.
  intros Hready Hrun (ws & bs & fs & rs & H1 & H2 & H3 & H4 & H5 & H6 & H7 & H8 & H9 & H10).
  destruct (ready_msg bs _ _ (encodes_short ws bs H2) H1 Hready) as (b & bs' & tl & -> & Er & Et & ->).
  apply Forall2_cons_inv_r in H2 as (q & ws' & [Hl Hq] & H2 & ->).
  exists ws', bs', fs, rs. cbn [y_in wire_down p_frames p_responses y_down put_reader].
  destruct q as [f|p].
  - subst b. destruct (reader_frame_turn f tl (reader_of s) r Hl Er Hrun) as (-> & _ & _ & Hc).
    change (reader_event (encode_frame f)) with [Arrived f]. cbn [ir_frames reader_of] in Hc. traces.
    split_and!; try done; [rewrite H3; by rewrite <- !app_assoc|].
    destruct Hc as [[-> _]|[-> _]]; [rewrite app_assoc; by apply sublist_app|].
    by apply sublist_inserts_r.
  - destruct (reader_response_turn p b tl (reader_of s) r Hq Hl Er Hrun) as (-> & -> & _).
    rewrite (reader_event_response p b Hq). cbn [ir_frames reader_of]. traces.
    split_and!; try done. rewrite H6. by rewrite <- !app_assoc.
Qed.

(** The relay's part: a response is queued for every request it serves. *)
Lemma down_relay mtu t0 ann h s proc iface r :
  message_ready (rest (p_in s)) -> relay_reader_iter proc iface mtu (relay_of s) = Ret (Go r) ->
  Forall (fun m => Z.of_nat (length m) < 2 ^ 32) (items (view (rr_responses r))) ->
  up_ok mtu t0 h s -> down_ok ann h s ->
  down_ok ann (h ++ relay_event proc iface (p_kernel s) (next_message (rest (p_in s)))) (put_relay r s).
Proof.
  intros Hready Hrun Hshort (qs & ubs & cs & U1 & U2 & _)
    (ws & bs & fs & rs & H1 & H2 & H3 & H4 & H5 & H6 & H7 & H8 & H9 & H10).
  destruct (ready_msg ubs _ _ (inbound_short mtu qs ubs U2) U1 Hready) as (b & bs' & tl & -> & Er & Et & ->).
  apply Forall2_cons_inv_r in U2 as (q & qs' & Hq & U2 & ->).
  cbn [y_in wire_down p_frames p_responses y_down put_relay]. destruct q as [f|c].
  - pose proof Hq as (_ & _ & ->).
    destruct (relay_frame_turn proc iface mtu f tl (relay_of s) r Hq Er Hrun) as (_ & _ & E & _).
    exists ws, bs, fs, rs. rewrite relay_event_frame. cbn [y_in wire_down p_frames p_responses y_down put_relay].
    rewrite E. traces. by split_and!.
  - pose proof Hq as (_ & _ & Hc).
    destruct (relay_command_turn proc iface mtu c b tl (relay_of s) r Hq Er H9 Hrun) as (_ & _ & Ha & _ & m & Em & E).
    exists ws, bs, fs, (rs ++ [fst (handle_proxy_command proc c iface (p_kernel s))]).
    rewrite (relay_event_command proc iface (p_kernel s) c b Hc).
    cbn [y_in wire_down p_frames p_responses y_down put_relay]. rewrite E in *. traces.
    split_and!; try done; [rewrite fmap_app, H6; by rewrite <- !app_assoc|].
    apply Forall2_app; [done|]. by repeat constructor.
Qed.

Lemma down_step prof iface mtu t0 ann h s e s' :
  Z.of_nat mtu + 1 < 2 ^ 32 -> sys_step prof iface mtu h s e s' -> up_ok mtu t0 h s -> down_ok ann h s ->
  down_ok ann (h ++ e) s'.
Proof.
  intros Hmtu Hstep Hup Hdown.
  destruct Hstep as [f Hf|f d Hd|cmd t msg rq _ _ _|l1 l2 t cmd msg c _ _|b w _ _ _
    |d tl _|proc r Hm Hrun Hs|f c dropped Hf Hrun|b w Hrun|d tl Hwire|r Hm Hrun].
  all: try rewrite (app_nil_r h).
  7: by eapply down_relay.
  7: by eapply down_tap.
  7: by eapply down_relay_writer.
  8: by apply down_reader.
  all: destruct Hdown as (ws & bs & fs & rs & H1 & H2 & H3 & H4 & H5 & H6 & H7 & H8 & H9 & H10).
  all: exists ws, bs, fs, rs; cbn [y_in wire_down p_frames p_responses y_down put_device flow_down].
  - destruct (tx_frame_cases (device_of mtu s) f) as [_ ->]. case_decide; traces; by split_and!.
  - apply receive_turn in Hd as (Hi & _). cbn in Hi. traces. split_and!; try done.
    rewrite <- app_assoc. cbn. by rewrite <- Hi.
  - traces. by split_and!.
  - traces. by split_and!.
  - by split_and!.
  - by split_and!.
  - rewrite feed_rest, <- app_assoc, <- Hwire. by split_and!.
Qed.

(** ** Counters *)

(** Every frame that is lost is counted where it is lost. *)
Definition counts_ok (h : trace) (s : system) : Prop :=
  sent h `sublist_of` transmitted h /\ queued h `sublist_of` offered h /\
  (exists n, length (transmitted h) = (length (sent h) + n)%nat /\ advanced 0 (device_tx_dropped (y_stats s)) n) /\
  (exists n, length (offered h) = (length (queued h) + n)%nat /\ advanced 0 (p_dropped s) n) /\
  (exists n, length (arrived h) = (length (received h) + length (items (view (y_down s))) + n)%nat /\
     advanced 0 (ipc_rx_dropped (y_stats s)) n) /\
  advanced 0 (device_tx_frames (y_stats s)) (length (sent h)) /\
  advanced 0 (ipc_rx_frames (y_stats s)) (length (arrived h)) /\
  advanced 0 (device_rx_frames (y_stats s)) (length (received h)).

Lemma advanced_snoc x n : advanced 0 x n -> advanced 0 (bump x) (n + 1)%nat.
Proof.
  unfold advanced, bump, fetch_add, wrap. cbn [snd]. intros H. rewrite Zmod_mod, <- Zplus_mod_idemp_l, H.
  rewrite Zplus_mod_idemp_l. f_equal. lia.
Qed.

Lemma uadd_advanced prof x y n : advanced 0 x n -> uadd prof 64 x 1 = Ret y -> advanced 0 y (n + 1)%nat.
Proof.
  intros H E. apply advanced_snoc in H. unfold uadd in E. case_decide; [|destruct prof]; simplify_eq/=;
    unfold advanced, bump, fetch_add, wrap in *; cbn [snd] in *; by rewrite ?Zmod_mod in *.
Qed.

(** The counters the IPC writer leaves alone. *)
Definition other_counters (st : TunnelStats) : Z * Z * Z * Z * Z :=
  (ipc_rx_frames st, ipc_rx_dropped st, device_rx_frames st, device_tx_frames st, device_tx_dropped st).

Lemma drain_frames_counters fuel st :
  other_counters (iw_stats (drain_frames fuel st)) = other_counters (iw_stats st).
Proof.
  revert st. induction fuel as [|fuel IH]; intros st; cbn [drain_frames]; [done|].
  destruct (try_recv (iw_frames st)) as [[f| |] c]; [|done..].
  destruct (write_msg (encode_frame f) (iw_out st)) as [[] w]; [|done]. by rewrite IH.
Qed.

Lemma drain_control_counters fuel st : iw_stats (drain_control fuel st) = iw_stats st.
Proof.
  revert st. induction fuel as [|fuel IH]; intros st; cbn [drain_control]; [done|].
  destruct (try_recv (iw_control st)) as [[f| |] c]; [|done..].
  destruct (write_msg f (iw_out st)) as [[] w]; [|done]. by rewrite IH.
Qed.

Lemma writer_batch_counters st :
  other_counters (iw_stats (snd (writer_batch st))) = other_counters (iw_stats st).
Proof.
  unfold writer_batch. cbv zeta. destruct (aflush _) as [[] w]; cbn [snd iw_stats];
    by rewrite drain_control_counters, drain_frames_counters.
Qed.

Lemma ipc_writer_counters b st :
  other_counters (iw_stats (snd (ipc_writer_iter b st))) = other_counters (iw_stats st).
Proof.
  destruct b; cbn [ipc_writer_iter].
  - destruct (try_recv (iw_frames st)) as [[f| |] c]; [|done..].
    destruct (write_msg (encode_frame f) (iw_out st)) as [[] w]; [|done]. by rewrite writer_batch_counters.
  - destruct (try_recv (iw_control st)) as [[f| |] c]; [|done..].
    destruct (write_msg f (iw_out st)) as [[] w]; [|done]. by rewrite writer_batch_counters.
Qed.

Lemma counts_transmit mtu h s f :
  counts_ok h s ->
  counts_ok (h ++ Transmitted f :: if decide (0 < room (y_up s))%nat then [Sent f] else [])
    (put_device (tx_frame (device_of mtu s) f) s).
Proof.
  intros (H1 & H2 & (n & H3 & H3') & H4 & H5 & H6 & H7 & H8). unfold counts_ok.
  destruct (tx_frame_cases (device_of mtu s) f) as [C Hrx]. cbn [dev_tx dev_rx dev_stats device_of device_new] in C, Hrx.
  cbn [y_down y_stats p_dropped put_device]. rewrite Hrx.
  case_decide; destruct C as (_ & -> & _); traces; cbn [length]; split_and!; try done.
  - by apply sublist_app.
  - exists n. rewrite !length_app. cbn. split; [lia|done].
  - rewrite length_app. by apply advanced_snoc.
  - by apply sublist_inserts_r.
  - exists (n + 1)%nat. rewrite !length_app. cbn. split; [lia|by apply advanced_snoc].
Qed.

Lemma counts_tap h s prof f c dropped :
  tap_reader_iter prof (Ok f) (p_frames s, p_dropped s) = Ret (Go (c, dropped)) -> counts_ok h s ->
  counts_ok (h ++ Offered f :: if decide (0 < room (p_frames s))%nat then [Queued f] else [])
    (put_tap_reader c dropped s).
Proof.
  intros Hrun (H1 & H2 & H3 & (n & H4 & H4') & H5 & H6 & H7 & H8). apply tap_reader_turn in Hrun.
  unfold counts_ok. cbn [y_down y_stats p_dropped put_tap_reader].
  case_decide; destruct Hrun as [_ Hd]; traces; split_and!; try done.
  - by apply sublist_app.
  - exists n. rewrite !length_app, Hd. cbn. split; [lia|done].
  - by apply sublist_inserts_r.
  - exists (n + 1)%nat. rewrite !length_app. cbn. split; [lia|by eapply uadd_advanced].
Qed.

Lemma counts_reader ann h s r :
  message_ready (rest (y_in s)) -> ipc_reader_iter (reader_of s) = (true, r) -> down_ok ann h s -> counts_ok h s ->
  counts_ok (h ++ reader_event (next_message (rest (y_in s)))) (put_reader r s).
Proof.
  intros Hready Hrun (ws & bs & _ & _ & D1 & D2 & _) (H1 & H2 & H3 & H4 & (n & H5 & H5') & H6 & H7 & H8).
  destruct (ready_msg bs _ _ (encodes_short ws bs D2) D1 Hready) as (b & bs' & tl & -> & Er & Et & ->).
  apply Forall2_cons_inv_r in D2 as (q & ws' & [Hl Hq] & D2 & ->).
  unfold counts_ok. cbn [y_down y_stats p_dropped put_reader]. destruct q as [f|p].
  - subst b. destruct (reader_frame_turn f tl (reader_of s) r Hl Er Hrun) as (_ & _ & _ & Hc).
    change (reader_event (encode_frame f)) with [Arrived f]. cbn [ir_frames ir_stats reader_of] in Hc.
    traces. destruct Hc as [[Hi Hs]|[Hi Hs]]; rewrite Hi, Hs, !length_app; cbn [length];
      split_and!; try done; try by apply advanced_snoc.
    + exists n. split; [lia|done].
    + exists (n + 1)%nat. split; [lia|by apply advanced_snoc].
  - destruct (reader_response_turn p b tl (reader_of s) r Hq Hl Er Hrun) as (_ & -> & -> & _).
    rewrite (reader_event_response p b Hq). cbn [ir_frames ir_stats reader_of]. traces. split_and!; try done.
    by exists n.
Qed.

Lemma counts_step prof iface mtu ann h s e s' :
  sys_step prof iface mtu h s e s' -> down_ok ann h s -> counts_ok h s -> counts_ok (h ++ e) s'.
Proof.
  intros Hstep Hdown Hc.
  destruct Hstep as [f Hf|f d Hd|cmd t msg rq _ _ _|l1 l2 t cmd msg c _ _|b w Hrun _ _
    |d tl _|proc r Hm Hrun Hs|f c dropped Hf Hrun|b w Hrun|d tl Hwire|r Hm Hrun].
  all: try rewrite (app_nil_r h).
  - by apply counts_transmit.
  - apply receive_turn in Hd as (Hi & _ & Hs). cbn in Hi, Hs. unfold counts_ok in *.
    cbn [y_down y_stats p_dropped put_device]. rewrite Hs. rewrite Hi in Hc. cbn [length] in Hc.
    destruct Hc as (H1 & H2 & H3 & H4 & (n & H5 & H5') & H6 & H7 & H8). traces. split_and!; try done.
    + exists n. rewrite length_app. cbn. split; [lia|done].
    + rewrite length_app. by apply advanced_snoc.
  - unfold counts_ok in *. traces. exact Hc.
  - unfold counts_ok in *. traces. exact Hc.
  - pose proof (ipc_writer_counters b (writer_of s)) as E. rewrite Hrun in E. cbn [snd] in E.
    injection E as E1 E2 E3 E4 E5. unfold counts_ok in *. cbn [y_down y_stats p_dropped put_writer].
    by rewrite E1, E2, E3, E4, E5.
  - exact Hc.
  - destruct (relay_event_cases proc iface (p_kernel s) (next_message (rest (p_in s)))) as [(f & ->)|[(c & ->)| ->]];
      unfold counts_ok in *; traces; exact Hc.
  - by eapply counts_tap.
  - exact Hc.
  - exact Hc.
  - by apply (counts_reader ann).
Qed.

(** ** Proxy commands *)

(** Requests have distinct ids; a waiter is registered until the response to its request
    is read, which is then its answer. *)
Definition rpc_ok (h : trace) (s : system) : Prop :=
  next_request_id (y_requests s) = 1 + Z.of_nat (length (registered h)) /\
  cmd_id <$> (registered h).*2 = seqZ 1 (Z.of_nat (length (registered h))) /\
  Z.of_nat (length (registered h)) < 2 ^ 64 - 1 /\
  called h ++ (y_calling s).*1 ≡ₚ registered h /\
  Forall (fun x => resp_id x.2 = cmd_id x.1) (served h) /\
  (forall id t, pending_responses (y_requests s) !! id = Some t <->
     (exists c, (t, c) ∈ registered h /\ cmd_id c = id) /\ id ∉ resp_id <$> answered h) /\
  (forall t r, (t, r) ∈ y_answers s ->
     resp_id r ∈ resp_id <$> answered h /\ exists c, (t, c) ∈ registered h /\ (c, r) ∈ served h) /\
  NoDup (resp_id <$> (y_answers s).*2) /\
  (forall t c, (t, c) ∈ registered h -> cmd_id c ∈ resp_id <$> answered h ->
     exists r, (t, r) ∈ y_answers s /\ resp_id r = cmd_id c).

Lemma registered_id h x y :
  cmd_id <$> (registered h).*2 = seqZ 1 (Z.of_nat (length (registered h))) ->
  x ∈ registered h -> y ∈ registered h -> cmd_id x.2 = cmd_id y.2 -> x = y.
Proof.
  intros E [i Hi]%list_elem_of_lookup [j Hj]%list_elem_of_lookup Hid.
  assert (Hn : NoDup (cmd_id <$> (registered h).*2)) by (rewrite E; apply NoDup_seqZ).
  assert (i = j); [|congruence].
  apply (NoDup_lookup _ i j (cmd_id x.2) Hn); rewrite !list_lookup_fmap; [by rewrite Hi|by rewrite Hj, Hid].
Qed.

Lemma registered_bound h x :
  cmd_id <$> (registered h).*2 = seqZ 1 (Z.of_nat (length (registered h))) ->
  x ∈ registered h -> cmd_id x.2 < 1 + Z.of_nat (length (registered h)).
Proof.
  intros E Hx. assert (Hin : cmd_id x.2 ∈ cmd_id <$> (registered h).*2)
    by (apply list_elem_of_fmap; exists x.2; split; [done|]; apply list_elem_of_fmap; eauto).
  rewrite E in Hin. apply elem_of_seqZ in Hin. lia.
Qed.

(** A response on its way belongs to a request that was registered. *)
Lemma response_request mtu t0 h s r :
  up_ok mtu t0 h s -> rpc_ok h s -> r ∈ (served h).*2 ->
  exists t c, (t, c) ∈ registered h /\ (c, r) ∈ served h /\ resp_id r = cmd_id c.
Proof.
  intros (qs & bs & cs & _ & _ & _ & Hc & _) (_ & _ & _ & Hp & Hs & _) ([c r'] & Er & Hin)%list_elem_of_fmap.
  cbn in Er. subst r'.
  assert (Hcalled : c ∈ (called h).*2).
  { rewrite Hc. apply elem_of_app. left. apply list_elem_of_fmap. by exists (c, r). }
  apply list_elem_of_fmap in Hcalled as ([t c'] & Ec & Hcalled). cbn in Ec. subst c'. exists t, c.
  split_and!; [rewrite <- Hp; apply elem_of_app; by left|done|].
  rewrite Forall_elem_of in Hs. exact (Hs (c, r) Hin).
Qed.

Lemma answered_bound mtu t0 ann h s id :
  up_ok mtu t0 h s -> down_ok ann h s -> rpc_ok h s -> id ∈ resp_id <$> answered h ->
  id < 1 + Z.of_nat (length (registered h)).
Proof.
  intros Hup (ws & bs & fs & rs & _ & _ & _ & _ & _ & Hd & _) Hrpc (r & -> & Hr)%list_elem_of_fmap.
  destruct (response_request mtu t0 h s r Hup Hrpc) as (t & c & Hin & _ & ->).
  { rewrite Hd. apply elem_of_app. by left. }
  destruct Hrpc as (_ & E & _). by apply (registered_bound h (t, c)).
Qed.

Lemma rpc_register mtu t0 ann h s cmd t msg rq :
  register_command cmd t (y_requests s) = (Ok msg, rq) -> Z.of_nat (length (registered h)) < 2 ^ 64 - 2 ->
  up_ok mtu t0 h s -> down_ok ann h s -> rpc_ok h s ->
  rpc_ok (h ++ [Registered t (set_cmd_id cmd (next_request_id (y_requests s)))])
    (put_requests rq (y_calling s ++ [(t, set_cmd_id cmd (next_request_id (y_requests s)), msg)]) (y_control s) s).
Proof.
  intros Hreg Hn Hup Hdown Hrpc.
  pose proof (fun id => answered_bound mtu t0 ann h s id Hup Hdown Hrpc) as Hans.
  destruct Hrpc as (R1 & R2 & R3 & R4 & R5 & R6 & R7 & R8 & R9).
  unfold register_command, fetch_add in Hreg. injection Hreg as _ <-. rewrite R1 in *.
  set (n := length (registered h)) in *. set (c := set_cmd_id cmd (1 + Z.of_nat n)).
  assert (Hc : cmd_id c = 1 + Z.of_nat n) by by destruct cmd.
  pose proof (fun x => registered_bound h x R2) as Hb. fold n in Hb.
  assert (Hr : registered (h ++ [Registered t c]) = registered h ++ [(t, c)]) by by traces.
  unfold rpc_ok. cbn [y_requests y_calling y_answers put_requests next_request_id pending_responses].
  rewrite Hr, length_app. fold n. cbn [length]. traces. fold (registered h) in *. fold n.
  split_and!; try done.
  - rewrite wrap_small by (unfold fits; lia). lia.
  - rewrite !fmap_app, R2, Nat.add_1_r, seqZ_S. cbn. by rewrite Hc.
  - lia.
  - rewrite fmap_app, app_assoc, R4. done.
  - intros id t'. rewrite lookup_insert_Some, R6. split.
    + intros [[<- <-]|[Hne [(c' & Hin & Hid) Ha]]].
      * split; [exists c; split; [apply elem_of_app; right; constructor|done]|].
        intros Ha%Hans. lia.
      * split; [exists c'; split; [apply elem_of_app; by left|done]|done].
    + intros [(c' & [Hin|Hin]%elem_of_app & Hid) Ha].
      * right. split; [|eauto]. specialize (Hb _ Hin). cbn in Hb. lia.
      * apply list_elem_of_singleton in Hin. injection Hin as -> ->. left. by rewrite <- Hid.
  - intros t' r Hin. destruct (R7 t' r Hin) as (Ha & c' & Hc' & Hs). split; [done|].
    exists c'. split; [apply elem_of_app; by left|done].
  - intros t' c' [Hin|Hin]%elem_of_app Ha; [eauto|]. apply list_elem_of_singleton in Hin.
    injection Hin as -> ->. apply Hans in Ha. lia.
Qed.

(** The answer a response makes, if its request is still waited for. *)
Definition new_answer (s : system) (p : ProxyResponse) : list (token * ProxyResponse) :=
  match pending_responses (y_requests s) !! resp_id p with Some t => [(t, p)] | None => [] end.

Lemma new_answer_request h s p t c :
  rpc_ok h s -> (t, c) ∈ registered h -> resp_id p = cmd_id c ->
  new_answer s p = (if decide (resp_id p ∈ resp_id <$> answered h) then [] else [(t, p)]).
Proof.
  intros (_ & R2 & _ & _ & _ & R6 & _) Hreg Hid. unfold new_answer. case_decide as Hold.
  - destruct (pending_responses (y_requests s) !! resp_id p) eqn:E; [|done]. by apply R6 in E as [_ E].
  - assert (E : pending_responses (y_requests s) !! resp_id p = Some t) by (apply R6; eauto). by rewrite E.
Qed.

Lemma rpc_response mtu t0 h s p r :
  up_ok mtu t0 h s -> rpc_ok h s -> p ∈ (served h).*2 ->
  ir_pending r = delete (resp_id p) (pending_responses (y_requests s)) ->
  ir_answers r = y_answers s ++ new_answer s p -> rpc_ok (h ++ [Answered p]) (put_reader r s).
Proof.
  intros Hup Hrpc Hp Hdel Hadd. destruct (response_request mtu t0 h s p Hup Hrpc Hp) as (t & c & Hreg & Hserved & Hid).
  rewrite (new_answer_request h s p t c Hrpc Hreg Hid) in Hadd.
  destruct Hrpc as (R1 & R2 & R3 & R4 & R5 & R6 & R7 & R8 & R9).
  assert (Hans : answered (h ++ [Answered p]) = answered h ++ [p]) by by traces.
  unfold rpc_ok. cbn [y_requests y_calling y_answers put_reader next_request_id pending_responses].
  rewrite Hans, Hdel, Hadd, fmap_app. traces. cbn [fmap list_fmap].
  fold (registered h) in *. fold (answered h) in *. fold (served h) in *.
  split_and!; try done.
  - intros id t'. rewrite lookup_delete_Some, R6, not_elem_of_app, list_elem_of_singleton. naive_solver.
  - intros t' r' [Hin|Hin]%elem_of_app.
    + destruct (R7 t' r' Hin) as [H1 H2]. split; [apply elem_of_app; by left|done].
    + case_decide; [by apply not_elem_of_nil in Hin|]. apply list_elem_of_singleton in Hin. injection Hin as -> ->.
      split; [apply elem_of_app; right; constructor|eauto].
  - case_decide as Hold; [by rewrite app_nil_r|]. rewrite !fmap_app. apply list.NoDup_app.
    split_and!; [done| |apply NoDup_singleton].
    intros id (r' & -> & ([t' r''] & Er & Hr')%list_elem_of_fmap)%list_elem_of_fmap Hin%list_elem_of_singleton.
    cbn in Er, Hin. subst r''. apply Hold. rewrite <- Hin. by apply (R7 t' r').
  - intros t' c' Hin Hd. setoid_rewrite elem_of_app. apply elem_of_app in Hd as [Hd|Hd].
    { destruct (R9 t' c' Hin Hd) as (r' & H1 & H2). eauto. }
    apply list_elem_of_singleton in Hd. case_decide as Hold.
    + rewrite <- Hd in Hold. destruct (R9 t' c' Hin Hold) as (r' & H1 & H2). eauto.
    + assert (E : (t', c') = (t, c)) by (apply (registered_id h _ _ R2 Hin Hreg); cbn; congruence).
      injection E as -> ->. exists p. split; [right; constructor|done].
Qed.

Lemma rpc_reader mtu t0 ann h s r :
  message_ready (rest (y_in s)) -> ipc_reader_iter (reader_of s) = (true, r) ->
  up_ok mtu t0 h s -> down_ok ann h s -> rpc_ok h s ->
  rpc_ok (h ++ reader_event (next_message (rest (y_in s)))) (put_reader r s).
Proof.
  intros Hready Hrun Hup (ws & bs & fs & rs & D1 & D2 & _ & _ & _ & D6 & _) Hrpc.
  destruct (ready_msg bs _ _ (encodes_short ws bs D2) D1 Hready) as (b & bs' & tl & -> & Er & Et & ->).
  apply Forall2_cons_inv_r in D2 as (q & ws' & [Hl Hq] & D2 & ->). destruct q as [f|p].
  { subst b. destruct (reader_frame_turn f tl (reader_of s) r Hl Er Hrun) as (_ & Hp & Ha & _).
    change (reader_event (encode_frame f)) with [Arrived f]. unfold rpc_ok in *.
    cbn [y_requests y_calling y_answers put_reader next_request_id pending_responses].
    cbn [ir_pending ir_answers reader_of] in Hp, Ha. rewrite Hp, Ha. traces. exact Hrpc. }
  destruct (reader_response_turn p b tl (reader_of s) r Hq Hl Er Hrun) as (_ & _ & _ & Hp & Ha).
  rewrite (reader_event_response p b Hq). apply (rpc_response mtu t0); try done.
  rewrite D6. cbn. rewrite !elem_of_app, elem_of_cons. auto.
Qed.

Lemma rpc_step prof iface mtu t0 ann h s e s' :
  sys_step prof iface mtu h s e s' -> up_ok mtu t0 h s -> down_ok ann h s -> rpc_ok h s -> rpc_ok (h ++ e) s'.
Proof.
  intros Hstep Hup Hdown Hrpc.
  destruct Hstep as [f Hf|f d Hd|cmd t msg rq Hreg Hfits Hn|l1 l2 t cmd msg c Hcalling _|b w _ _ _
    |d tl _|proc r Hm Hrun Hs|f c dropped _ _|b w _|d tl _|r Hm Hrun].
  all: try rewrite (app_nil_r h).
  3: by apply (rpc_register mtu t0 ann).
  10: by apply (rpc_reader mtu t0 ann).
  3:{ destruct Hrpc as (R1 & R2 & R3 & R4 & R5). unfold rpc_ok.
      cbn [y_requests y_calling y_answers put_requests]. traces. split_and!; try done; try apply R5.
      rewrite <- R4, Hcalling, !fmap_app, <- app_assoc. cbn. f_equiv. by rewrite Permutation_middle. }
  5:{ destruct (relay_event_cases proc iface (p_kernel s) (next_message (rest (p_in s)))) as [(f & ->)|[(c & ->)| ->]];
        unfold rpc_ok in *; traces; [exact Hrpc| |exact Hrpc].
      destruct Hrpc as (R1 & R2 & R3 & R4 & R5 & R6 & R7 & R8 & R9). split_and!; try done.
      - apply Forall_app_2; [done|]. constructor; [apply handle_proxy_command_id|done].
      - intros t r' Hin. destruct (R7 t r' Hin) as (H1 & c' & H2 & H3). split; [done|].
        exists c'. split; [done|]. apply elem_of_app. by left. }
  all: try (case_decide); unfold rpc_ok in *; traces; exact Hrpc.
Qed.

(** ** Runs *)

Definition sys_inv (mtu : nat) (t0 : Tap) (ann : list bytes) (h : trace) (s : system) : Prop :=
  up_ok mtu t0 h s /\ down_ok ann h s /\ counts_ok h s /\ rpc_ok h s.

Lemma sys_inv_init mtu o po i pi tap k ann :
  rest pi = [] -> rest i = frame_msgs (encode_frame <$> ann) ->
  Forall (fun f => Z.of_nat (length (encode_frame f)) < 2 ^ 32) ann ->
  sys_inv mtu tap ann [] (system_init o po i pi tap k).
Proof.
  intros Hpi Hi Hann. assert (Hz : forall x, x = 0 -> advanced 0 x 0) by (intros ? ->; apply advanced_0).
  assert (Hc : forall n, items (view (mpsc_channel (A:=bytes) n)) = []) by (intros; by rewrite channel_view).
  split_and!.
  - exists [], [], []. cbn. rewrite Hpi, !Hc. split_and!; try done; try constructor. symmetry. apply app_nil_r.
  - exists (WFrame <$> ann), (encode_frame <$> ann), [], []. cbn. rewrite Hi, !Hc, !app_nil_r.
    pose proof (wire_frames ann []) as Hf. pose proof (wire_resps ann []) as Hr.
    pose proof (wire_encodes ann [] [] Hann) as He. cbn in Hf, Hr, He. rewrite !app_nil_r in *.
    rewrite Hf, Hr, channel_view. split_and!; try done; auto.
  - unfold counts_ok. cbn. rewrite Hc. split_and!; auto; try constructor; by (exists 0%nat; auto).
  - unfold rpc_ok. cbn. split_and!; try done; try (by constructor).
    + intros id t. rewrite lookup_empty. split; [done|]. intros [(c & Hin & _) _]. by apply not_elem_of_nil in Hin.
    + intros t r Hin. by apply not_elem_of_nil in Hin.
    + intros t c Hin. by apply not_elem_of_nil in Hin.
Qed.

Lemma sys_inv_step prof iface mtu t0 ann h s e s' :
  Z.of_nat mtu + 1 < 2 ^ 32 -> sys_inv mtu t0 ann h s -> sys_step prof iface mtu h s e s' ->
  sys_inv mtu t0 ann (h ++ e) s'.
Proof.
  intros Hmtu (Hup & Hdown & Hc & Hr) Hstep.
  assert (Ha : rx_alive (view (p_responses s)) = true)
    by (by destruct Hdown as (? & ? & ? & ? & _ & _ & _ & _ & _ & _ & _ & _ & ? & _)).
  split_and!; [by eapply up_step|by eapply down_step|by eapply counts_step|by eapply rpc_step].
Qed.

Lemma sys_inv_run prof iface mtu t0 ann s0 h s :
  Z.of_nat mtu + 1 < 2 ^ 32 -> sys_inv mtu t0 ann [] s0 -> sys_run prof iface mtu s0 h s ->
  sys_inv mtu t0 ann h s.
Proof. intros Hmtu H0 Hrun. induction Hrun; [done|]. by eapply sys_inv_step. Qed.

(** Nothing is on its way to the TAP device; nothing is on its way to smoltcp. *)
Definition quiet_up (s : system) : Prop :=
  rest (p_in s) = [] /\ wire_up s = [] /\ items (view (y_up s)) = [] /\ items (view (y_control s)) = [].
Definition quiet_down (s : system) : Prop :=
  rest (y_in s) = [] /\ wire_down s = [] /\ items (view (p_frames s)) = [] /\
  items (view (p_responses s)) = [] /\ items (view (y_down s)) = [].

Lemma no_messages bs : frame_msgs bs = [] -> bs = [].
Proof.
  destruct bs as [|b bs]; [done|]. rewrite frame_msgs_cons. intros [E _]%app_nil.
  apply (f_equal length) in E. unfold frame_msg in E. rewrite length_app, length_len_prefix in E. cbn in E. lia.
Qed.

(** All that was sent has been taken. *)
Lemma up_quiet mtu t0 h s :
  up_ok mtu t0 h s -> quiet_up s -> relayed h = sent h /\ (called h).*2 = (served h).*1.
Proof.
  intros (qs & bs & cs & H1 & H2 & H3 & H4 & H5 & _) (Q1 & Q2 & Q3 & Q4).
  rewrite Q1, Q2 in H1. cbn in H1. symmetry in H1. apply no_messages in H1. subst bs.
  apply Forall2_nil_inv_r in H2. subst qs. rewrite Q4 in H5. apply Forall2_nil_inv_r in H5. subst cs.
  rewrite H3, H4, Q3. cbn. by rewrite !app_nil_r.
Qed.

Lemma down_quiet ann h s :
  down_ok ann h s -> quiet_down s -> ann ++ queued h = arrived h /\ (served h).*2 = answered h.
Proof.
  intros (ws & bs & fs & rs & H1 & H2 & H3 & H4 & _ & H6 & H7 & _) (Q1 & Q2 & Q3 & Q4 & _).
  rewrite Q1, Q2 in H1. cbn in H1. symmetry in H1. apply no_messages in H1. subst bs.
  apply Forall2_nil_inv_r in H2. subst ws. rewrite Q4 in H7. apply Forall2_nil_inv_r in H7. subst rs.
  rewrite Q3 in H4. symmetry in H4. apply fmap_nil_inv in H4. subst fs.
  rewrite H3, H6. cbn. by rewrite !app_nil_r.
Qed.

Lemma down_order ann h s : down_ok ann h s -> received h ++ items (view (y_down s)) `sublist_of` ann ++ queued h.
Proof.
  intros (ws & bs & fs & rs & _ & _ & H3 & _ & _ & _ & _ & _ & _ & H10). rewrite H3. by apply sublist_inserts_r.
Qed.

Lemma all_answered mtu t0 ann h s :
  up_ok mtu t0 h s -> down_ok ann h s -> rpc_ok h s -> quiet_up s -> quiet_down s -> y_calling s = [] ->
  forall t c, (t, c) ∈ registered h -> exists r, (t, r) ∈ y_answers s /\ (c, r) ∈ served h.
Proof.
  intros Hup Hdown (R1 & R2 & R3 & R4 & R5 & R6 & R7 & R8 & R9) Qu Qd Qc t c Hin. rewrite Forall_elem_of in R5.
  destruct (up_quiet mtu t0 h s Hup Qu) as [_ E1]. destruct (down_quiet ann h s Hdown Qd) as [_ E2].
  rewrite Qc, app_nil_r in R4.
  assert (Hs : c ∈ (served h).*1).
  { rewrite <- E1. apply list_elem_of_fmap. exists (t, c). by rewrite R4. }
  apply list_elem_of_fmap in Hs as ([c' r] & Ec & Hs). cbn in Ec. subst c'.
  destruct (R9 t c Hin) as (r' & Ha & Hid).
  { pose proof (R5 _ Hs) as Hid. cbn in Hid. rewrite <- E2, <- Hid. apply list_elem_of_fmap. exists r.
    split; [done|]. apply list_elem_of_fmap. by exists (c, r). }
  exists r'. split; [done|]. destruct (R7 t r' Ha) as (_ & c' & H1 & H2).
  assert (E : (t, c') = (t, c)); [|by injection E as ->].
  apply (registered_id h _ _ R2 H1 Hin). cbn. rewrite <- Hid. symmetry. exact (R5 _ H2).
Qed.

(** ** Properties *)

(** A start of the tunnel: nothing has been sent to the proxy, and the library has yet to
    read the frames the proxy announced. *)
Definition starts (ann : list bytes) (i pi : AReader) : Prop :=
  rest pi = [] /\ rest i = frame_msgs (encode_frame <$> ann) /\
  Forall (fun f => Z.of_nat (length (encode_frame f)) < 2 ^ 32) ann.

(** C8: In every interleaving of the tasks of both processes, the frames written to the
    TAP device are frames smoltcp transmitted, unchanged and in order: they are the first
    ones of those the device queued (but empty ones), and all of them once nothing is on
    its way.  The frames the device did not queue are exactly those it counts as dropped. *)
Theorem tunnel_upstream (prof : profile) (iface : string) (mtu : nat) (o po : AWriter) (i pi : AReader)
  (tap : Tap) (k : Kernel) (ann : list bytes) (h : trace) (s : system)
  (Hmtu : Z.of_nat mtu + 1 < 2 ^ 32) (Hstart : starts ann i pi)
  (Hrun : sys_run prof iface mtu (system_init o po i pi tap k) h s) :
  tap_frames (p_tap s) = tap_frames tap ++ written_frames (relayed h) /\
  relayed h `prefix_of` sent h /\ sent h `sublist_of` transmitted h /\
  (exists n, length (transmitted h) = (length (sent h) + n)%nat /\
     advanced 0 (device_tx_dropped (y_stats s)) n) /\
  (quiet_up s -> relayed h = sent h).
Proof.
  destruct Hstart as (S1 & S2 & S3).
  destruct (sys_inv_run _ _ _ _ _ _ _ _ Hmtu (sys_inv_init mtu o po i pi tap k ann S1 S2 S3) Hrun)
    as (Hup & _ & Hc & _).
  pose proof Hup as (qs & bs & cs & _ & _ & H3 & _ & _ & _ & _ & _ & H9).
  split_and!; [done|eexists; exact H3|apply Hc|apply Hc|]. intros Hq. by apply (up_quiet mtu tap h s).
Qed.

(** C9: In every interleaving, smoltcp receives frames the TAP device offered (after those
    the proxy announced), unchanged and in order, none twice.  A frame is lost only when
    the proxy's queue or the device's queue is full, and is counted there: once nothing is
    on its way, the frames received and the two counters make up all that were offered. *)
Theorem tunnel_downstream (prof : profile) (iface : string) (mtu : nat) (o po : AWriter) (i pi : AReader)
  (tap : Tap) (k : Kernel) (ann : list bytes) (h : trace) (s : system)
  (Hmtu : Z.of_nat mtu + 1 < 2 ^ 32) (Hstart : starts ann i pi)
  (Hrun : sys_run prof iface mtu (system_init o po i pi tap k) h s) :
  received h `sublist_of` ann ++ offered h /\
  exists at_proxy at_device,
    advanced 0 (p_dropped s) at_proxy /\ advanced 0 (ipc_rx_dropped (y_stats s)) at_device /\
    (quiet_down s ->
     (length ann + length (offered h) = length (received h) + at_proxy + at_device)%nat).
Proof.
  destruct Hstart as (S1 & S2 & S3).
  destruct (sys_inv_run _ _ _ _ _ _ _ _ Hmtu (sys_inv_init mtu o po i pi tap k ann S1 S2 S3) Hrun)
    as (_ & Hdown & (_ & Hq & _ & (n & Hn & Hn') & (m & Hm & Hm') & _) & _).
  split.
  - transitivity (ann ++ queued h); [|by apply sublist_app].
    transitivity (received h ++ items (view (y_down s))); [apply sublist_inserts_r; reflexivity|].
    by apply down_order.
  - exists n, m. split_and!; [done|done|]. intros Hquiet. destruct (down_quiet ann h s Hdown Hquiet) as [E _].
    apply (f_equal length) in E. rewrite length_app in E. destruct Hquiet as (_ & _ & _ & _ & Hd).
    rewrite Hd in Hm. cbn in Hm. lia.
Qed.

(** C10: In every interleaving, and whatever else is sent, a caller of a proxy command is
    answered with the response the proxy gave to that caller's own request, at most once;
    and once nothing is on its way every caller has been answered. *)
Theorem tunnel_commands (prof : profile) (iface : string) (mtu : nat) (o po : AWriter) (i pi : AReader)
  (tap : Tap) (k : Kernel) (ann : list bytes) (h : trace) (s : system)
  (Hmtu : Z.of_nat mtu + 1 < 2 ^ 32) (Hstart : starts ann i pi)
  (Hrun : sys_run prof iface mtu (system_init o po i pi tap k) h s) :
  NoDup (cmd_id <$> (registered h).*2) /\
  (forall t r, (t, r) ∈ y_answers s ->
     exists c, (t, c) ∈ registered h /\ (c, r) ∈ served h /\ resp_id r = cmd_id c) /\
  NoDup (resp_id <$> (y_answers s).*2) /\
  (quiet_up s -> quiet_down s -> y_calling s = [] ->
   forall t c, (t, c) ∈ registered h -> exists r, (t, r) ∈ y_answers s /\ (c, r) ∈ served h).
Proof.
  destruct Hstart as (S1 & S2 & S3).
  destruct (sys_inv_run _ _ _ _ _ _ _ _ Hmtu (sys_inv_init mtu o po i pi tap k ann S1 S2 S3) Hrun)
    as (Hup & Hdown & _ & Hrpc).
  pose proof Hrpc as (R1 & R2 & R3 & R4 & R5 & R6 & R7 & R8 & R9).
  rewrite Forall_elem_of in R5. split_and!; [rewrite R2; apply NoDup_seqZ| |done|].
  - intros t r Hin. destruct (R7 t r Hin) as (_ & c & H1 & H2). exists c. split_and!; try done. exact (R5 _ H2).
  - by apply (all_answered mtu tap ann).
Qed.

End SystemSpec.

(** ** Witnesses: a run that takes a frame each way and serves a request *)

#[local] Existing Instances Reference.mpsc Reference.mpsc_laws ReferenceIo.io ReferenceIo.io_laws
  ReferencePipe.pipe ReferencePipe.pipe_laws ReferenceProxy.rtnetlink ReferenceProxy.tap
  ReferenceProxy.tap_laws response_serde response_serde_ok command_serde command_serde_ok.

Module Demo.

Definition out : AWriter := ([] : bytes).
Definition inp : AReader := ([] : bytes).
Definition no_frames : Tap := ([] : list bytes).
Definition no_routes : Kernel := ([] : list RouteMessage).
Definition start : system := system_init out out inp inp
  no_frames no_routes.

Definition relay_next (s : system) : system :=
  match relay_reader_iter (Ok []) "tap0" 1514 (relay_of s) with Ret (Go r) => put_relay r s | _ => s end.
Definition reader_next (s : system) : system := put_reader (snd (ipc_reader_iter (reader_of s))) s.

Definition s1 : system := put_device (tx_frame (device_of 1514 start) [xaa]) start.
Definition request : result bytes * requests := register_command (GetIfaceStats 0) 7%nat (y_requests s1).
Definition message : bytes := match fst request with Ok m => m | Err _ => [] end.
Definition s2 : system := put_requests (snd request) [(7%nat, GetIfaceStats 1, message)] (y_control s1) s1.
Definition s3 : system := put_requests (y_requests s2) [] (snd (send_control message (y_control s2))) s2.
Definition s4 : system := put_writer (snd (ipc_writer_iter FrameBranch (writer_of s3))) s3.
Definition s5 : system := flow_up (wire_up s4) [] s4.
Definition s6 : system := relay_next s5.
Definition s7 : system := relay_next s6.
Definition s8 : system :=
  match tap_reader_iter Debug (Ok [xbb]) (p_frames s7, p_dropped s7) with
  | Ret (Go (c, d)) => put_tap_reader c d s7
  | _ => s7
  end.
Definition s9 : system :=
  match relay_writer_iter TapBranch (relay_writer_of s8) with Go w => put_relay_writer w s8 | _ => s8 end.
Definition s10 : system := flow_down (wire_down s9) [] s9.
Definition s11 : system := reader_next s10.
Definition s12 : system := reader_next s11.
Definition s13 : system := put_device (snd (receive (device_of 1514 s12))) s12.

Definition happened : trace :=
  [Transmitted [xaa]; Sent [xaa]; Registered 7%nat (GetIfaceStats 1); Called 7%nat (GetIfaceStats 1);
   Relayed [xaa]; Served (GetIfaceStats 1) (RespIfaceStats 1 ∅); Offered [xbb]; Queued [xbb]; Arrived [xbb];
   Answered (RespIfaceStats 1 ∅); Received [xbb]].

End Demo.

Ltac eval_ready := split; [apply Nat.leb_le|apply Nat.leb_le]; vm_compute; reflexivity.

(** A frame and a request are queued. *)
Lemma demo_queued : sys_run Debug "tap0" 1514 Demo.start (take 4 Demo.happened) Demo.s3.
Proof.
  pose proof (run_start Debug "tap0" 1514 Demo.start) as R.
  eapply run_step in R; [|apply (step_transmit Debug "tap0" 1514 _ Demo.start [xaa]); apply Nat.leb_le; reflexivity].
  eapply run_step in R; [|apply (step_register Debug "tap0" 1514 _ Demo.s1 (GetIfaceStats 0) 7%nat Demo.message
    (snd Demo.request)); [vm_compute; reflexivity|split; [apply Nat.leb_le|]; vm_compute; reflexivity|vm_compute; reflexivity]].
  eapply run_step in R; [|apply (step_send Debug "tap0" 1514 _ Demo.s2 [] [] 7%nat (GetIfaceStats 1) Demo.message
    (snd (send_control Demo.message (y_control Demo.s2)))); vm_compute; reflexivity].
  match type of R with sys_run _ _ _ _ ?h _ => replace (take 4 Demo.happened) with h by (vm_compute; reflexivity) end.
  exact R.
Qed.

(** They have been written to the connection. *)
Lemma demo_run_up : sys_run Debug "tap0" 1514 Demo.start (take 4 Demo.happened) Demo.s4.
Proof.
  pose proof demo_queued as R.
  eapply run_step in R; [|apply (step_writer Debug "tap0" 1514 _ Demo.s3 FrameBranch
    (snd (ipc_writer_iter FrameBranch (writer_of Demo.s3)))); [vm_compute; reflexivity..|discriminate]].
  match type of R with sys_run _ _ _ _ ?h _ => replace (take 4 Demo.happened) with h by (vm_compute; reflexivity) end.
  exact R.
Qed.

(** The proxy has written its frame and its response. *)
Lemma demo_run_down : sys_run Debug "tap0" 1514 Demo.start (take 8 Demo.happened) Demo.s9.
Proof.
  pose proof demo_run_up as R.
  eapply run_step in R; [|apply (step_flow_up Debug "tap0" 1514 _ Demo.s4 (wire_up Demo.s4) []); by rewrite app_nil_r].
  eapply run_step in R; [|apply (step_relay Debug "tap0" 1514 _ Demo.s5 (Ok []) (relay_of Demo.s6));
    [eval_ready|vm_compute; reflexivity|constructor]].
  eapply run_step in R; [|apply (step_relay Debug "tap0" 1514 _ Demo.s6 (Ok []) (relay_of Demo.s7));
    [eval_ready|vm_compute; reflexivity|constructor; [vm_compute; reflexivity|constructor]]].
  eapply run_step in R; [|apply (step_tap Debug "tap0" 1514 _ Demo.s7 [xbb] (p_frames Demo.s8) (p_dropped Demo.s8));
    [split; [apply Nat.ltb_lt|apply Nat.leb_le]; reflexivity|vm_compute; reflexivity]].
  eapply run_step in R; [|apply (step_relay_writer Debug "tap0" 1514 _ Demo.s8 TapBranch (relay_writer_of Demo.s9));
    vm_compute; reflexivity].
  match type of R with sys_run _ _ _ _ ?h _ => replace (take 8 Demo.happened) with h by (vm_compute; reflexivity) end.
  exact R.
Qed.

(** All has been received. *)
Lemma demo_run : sys_run Debug "tap0" 1514 Demo.start Demo.happened Demo.s13.
Proof.
  pose proof demo_run_down as R.
  eapply run_step in R; [|apply (step_flow_down Debug "tap0" 1514 _ Demo.s9 (wire_down Demo.s9) []); by rewrite app_nil_r].
  eapply run_step in R; [|apply (step_reader Debug "tap0" 1514 _ Demo.s10 (reader_of Demo.s11));
    [eval_ready|vm_compute; reflexivity]].
  eapply run_step in R; [|apply (step_reader Debug "tap0" 1514 _ Demo.s11 (reader_of Demo.s12));
    [eval_ready|vm_compute; reflexivity]].
  eapply run_step in R; [|apply (step_receive Debug "tap0" 1514 _ Demo.s12 [xbb] (snd (receive (device_of 1514 Demo.s12))));
    vm_compute; reflexivity].
  match type of R with sys_run _ _ _ _ ?h _ => replace Demo.happened with h by (vm_compute; reflexivity) end.
  exact R.
Qed.

Lemma demo_starts : starts [] Demo.inp Demo.inp.
Proof. by split_and!. Qed.

Lemma tunnel_upstream_witness :
  tap_frames (p_tap Demo.s13) = [[xaa]] /\ advanced 0 (device_tx_dropped (y_stats Demo.s13)) 0.
Proof.
  destruct (tunnel_upstream Debug "tap0" 1514 Demo.out Demo.out Demo.inp
    Demo.inp Demo.no_frames Demo.no_routes [] Demo.happened Demo.s13) as (H1 & _ & _ & (n & Hn & Hd) & _).
  - reflexivity.
  - exact demo_starts.
  - exact demo_run.
  - split; [exact H1|]. destruct n; [exact Hd|discriminate Hn].
Defined.

Lemma tunnel_downstream_witness : received Demo.happened = [[xbb]] /\ p_dropped Demo.s13 = 0.
Proof.
  destruct (tunnel_downstream Debug "tap0" 1514 Demo.out Demo.out Demo.inp
    Demo.inp Demo.no_frames Demo.no_routes [] Demo.happened Demo.s13) as (H1 & n & m & Hn & Hm & Hq).
  - reflexivity.
  - exact demo_starts.
  - exact demo_run.
  - split; [reflexivity|]. vm_compute. reflexivity.
Defined.

Lemma tunnel_commands_witness :
  exists r, (7%nat, r) ∈ y_answers Demo.s13 /\ (GetIfaceStats 1, r) ∈ served Demo.happened.
Proof.
  destruct (tunnel_commands Debug "tap0" 1514 Demo.out Demo.out Demo.inp
    Demo.inp Demo.no_frames Demo.no_routes [] Demo.happened Demo.s13) as (_ & _ & _ & Hall).
  - reflexivity.
  - exact demo_starts.
  - exact demo_run.
  - apply Hall; [split_and!; vm_compute; reflexivity..|vm_compute; reflexivity|].
    apply list_elem_of_singleton. reflexivity.
Defined.
