(* ===== verification/SystemLive.v ===== *)
(** * Turns that succeed

    Which turns of the tasks of [System] can be taken, as long as the connection and the TAP
    device take what is written to them; and the work of the tasks, the steps that bring no
    new frame and no new request into the tunnel.  [SystemSettle] concludes that the work
    ends. *)

From S2P Require Import Prelude Net Stream Protocol AsyncIo Externals Stack StackPoll StackData.
From S2P Require Import Socket Device Text ProcNet Ipc IpcSpec Relay RelaySpec Path TapPath SerdeRef.
From S2P Require Import System SystemSpec.
#[local] Open Scope Z_scope.

Section SystemLive.
Context {M : Mpsc} {ML : MpscLaws} {A : AsyncIo} {AL : AsyncIoLaws} {P : Pipe} {PL : PipeLaws}
  {RT : Rtnetlink} {TD : TapDevice} {TL : TapLaws} {SR : Serde ProxyResponse}
  {SRok : SerdeOk ProxyResponse} {SC : Serde ProxyCommand} {SCok : SerdeOk ProxyCommand}.

(** ** The ends of the queues *)

Lemma try_send_ends (a : bytes) (c : chan bytes) : same_ends c (snd (try_send a c)).
Proof.
  pose proof (try_send_cases a c) as T. unfold same_ends.
  by destruct (try_send a c) as [[] c']; destruct T as [Hv _]; cbn [snd]; rewrite Hv.
Qed.

Lemma try_recv_ends (c : chan bytes) : same_ends c (snd (try_recv c)).
Proof.
  destruct (try_recv c) as [[a| |] c'] eqn:E; chan_facts; cbn; [done|by apply view_same_ends..].
Qed.

Lemma drain_frames_ends fuel st : iw_control (drain_frames fuel st) = iw_control st.
Proof.
  revert st. induction fuel as [|fuel IH]; intros st; cbn [drain_frames]; [done|].
  destruct (try_recv (iw_frames st)) as [[f| |] c]; [|done..].
  destruct (write_msg (encode_frame f) (iw_out st)) as [[] w]; [|done]. by rewrite IH.
Qed.

Lemma drain_control_ends fuel st : same_ends (iw_control st) (iw_control (drain_control fuel st)).
Proof.
  revert st. induction fuel as [|fuel IH]; intros st; cbn [drain_control]; [done|].
  pose proof (try_recv_ends (iw_control st)) as He.
  destruct (try_recv (iw_control st)) as [[f| |] c]; [|done..].
  destruct (write_msg f (iw_out st)) as [[] w]; [|done]. eapply same_ends_trans; [exact He|].
  exact (IH (MkWriter (iw_frames st) c w (iw_stats st) (iw_dead st))).
Qed.

Lemma writer_batch_ends st : same_ends (iw_control st) (iw_control (snd (writer_batch st))).
Proof.
  unfold writer_batch. cbv zeta. set (st1 := drain_frames _ st).
  pose proof (drain_control_ends (write_fuel (iw_control st1)) st1) as He. unfold st1 at 1 in He.
  rewrite drain_frames_ends in He. by destruct (aflush _) as [[] w].
Qed.

Lemma ipc_writer_ends b st : same_ends (iw_control st) (iw_control (snd (ipc_writer_iter b st))).
Proof.
  destruct b; cbn [ipc_writer_iter].
  - destruct (try_recv (iw_frames st)) as [[f| |] c]; [|done..].
    destruct (write_msg (encode_frame f) (iw_out st)) as [[] w]; [|done].
    exact (writer_batch_ends (MkWriter c (iw_control st) w (add_ipc_tx (iw_stats st)) (iw_dead st))).
  - pose proof (try_recv_ends (iw_control st)) as He.
    destruct (try_recv (iw_control st)) as [[f| |] c]; [|done..].
    destruct (write_msg f (iw_out st)) as [[] w]; [|done]. eapply same_ends_trans; [exact He|].
    exact (writer_batch_ends (MkWriter (iw_frames st) c w (iw_stats st) (iw_dead st))).
Qed.

Lemma relay_ends proc iface mtu st r :
  relay_reader_iter proc iface mtu st = Ret (Go r) -> same_ends (rr_responses st) (rr_responses r).
Proof.
  unfold relay_reader_iter. destruct (aread_exact 4 (rr_in st)) as [[lb|] r1]; [|done].
  case_decide; [by intros [= <-]|]. destruct (aread_exact _ r1) as [[body|] r2]; [|done].
  unfold relay_dispatch. cbn [rr_in rr_tap rr_kernel rr_responses].
  destruct (decode_message body) as [[p|f]|]; [|..|by intros [= <-]].
  - destruct (decode_control p); [|by intros [= <-]].
    destruct (handle_proxy_command _ _ _ _) as [resp k]. destruct (encode_control resp) as [m|]; [|done].
    pose proof (try_send_ends m (rr_responses st)) as He.
    by destruct (try_send m (rr_responses st)) as [[] c]; [intros [= <-]|..|intros [= <-]].
  - by destruct (tap_write_all f (rr_tap st)) as [[] t]; [intros [= <-]|].
Qed.

Lemma reader_ends st r :
  ipc_reader_iter st = (true, r) -> same_ends (ir_frames st) (ir_frames r) /\ ir_dead r = ir_dead st.
Proof.
  unfold ipc_reader_iter. destruct (aread_exact 4 (ir_in st)) as [[lb|] r1]; [|done].
  destruct (aread_exact _ r1) as [[body|] r2]; [|done]. unfold reader_dispatch.
  destruct (decode_message body) as [[p|f]|]; [|..|by intros [= <-]].
  - destruct (decode_control p) as [resp|]; [|by intros [= <-]].
    destruct (ir_pending st !! resp_id resp); by intros [= <-].
  - pose proof (try_send_ends f (ir_frames st)) as He.
    by destruct (try_send f (ir_frames st)) as [[] c]; [intros [= <-]..|].
Qed.

(** The queues whose other end must be there for the tasks to go on. *)
Definition live_ok (s : system) : Prop :=
  rx_alive (view (y_control s)) = true /\ (0 < cap (view (y_control s)))%nat /\
  (0 < cap (view (p_responses s)))%nat /\ rx_alive (view (y_down s)) = true /\ y_dead s = false.

Lemma live_step prof iface mtu h s e s' : sys_step prof iface mtu h s e s' -> live_ok s -> live_ok s'.
Proof.
  intros Hstep (L1 & L2 & L3 & L4 & L5).
  destruct Hstep as [f Hf|f d Hd|cmd t msg rq Hreg Hfits _|l1 l2 t cmd msg c Hcalling Hsend|b w Hrun Hw Hb
    |d tl Hwire|proc r Hm Hrun _|f c dropped _ _|b w Hrun|d tl _|r _ Hrun]; try done.
  - destruct (tx_frame_cases (device_of mtu s) f) as [_ E].
    unfold live_ok. cbn [y_control p_responses y_down y_dead put_device]. rewrite E. by split_and!.
  - unfold receive in Hd. pose proof (try_recv_ends (y_down s)) as (_ & _ & E).
    change (dev_rx (device_of mtu s)) with (y_down s) in Hd.
    destruct (try_recv (y_down s)) as [[] c]; try done. injection Hd as <- <-.
    split_and!; try done. by rewrite <- L4.
  - unfold send_control in Hsend. pose proof (try_send_ends msg (y_control s)) as (E1 & _ & E2).
    destruct (try_send msg (y_control s)) as [[] c1]; try done. injection Hsend as <-. cbn in E1, E2.
    unfold live_ok. cbn [y_control p_responses y_down y_dead put_requests]. rewrite E1, E2. by split_and!.
  - pose proof (ipc_writer_ends b (writer_of s)) as (E1 & _ & E2). rewrite Hrun in E1, E2. cbn in E1, E2.
    unfold live_ok. cbn [y_control p_responses y_down y_dead put_writer]. rewrite E1, E2. by split_and!.
  - apply relay_ends in Hrun as (E1 & _). cbn in E1. unfold live_ok.
    cbn [y_control p_responses y_down y_dead put_relay]. rewrite E1. by split_and!.
  - apply relay_writer_ends in Hrun as (E1 & _). cbn in E1. unfold live_ok.
    cbn [y_control p_responses y_down y_dead put_relay_writer]. rewrite E1. by split_and!.
  - apply reader_ends in Hrun as [(_ & _ & E1) E2]. cbn in E1, E2. unfold live_ok.
    cbn [y_control p_responses y_down y_dead put_reader]. rewrite E1, E2. by split_and!.
Qed.

Lemma live_init o po i pi tap k : live_ok (system_init o po i pi tap k).
Proof.
  unfold live_ok. cbn [y_control p_responses y_down y_dead system_init]. rewrite !channel_view. cbn.
  unfold CONTROL_CHANNEL_CAPACITY, RESPONSE_CHANNEL_CAPACITY. split_and!; done || lia.
Qed.

Lemma send_live msg (c : chan bytes) :
  rx_alive (view c) = true -> (length (items (view c)) < cap (view c))%nat ->
  exists c', send_control msg c = (Ready (Ok ()), c').
Proof.
  intros Ha Hr. unfold send_control. pose proof (try_send_room msg c) as T. unfold room in T. rewrite Ha in T.
  destruct (try_send msg c) as [[] c']; [eauto|lia|]. by destruct T.
Qed.

Lemma ready_frame b tl : Z.of_nat (length b) < 2 ^ 32 -> message_ready (frame_msg b ++ tl).
Proof.
  intros Hb. destruct (frame_msg_take b tl) as [Ht _]. unfold message_ready. rewrite Ht, len_prefix_val by done.
  unfold frame_msg. rewrite !length_app, length_len_prefix. lia.
Qed.

(** ** Turns that must succeed while the connection and the TAP device do *)

Context (Hwrite : forall b w, exists w', awrite_all b w = (Ok (), w'))
  (Hflush : forall w, exists w', aflush w = (Ok (), w'))
  (Htap : forall f t, exists t', tap_write_all f t = (Ok (), t')).

Lemma try_recv_some (c : chan bytes) : items (view c) <> [] -> exists a c', try_recv c = (RecvOk a, c').
Proof. intros Hne. destruct (try_recv c) as [[a| |] c'] eqn:E; [eauto|chan_facts; done..]. Qed.

Lemma write_msg_live msg w : exists w', write_msg msg w = (true, w').
Proof.
  unfold write_msg. destruct (Hwrite (len_prefix msg) w) as [w1 ->]. destruct (Hwrite msg w1) as [w2 ->]. eauto.
Qed.

Lemma drain_frames_live fuel st : iw_dead (drain_frames fuel st) = iw_dead st.
Proof.
  revert st. induction fuel as [|fuel IH]; intros st; cbn [drain_frames]; [done|].
  destruct (try_recv (iw_frames st)) as [[f| |] c]; [|done..].
  destruct (write_msg_live (encode_frame f) (iw_out st)) as [w ->]. by rewrite IH.
Qed.

Lemma drain_control_live fuel st : iw_dead (drain_control fuel st) = iw_dead st.
Proof.
  revert st. induction fuel as [|fuel IH]; intros st; cbn [drain_control]; [done|].
  destruct (try_recv (iw_control st)) as [[f| |] c]; [|done..].
  destruct (write_msg_live f (iw_out st)) as [w ->]. by rewrite IH.
Qed.

Lemma writer_batch_live st : exists w, writer_batch st = (true, w) /\ iw_dead w = iw_dead st.
Proof.
  unfold writer_batch. cbv zeta. destruct (Hflush (iw_out (drain_control
    (write_fuel (iw_control (drain_frames (write_fuel (iw_frames st)) st)))
    (drain_frames (write_fuel (iw_frames st)) st)))) as [w ->].
  eexists. split; [reflexivity|]. cbn [iw_dead]. by rewrite drain_control_live, drain_frames_live.
Qed.

Lemma ipc_writer_live b st :
  match b with
  | FrameBranch => items (view (iw_frames st)) <> []
  | ControlBranch => items (view (iw_control st)) <> []
  end -> exists w, ipc_writer_iter b st = (true, w) /\ iw_dead w = iw_dead st.
Proof.
  destruct b; intros (a & c & E)%try_recv_some; cbn [ipc_writer_iter]; rewrite E.
  - destruct (write_msg_live (encode_frame a) (iw_out st)) as [w ->].
    exact (writer_batch_live (MkWriter c (iw_control st) w (add_ipc_tx (iw_stats st)) (iw_dead st))).
  - destruct (write_msg_live a (iw_out st)) as [w ->].
    exact (writer_batch_live (MkWriter (iw_frames st) c w (iw_stats st) (iw_dead st))).
Qed.

Lemma write_framed_live msg w : exists w', write_framed msg w = (Ok (), w').
Proof.
  unfold write_framed. destruct (Hwrite (len_prefix msg) w) as [w1 ->]. destruct (Hwrite msg w1) as [w2 ->]. eauto.
Qed.

Lemma drain_queue_live fuel c w : exists c' w', drain_queue fuel c w = (Ok (), c', w').
Proof.
  revert c w. induction fuel as [|fuel IH]; intros c w; cbn [drain_queue]; [eauto|].
  destruct (try_recv c) as [[msg| |] c1]; [|eauto..].
  destruct (write_framed_live msg w) as [w1 ->]. apply IH.
Qed.

Lemma relay_batch_live st : exists st', relay_writer_batch st = Go st'.
Proof.
  unfold relay_writer_batch.
  destruct (drain_queue_live (write_fuel (rw_frames st)) (rw_frames st) (rw_out st)) as (c & w & ->).
  destruct (drain_queue_live (write_fuel (rw_responses st)) (rw_responses st) w) as (c' & w' & ->).
  destruct (Hflush w') as [w'' ->]. eauto.
Qed.

Lemma relay_writer_live b st :
  match b with
  | TapBranch => items (view (rw_frames st)) <> []
  | ResponseBranch => items (view (rw_responses st)) <> []
  end -> exists st', relay_writer_iter b st = Go st'.
Proof.
  destruct b; intros (a & c & E)%try_recv_some; cbn [relay_writer_iter]; rewrite E;
    destruct (write_framed_live a (rw_out st)) as [w ->]; apply relay_batch_live.
Qed.

(** ** Work: the steps that bring nothing new into the tunnel *)

Context (prof : profile) (iface : string) (mtu : nat) (t0 : Tap) (ann : list bytes)
  (Hmtu : Z.of_nat mtu + 1 < 2 ^ 32) (reqs : list (token * ProxyCommand))
  (Hshort : forall t c k, (t, c) ∈ reqs -> exists proc, forall m,
     encode_control (fst (handle_proxy_command proc c iface k)) = Ok m -> Z.of_nat (length m) < 2 ^ 32).

Definition input_free (e : trace) : Prop := transmitted e = [] /\ offered e = [] /\ registered e = [].

Definition work (x y : trace * system) : Prop :=
  exists e, sys_step prof iface mtu x.1 x.2 e y.2 /\ input_free e /\ y.1 = x.1 ++ e.

Definition good (x : trace * system) : Prop :=
  sys_inv mtu t0 ann x.1 x.2 /\ live_ok x.2 /\ registered x.1 = reqs.

Lemma good_work x y : good x -> work x y -> good y.
Proof.
  intros (Hi & Hl & Hr) (e & Hstep & (_ & _ & F) & E).
  split_and!; [rewrite E; by eapply sys_inv_step|by eapply live_step|].
  rewrite E. unfold registered in *. by rewrite omap_app, F, app_nil_r.
Qed.

Lemma free_nil : input_free [].
Proof. by split_and!. Qed.

(** ** Steps that can be taken *)

Lemma relay_go s q b tl :
  inbound_encodes mtu q b -> (forall c, q = InCommand c -> exists t, (t, c) ∈ reqs) ->
  rest (p_in s) = frame_msg b ++ tl -> rx_alive (view (p_responses s)) = true ->
  (length (items (view (p_responses s))) < cap (view (p_responses s)))%nat ->
  Forall (fun m => Z.of_nat (length m) < 2 ^ 32) (items (view (p_responses s))) ->
  exists proc r, relay_reader_iter proc iface mtu (relay_of s) = Ret (Go r) /\ rest (rr_in r) = tl /\
    Forall (fun m => Z.of_nat (length m) < 2 ^ 32) (items (view (rr_responses r))).
Proof.
  intros (Hm & Hl & Henc) Hreq H1 Ha Hr Hs. assert (Hb : (0 < length b)%nat).
  { destruct q; [subst b; cbn; lia|by eapply encode_control_nonempty]. }
  destruct q as [f|c].
  - destruct (relay_iter_msg (Ok []) iface mtu b _ (relay_of s) ltac:(lia) Hl H1) as (i & Hi & E). subst b.
    unfold relay_dispatch in E. change (decode_message (encode_frame f)) with (Ok (Frame f)) in E.
    cbv beta iota zeta in E. cbn [rr_tap rr_in rr_kernel rr_responses] in E.
    destruct (Htap f (p_tap s)) as [t Et]. cbn [rr_tap relay_of] in E. rewrite Et in E. eauto.
  - destruct (Hreq c eq_refl) as [tk Htk]. destruct (Hshort tk c (p_kernel s) Htk) as [proc Hsh]. exists proc.
    destruct (relay_iter_msg proc iface mtu b _ (relay_of s) ltac:(lia) Hl H1) as (i & Hi & E).
    destruct (dispatch_command proc iface c b (MkRelayReader i (rr_tap (relay_of s)) (rr_kernel (relay_of s))
      (rr_responses (relay_of s))) Henc Ha Hr) as (m & ch & E' & Em & Hit & _). rewrite E' in E.
    eexists. split; [exact E|]. cbn [rr_in rr_responses relay_of] in *. split; [done|]. rewrite Hit.
    apply Forall_app_2; [done|]. constructor; [by apply Hsh|done].
Qed.

Lemma live_run s0 h s : live_ok s0 -> sys_run prof iface mtu s0 h s -> live_ok s.
Proof. intros Hl Hrun. induction Hrun; [done|]. by eapply live_step. Qed.

(** Work neither transmits frames nor registers requests. *)
Lemma work_inputs x y : rtc work x y -> sent y.1 = sent x.1 /\ registered y.1 = registered x.1.
Proof.
  induction 1 as [x|x y z (e & Hstep & (F1 & F2 & F3) & E) _ [IH1 IH2]]; [done|]. rewrite IH1, IH2, E.
  assert (Hs : sent e = []).
  { destruct Hstep; try done.
    - destruct (relay_event_cases proc iface (p_kernel x.2) (next_message (rest (p_in x.2)))) as [(f & ->)|[(c & ->)| ->]]; done.
    - destruct (reader_event_cases (next_message (rest (y_in x.2)))) as [(f & ->)|[(c & ->)| ->]]; done. }
  unfold sent, registered in *. rewrite !omap_app, Hs, F3, !app_nil_r. done.
Qed.

End SystemLive.
