(* ===== verification/SystemSettle.v ===== *)
(** * The tunnel settles

    Once nothing new comes in, the tasks run out of work: every step they can take brings
    what is on its way further, whichever task the scheduler picks, and as long as
    something is on its way some task can take a step.  So every schedule ends with
    nothing on its way. *)

From S2P Require Import Prelude Net Stream Protocol AsyncIo Externals Stack StackPoll StackData.
From S2P Require Import Socket Device Text ProcNet Ipc IpcSpec Relay RelaySpec Path TapPath SerdeRef.
From S2P Require Import System SystemSpec SystemLive.
#[local] Open Scope Z_scope.

Section Load.
Context {M : Mpsc} {ML : MpscLaws} {A : AsyncIo} {AL : AsyncIoLaws} {P : Pipe} {PL : PipeLaws}
  {RT : Rtnetlink} {TD : TapDevice} {TL : TapLaws} {SR : Serde ProxyResponse}
  {SRok : SerdeOk ProxyResponse} {SC : Serde ProxyCommand} {SCok : SerdeOk ProxyCommand}.

(** ** How much is on its way, weighed by how far it has to go *)

Definition on_wire (m : bytes) : nat := 4 + length m.
Definition weigh (extra : nat) (ms : list bytes) : nat := sum_list_with (fun m => 2 * on_wire m + extra)%nat ms.

Definition load_up (s : system) : nat :=
  weigh 2 (y_calling s).*2 + weigh 1 (items (view (y_control s))) + weigh 1 (encode_frame <$> items (view (y_up s))) +
  2 * length (wire_up s) + length (rest (p_in s)).
Definition load_down (s : system) : nat :=
  weigh 1 (items (view (p_frames s))) + weigh 1 (items (view (p_responses s))) +
  2 * length (wire_down s) + length (rest (y_in s)) + length (items (view (y_down s))).

(** A command on its way up makes a response on its way down, of any length. *)
Definition lighter (s' s : system) : Prop :=
  (load_up s' < load_up s)%nat \/ load_up s' = load_up s /\ (load_down s' < load_down s)%nat.

Lemma lighter_wf : well_founded lighter.
Proof.
  intros s. remember (load_up s) as u eqn:Eu. revert s Eu. induction u as [u IHu] using lt_wf_ind.
  intros s Eu. remember (load_down s) as d eqn:Ed. revert s Eu Ed. induction d as [d IHd] using lt_wf_ind.
  intros s Eu Ed. constructor. intros s' [Hu|[Hu Hd]]; [by eapply IHu; [|reflexivity]; lia|].
  eapply IHd; [|congruence|reflexivity]. lia.
Qed.

Lemma weigh_app k l1 l2 : weigh k (l1 ++ l2) = (weigh k l1 + weigh k l2)%nat.
Proof. apply sum_list_with_app. Qed.

Lemma weigh_frame_msgs k ms : weigh k ms = (2 * length (frame_msgs ms) + k * length ms)%nat.
Proof.
  induction ms as [|m ms IH]; [cbn; lia|]. rewrite frame_msgs_cons, length_app. unfold frame_msg.
  rewrite length_app, length_len_prefix. cbn [length]. rewrite Nat.mul_succ_r. unfold weigh, on_wire in *.
  cbn [sum_list_with]. lia.
Qed.

Lemma weigh_nil k ms : weigh k ms = 0%nat -> ms = [].
Proof. destruct ms as [|m ms]; [done|]. unfold weigh, on_wire. cbn. lia. Qed.

(** ** Each step makes the load lighter *)

Lemma lighter_receive mtu s f d : receive (device_of mtu s) = (Some f, d) -> lighter (put_device d s) s.
Proof.
  intros (Hi & Ht & _)%receive_turn. cbn in Hi, Ht. right.
  unfold load_up, load_down. cbn [y_calling y_control y_up wire_up p_in p_frames p_responses wire_down y_in y_down put_device].
  rewrite Hi, Ht. cbn [length]. split; [done|lia].
Qed.

Lemma lighter_send s l1 l2 t cmd msg c :
  y_calling s = l1 ++ (t, cmd, msg) :: l2 -> send_control msg (y_control s) = (Ready (Ok ()), c) ->
  lighter (put_requests (y_requests s) (l1 ++ l2) c s) s.
Proof.
  intros Hc Hs%sent_control. left. unfold load_up. cbn [y_calling y_control y_up wire_up p_in put_requests].
  rewrite Hc, Hs, !fmap_app. cbn [fmap list_fmap snd]. rewrite !weigh_app. unfold weigh. cbn. lia.
Qed.

Lemma lighter_writer s b w :
  ipc_writer_iter b (writer_of s) = (true, w) -> iw_dead w = false ->
  match b with
  | FrameBranch => items (view (y_up s)) <> []
  | ControlBranch => items (view (y_control s)) <> []
  end -> lighter (put_writer w s) s.
Proof.
  intros Hrun Hd Hb. destruct (ipc_writer_iter_ok b (writer_of s) w Hrun Hd Hb) as (E1 & E2 & E3 & _).
  cbn [iw_frames iw_control iw_out writer_of] in E3. apply wire_grows in E3. left. unfold load_up.
  cbn [y_calling y_control y_up wire_up p_in put_writer]. rewrite E1, E2, E3, length_app, !weigh_frame_msgs.
  destruct b; rewrite ?frame_msgs_app, ?length_app, length_fmap; cbn [fmap list_fmap frame_msgs concat length].
  - destruct (items (view (y_up s))); [done|cbn; lia].
  - destruct (items (view (y_control s))) as [|m ms]; [done|].
    change (take 1 (m :: ms)) with [m]. change (drop 1 (m :: ms)) with ms. rewrite !frame_msgs_cons, !length_app. cbn. lia.
Qed.

Lemma lighter_flow_up s d tl : wire_up s = d ++ tl -> d <> [] -> lighter (flow_up d tl s) s.
Proof.
  intros Hw Hd. left. unfold load_up. cbn [y_calling y_control y_up wire_up p_in flow_up].
  rewrite feed_rest, Hw, !length_app. destruct d; [done|cbn; lia].
Qed.

Lemma lighter_flow_down s d tl : wire_down s = d ++ tl -> d <> [] -> lighter (flow_down d tl s) s.
Proof.
  intros Hw Hd. right. unfold load_up, load_down.
  cbn [y_calling y_control y_up wire_up p_in p_frames p_responses wire_down y_in y_down flow_down].
  rewrite feed_rest, Hw, !length_app. split; [done|]. destruct d; [done|cbn; lia].
Qed.

Lemma lighter_relay mtu t0 h s proc iface r :
  up_ok mtu t0 h s -> rx_alive (view (p_responses s)) = true -> message_ready (rest (p_in s)) ->
  relay_reader_iter proc iface mtu (relay_of s) = Ret (Go r) -> lighter (put_relay r s) s.
Proof.
  intros (qs & bs & cs & H1 & H2 & _) Ha Hready Hrun.
  destruct (ready_msg bs _ _ (inbound_short mtu qs bs H2) H1 Hready) as (b & bs' & tl & -> & Er & _).
  apply Forall2_cons_inv_r in H2 as (q & qs' & Hq & H2 & ->).
  assert (Ht : rest (rr_in r) = tl).
  { destruct q as [f|c].
    - pose proof Hq as (_ & _ & ->). by apply (relay_frame_turn proc iface mtu f tl (relay_of s) r).
    - by apply (relay_command_turn proc iface mtu c b tl (relay_of s) r). }
  left. unfold load_up. cbn [y_calling y_control y_up wire_up p_in put_relay]. rewrite Ht, Er. unfold frame_msg.
  rewrite !length_app, length_len_prefix. lia.
Qed.

Lemma lighter_relay_writer s b w :
  relay_writer_iter b (relay_writer_of s) = Go w -> lighter (put_relay_writer w s) s.
Proof.
  intros Hrun. destruct (relay_writer_iter_ok b _ w Hrun) as (E1 & E2 & E3).
  assert (Hb : match b with
               | TapBranch => items (view (p_frames s)) <> []
               | ResponseBranch => items (view (p_responses s)) <> []
               end).
  { destruct b; cbn [relay_writer_iter] in Hrun; cbn [rw_frames rw_responses relay_writer_of] in Hrun.
    - destruct (try_recv (p_frames s)) as [[msg| |] c] eqn:E; [|done|by destruct (aflush _)].
      apply try_recv_ok in E as [-> _]. done.
    - destruct (try_recv (p_responses s)) as [[msg| |] c] eqn:E; [|done..]. apply try_recv_ok in E as [-> _]. done. }
  cbn [rw_frames rw_responses rw_out relay_writer_of] in E3. apply wire_grows in E3. right. unfold load_up, load_down.
  cbn [y_calling y_control y_up wire_up p_in p_frames p_responses wire_down y_in y_down put_relay_writer].
  rewrite E1, E2, E3, length_app, !weigh_frame_msgs. split; [done|].
  destruct b; rewrite ?frame_msgs_app, ?length_app; cbn [frame_msgs fmap list_fmap concat length].
  - destruct (items (view (p_frames s))); [done|cbn; lia].
  - destruct (items (view (p_responses s))) as [|m ms]; [done|].
    change (take 1 (m :: ms)) with [m]. change (drop 1 (m :: ms)) with ms. rewrite !frame_msgs_cons, !length_app. cbn. lia.
Qed.

Lemma lighter_reader ann h s r :
  down_ok ann h s -> message_ready (rest (y_in s)) -> ipc_reader_iter (reader_of s) = (true, r) ->
  lighter (put_reader r s) s.
Proof.
  intros (ws & bs & fs & rs & H1 & H2 & _) Hready Hrun.
  destruct (ready_msg bs _ _ (encodes_short ws bs H2) H1 Hready) as (b & bs' & tl & -> & Er & _).
  apply Forall2_cons_inv_r in H2 as (q & ws' & [Hl Hq] & H2 & ->). right. unfold load_up, load_down.
  cbn [y_calling y_control y_up wire_up p_in p_frames p_responses wire_down y_in y_down put_reader]. split; [done|].
  rewrite Er. unfold frame_msg. rewrite !length_app, length_len_prefix. destruct q as [f|p].
  - subst b. destruct (reader_frame_turn f tl (reader_of s) r Hl Er Hrun) as (-> & _ & _ & Hc).
    cbn [ir_frames reader_of] in Hc. destruct Hc as [[-> _]|[-> _]]; rewrite ?length_app; cbn [length]; lia.
  - destruct (reader_response_turn p b tl (reader_of s) r Hq Hl Er Hrun) as (-> & -> & _). cbn [ir_frames reader_of]. lia.
Qed.

(** A flow of no octets is the only step that does nothing. *)
Definition nothing_moves (s s' : system) : Prop :=
  s' = flow_up [] (wire_up s) s \/ s' = flow_down [] (wire_down s) s.

Lemma nothing_moves_load s s' : nothing_moves s s' -> load_up s' = load_up s /\ load_down s' = load_down s.
Proof.
  intros [-> | ->]; unfold load_up, load_down;
    cbn [y_calling y_control y_up wire_up p_in p_frames p_responses wire_down y_in y_down flow_up flow_down];
    by rewrite feed_rest, app_nil_r.
Qed.

Lemma lighter_moves s s' : lighter s' s -> ~ nothing_moves s s'.
Proof. intros Hl [E1 E2]%nothing_moves_load. unfold lighter in Hl. lia. Qed.

Lemma step_lighter prof iface mtu t0 ann h s e s' :
  sys_inv mtu t0 ann h s -> sys_step prof iface mtu h s e s' -> input_free e -> lighter s' s \/ nothing_moves s s'.
Proof.
  intros (Hup & Hdown & _) Hstep (F1 & F2 & F3).
  assert (Ha : rx_alive (view (p_responses s)) = true)
    by (by destruct Hdown as (? & ? & ? & ? & _ & _ & _ & _ & _ & _ & _ & _ & ? & _)).
  destruct Hstep as [f Hf|f d Hd|cmd t msg rq Hreg Hfits _|l1 l2 t cmd msg c Hcalling Hsend|b w Hrun Hw Hb
    |d tl Hwire|proc r Hm Hrun _|f c dropped _ _|b w Hrun|d tl Hwire|r Hm Hrun]; try done.
  - left. by eapply lighter_receive.
  - left. by eapply lighter_send.
  - left. by eapply lighter_writer.
  - destruct (decide (d = [])) as [->|Hd]; [right; left; by rewrite Hwire|left; by apply lighter_flow_up].
  - left. by eapply lighter_relay.
  - left. by eapply lighter_relay_writer.
  - destruct (decide (d = [])) as [->|Hd]; [right; right; by rewrite Hwire|left; by apply lighter_flow_down].
  - left. by eapply lighter_reader.
Qed.

End Load.

Section Settle.
Context {M : Mpsc} {ML : MpscLaws} {A : AsyncIo} {AL : AsyncIoLaws} {P : Pipe} {PL : PipeLaws}
  {RT : Rtnetlink} {TD : TapDevice} {TL : TapLaws} {SR : Serde ProxyResponse}
  {SRok : SerdeOk ProxyResponse} {SC : Serde ProxyCommand} {SCok : SerdeOk ProxyCommand}.
Context (Hwrite : forall b w, exists w', awrite_all b w = (Ok (), w'))
  (Hflush : forall w, exists w', aflush w = (Ok (), w'))
  (Htap : forall f t, exists t', tap_write_all f t = (Ok (), t'))
  (prof : profile) (iface : string) (mtu : nat) (t0 : Tap) (ann : list bytes)
  (Hmtu : Z.of_nat mtu + 1 < 2 ^ 32) (reqs : list (token * ProxyCommand))
  (Hshort : forall t c k, (t, c) ∈ reqs -> exists proc, forall m,
     encode_control (fst (handle_proxy_command proc c iface k)) = Ok m -> Z.of_nat (length m) < 2 ^ 32).

(** ** While something is on its way, a task can take a step *)

Definition can_work (h : trace) (s : system) : Prop :=
  exists e s', sys_step prof iface mtu h s e s' /\ input_free e /\ lighter s' s.

Definition settled (s : system) : Prop := quiet_up s /\ quiet_down s /\ y_calling s = [].

Lemma relay_can h s :
  good mtu t0 ann reqs (h, s) -> rest (p_in s) <> [] -> wire_up s = [] -> items (view (p_responses s)) = [] -> can_work h s.
Proof.
  intros ((Hup & Hdown & _ & Hrpc) & (_ & _ & Hcap & _) & Hreqs) Hne Hw Hr. cbn [fst snd] in *.
  pose proof Hup as (qs & bs & cs & H1 & H2 & _ & H4 & _).
  destruct Hdown as (? & ? & ? & ? & _ & _ & _ & _ & _ & _ & _ & Hs & Ha & _).
  rewrite Hw, app_nil_r in H1. destruct bs as [|b bs]; [by rewrite H1 in Hne|].
  apply Forall2_cons_inv_r in H2 as (q & qs' & Hq & _ & Hqs). rewrite frame_msgs_cons in H1.
  assert (Hreq : forall c, q = InCommand c -> exists t, (t, c) ∈ reqs).
  { intros c ->. rewrite Hqs in H4. destruct Hrpc as (_ & _ & _ & R4 & _).
    assert (Hc : c ∈ (called h).*2) by (rewrite H4; cbn; rewrite !elem_of_app, elem_of_cons; auto).
    apply list_elem_of_fmap in Hc as ([t c'] & -> & Hc). exists t. rewrite <- Hreqs, <- R4. apply elem_of_app. by left. }
  destruct (relay_go Htap iface mtu reqs Hshort s q b (frame_msgs bs) Hq Hreq H1 Ha) as (proc & r & E & Er & Hs');
    [rewrite Hr; exact Hcap|done|].
  assert (Hready : message_ready (rest (p_in s))) by (rewrite H1; apply ready_frame, Hq).
  do 2 eexists. split_and!; [by apply (step_relay _ _ _ _ _ proc r)|..|by apply (lighter_relay mtu t0 h s proc iface)].
  all: destruct (relay_event_cases proc iface (p_kernel s) (next_message (rest (p_in s)))) as [(f & ->)|[(c & ->)| ->]]; done.
Qed.

Lemma reader_can h s :
  good mtu t0 ann reqs (h, s) -> rest (y_in s) <> [] -> wire_down s = [] -> can_work h s.
Proof.
  intros ((_ & Hdown & _) & (_ & _ & _ & Ha & _) & _) Hne Hw. cbn [fst snd] in *.
  pose proof Hdown as (ws & bs & fs & rs & H1 & H2 & _).
  rewrite Hw, app_nil_r in H1. destruct bs as [|b bs]; [by rewrite H1 in Hne|].
  apply Forall2_cons_inv_r in H2 as (q & qs' & [Hl Henc] & _ & _). rewrite frame_msgs_cons in H1.
  assert (Hgo : exists r, ipc_reader_iter (reader_of s) = (true, r)).
  { destruct (iter_msg b _ (reader_of s) Hl H1) as (i & Hi & ->). destruct q as [f|p].
    - subst b. destruct (dispatch_frame f i (reader_of s) Ha) as (c & st & -> & _). eauto.
    - rewrite (dispatch_resp p b i _ Henc). eauto. }
  destruct Hgo as (r & E). assert (Hready : message_ready (rest (y_in s))) by (rewrite H1; by apply ready_frame).
  do 2 eexists. split_and!; [by apply (step_reader _ _ _ _ _ r)|..|by apply (lighter_reader ann h s)].
  all: destruct (reader_event_cases (next_message (rest (y_in s)))) as [(f & ->)|[(c & ->)| ->]]; done.
Qed.

Lemma writer_can b h s :
  good mtu t0 ann reqs (h, s) ->
  match b with
  | FrameBranch => items (view (y_up s)) <> []
  | ControlBranch => items (view (y_control s)) <> []
  end -> can_work h s.
Proof.
  intros (_ & (_ & _ & _ & _ & Hd) & _) Hb. cbn in Hd.
  destruct (ipc_writer_live Hwrite Hflush b (writer_of s) Hb) as (w & E & Ed). cbn in Ed. rewrite Hd in Ed.
  do 2 eexists. split_and!; [by eapply (step_writer _ _ _ _ _ b)|done..|by eapply lighter_writer].
Qed.

Lemma relay_writer_can b h s :
  match b with
  | TapBranch => items (view (p_frames s)) <> []
  | ResponseBranch => items (view (p_responses s)) <> []
  end -> can_work h s.
Proof.
  intros Hb. destruct (relay_writer_live Hwrite Hflush b (relay_writer_of s) Hb) as (w & E).
  do 2 eexists. split_and!; [by eapply (step_relay_writer _ _ _ _ _ b)|done..|by eapply lighter_relay_writer].
Qed.

Lemma send_can h s :
  good mtu t0 ann reqs (h, s) -> y_calling s <> [] -> items (view (y_control s)) = [] -> can_work h s.
Proof.
  intros (_ & (Ha & Hcap & _) & _) Hc Hn. cbn in Ha, Hcap. destruct (y_calling s) as [|[[t cmd] msg] l] eqn:El; [done|].
  destruct (send_live msg (y_control s) Ha) as (c & E); [rewrite Hn; exact Hcap|].
  do 2 eexists. split_and!; [by eapply (step_send _ _ _ _ _ [] l)|done..|by eapply (lighter_send s [] l)].
Qed.

Lemma receive_can h s : items (view (y_down s)) <> [] -> can_work h s.
Proof.
  intros (a & c & E)%try_recv_some.
  assert (Hrec : receive (device_of mtu s) =
    (Some a, {| dev_rx := c; dev_tx := y_up s; dev_mtu := mtu; dev_stats := add_device_rx (y_stats s) |})).
  { unfold receive. cbn [dev_rx device_of device_new]. by rewrite E. }
  do 2 eexists. split_and!; [by eapply step_receive|done..|by eapply lighter_receive].
Qed.

Lemma settled_or_works h s : good mtu t0 ann reqs (h, s) -> settled s \/ can_work h s.
Proof.
  intros Hg. destruct (decide (items (view (y_down s)) = [])) as [D1|]; [|right; by apply receive_can].
  destruct (decide (wire_down s = [])) as [D2|Hn].
  2:{ right. do 2 eexists. split_and!; [apply (step_flow_down _ _ _ _ _ (wire_down s) []); by rewrite app_nil_r|done..|].
      apply lighter_flow_down; [by rewrite app_nil_r|done]. }
  destruct (decide (rest (y_in s) = [])) as [D3|]; [|right; by apply reader_can].
  destruct (decide (items (view (p_frames s)) = [])) as [D4|]; [|right; by apply (relay_writer_can TapBranch)].
  destruct (decide (items (view (p_responses s)) = [])) as [D5|]; [|right; by apply (relay_writer_can ResponseBranch)].
  destruct (decide (wire_up s = [])) as [D6|Hn].
  2:{ right. do 2 eexists. split_and!; [apply (step_flow_up _ _ _ _ _ (wire_up s) []); by rewrite app_nil_r|done..|].
      apply lighter_flow_up; [by rewrite app_nil_r|done]. }
  destruct (decide (rest (p_in s) = [])) as [D7|]; [|right; by apply relay_can].
  destruct (decide (items (view (y_up s)) = [])) as [D8|]; [|right; by apply (writer_can FrameBranch)].
  destruct (decide (items (view (y_control s)) = [])) as [D9|]; [|right; by apply (writer_can ControlBranch)].
  destruct (y_calling s) as [|x l] eqn:El; [left; by split_and!|right; apply send_can; [done|by rewrite El|done]].
Qed.

(** ** Every schedule ends *)

(** Steps of the tasks, but for flows of no octets. *)
Definition busy (x y : trace * system) : Prop := work prof iface mtu x y /\ ~ nothing_moves x.2 y.2.

(** Whatever is done next, and however it goes on, [Q] is reached. *)
Inductive inevitably (Q : trace * system -> Prop) (x : trace * system) : Prop :=
| inevitably_now : Q x -> inevitably Q x
| inevitably_later : (exists y, busy x y) -> (forall y, busy x y -> inevitably Q y) -> inevitably Q x.

Lemma busy_lighter x y : good mtu t0 ann reqs x -> busy x y -> lighter y.2 x.2 /\ good mtu t0 ann reqs y.
Proof.
  intros Hg [Hw Hn]. split; [|by eapply good_work]. destruct Hw as (e & Hstep & Hf & _). destruct Hg as (Hi & _).
  by destruct (step_lighter _ _ _ _ _ _ _ _ _ Hi Hstep Hf).
Qed.

Lemma settles x :
  good mtu t0 ann reqs x ->
  inevitably (fun y => rtc (work prof iface mtu) x y /\ good mtu t0 ann reqs y /\ settled y.2) x.
Proof.
  intros Hx. assert (Hgen : forall s y, y.2 = s -> good mtu t0 ann reqs y -> rtc (work prof iface mtu) x y ->
    inevitably (fun z => rtc (work prof iface mtu) x z /\ good mtu t0 ann reqs z /\ settled z.2) y).
  { intros s. induction s as [s IH] using (well_founded_induction lighter_wf). intros [h s'] Es Hg Hr. cbn in Es. subst s'.
    destruct (settled_or_works h s Hg) as [Hs|(e & s' & Hstep & Hf & Hl)]; [by apply inevitably_now|].
    apply inevitably_later.
    - exists (h ++ e, s'). split; [by exists e|by apply lighter_moves].
    - intros y Hy. destruct (busy_lighter _ _ Hg Hy) as [Hly Hgy]. apply (IH y.2 Hly); [done|done|].
      eapply rtc_r; [exact Hr|apply Hy]. }
  by apply (Hgen x.2).
Qed.

Lemma inevitably_weaken (Q Q' : trace * system -> Prop) x :
  (forall y, Q y -> Q' y) -> inevitably Q x -> inevitably Q' x.
Proof. intros HQ. induction 1 as [x Hx|x He _ IH]; [by apply inevitably_now, HQ|by apply inevitably_later]. Qed.

(** In particular there is a schedule. *)
Lemma inevitably_reaches Q x : inevitably Q x -> exists y, rtc (work prof iface mtu) x y /\ Q y.
Proof.
  induction 1 as [x Hx|x [y Hy] _ IH]; [by exists x|]. destruct (IH y Hy) as (z & Hr & Hz). exists z.
  split; [|done]. econstructor; [apply Hy|done].
Qed.

End Settle.

Section Properties.
Context {M : Mpsc} {ML : MpscLaws} {A : AsyncIo} {AL : AsyncIoLaws} {P : Pipe} {PL : PipeLaws}
  {RT : Rtnetlink} {TD : TapDevice} {TL : TapLaws} {SR : Serde ProxyResponse}
  {SRok : SerdeOk ProxyResponse} {SC : Serde ProxyCommand} {SCok : SerdeOk ProxyCommand}.

(** What is true when all is delivered, of a run that had come to [h]. *)
Definition all_delivered (tap : Tap) (h : trace) (y : trace * system) : Prop :=
  quiet_up y.2 /\ quiet_down y.2 /\ tap_frames (p_tap y.2) = tap_frames tap ++ written_frames (sent h) /\
  forall t c, (t, c) ∈ registered h -> exists r, (t, r) ∈ y_answers y.2 /\ (c, r) ∈ served y.1.

Lemma settled_delivered prof iface mtu tap ann h s y :
  good mtu tap ann (registered h) y -> rtc (work prof iface mtu) (h, s) y -> settled y.2 -> all_delivered tap h y.
Proof.
  intros ((Hup & Hdown & _ & Hrpc) & _) Hr (Qu & Qd & Qc). destruct (work_inputs _ _ _ _ _ Hr) as [E1 E2].
  cbn [fst] in E1, E2. split_and!; [done|done| |].
  - destruct (up_quiet mtu tap _ _ Hup Qu) as [E _]. rewrite <- E1, <- E.
    by destruct Hup as (qs & bs & cs & _ & _ & _ & _ & _ & _ & _ & _ & H9).
  - rewrite <- E2. by apply (all_answered mtu tap ann).
Qed.

Lemma run_settles prof iface mtu o po i pi tap k ann h s :
  (forall b w, exists w', awrite_all b w = (Ok (), w')) -> (forall w, exists w', aflush w = (Ok (), w')) ->
  (forall f t, exists t', tap_write_all f t = (Ok (), t')) ->
  (forall t c kn, (t, c) ∈ registered h -> exists proc, forall m,
     encode_control (fst (handle_proxy_command proc c iface kn)) = Ok m -> Z.of_nat (length m) < 2 ^ 32) ->
  Z.of_nat mtu + 1 < 2 ^ 32 -> starts ann i pi -> sys_run prof iface mtu (system_init o po i pi tap k) h s ->
  inevitably prof iface mtu (all_delivered tap h) (h, s).
Proof.
  intros Hwrite Hflush Htap Hshort Hmtu (S1 & S2 & S3) Hrun.
  assert (Hg : good mtu tap ann (registered h) (h, s)).
  { split_and!; [|by eapply live_run; [apply live_init|]|done].
    by eapply sys_inv_run; [|by apply (sys_inv_init mtu o po i pi tap k)|]. }
  eapply inevitably_weaken; [|by eapply (settles Hwrite Hflush Htap prof iface mtu tap ann Hmtu (registered h))].
  intros y (Hr & Hgy & Hs). by eapply settled_delivered.
Qed.

(** C7: The tunnel neither deadlocks nor runs in circles.  While the connection and the TAP
    device take what is written to them and no new frame or request comes in, every
    schedule of the tasks, whatever it picks next, comes after finitely many steps to a
    state in which nothing is on its way, and until then some task can take a step; there
    every frame the device had queued has been written to the TAP device, and every request
    that had been registered has been answered. *)
Theorem tunnel_settles (prof : profile) (iface : string) (mtu : nat) (o po : AWriter) (i pi : AReader)
  (tap : Tap) (k : Kernel) (ann : list bytes) (h : trace) (s : system)
  (Hwrite : forall b w, exists w', awrite_all b w = (Ok (), w'))
  (Hflush : forall w, exists w', aflush w = (Ok (), w'))
  (Htap : forall f t, exists t', tap_write_all f t = (Ok (), t'))
  (Hshort : forall t c kn, (t, c) ∈ registered h -> exists proc, forall m,
     encode_control (fst (handle_proxy_command proc c iface kn)) = Ok m -> Z.of_nat (length m) < 2 ^ 32)
  (Hmtu : Z.of_nat mtu + 1 < 2 ^ 32) (Hstart : starts ann i pi)
  (Hrun : sys_run prof iface mtu (system_init o po i pi tap k) h s) :
  inevitably prof iface mtu (all_delivered tap h) (h, s).
Proof. by eapply run_settles. Qed.

(** In particular all can be delivered, from every state a run can reach. *)
Theorem tunnel_drains (prof : profile) (iface : string) (mtu : nat) (o po : AWriter) (i pi : AReader)
  (tap : Tap) (k : Kernel) (ann : list bytes) (h : trace) (s : system)
  (Hwrite : forall b w, exists w', awrite_all b w = (Ok (), w'))
  (Hflush : forall w, exists w', aflush w = (Ok (), w'))
  (Htap : forall f t, exists t', tap_write_all f t = (Ok (), t'))
  (Hshort : forall t c kn, (t, c) ∈ registered h -> exists proc, forall m,
     encode_control (fst (handle_proxy_command proc c iface kn)) = Ok m -> Z.of_nat (length m) < 2 ^ 32)
  (Hmtu : Z.of_nat mtu + 1 < 2 ^ 32) (Hstart : starts ann i pi)
  (Hrun : sys_run prof iface mtu (system_init o po i pi tap k) h s) :
  exists h' s', rtc (work prof iface mtu) (h, s) (h', s') /\ all_delivered tap h (h', s').
Proof.
  destruct (inevitably_reaches prof iface mtu (all_delivered tap h) (h, s)) as ([h' s'] & Hr & Hd); [|by exists h', s'].
  by eapply run_settles.
Qed.

End Properties.

(** ** Witnesses: the run of [SystemSpec], with a frame and a request queued *)

#[local] Existing Instances Reference.mpsc Reference.mpsc_laws ReferenceIo.io ReferenceIo.io_laws
  ReferencePipe.pipe ReferencePipe.pipe_laws ReferenceProxy.rtnetlink ReferenceProxy.tap
  ReferenceProxy.tap_laws response_serde response_serde_ok command_serde command_serde_ok.

Lemma demo_short t c (kn : Kernel) :
  (t, c) ∈ registered (take 4 Demo.happened) -> exists proc, forall m,
    encode_control (fst (handle_proxy_command proc c "tap0" kn)) = Ok m -> Z.of_nat (length m) < 2 ^ 32.
Proof.
  intros Hin. apply list_elem_of_singleton in Hin. injection Hin as -> ->. exists (Ok []).
  intros m Hm. vm_compute in Hm. injection Hm as <-. vm_compute. reflexivity.
Qed.

Lemma tunnel_settles_witness :
  inevitably Debug "tap0" 1514 (all_delivered Demo.no_frames (take 4 Demo.happened)) (take 4 Demo.happened, Demo.s3).
Proof.
  apply (tunnel_settles Debug "tap0" 1514 Demo.out Demo.out Demo.inp Demo.inp Demo.no_frames Demo.no_routes []).
  - intros b w. by eexists.
  - intros w. by eexists.
  - intros f t. by eexists.
  - exact demo_short.
  - reflexivity.
  - exact demo_starts.
  - exact demo_queued.
Defined.

Lemma tunnel_drains_witness :
  exists h' s', rtc (work Debug "tap0" 1514) (take 4 Demo.happened, Demo.s3) (h', s') /\
    tap_frames (p_tap s') = [[xaa]] /\ exists r, (7%nat, r) ∈ y_answers s' /\ (GetIfaceStats 1, r) ∈ served h'.
Proof.
  destruct (tunnel_drains Debug "tap0" 1514 Demo.out Demo.out Demo.inp Demo.inp Demo.no_frames Demo.no_routes []
    (take 4 Demo.happened) Demo.s3) as (h' & s' & H1 & _ & _ & H2 & H3).
  - intros b w. by eexists.
  - intros w. by eexists.
  - intros f t. by eexists.
  - exact demo_short.
  - reflexivity.
  - exact demo_starts.
  - exact demo_queued.
  - exists h', s'. split; [exact H1|]. split; [exact H2|]. apply H3. apply list_elem_of_singleton. reflexivity.
Defined.
