(* ===== verification/SystemEnd.v ===== *)
(** * The library after the proxy is gone

    The proxy goes away at any moment, with messages queued, written and half sent, and the
    connection is cut anywhere.  The library's reader reads what arrived of the stream,
    handles every message that arrived whole, and notices. *)

From S2P Require Import Prelude Net Stream Protocol AsyncIo Externals Stack StackPoll StackData.
From S2P Require Import Socket Device Text ProcNet Ipc IpcSpec Relay RelaySpec Path TapPath SerdeRef.
From S2P Require Import System SystemSpec SystemLive.
#[local] Open Scope Z_scope.

Section SystemEnd.
Context {M : Mpsc} {ML : MpscLaws} {A : AsyncIo} {AL : AsyncIoLaws} {P : Pipe} {PL : PipeLaws}
  {RT : Rtnetlink} {TD : TapDevice} {TL : TapLaws} {SR : Serde ProxyResponse}
  {SRok : SerdeOk ProxyResponse} {SC : Serde ProxyCommand} {SCok : SerdeOk ProxyCommand}.

(** A message takes at least four octets. *)
Lemma length_frame_msgs bs : (length bs <= length (frame_msgs bs))%nat.
Proof.
  induction bs as [|b bs IH]; [done|]. rewrite frame_msgs_cons, length_app. unfold frame_msg.
  rewrite length_app, length_len_prefix. cbn. lia.
Qed.

Lemma response_to_spec id rs :
  match response_to id rs with
  | Some r => r ∈ rs /\ resp_id r = id
  | None => id ∉ resp_id <$> rs
  end.
Proof.
  unfold response_to. induction rs as [|r rs IH]; cbn; [apply not_elem_of_nil|].
  case_bool_decide as E; [by split; [constructor|]|].
  destruct (List.find _ rs); [destruct IH; split; [by constructor|done]|].
  rewrite not_elem_of_cons. by split; [apply not_eq_sym|].
Qed.

(** A stream that is not cut has no incomplete message at its end. *)
Lemma uncut part bs :
  Forall (fun b => Z.of_nat (length b) < 2 ^ 32) bs -> part ++ [] = frame_msgs bs -> incomplete part -> bs = [].
Proof.
  rewrite app_nil_r. intros Hlen -> Hcut. destruct bs as [|b bs]; [done|]. apply Forall_cons_1 in Hlen as [Hb _].
  rewrite frame_msgs_cons in Hcut. exfalso. unfold incomplete in Hcut. destruct (frame_msg_take b (frame_msgs bs)) as [Ht _].
  rewrite Ht, len_prefix_val in Hcut by done. unfold frame_msg in Hcut. rewrite !length_app, length_len_prefix in Hcut. lia.
Qed.

(** What the library's reader does with what arrived. *)
Lemma reader_after_cut mtu t0 ann h s d lost fuel :
  sys_inv mtu t0 ann h s -> rx_alive (view (y_down s)) = true -> wire_down s = d ++ lost ->
  (length (rest (y_in s) ++ d) < fuel)%nat ->
  exists r fs rs fs' rs', ipc_reader_run fuel (reader_of (flow_down d [] s)) = (true, r) /\ ir_dead r = true /\
    frames_post (reader_of (flow_down d [] s)) r fs /\ waiters_post (reader_of (flow_down d [] s)) r rs /\
    ann ++ queued h = arrived h ++ fs ++ fs' /\ (served h).*2 = answered h ++ rs ++ rs' /\
    (lost = [] -> items (view (p_frames s)) = [] -> fs' = []) /\
    (lost = [] -> items (view (p_responses s)) = [] -> rs' = []).
Proof.
  intros (_ & (ws & bs & gs & ps & H1 & H2 & H3 & H4 & _ & H6 & H7 & _) & _) Ha Hw Hfuel.
  rewrite Hw, app_assoc in H1.
  destruct (cut_stream bs _ _ (encodes_short ws bs H2) H1) as (bs1 & bs2 & part & -> & Hx & Hl & Hcut & _).
  apply Forall2_app_inv_r in H2 as (ws1 & ws2 & E1 & E2 & ->).
  rewrite frames_of_app in H3. rewrite resps_of_app in H6.
  destruct (reader_run_cut ws1 bs1 part fuel (reader_of (flow_down d [] s)) E1) as (r & Hr & Hd & Hf & Hwt & _).
  - cbn. by rewrite feed_rest.
  - done.
  - done.
  - rewrite Hx, length_app in Hfuel. pose proof (length_frame_msgs bs1). lia.
  - exists r, (frames_of ws1), (resps_of ws1), (frames_of ws2 ++ gs), (resps_of ws2 ++ ps).
    split_and!; try done; [by rewrite H3, <- app_assoc|by rewrite H6, <- app_assoc| |].
    + intros -> E. rewrite E in H4. symmetry in H4. apply fmap_nil_inv in H4. subst gs.
      rewrite (uncut part bs2 (encodes_short ws2 bs2 E2) Hl Hcut) in E2. by apply Forall2_nil_inv_r in E2 as ->.
    + intros -> E. rewrite E in H7. apply Forall2_nil_inv_r in H7 as ->.
      rewrite (uncut part bs2 (encodes_short ws2 bs2 E2) Hl Hcut) in E2. by apply Forall2_nil_inv_r in E2 as ->.
Qed.

(** The fate of the callers. *)
Lemma callers_after_cut mtu t0 ann h s d r rs rs' t c :
  sys_inv mtu t0 ann h s -> waiters_post (reader_of (flow_down d [] s)) r rs ->
  (served h).*2 = answered h ++ rs ++ rs' -> (t, c) ∈ registered h ->
  if decide (cmd_id c ∈ resp_id <$> answered h ++ rs)
  then exists p, (t, p) ∈ ir_answers r /\ (c, p) ∈ served h
  else ir_pending r !! cmd_id c = Some t.
Proof.
  intros (Hup & _ & _ & Hrpc) [[l Hl] Hw] Es Hin. pose proof Hrpc as (_ & R2 & _ & _ & R5 & R6 & R7 & _ & R9).
  rewrite Forall_elem_of in R5. cbn in Hl, Hw.
  assert (Huniq : forall t' c', (t', c') ∈ registered h -> cmd_id c' = cmd_id c -> t' = t /\ c' = c).
  { intros t' c' Hin' Hid. by pose proof (registered_id h _ _ R2 Hin' Hin Hid) as [= -> ->]. }
  rewrite fmap_app. destruct (decide (cmd_id c ∈ resp_id <$> answered h)) as [Hold|Hold].
  - rewrite decide_True by (apply elem_of_app; by left).
    destruct (R9 t c Hin Hold) as (p & Hp & Hid). destruct (R7 t p Hp) as (_ & c' & Hc' & Hs).
    destruct (Huniq t c' Hc') as [_ ->]; [by rewrite <- Hid; symmetry; exact (R5 _ Hs)|].
    exists p. split; [|done]. rewrite Hl. apply elem_of_app. by left.
  - assert (Hp : pending_responses (y_requests s) !! cmd_id c = Some t) by (apply R6; eauto).
    specialize (Hw _ _ Hp). pose proof (response_to_spec (cmd_id c) rs) as Hr.
    destruct (response_to (cmd_id c) rs) as [p|].
    + destruct Hr as [Hr Hid]. rewrite decide_True
        by (apply elem_of_app; right; rewrite <- Hid; by apply list_elem_of_fmap_2).
      destruct Hw as [_ Hw]. exists p. split; [done|].
      destruct (response_request mtu t0 h s p Hup Hrpc) as (t' & c' & H1 & H2 & H3).
      { rewrite Es, !elem_of_app. auto. }
      destruct (Huniq t' c' H1) as [_ ->]; [by rewrite <- H3|done].
    + rewrite decide_False; [done|]. rewrite elem_of_app. by intros [?|?].
Qed.

(** ** Properties *)

(** C13: The proxy goes away at any moment, with the connection cut anywhere.  The library's
    reader task ends with the flag [ipc_dead] set, after every message that arrived whole
    was handled: the frames are queued for the device or counted as dropped, and they are
    the next ones of those the proxy queued (all of them when nothing was lost on the way);
    every caller whose response arrived is answered with the response to its own request,
    and every other caller is still registered, although no answer can come. *)
Theorem proxy_gone (prof : profile) (iface : string) (mtu : nat) (o po : AWriter) (i pi : AReader)
  (tap : Tap) (k : Kernel) (ann : list bytes) (h : trace) (s : system) (d lost : bytes) (fuel : nat)
  (Hmtu : Z.of_nat mtu + 1 < 2 ^ 32) (Hstart : starts ann i pi)
  (Hrun : sys_run prof iface mtu (system_init o po i pi tap k) h s)
  (Hcut : wire_down s = d ++ lost) (Hfuel : (length (rest (y_in s) ++ d) < fuel)%nat) :
  exists r fs rs, ipc_reader_run fuel (reader_of (flow_down d [] s)) = (true, r) /\ ir_dead r = true /\
    frames_post (reader_of (flow_down d [] s)) r fs /\
    arrived h ++ fs `prefix_of` ann ++ queued h /\ answered h ++ rs `prefix_of` (served h).*2 /\
    (lost = [] -> items (view (p_frames s)) = [] -> arrived h ++ fs = ann ++ queued h) /\
    (lost = [] -> items (view (p_responses s)) = [] -> answered h ++ rs = (served h).*2) /\
    forall t c, (t, c) ∈ registered h ->
      if decide (cmd_id c ∈ resp_id <$> answered h ++ rs)
      then exists p, (t, p) ∈ ir_answers r /\ (c, p) ∈ served h
      else ir_pending r !! cmd_id c = Some t.
Proof.
  destruct Hstart as (S1 & S2 & S3).
  pose proof (sys_inv_run _ _ _ _ _ _ _ _ Hmtu (sys_inv_init mtu o po i pi tap k ann S1 S2 S3) Hrun) as Hinv.
  destruct (live_run _ _ _ _ _ _ (live_init o po i pi tap k) Hrun) as (_ & _ & _ & Ha & _).
  destruct (reader_after_cut mtu tap ann h s d lost fuel Hinv Ha Hcut Hfuel)
    as (r & fs & rs & fs' & rs' & Hr & Hd & Hf & Hw & Eq & Es & Hq & Hs).
  exists r, fs, rs. rewrite Eq, Es. split_and!; try done; try (rewrite app_assoc; by eexists).
  - intros H1 H2. by rewrite (Hq H1 H2), app_nil_r.
  - intros H1 H2. by rewrite (Hs H1 H2), app_nil_r.
  - intros t c Hin. by apply (callers_after_cut mtu tap ann h s d r rs rs').
Qed.

End SystemEnd.

(** ** Witnesses: the run of [SystemSpec], ended before its messages are read *)

#[local] Existing Instances Reference.mpsc Reference.mpsc_laws ReferenceIo.io ReferenceIo.io_laws
  ReferencePipe.pipe ReferencePipe.pipe_laws ReferenceProxy.rtnetlink ReferenceProxy.tap
  ReferenceProxy.tap_laws response_serde response_serde_ok command_serde command_serde_ok.

Lemma proxy_gone_witness :
  exists r p, ipc_reader_run 100 (reader_of (flow_down (wire_down Demo.s9) [] Demo.s9)) = (true, r) /\
    ir_dead r = true /\ (7%nat, p) ∈ ir_answers r.
Proof.
  destruct (proxy_gone Debug "tap0" 1514 Demo.out Demo.out Demo.inp Demo.inp Demo.no_frames Demo.no_routes []
    (take 8 Demo.happened) Demo.s9 (wire_down Demo.s9) [] 100) as (r & fs & rs & H1 & H2 & _ & _ & _ & _ & H3 & H4).
  - reflexivity.
  - exact demo_starts.
  - exact demo_run_down.
  - symmetry. apply app_nil_r.
  - apply Nat.ltb_lt. vm_compute. reflexivity.
  - specialize (H4 7%nat (GetIfaceStats 1)). rewrite H3 in H4; [|reflexivity|vm_compute; reflexivity].
    rewrite decide_True in H4 by (apply list_elem_of_singleton; reflexivity).
    destruct H4 as (p & Hp & _); [apply list_elem_of_singleton; reflexivity|].
    exists r, p. split; [exact H1|]. split; [exact H2|exact Hp].
Defined.
