(* ===== verification/TunnelSpec.v ===== *)
(** * The tunnel as a service, and that both processes together implement it

    [service] is what a user of the tunnel may assume, with no processes, tasks, messages,
    octets or bounded queues: a link that carries frames each way in order and may lose
    some, and a service that carries out each proxy command once, at one moment between
    the call and its answer.  Every run of [System] is a run of this service that looks
    the same from outside. *)

From S2P Require Import Prelude Net Stream Protocol AsyncIo Externals Stack StackPoll StackData.
From S2P Require Import Socket Device Text ProcNet Ipc IpcSpec Relay RelaySpec Path TapPath SerdeRef System.
From S2P Require Import SystemSpec.
#[local] Open Scope Z_scope.

(** A call of a proxy command that has not returned: not carried out yet, or carried out
    with a response that is on its way back. *)
Inductive pending_call :=
| Waiting (t : token) (c : ProxyCommand)
| Replied (t : token) (c : ProxyCommand) (r : ProxyResponse).

Section TunnelSpec.
Context {M : Mpsc} {ML : MpscLaws} {A : AsyncIo} {AL : AsyncIoLaws} {P : Pipe} {PL : PipeLaws}
  {RT : Rtnetlink} {TD : TapDevice} {TL : TapLaws} {SR : Serde ProxyResponse}
  {SRok : SerdeOk ProxyResponse} {SC : Serde ProxyCommand} {SCok : SerdeOk ProxyCommand}.

(** ** The service *)

Record service := MkService {
  t_up : list bytes; t_down : list bytes; t_lost_up : nat; t_lost_down : nat;
  t_tap : list bytes; t_kernel : Kernel; t_next : Z; t_calls : gmap Z pending_call;
  t_answers : list (token * ProxyResponse)
}.

(** [ann]: the frames the proxy announced when it started. *)
Definition tunnel_init (ann : list bytes) (tap : list bytes) (k : Kernel) : service :=
  MkService [] ann 0 0 tap k 1 ∅ [].

Definition set_up up lost tap a :=
  MkService up (t_down a) lost (t_lost_down a) tap (t_kernel a) (t_next a) (t_calls a) (t_answers a).
Definition set_down down lost a :=
  MkService (t_up a) down (t_lost_up a) lost (t_tap a) (t_kernel a) (t_next a) (t_calls a) (t_answers a).
Definition set_calls k next calls answers a :=
  MkService (t_up a) (t_down a) (t_lost_up a) (t_lost_down a) (t_tap a) k next calls answers.

(** Its steps, with what is seen of each.  The link may lose a frame when it takes it, and
    on the way down also later.  A frame that is empty is not written to the TAP device. *)
Inductive tunnel_step (iface : string) (a : service) : trace -> service -> Prop :=
| spec_transmit f :
    tunnel_step iface a [Transmitted f] (set_up (t_up a ++ [f]) (t_lost_up a) (t_tap a) a)
| spec_transmit_lost f :
    tunnel_step iface a [Transmitted f] (set_up (t_up a) (t_lost_up a + 1) (t_tap a) a)
| spec_relay f up : t_up a = f :: up ->
    tunnel_step iface a [Relayed f] (set_up up (t_lost_up a) (t_tap a ++ written_frames [f]) a)
| spec_offer f :
    tunnel_step iface a [Offered f] (set_down (t_down a ++ [f]) (t_lost_down a) a)
| spec_offer_lost f :
    tunnel_step iface a [Offered f] (set_down (t_down a) (t_lost_down a + 1) a)
| spec_drop f l1 l2 : t_down a = l1 ++ f :: l2 ->
    tunnel_step iface a [] (set_down (l1 ++ l2) (t_lost_down a + 1) a)
| spec_receive f down : t_down a = f :: down ->
    tunnel_step iface a [Received f] (set_down down (t_lost_down a) a)
| spec_register t c : cmd_id c = t_next a ->
    tunnel_step iface a [Registered t c]
      (set_calls (t_kernel a) (t_next a + 1) (<[t_next a := Waiting t c]> (t_calls a)) (t_answers a) a)
| spec_serve t c proc r k : t_calls a !! cmd_id c = Some (Waiting t c) ->
    handle_proxy_command proc c iface (t_kernel a) = (r, k) ->
    tunnel_step iface a [Served c r]
      (set_calls k (t_next a) (<[cmd_id c := Replied t c r]> (t_calls a)) (t_answers a) a)
| spec_answer t c r : t_calls a !! resp_id r = Some (Replied t c r) ->
    tunnel_step iface a [Answered r]
      (set_calls (t_kernel a) (t_next a) (delete (resp_id r) (t_calls a)) (t_answers a ++ [(t, r)]) a).

Inductive tunnel_run (iface : string) (a0 : service) : trace -> service -> Prop :=
| spec_start : tunnel_run iface a0 [] a0
| spec_next h a e a' : tunnel_run iface a0 h a -> tunnel_step iface a e a' -> tunnel_run iface a0 (h ++ e) a'.

(** What is seen of a run of the two processes: not the queues inside. *)
Definition is_visible (e : event) : bool :=
  match e with Sent _ | Called _ _ | Queued _ | Arrived _ => false | _ => true end.
Definition visible (h : trace) : trace := List.filter is_visible h.

(** ** The simulation *)

Definition calls_abstract (h : trace) (calls : gmap Z pending_call) : Prop :=
  (forall id t c, calls !! id = Some (Waiting t c) <->
     (t, c) ∈ registered h /\ cmd_id c = id /\ id ∉ cmd_id <$> (served h).*1) /\
  (forall id t c r, calls !! id = Some (Replied t c r) <->
     (t, c) ∈ registered h /\ cmd_id c = id /\ (c, r) ∈ served h /\ id ∉ resp_id <$> answered h).

Definition abstracts (ann : list bytes) (h : trace) (s : system) (a : service) : Prop :=
  sent h = relayed h ++ t_up a /\
  (exists coming, ann ++ queued h = arrived h ++ coming /\ t_down a = items (view (y_down s)) ++ coming) /\
  length (transmitted h) = (length (sent h) + t_lost_up a)%nat /\
  (length ann + length (offered h) = length (received h) + length (t_down a) + t_lost_down a)%nat /\
  t_tap a = tap_frames (p_tap s) /\ t_kernel a = p_kernel s /\ t_next a = next_request_id (y_requests s) /\
  t_answers a = y_answers s /\ calls_abstract h (t_calls a).

(** A step of both processes is a step of the service, or is not seen at all. *)
Definition simulated (iface : string) (ann : list bytes) (h e : trace) (s' : system) (a : service) : Prop :=
  exists a', (tunnel_step iface a (visible e) a' \/ visible e = [] /\ a' = a) /\ abstracts ann (h ++ e) s' a'.

Lemma sim_transmit iface mtu ann h s a f :
  abstracts ann h s a ->
  simulated iface ann h (Transmitted f :: if decide (0 < room (y_up s))%nat then [Sent f] else [])
    (put_device (tx_frame (device_of mtu s) f) s) a.
Proof.
  intros (A1 & A2 & A3 & A4 & A5 & A6 & A7 & A8 & A9).
  destruct (tx_frame_cases (device_of mtu s) f) as [_ Hrx]. cbn [dev_rx device_of device_new] in Hrx.
  case_decide; cbn [visible List.filter is_visible]; eexists; (split; [left; constructor|]);
    unfold abstracts, calls_abstract; cbn [y_down p_tap p_kernel y_requests y_answers put_device]; rewrite Hrx; traces;
    split_and!; try done; try apply A9; try (rewrite A1; by rewrite <- app_assoc);
    cbn [t_lost_up set_up]; rewrite !length_app; cbn [length]; lia.
Qed.

Lemma sim_receive iface mtu ann h s a f d :
  receive (device_of mtu s) = (Some f, d) -> abstracts ann h s a -> simulated iface ann h [Received f] (put_device d s) a.
Proof.
  intros Hd (A1 & (coming & A2 & A2') & A3 & A4 & A5 & A6 & A7 & A8 & A9).
  apply receive_turn in Hd as (Hi & _). cbn [dev_rx device_of device_new] in Hi. rewrite Hi in A2'.
  eexists. split; [left; by apply (spec_receive iface a f (items (view (dev_rx d)) ++ coming))|].
  rewrite A2' in A4. unfold abstracts, calls_abstract. cbn [y_down p_tap p_kernel y_requests y_answers put_device t_down set_down].
  traces. split_and!; try done; try apply A9; [by exists coming|].
  cbn [t_lost_down set_down]. rewrite !length_app in *. cbn [length] in *. lia.
Qed.

Lemma sim_tap iface ann h s a prof f c dropped :
  tap_reader_iter prof (Ok f) (p_frames s, p_dropped s) = Ret (Go (c, dropped)) -> abstracts ann h s a ->
  simulated iface ann h (Offered f :: if decide (0 < room (p_frames s))%nat then [Queued f] else [])
    (put_tap_reader c dropped s) a.
Proof.
  intros _ (A1 & (coming & A2 & A2') & A3 & A4 & A5 & A6 & A7 & A8 & A9).
  case_decide; cbn [visible List.filter is_visible];
    [exists (set_down (t_down a ++ [f]) (t_lost_down a) a)|exists (set_down (t_down a) (t_lost_down a + 1) a)];
    (split; [left; constructor|]); unfold abstracts, calls_abstract;
    cbn [y_down p_tap p_kernel y_requests y_answers put_tap_reader t_up t_down t_lost_up t_lost_down t_tap t_kernel
      t_next t_answers t_calls set_down]; traces;
    (split_and!; [done| |done| |done..|apply A9|apply A9]); try (rewrite !length_app; cbn [length]; lia).
  - exists (coming ++ [f]). by rewrite app_assoc, A2, A2', <- !app_assoc.
  - by exists coming.
Qed.

(** ** Calls *)

Lemma served_called mtu t0 h s :
  up_ok mtu t0 h s -> rpc_ok h s ->
  NoDup (cmd_id <$> (served h).*1) /\ (forall c, c ∈ (served h).*1 -> exists t, (t, c) ∈ registered h).
Proof.
  intros (qs & bs & cs & _ & _ & _ & Hc & _) (_ & R2 & _ & R4 & _).
  assert (Hn : NoDup (cmd_id <$> (called h).*2)).
  { assert (Hall : NoDup (cmd_id <$> (called h ++ (y_calling s).*1).*2)) by (rewrite R4, R2; apply NoDup_seqZ).
    rewrite !fmap_app in Hall. by apply list.NoDup_app in Hall as [Hall _]. }
  rewrite Hc in Hn. split; [rewrite fmap_app in Hn; by apply list.NoDup_app in Hn as [Hn _]|].
  intros c Hin. assert (Hin' : c ∈ (called h).*2) by (rewrite Hc; apply elem_of_app; by left).
  apply list_elem_of_fmap in Hin' as ([t c'] & -> & Hin'). exists t. rewrite <- R4. apply elem_of_app. by left.
Qed.

Lemma sim_register iface mtu t0 ann h s a cmd t msg rq :
  register_command cmd t (y_requests s) = (Ok msg, rq) -> Z.of_nat (length (registered h)) < 2 ^ 64 - 2 ->
  sys_inv mtu t0 ann h s -> abstracts ann h s a ->
  simulated iface ann h [Registered t (set_cmd_id cmd (next_request_id (y_requests s)))]
    (put_requests rq (y_calling s ++ [(t, set_cmd_id cmd (next_request_id (y_requests s)), msg)]) (y_control s) s) a.
Proof.
  intros Hreg Hn (Hup & Hdown & _ & Hrpc) (A1 & A2 & A3 & A4 & A5 & A6 & A7 & A8 & A9 & A10).
  destruct (served_called mtu t0 h s Hup Hrpc) as [_ Hs]. destruct Hrpc as (R1 & R2 & _).
  unfold register_command, fetch_add in Hreg. injection Hreg as _ <-.
  set (id := next_request_id (y_requests s)) in *. set (c := set_cmd_id cmd id).
  assert (Hc : cmd_id c = id) by by destruct cmd.
  pose proof (fun x => registered_bound h x R2) as Hb.
  eexists. split; [left; apply (spec_register iface a t c); by rewrite Hc, A7|].
  unfold abstracts. cbn [y_down p_tap p_kernel y_requests y_answers put_requests next_request_id
    t_up t_down t_lost_up t_lost_down t_tap t_kernel t_next t_answers t_calls set_calls].
  traces. split_and!; try done; [rewrite A7, wrap_small; [done|unfold fits; lia]|].
  unfold calls_abstract in *. traces. fold (registered h) in *. fold (served h) in *. fold (answered h) in *.
  rewrite A7. setoid_rewrite elem_of_app. setoid_rewrite list_elem_of_singleton.
  assert (Hfresh : id ∉ cmd_id <$> (served h).*1).
  { intros (c' & Hid & Hin)%list_elem_of_fmap. destruct (Hs c' Hin) as [t' Hr]. specialize (Hb _ Hr). cbn in Hb. lia. }
  split.
  - intros id' t' c'. rewrite lookup_insert_Some, A9. split; [naive_solver|].
    intros ([Hin|[= -> ->]] & Hid & Hno); [|left; by rewrite <- Hid, <- Hc].
    right. specialize (Hb _ Hin). cbn in Hb. split; [lia|done].
  - intros id' t' c' r. rewrite lookup_insert_Some, A10. split; [naive_solver|].
    intros ([Hin|[= -> ->]] & Hid & Hsv & Hno).
    + right. specialize (Hb _ Hin). cbn in Hb. split; [lia|done].
    + exfalso. apply Hfresh. rewrite <- Hc. apply list_elem_of_fmap. exists c. split; [done|].
      apply list_elem_of_fmap. by exists (c, r).
Qed.

(** A turn of the relay takes a frame or carries out a command. *)
Lemma relay_takes mtu t0 h s proc iface r :
  message_ready (rest (p_in s)) -> relay_reader_iter proc iface mtu (relay_of s) = Ret (Go r) ->
  rx_alive (view (p_responses s)) = true -> up_ok mtu t0 h s ->
  let e := relay_event proc iface (p_kernel s) (next_message (rest (p_in s))) in
  (exists f, e = [Relayed f] /\ tap_frames (rr_tap r) = tap_frames (p_tap s) ++ written_frames [f] /\
     rr_kernel r = p_kernel s) \/
  (exists c, e = [Served c (fst (handle_proxy_command proc c iface (p_kernel s)))] /\ rr_tap r = p_tap s /\
     rr_kernel r = snd (handle_proxy_command proc c iface (p_kernel s))).
Proof.
  intros Hready Hrun Ha (qs & bs & cs & H1 & H2 & _).
  destruct (ready_msg bs _ _ (inbound_short mtu qs bs H2) H1 Hready) as (b & bs' & tl & -> & Er & Et & ->).
  apply Forall2_cons_inv_r in H2 as (q & qs' & Hq & H2 & ->). destruct q as [f|c]; [left; exists f|right; exists c].
  - pose proof Hq as (_ & _ & ->).
    destruct (relay_frame_turn proc iface mtu f tl (relay_of s) r Hq Er Hrun) as (_ & Ht & _ & Hk). by split_and!.
  - pose proof Hq as (_ & _ & Hc).
    destruct (relay_command_turn proc iface mtu c b tl (relay_of s) r Hq Er Ha Hrun) as (_ & Ht & _ & Hk & _).
    split_and!; [by apply relay_event_command|done..].
Qed.

Lemma answered_served ann h s :
  down_ok ann h s -> rpc_ok h s ->
  resp_id <$> answered h `prefix_of` cmd_id <$> (served h).*1.
Proof.
  intros (ws & bs & fs & rs & _ & _ & _ & _ & _ & Hd & _) (_ & _ & _ & _ & R5 & _).
  assert (E : cmd_id <$> (served h).*1 = resp_id <$> (served h).*2).
  { clear Hd. induction R5 as [|[c r] l Hid _ IH]; cbn in *; congruence. }
  rewrite E, Hd, fmap_app. by eexists.
Qed.

(** The command is one that is waited for, and the call it belongs to is replied to. *)
Lemma calls_served mtu t0 ann h s s' calls t c r :
  sys_inv mtu t0 ann h s -> sys_inv mtu t0 ann (h ++ [Served c r]) s' ->
  (t, c) ∈ registered h -> calls_abstract h calls ->
  calls !! cmd_id c = Some (Waiting t c) /\
  calls_abstract (h ++ [Served c r]) (<[cmd_id c := Replied t c r]> calls).
Proof.
  intros (Hup & Hdown & _ & Hrpc) (Hup' & _ & _ & Hrpc') Hreg [C1 C2].
  destruct (served_called _ _ _ _ Hup' Hrpc') as [Hn _].
  assert (Hserved : served (h ++ [Served c r]) = served h ++ [(c, r)]) by by traces.
  rewrite Hserved, !fmap_app in Hn. apply list.NoDup_app in Hn as (_ & Hn & _).
  assert (Hnew : cmd_id c ∉ cmd_id <$> (served h).*1) by (intros Hin; apply (Hn _ Hin); constructor).
  assert (Hno : cmd_id c ∉ resp_id <$> answered h).
  { destruct (answered_served ann h s Hdown Hrpc) as [l El]. intros Hin. apply Hnew. rewrite El. apply elem_of_app. by left. }
  split; [by apply C1|]. unfold calls_abstract. rewrite Hserved. traces.
  fold (registered h) in *. fold (served h) in *. fold (answered h) in *. destruct Hrpc as (_ & R2 & _).
  assert (Huniq : forall t' c', (t', c') ∈ registered h -> cmd_id c' = cmd_id c -> t' = t /\ c' = c).
  { intros t' c' Hin Hid. by pose proof (registered_id h _ _ R2 Hin Hreg Hid) as [= -> ->]. }
  assert (Hold : forall c' r', (c', r') ∈ served h -> cmd_id c' <> cmd_id c).
  { intros c' r' Hin Hid. apply Hnew. rewrite <- Hid. apply list_elem_of_fmap. exists c'. split; [done|].
    apply list_elem_of_fmap. by exists (c', r'). }
  setoid_rewrite fmap_app. setoid_rewrite fmap_app. setoid_rewrite elem_of_app. cbn [fmap list_fmap fst].
  setoid_rewrite list_elem_of_singleton. split.
  - intros id t' c'. rewrite lookup_insert_Some, C1. naive_solver.
  - intros id t' c' r'. rewrite lookup_insert_Some, C2. split.
    + intros [[<- [= <- <- <-]]|(_ & H1 & H2 & H3 & H4)]; auto 10.
    + intros (H1 & <- & [H3|[= -> ->]] & H4); [right; split; [symmetry; by eapply Hold|done]|left].
      by destruct (Huniq _ _ H1 eq_refl) as [-> _].
Qed.

(** The response belongs to a call that was replied to with it, and the call returns it. *)
Lemma calls_replied mtu t0 ann h s s' calls r :
  sys_inv mtu t0 ann h s -> sys_inv mtu t0 ann (h ++ [Answered r]) s' -> calls_abstract h calls ->
  exists t c, calls !! resp_id r = Some (Replied t c r) /\ new_answer s r = [(t, r)] /\
    calls_abstract (h ++ [Answered r]) (delete (resp_id r) calls).
Proof.
  intros (Hup & Hdown & _ & Hrpc) (Hup' & Hdown' & _ & Hrpc') [C1 C2].
  assert (Hans : answered (h ++ [Answered r]) = answered h ++ [r]) by by traces.
  assert (Hserved : served (h ++ [Answered r]) = served h) by by traces.
  destruct (response_request mtu t0 h s r Hup Hrpc) as (t & c & Hreg & Hs & Hid).
  { destruct Hdown' as (ws & bs & fs & rs & _ & _ & _ & _ & _ & Hd & _). rewrite Hserved, Hans in Hd.
    rewrite Hd, !elem_of_app, list_elem_of_singleton. auto. }
  assert (Hno : resp_id r ∉ resp_id <$> answered h).
  { destruct (served_called _ _ _ _ Hup' Hrpc') as [Hn _]. destruct (answered_served _ _ _ Hdown' Hrpc') as [l El].
    rewrite El, Hans, fmap_app in Hn. apply list.NoDup_app in Hn as (Hn & _).
    apply list.NoDup_app in Hn as (_ & Hn & _). intros Hin. apply (Hn _ Hin). constructor. }
  exists t, c. rewrite (new_answer_request h s r t c Hrpc Hreg Hid), decide_False by done.
  split_and!; [by apply C2|done|]. unfold calls_abstract. rewrite Hans, Hserved. traces.
  fold (registered h) in *. destruct Hrpc as (_ & R2 & _ & _ & R5 & _). rewrite Forall_elem_of in R5.
  setoid_rewrite fmap_app. setoid_rewrite elem_of_app. cbn [fmap list_fmap].
  setoid_rewrite list_elem_of_singleton.
  assert (Hold : resp_id r ∈ cmd_id <$> (served h).*1).
  { rewrite Hid. apply list_elem_of_fmap. exists c. split; [done|]. apply list_elem_of_fmap. by exists (c, r). }
  split.
  - intros id t' c'. rewrite lookup_delete_Some, C1. split; [tauto|].
    intros (H1 & H2 & H3). split_and!; try done. by intros <-.
  - intros id t' c' r'. rewrite lookup_delete_Some, C2. split.
    + intros (Hne & H1 & H2 & H3 & H4). split_and!; try done. intros [?| ->]; [by apply H4|done].
    + intros (H1 & H2 & H3 & H4). split_and!; try done; [intros <-; apply H4; by right|intros ?; apply H4; by left].
Qed.

Lemma sim_relay iface mtu t0 ann h s a proc r :
  message_ready (rest (p_in s)) -> relay_reader_iter proc iface mtu (relay_of s) = Ret (Go r) ->
  let e := relay_event proc iface (p_kernel s) (next_message (rest (p_in s))) in
  sys_inv mtu t0 ann h s -> sys_inv mtu t0 ann (h ++ e) (put_relay r s) -> abstracts ann h s a ->
  simulated iface ann h e (put_relay r s) a.
Proof.
  intros Hready Hrun e Hinv Hinv' (A1 & A2 & A3 & A4 & A5 & A6 & A7 & A8 & A9).
  destruct Hinv as (Hup & Hdown & Hct & Hrpc).
  assert (Ha : rx_alive (view (p_responses s)) = true) by (by destruct Hdown as (? & ? & ? & ? & _ & _ & _ & _ & _ & _ & _ & _ & ? & _)).
  destruct (relay_takes mtu t0 h s proc iface r Hready Hrun Ha Hup) as [(f & E & Ht & Hk)|(c & E & Ht & Hk)];
    change (relay_event _ _ _ _) with e in E; rewrite E in *.
  - destruct Hinv' as ((qs & bs & cs & _ & _ & Hs & _) & _). revert Hs. traces.
    rewrite A1, <- !app_assoc. intros Hs%app_inv_head. cbn in Hs.
    eexists. split; [left; by apply (spec_relay iface a f (in_frames qs ++ items (view (y_up (put_relay r s)))))|].
    unfold abstracts, calls_abstract. traces. split_and!; try done; try apply A9.
    + by rewrite A1, Hs, <- app_assoc.
    + cbn. by rewrite A5.
    + cbn. by rewrite A6.
  - set (x := fst _) in *. assert (Hreg : exists t, (t, c) ∈ registered h).
    { destruct Hinv' as (Hup' & _ & _ & Hrpc'). destruct (served_called _ _ _ _ Hup' Hrpc') as [_ Hs].
      destruct (Hs c) as [t Hin]; [traces; apply list_elem_of_fmap; exists (c, x); split; [done|apply elem_of_app; right; constructor]|].
      exists t. revert Hin. by traces. }
    destruct Hreg as [t Hreg].
    destruct (calls_served mtu t0 ann h s _ (t_calls a) t c x (conj Hup (conj Hdown (conj Hct Hrpc))) Hinv' Hreg A9) as [Hw Hc].
    eexists. split; [left; apply (spec_serve iface a t c proc x (rr_kernel r) Hw)|].
    { rewrite A6, Hk. unfold x. apply surjective_pairing. }
    unfold abstracts. traces. split_and!; try done. cbn. by rewrite A5, Ht.
Qed.

Lemma sim_reader iface mtu t0 ann h s a r :
  message_ready (rest (y_in s)) -> ipc_reader_iter (reader_of s) = (true, r) ->
  let e := reader_event (next_message (rest (y_in s))) in
  sys_inv mtu t0 ann h s -> sys_inv mtu t0 ann (h ++ e) (put_reader r s) -> abstracts ann h s a ->
  simulated iface ann h e (put_reader r s) a.
Proof.
  intros Hready Hrun e Hinv Hinv' (A1 & (coming & A2 & A2') & A3 & A4 & A5 & A6 & A7 & A8 & A9).
  pose proof Hinv as (_ & (ws & bs & fs & rs & H1 & H2 & _) & _).
  destruct (ready_msg bs _ _ (encodes_short ws bs H2) H1 Hready) as (b & bs' & tl & -> & Er & Et & En).
  apply Forall2_cons_inv_r in H2 as (q & ws' & [Hl Hq] & H2 & ->). unfold e in *. rewrite En in *. clear e.
  destruct q as [f|p].
  - subst b. destruct (reader_frame_turn f tl (reader_of s) r Hl Er Hrun) as (_ & Hp & Hans & Hc).
    change (reader_event (encode_frame f)) with [Arrived f] in *. cbn [ir_frames ir_pending ir_answers reader_of] in Hc, Hp, Hans.
    destruct Hinv' as (_ & (ws2 & _ & fs2 & _ & _ & _ & Hs & _) & _). revert Hs. traces.
    rewrite A2, <- app_assoc. intros Hs%app_inv_head. cbn in Hs.
    destruct Hc as [[Hi _]|[Hi _]].
    + exists a. split; [by right|]. unfold abstracts, calls_abstract. traces. cbn [y_down put_reader p_tap p_kernel y_requests y_answers next_request_id].
      rewrite Hi, Hans. split_and!; try done; try apply A9. exists (frames_of ws2 ++ fs2).
      by rewrite A2, A2', Hs, <- !app_assoc.
    + eexists. split; [left; cbn [visible List.filter is_visible];
        apply (spec_drop iface a f (items (view (y_down s))) (frames_of ws2 ++ fs2)); by rewrite A2', Hs|].
      unfold abstracts, calls_abstract. traces. cbn [y_down put_reader p_tap p_kernel y_requests y_answers next_request_id t_down t_lost_down set_down].
      rewrite Hi, Hans. split_and!; try done; try apply A9; [exists (frames_of ws2 ++ fs2); split; [|done]|].
      * by rewrite A2, Hs, <- !app_assoc.
      * rewrite A2', Hs, !length_app in A4. cbn [length] in A4. rewrite !length_app in A4. rewrite !length_app. lia.
  - destruct (reader_response_turn p b tl (reader_of s) r Hq Hl Er Hrun) as (_ & Hf & _ & Hp & Hans).
    rewrite (reader_event_response p b Hq) in *.
    destruct (calls_replied mtu t0 ann h s _ (t_calls a) p Hinv Hinv' A9) as (t & c & Hr & Hnew & Hc).
    eexists. split; [left; by apply (spec_answer iface a t c p)|].
    unfold abstracts. traces. cbn [y_down put_reader p_tap p_kernel y_requests y_answers next_request_id t_answers set_calls].
    change (ir_answers r = y_answers s ++ new_answer s p) in Hans. rewrite Hf, Hans, Hnew, A8.
    split_and!; try done. by exists coming.
Qed.

(** Every step of both processes is simulated. *)
Lemma sim_step prof iface mtu t0 ann h s e s' a :
  Z.of_nat mtu + 1 < 2 ^ 32 -> sys_inv mtu t0 ann h s -> abstracts ann h s a ->
  sys_step prof iface mtu h s e s' -> simulated iface ann h e s' a.
Proof.
  intros Hmtu Hinv Habs Hstep. pose proof (sys_inv_step _ _ _ _ _ _ _ _ _ Hmtu Hinv Hstep) as Hinv'.
  destruct Hstep as [f Hf|f d Hd|cmd t msg rq Hreg Hfits Hn|l1 l2 t cmd msg c Hcalling Hsend|b w Hrun Hw Hb
    |d tl Hwire|proc r Hm Hrun Hs|f c dropped Hf Hrun|b w Hrun|d tl Hwire|r Hm Hrun].
  - by apply sim_transmit.
  - by apply (sim_receive _ mtu).
  - by apply (sim_register _ mtu t0).
  - exists a. split; [by right|]. unfold abstracts, calls_abstract in *. traces. exact Habs.
  - exists a. split; [by right|]. rewrite app_nil_r. exact Habs.
  - exists a. split; [by right|]. rewrite app_nil_r. exact Habs.
  - by apply (sim_relay _ mtu t0).
  - by apply (sim_tap _ _ _ _ _ prof).
  - exists a. split; [by right|]. rewrite app_nil_r. exact Habs.
  - exists a. split; [by right|]. rewrite app_nil_r. exact Habs.
  - by apply (sim_reader _ mtu t0).
Qed.

Lemma abstracts_init o po i pi tap k ann :
  abstracts ann [] (system_init o po i pi tap k) (tunnel_init ann (tap_frames tap) k).
Proof.
  assert (Hc : forall n, items (view (mpsc_channel (A:=bytes) n)) = []) by (intros; by rewrite channel_view).
  unfold abstracts, calls_abstract. cbn. rewrite Hc. split_and!; try done; try lia.
  - exists ann. by rewrite app_nil_r.
  - intros id t c. rewrite lookup_empty. split; [done|]. by intros [?%not_elem_of_nil _].
  - intros id t c r. rewrite lookup_empty. split; [done|]. by intros [?%not_elem_of_nil _].
Qed.

Lemma visible_app h1 h2 : visible (h1 ++ h2) = visible h1 ++ visible h2.
Proof. apply List.filter_app. Qed.

Lemma visible_keeps {T} (f : event -> option T) h :
  (forall e, is_visible e = false -> f e = None) -> omap f (visible h) = omap f h.
Proof.
  intros Hf. induction h as [|e h IH]; [done|]. specialize (Hf e). unfold visible in *.
  cbn [List.filter]. change (e :: h) with ([e] ++ h). rewrite omap_app, <- IH.
  destruct (is_visible e); cbn; [by destruct (f e)|by rewrite Hf].
Qed.

Lemma tunnel_simulates prof iface mtu o po i pi tap k ann h s :
  Z.of_nat mtu + 1 < 2 ^ 32 -> starts ann i pi -> sys_run prof iface mtu (system_init o po i pi tap k) h s ->
  sys_inv mtu tap ann h s /\
  exists a, tunnel_run iface (tunnel_init ann (tap_frames tap) k) (visible h) a /\ abstracts ann h s a.
Proof.
  intros Hmtu (S1 & S2 & S3) Hrun. pose proof (sys_inv_init mtu o po i pi tap k ann S1 S2 S3) as Hinit.
  split; [by eapply sys_inv_run|]. induction Hrun as [|h s e s' Hrun (a & Hspec & Habs) Hstep].
  - eexists. split; [constructor|apply abstracts_init].
  - pose proof (sys_inv_run _ _ _ _ _ _ _ _ Hmtu Hinit Hrun) as Hinv.
    destruct (sim_step _ _ _ _ _ _ _ _ _ _ Hmtu Hinv Habs Hstep) as (a' & Hor & Habs'). exists a'. split; [|done].
    rewrite visible_app. destruct Hor as [Hst|[-> ->]]; [by eapply spec_next|by rewrite app_nil_r].
Qed.

(** ** What the service guarantees of its calls *)

(** The commands carried out one after the other, each with its response. *)
Inductive carried_out (iface : string) (k : Kernel) : list (ProxyCommand * ProxyResponse) -> Kernel -> Prop :=
| carried_none : carried_out iface k [] k
| carried_next l k1 proc c r k2 : carried_out iface k l k1 -> handle_proxy_command proc c iface k1 = (r, k2) ->
    carried_out iface k (l ++ [(c, r)]) k2.

(** A command is carried out after it was called, and was not before; it is answered after
    it was carried out, with the response that gave, and was not before. *)
Definition in_order (h : trace) : Prop :=
  (forall h1 c r h2, h = h1 ++ Served c r :: h2 ->
     (exists t, (t, c) ∈ registered h1) /\ cmd_id c ∉ cmd_id <$> (served h1).*1) /\
  (forall h1 r h2, h = h1 ++ Answered r :: h2 ->
     (exists c, (c, r) ∈ served h1 /\ cmd_id c = resp_id r) /\ resp_id r ∉ resp_id <$> answered h1).

Definition service_inv (iface : string) (k : Kernel) (h : trace) (a : service) : Prop :=
  carried_out iface k (served h) (t_kernel a) /\ in_order h /\
  Forall (fun x => cmd_id x < t_next a) ((served h).*1) /\
  Forall (fun r => resp_id r < t_next a) (answered h) /\
  map_Forall (fun id x => id < t_next a /\ (id ∉ resp_id <$> answered h) /\
    match x with
    | Waiting t c => (t, c) ∈ registered h /\ cmd_id c = id /\ id ∉ cmd_id <$> (served h).*1
    | Replied t c r => (c, r) ∈ served h /\ cmd_id c = id
    end) (t_calls a).

Lemma snoc_split {T} (l l1 l2 : list T) (x y : T) :
  l ++ [x] = l1 ++ y :: l2 -> (l1 = l /\ y = x /\ l2 = []) \/ exists l2', l2 = l2' ++ [x] /\ l = l1 ++ y :: l2'.
Proof.
  destruct l2 as [|z l2 _] using rev_ind.
  - intros [-> [= ->]]%app_inj_tail. auto.
  - rewrite app_comm_cons, app_assoc. intros [-> ->]%app_inj_tail. eauto.
Qed.

Lemma in_order_snoc h e :
  in_order h ->
  match e with
  | Served c r => (exists t, (t, c) ∈ registered h) /\ cmd_id c ∉ cmd_id <$> (served h).*1
  | Answered r => (exists c, (c, r) ∈ served h /\ cmd_id c = resp_id r) /\ resp_id r ∉ resp_id <$> answered h
  | _ => True
  end -> in_order (h ++ [e]).
Proof.
  intros [O1 O2] He. split.
  - intros h1 c r h2 [(-> & <- & _)|(h2' & _ & E)]%snoc_split; [done|by eapply O1].
  - intros h1 r h2 [(-> & <- & _)|(h2' & _ & E)]%snoc_split; [done|by eapply O2].
Qed.

Lemma service_step iface k h a e a' :
  service_inv iface k h a -> tunnel_step iface a e a' -> service_inv iface k (h ++ e) a'.
Proof.
  intros (I1 & I2 & I3 & I4 & I5) Hstep.
  assert (Hsnoc : forall e0, match e0 with Served _ _ | Answered _ => False | _ => True end -> in_order (h ++ [e0]))
    by (intros [] He; by apply in_order_snoc).
  destruct Hstep as [f|f|f up _|f|f|f l1 l2 _|f down _|t c Hid|t c proc r k' Hw Hh|t c r Hw];
    rewrite ?app_nil_r; unfold service_inv; cbn [t_kernel t_next t_calls set_up set_down set_calls].
  1-7: traces; split_and!; try done; by apply Hsnoc.
  - traces. split_and!; try done; [by apply Hsnoc|eapply Forall_impl; [|done]; cbn; lia..|].
    fold (registered h) in *. fold (served h) in *. fold (answered h) in *. rewrite Forall_elem_of in I3. rewrite Forall_elem_of in I4.
    apply map_Forall_insert_2.
    + split_and!; [lia| |apply elem_of_app; right; constructor|done|].
      * intros (r & Hr & Hin)%list_elem_of_fmap. specialize (I4 _ Hin). cbn in I4. lia.
      * intros (c' & Hc & Hin)%list_elem_of_fmap. specialize (I3 _ Hin). cbn in I3. lia.
    + eapply map_Forall_impl; [done|]. intros id [t' c'|t' c' r'] (H1 & H2 & H3); cbn; (split; [lia|]); [|done].
      destruct H3 as (H3 & H4 & H5). split_and!; try done. apply elem_of_app. by left.
  - destruct (I5 _ _ Hw) as (H1 & H2 & H3 & _ & H4). rewrite Forall_elem_of in I3.
    assert (Hs : served (h ++ [Served c r]) = served h ++ [(c, r)]) by by traces.
    rewrite Hs. traces. fold (registered h) in *. fold (served h) in *. fold (answered h) in *. split_and!; try done.
    + by eapply carried_next.
    + apply in_order_snoc; [done|]. eauto.
    + rewrite fmap_app. apply Forall_app_2; [by apply Forall_elem_of|]. by constructor.
    + intros id x [[<- <-]|[Hne Hx]]%lookup_insert_Some.
      { split_and!; try done. apply elem_of_app. right. constructor. }
      destruct (I5 _ _ Hx) as (H1' & H2' & H3'). split_and!; try done. destruct x as [t' c'|t' c' r'].
      * destruct H3' as (H3' & H4' & H5'). split_and!; try done. rewrite !fmap_app, not_elem_of_app. split; [done|].
        cbn. by intros ->%list_elem_of_singleton.
      * destruct H3' as [H3' H4']. split; [|done]. apply elem_of_app. by left.
  - destruct (I5 _ _ Hw) as (H1 & H2 & H3 & H4).
    assert (Ha : answered (h ++ [Answered r]) = answered h ++ [r]) by by traces.
    rewrite Ha. traces. fold (registered h) in *. fold (served h) in *. fold (answered h) in *. split_and!; try done.
    + apply in_order_snoc; [done|]. eauto.
    + apply Forall_app_2; [done|]. by constructor.
    + intros id x [Hne Hx]%lookup_delete_Some. destruct (I5 _ _ Hx) as (H1' & H2' & H3'). split_and!; try done.
      rewrite fmap_app, not_elem_of_app. split; [done|]. cbn. by intros ->%list_elem_of_singleton.
Qed.

Lemma service_run iface k h ann tap a : tunnel_run iface (tunnel_init ann tap k) h a -> service_inv iface k h a.
Proof.
  induction 1 as [|h a e a' _ IH Hstep]; [|by eapply service_step].
  unfold service_inv, in_order. cbn. split_and!; [apply carried_none| | |by constructor..|apply map_Forall_empty];
    intros h1; intros; by destruct h1.
Qed.

(** ** Properties *)

(** C6: Both processes together implement the tunnel service.  Every run of their tasks,
    interleaved in any way, is a run of the service in which the same frames are taken and
    delivered and the same calls are made, carried out and answered, in the same order;
    at its end the TAP device, the routing tables and the answers given are those of the
    service, and what the service lost is what the counters of the processes say. *)
Theorem tunnel_refines (prof : profile) (iface : string) (mtu : nat) (o po : AWriter) (i pi : AReader)
  (tap : Tap) (k : Kernel) (ann : list bytes) (h : trace) (s : system)
  (Hmtu : Z.of_nat mtu + 1 < 2 ^ 32) (Hstart : starts ann i pi)
  (Hrun : sys_run prof iface mtu (system_init o po i pi tap k) h s) :
  exists a, tunnel_run iface (tunnel_init ann (tap_frames tap) k) (visible h) a /\
    t_tap a = tap_frames (p_tap s) /\ t_kernel a = p_kernel s /\ t_answers a = y_answers s /\
    advanced 0 (device_tx_dropped (y_stats s)) (t_lost_up a) /\
    exists at_proxy at_device, t_lost_down a = (at_proxy + at_device)%nat /\
      advanced 0 (p_dropped s) at_proxy /\ advanced 0 (ipc_rx_dropped (y_stats s)) at_device.
Proof.
  destruct (tunnel_simulates _ _ _ _ _ _ _ _ _ _ _ _ Hmtu Hstart Hrun)
    as ((_ & _ & (_ & _ & (n & N1 & N2) & (m & M1 & M2) & (q & Q1 & Q2) & _) & _) &
        a & Hspec & A1 & (coming & A2 & A2') & A3 & A4 & A5 & A6 & A7 & A8 & A9). exists a.
  split_and!; try done; [by replace (t_lost_up a) with n by lia|]. exists m, q. split_and!; try done.
  apply (f_equal length) in A2, A2'. rewrite !length_app in *. lia.
Qed.

(** C12: The proxy commands are carried out one at a time, each at a moment between its call
    and its answer, whatever the interleaving: the routing tables at the end are those that
    carrying out the served commands one by one gives; a command is carried out at most
    once, after it was called, and answered at most once, after that and with the response
    that gave. *)
Theorem commands_linearizable (prof : profile) (iface : string) (mtu : nat) (o po : AWriter) (i pi : AReader)
  (tap : Tap) (k : Kernel) (ann : list bytes) (h : trace) (s : system)
  (Hmtu : Z.of_nat mtu + 1 < 2 ^ 32) (Hstart : starts ann i pi)
  (Hrun : sys_run prof iface mtu (system_init o po i pi tap k) h s) :
  carried_out iface k (served (visible h)) (p_kernel s) /\ in_order (visible h) /\
  served (visible h) = served h /\ registered (visible h) = registered h /\ answered (visible h) = answered h.
Proof.
  destruct (tunnel_simulates _ _ _ _ _ _ _ _ _ _ _ _ Hmtu Hstart Hrun)
    as (_ & a & Hspec & A1 & A2 & A3 & A4 & A5 & <- & A7).
  destruct (service_run _ _ _ _ _ _ Hspec) as (I1 & I2 & _). split_and!; [done|done|apply visible_keeps..];
    by intros [].
Qed.

End TunnelSpec.

(** ** Witnesses: the run of [SystemSpec] *)

#[local] Existing Instances Reference.mpsc Reference.mpsc_laws ReferenceIo.io ReferenceIo.io_laws
  ReferencePipe.pipe ReferencePipe.pipe_laws ReferenceProxy.rtnetlink ReferenceProxy.tap
  ReferenceProxy.tap_laws response_serde response_serde_ok command_serde command_serde_ok.

Lemma tunnel_refines_witness :
  exists a, tunnel_run "tap0" (tunnel_init [] [] Demo.no_routes)
      [Transmitted [xaa]; Registered 7%nat (GetIfaceStats 1); Relayed [xaa];
       Served (GetIfaceStats 1) (RespIfaceStats 1 ∅); Offered [xbb]; Answered (RespIfaceStats 1 ∅); Received [xbb]] a /\
    t_tap a = [[xaa]] /\ t_answers a = [(7%nat, RespIfaceStats 1 ∅)].
Proof.
  destruct (tunnel_refines Debug "tap0" 1514 Demo.out Demo.out Demo.inp
    Demo.inp Demo.no_frames Demo.no_routes [] Demo.happened Demo.s13) as (a & Hrun & Ht & _ & Ha & _).
  - reflexivity.
  - exact demo_starts.
  - exact demo_run.
  - exists a. split; [exact Hrun|]. split; [rewrite Ht|rewrite Ha]; vm_compute; reflexivity.
Defined.

Lemma commands_linearizable_witness :
  carried_out "tap0" Demo.no_routes [(GetIfaceStats 1, RespIfaceStats 1 ∅)] (p_kernel Demo.s13) /\
  in_order (visible Demo.happened).
Proof.
  destruct (commands_linearizable Debug "tap0" 1514 Demo.out Demo.out Demo.inp
    Demo.inp Demo.no_frames Demo.no_routes [] Demo.happened Demo.s13) as (H1 & H2 & _).
  - reflexivity.
  - exact demo_starts.
  - exact demo_run.
  - split; [exact H1|exact H2].
Defined.
