(* ===== verification/ProxyCalls.v ===== *)
(** * Route and statistics calls ([src/lib.rs])

    [send_proxy_command] and the three methods of [Tunnel] built on it, and what their
    callers learn about the routing tables of the target namespace: along every run of
    [System] the proxy serves the requests one after another, and each caller gets the
    outcome of its own. *)

From S2P Require Import Prelude Net Stream Protocol AsyncIo Externals Stack StackPoll StackData.
From S2P Require Import Socket Device Text ProcNet Ipc IpcSpec Relay RelaySpec Path TapPath SerdeRef.
From S2P Require Import System SystemSpec.
#[local] Open Scope Z_scope.

Section ProxyCalls.
Context {M : Mpsc} {A : AsyncIo} {P : Pipe} {RT : Rtnetlink} {TD : TapDevice}
  {SR : Serde ProxyResponse} {SC : Serde ProxyCommand}.

(** ** [send_proxy_command] as a future

    It is suspended in the send on the control channel or in the receive from the oneshot
    channel.  The lock of the map is never poisoned: nothing panics while it is held. *)
Inductive send_state := SendStart (cmd : ProxyCommand) | Sending (msg : bytes) | Receiving.

Definition poll_sending (answer : oneshot ProxyResponse) (msg : bytes) (rq : requests) (ctl : chan bytes)
  : poll (result ProxyResponse) * send_state * requests * chan bytes :=
  match send_control msg ctl with
  | (Ready (Ok _), c) => (proxy_response answer, Receiving, rq, c)
  | (Ready (Err e), c) => (Ready (Err e), Sending msg, rq, c)
  | (Pending, c) => (Pending, Sending msg, rq, c)
  end.

Definition send_proxy_command (t : token) (answer : oneshot ProxyResponse) (st : send_state)
    (rq : requests) (ctl : chan bytes) : poll (result ProxyResponse) * send_state * requests * chan bytes :=
  match st with
  | SendStart cmd =>
      match register_command cmd t rq with
      | (Ok msg, rq') => poll_sending answer msg rq' ctl
      | (Err e, rq') => (Ready (Err e), SendStart cmd, rq', ctl)
      end
  | Sending msg => poll_sending answer msg rq ctl
  | Receiving => (proxy_response answer, Receiving, rq, ctl)
  end.

(** ** The methods

    Each awaits [send_proxy_command] ([send] is what its polls give) and reads the
    response. *)

Definition poll_map {X Y} (f : X -> Y) (p : poll X) : poll Y :=
  match p with Ready x => Ready (f x) | Pending => Pending end.

Definition add_peer_route (send : ProxyCommand -> poll (result ProxyResponse)) (dest : IpAddr) (prefix_len : Z)
  : poll (result unit) := poll_map route_result (send (AddRoute 0 dest prefix_len)).

Definition remove_peer_route (send : ProxyCommand -> poll (result ProxyResponse)) (dest : IpAddr) (prefix_len : Z)
  : poll (result unit) := poll_map route_result (send (RemoveRoute 0 dest prefix_len)).

Definition get_iface_stats (send : ProxyCommand -> poll (result ProxyResponse))
  : poll (result (gmap string InterfaceStats)) := poll_map stats_result (send (GetIfaceStats 0)).

(** A call of one of them. *)
Inductive proxy_call :=
| AddPeerRoute (dest : IpAddr) (prefix_len : Z)
| RemovePeerRoute (dest : IpAddr) (prefix_len : Z)
| GetInterfaceStats.

Inductive proxy_call_result :=
| RouteResult (r : result unit)
| StatsResult (r : result (gmap string InterfaceStats)).

Definition proxy_call_command (c : proxy_call) : ProxyCommand :=
  match c with
  | AddPeerRoute dest prefix_len => AddRoute 0 dest prefix_len
  | RemovePeerRoute dest prefix_len => RemoveRoute 0 dest prefix_len
  | GetInterfaceStats => GetIfaceStats 0
  end.

Definition proxy_call_run (send : ProxyCommand -> poll (result ProxyResponse)) (c : proxy_call)
  : poll proxy_call_result :=
  match c with
  | AddPeerRoute dest prefix_len => poll_map RouteResult (add_peer_route send dest prefix_len)
  | RemovePeerRoute dest prefix_len => poll_map RouteResult (remove_peer_route send dest prefix_len)
  | GetInterfaceStats => poll_map StatsResult (get_iface_stats send)
  end.

(** ** Specification *)

(** What the call does in the namespace when it is served with the routing tables [k] and
    the contents [proc] of [/proc/net/dev], and what the caller is told. *)
Definition told {X} (r : result X) : result X :=
  match r with Ok x => Ok x | Err e => Err (IoError OtherError (emsg e)) end.

Definition proxy_call_spec (proc : result text) (iface : string) (c : proxy_call) (k : Kernel) : proxy_call_result :=
  match c with
  | AddPeerRoute dest prefix_len => RouteResult (told (fst (add_route iface dest prefix_len k)))
  | RemovePeerRoute dest prefix_len => RouteResult (told (fst (remove_route iface dest prefix_len k)))
  | GetInterfaceStats => StatsResult (told (read_proc_net_dev proc))
  end.

Lemma told_unit (r : result unit) :
  told r = match r with Ok _ => Ok () | Err e => Err (IoError OtherError (emsg e)) end.
Proof. by destruct r as [[]|]. Qed.

Lemma proxy_call_served proc iface c id k send :
  send (proxy_call_command c) =
    Ready (Ok (fst (handle_proxy_command proc (set_cmd_id (proxy_call_command c) id) iface k))) ->
  proxy_call_run send c = Ready (proxy_call_spec proc iface c k).
Proof.
  destruct c as [dest p|dest p|]; cbn; unfold add_peer_route, remove_peer_route, get_iface_stats; intros ->; cbn.
  - rewrite told_unit. by destruct (add_route iface dest p k) as [[] ?].
  - rewrite told_unit. by destruct (remove_route iface dest p k) as [[] ?].
  - by destruct (read_proc_net_dev proc).
Qed.

(** The requests [l] served one after another from the tables [k] leave [k'], each
    answered with what it was told. *)
Fixpoint replay (iface : string) (k : Kernel) (l : list (ProxyCommand * ProxyResponse)) (k' : Kernel) : Prop :=
  match l with
  | [] => k' = k
  | (c, r) :: l' =>
      exists proc, r = fst (handle_proxy_command proc c iface k) /\
        replay iface (snd (handle_proxy_command proc c iface k)) l' k'
  end.

Lemma replay_snoc iface k l k' proc c :
  replay iface k l k' ->
  replay iface k (l ++ [(c, fst (handle_proxy_command proc c iface k'))]) (snd (handle_proxy_command proc c iface k')).
Proof.
  revert k. induction l as [|[c0 r0] l IH]; intros k; cbn.
  - intros ->. by exists proc.
  - intros (proc0 & -> & H). exists proc0. split; [done|]. by apply IH.
Qed.

Lemma replay_split iface k l1 l2 k' c r :
  replay iface k (l1 ++ (c, r) :: l2) k' ->
  exists proc k1, replay iface k l1 k1 /\ r = fst (handle_proxy_command proc c iface k1).
Proof.
  revert k. induction l1 as [|[c0 r0] l1 IH]; intros k; cbn.
  - intros (proc & -> & _). by exists proc, k.
  - intros (proc & -> & H). destruct (IH _ H) as (proc' & k1 & H1 & ->). exists proc', k1. eauto.
Qed.

Context {ML : MpscLaws} {AL : AsyncIoLaws} {PL : PipeLaws} {TL : TapLaws}
  {SRok : SerdeOk ProxyResponse} {SCok : SerdeOk ProxyCommand}.

(** The routing tables along a run. *)
Lemma replay_step prof iface mtu t0 k0 h s e s' :
  rx_alive (view (p_responses s)) = true -> up_ok mtu t0 h s -> sys_step prof iface mtu h s e s' ->
  replay iface k0 (served h) (p_kernel s) -> replay iface k0 (served (h ++ e)) (p_kernel s').
Proof.
  intros Ha (qs & bs & cs & U1 & U2 & _) Hstep Hr.
  destruct Hstep as [f _|f d _|cmd t msg rq _ _ _|l1 l2 t cmd msg c _ _|b w _ _ _
    |d tl _|proc r Hm Hrun _|f c dropped _ _|b w _|d tl _|r _ _].
  7:{ destruct (ready_msg bs _ _ (inbound_short mtu qs bs U2) U1 Hm) as (b & bs' & tl & -> & Er & _ & ->).
      apply Forall2_cons_inv_r in U2 as (q & qs' & Hq & _ & _). cbn [p_kernel put_relay]. destruct q as [f|c].
      - pose proof Hq as (_ & _ & ->).
        destruct (relay_frame_turn proc iface mtu f tl (relay_of s) r Hq Er Hrun) as (_ & _ & _ & ->).
        rewrite relay_event_frame. traces. exact Hr.
      - pose proof Hq as (_ & _ & Hc).
        destruct (relay_command_turn proc iface mtu c b tl (relay_of s) r Hq Er Ha Hrun) as (_ & _ & _ & -> & _).
        rewrite (relay_event_command proc iface (p_kernel s) c b Hc). traces. by apply replay_snoc. }
  10:{ destruct (reader_event_cases (next_message (rest (y_in s)))) as [(f & ->)|[(c & ->)| ->]];
         traces; exact Hr. }
  all: try case_decide; traces; exact Hr.
Qed.

Lemma replay_run prof iface mtu o po i pi tap k ann h s :
  Z.of_nat mtu + 1 < 2 ^ 32 -> starts ann i pi -> sys_run prof iface mtu (system_init o po i pi tap k) h s ->
  sys_inv mtu tap ann h s /\ replay iface k (served h) (p_kernel s).
Proof.
  intros Hmtu (S1 & S2 & S3) Hrun. pose proof (sys_inv_init mtu o po i pi tap k ann S1 S2 S3) as H0.
  induction Hrun as [|h s e s' _ [IH1 IH2] Hstep]; [by split|]. split; [by eapply sys_inv_step|].
  pose proof IH1 as (Hup & (? & ? & ? & ? & _ & _ & _ & _ & _ & _ & _ & _ & Ha & _) & _). by eapply replay_step.
Qed.

(** ** Properties *)

(** C11: What the callers of [add_peer_route], [remove_peer_route] and [get_iface_stats]
    learn.  Along every run the routing tables of the namespace are those the served
    requests leave, one after another; and a caller that was answered is told what its own
    request did there, in the tables the requests before it had left: a value of the type
    its method returns, or the error of the namespace, never "unexpected response". *)
Theorem proxy_calls_told (prof : profile) (iface : string) (mtu : nat) (o po : AWriter) (i pi : AReader)
  (tap : Tap) (k : Kernel) (ann : list bytes) (h : trace) (s : system)
  (Hmtu : Z.of_nat mtu + 1 < 2 ^ 32) (Hstart : starts ann i pi)
  (Hrun : sys_run prof iface mtu (system_init o po i pi tap k) h s) :
  replay iface k (served h) (p_kernel s) /\
  forall t call id r,
    (t, set_cmd_id (proxy_call_command call) id) ∈ registered h -> (t, r) ∈ y_answers s -> resp_id r = id ->
    exists l1 l2 proc k1, served h = l1 ++ (set_cmd_id (proxy_call_command call) id, r) :: l2 /\
      replay iface k l1 k1 /\
      forall send, send (proxy_call_command call) = Ready (Ok r) ->
        proxy_call_run send call = Ready (proxy_call_spec proc iface call k1).
Proof.
  destruct (replay_run prof iface mtu o po i pi tap k ann h s Hmtu Hstart Hrun) as [(_ & _ & _ & Hrpc) Hrep].
  split; [done|]. intros t call id r Hreg Hans Hid.
  destruct Hrpc as (_ & R2 & _ & _ & R5 & _ & R7 & _). destruct (R7 t r Hans) as (_ & c & Hc & Hs).
  rewrite Forall_elem_of in R5. pose proof (R5 _ Hs) as Hrc. cbn in Hrc.
  assert (E : (t, c) = (t, set_cmd_id (proxy_call_command call) id)).
  { apply (registered_id h _ _ R2 Hc Hreg). cbn. rewrite <- Hrc, Hid. by destruct call. }
  injection E as ->. apply list_elem_of_split in Hs as (l1 & l2 & El). rewrite El in Hrep.
  destruct (replay_split _ _ _ _ _ _ _ Hrep) as (proc & k1 & H1 & ->).
  exists l1, l2, proc, k1. split_and!; [done|done|]. intros send. apply proxy_call_served.
Qed.

End ProxyCalls.

(** ** Witness *)

#[local] Existing Instances Reference.mpsc Reference.mpsc_laws ReferenceIo.io ReferenceIo.io_laws
  ReferencePipe.pipe ReferencePipe.pipe_laws ReferenceProxy.rtnetlink ReferenceProxy.tap
  ReferenceProxy.tap_laws response_serde response_serde_ok command_serde command_serde_ok.

Lemma proxy_calls_told_witness :
  p_kernel Demo.s13 = ([] : list RouteMessage) /\
  exists proc k1, proxy_call_run (fun _ => Ready (Ok (RespIfaceStats 1 ∅))) GetInterfaceStats =
    Ready (proxy_call_spec proc "tap0" GetInterfaceStats k1).
Proof.
  destruct (proxy_calls_told Debug "tap0" 1514 Demo.out Demo.out Demo.inp Demo.inp Demo.no_frames Demo.no_routes []
    Demo.happened Demo.s13) as [_ Hcall].
  - reflexivity.
  - exact demo_starts.
  - exact demo_run.
  - split; [vm_compute; reflexivity|].
    destruct (Hcall 7%nat GetInterfaceStats 1 (RespIfaceStats 1 ∅)) as (l1 & l2 & proc & k1 & _ & _ & H).
    + apply list_elem_of_singleton. reflexivity.
    + assert (E : y_answers Demo.s13 = [(7%nat, RespIfaceStats 1 ∅)]) by (vm_compute; reflexivity).
      rewrite E. apply list_elem_of_singleton. reflexivity.
    + reflexivity.
    + exists proc, k1. apply H. reflexivity.
Defined.
