(* ===== verification/ProxyEnd.v ===== *)
(** * The proxy after the library is gone

    The library's end of the connection closes at any moment, with the stream cut anywhere.
    What is left of the system are the three tasks of [run_frame_relay], which go on in any
    interleaving, each with any outcome of its reads and writes, until the first of them
    ends and the [select!] over their handles ends the process. *)

From S2P Require Import Prelude Net Stream Protocol AsyncIo Externals Stack StackPoll StackData.
From S2P Require Import Socket Device Text ProcNet Ipc IpcSpec Relay RelaySpec Path TapPath SerdeRef.
From S2P Require Import System SystemSpec SystemLive SystemEnd ProxyCalls.
#[local] Open Scope Z_scope.

Section ProxyEnd.
Context {M : Mpsc} {ML : MpscLaws} {A : AsyncIo} {AL : AsyncIoLaws} {P : Pipe} {PL : PipeLaws}
  {RT : Rtnetlink} {TD : TapDevice} {TL : TapLaws} {SR : Serde ProxyResponse}
  {SRok : SerdeOk ProxyResponse} {SC : Serde ProxyCommand} {SCok : SerdeOk ProxyCommand}.

(** ** Turns *)






(** ** One message *)







(** ** The invariant *)

Section Inv.
Context (iface : string) (mtu : nat) (k0 : Kernel) (t0 : Tap) (h0 : trace) (qs : list inbound) (part : bytes)
  (total : nat) (Hcut : incomplete part)
  (Hfit : (4 <= length part)%nat -> (Z.to_nat (be_val (take 4 part)) <= mtu + 16)%nat).














End Inv.


(** ** Properties *)


End ProxyEnd.

(** ** Witness: the run of [SystemSpec], ended before its messages are read *)

#[local] Existing Instances Reference.mpsc Reference.mpsc_laws ReferenceIo.io ReferenceIo.io_laws
  ReferencePipe.pipe ReferencePipe.pipe_laws ReferenceProxy.rtnetlink ReferenceProxy.tap
  ReferenceProxy.tap_laws response_serde response_serde_ok command_serde command_serde_ok.



